(* ===== verification/_CoqProject ===== *)
-Q . S2P
Prelude.v
GoStrings.v
GoStringsFacts.v
GoTime.v
GoDuration.v
Sha256.v
Model.v
StateMachine.v
Store.v
Service.v
MemoryStore.v
MemoryInvariant.v
MemoryLaws.v
OutboxLease.v
MemoryQueries.v
Webhook.v
RateLimit.v
Topology.v
Amqp.v
Consumer.v
Relay.v
Dlq.v
TraceHeaders.v
Handlers.v
Providers.v
Workers.v
Saga.v
Database.v
PgStore.v
PgAtomic.v
PgStock.v
PgOrders.v
PgOutbox.v
PgSamples.v
PgSchema.v
PgReplay.v
Metrics.v
Telemetry.v
Api.v
ApiFacts.v
ApiSamples.v
RequestLog.v
Settings.v
ApiProcess.v
Connections.v
Migrations.v
RelayProcess.v
WorkerProcess.v
PgWorkers.v
DlqProcess.v
Transactions.v
Interleaving.v
Discipline.v
SerialRuns.v
Concurrency.v
ConcurrencySamples.v
OrderBook.v
BookMemory.v
BookPg.v
StoresAgree.v
Tracing.v
Spans.v
PgSpans.v
MessageSpans.v
WorkerSpans.v
PgTotal.v
PgSaga.v
Pipeline.v
Cancellation.v
PipelineSamples.v
