(* ===== verification/Prelude.v ===== *)
(** * FulfillHub: a verification development of the commerce platform

    FulfillHub accepts orders from merchants over HTTP and fulfils them
    asynchronously.  The application service validates a request and stores the
    order, one domain event and one audit entry in a single transaction; a
    relay moves the events of that outbox to RabbitMQ; one worker per queue
    handles an event, records its result in the store and appends the next
    event.  Around this core are webhook verification, rate limiting, retries,
    dead-letter queues and their replay, and five commands: the API, the worker,
    the relay, the migration runner and the dead-letter replay.

    ** Files and the sources they model (paths under [src/])

    - [Prelude]: machine integers, the error values and the state-and-error
      monad [M] shared by all components, generic lemmas, the [hub] hint
      database and the tactics.
    - [GoStrings], [GoStringsFacts], [GoTime], [GoDuration]: the parts of Go's
      [strings], [strconv], [encoding/hex], [fmt] and [time] the sources call.
    - [Sha256]: SHA-256 and HMAC, executable, with published test vectors.
    - [Model]: [internal/commerce/model.go], the domain records and the event
      envelope.
    - [StateMachine]: [internal/commerce/state_machine.go], the transition
      check and the life cycle graph as an inductive relation.
    - [Store]: the Go interface [commerce.Store] as the class [Store], and the
      laws [StoreLaws] its clients rely on.
    - [Service]: [internal/commerce/service.go] over any [Store]; its theorems
      are proved against [StoreLaws].
    - [MemoryStore]: the in-memory store of [internal/commerce/store.go].
      [MemoryInvariant] (operations as data, the invariant), [MemoryLaws] (the
      [StoreLaws] instance and properties of runs), [OutboxLease] (claims of
      outbox events) and [MemoryQueries] (compensation, queries, a concrete
      store for the witnesses) hold its theory.
    - [Webhook]: [internal/providers/webhook.go].
    - [RateLimit]: [internal/ratelimit].
    - [Topology]: [internal/messaging/topology.go] and [DeclareTopology].
    - [Amqp]: message building, decoding and publisher confirms of
      [internal/messaging/rabbitmq.go], [rabbitmq_consumer.go], [consumer.go];
      [TraceHeaders]: the trace context in their headers.
    - [Consumer]: [ProcessDelivery] and the inboxes
      ([internal/messaging/consumer.go], [inbox.go]).
    - [Relay]: [internal/messaging/relay.go].
    - [Dlq]: [internal/messaging/dlq.go], the settings and the audit entry of
      [cmd/fulfillhub-dlq-replay]; [DlqProcess]: that command as a whole.
    - [Handlers]: [internal/fulfillment/handlers.go]; [Providers]:
      [provider_adapters.go] and [internal/providers]; [Workers]: event
      identity and causal descent; [Saga]: the agreement of handlers and queue
      bindings, and three behaviours of the handlers shown on the in-memory store.
    - [Database]: the tables and constraints of
      [internal/postgres/migrations/*.sql] and the connection; [PgStore]:
      [internal/postgres/store.go], every operation statement by statement.
      [PgAtomic] (failures and atomicity, the tactics that follow a
      transaction), [PgStock] (stock), [PgOrders] (orders), [PgOutbox] (outbox
      and inbox), [PgSchema] (the constraints the operations stay within) and
      [PgReplay] (idempotent submission) hold its theory, [PgSamples] a concrete server.
    - [Transactions]: the same operations as programs of statements, with the
      rows each writes and locks; [Interleaving]: connections that run such
      programs at the same time; [Discipline] (every program locks what it
      relies on), [SerialRuns] (a program run alone is the operation of
      [PgStore]) and [Concurrency] (what holds in every interleaving) are its
      theory, [ConcurrencySamples] concrete interleavings.
    - [OrderBook]: an abstract order book that both stores implement
      ([internal/commerce/store.go], [internal/postgres/store.go]);
      [BookMemory] and [BookPg] prove that they do, [StoresAgree] compares them.
    - [Metrics]: the metrics page of [internal/api/server.go]; [Telemetry]: its
      status recorder, request log and request span; [Api]: the rest of the HTTP
      API; [ApiFacts] and [RequestLog] their theory, [ApiSamples] a concrete
      server.
    - [Settings]: the settings of the commands and of tracing, the start of
      [cmd/fulfillhub-api]; [ApiProcess]: how that process serves and ends.
    - [Connections]: dialling, closing and queue inspection of
      [internal/messaging] and connecting with retries.
    - [Migrations]: [internal/postgres/migrations.go] and
      [cmd/fulfillhub-migrate].
    - [RelayProcess], [WorkerProcess]: [cmd/fulfillhub-outbox-relay] and
      [cmd/fulfillhub-worker] over the PostgreSQL store; [PgWorkers]: what one
      run of a handler so wired may do, with a connection that may fail.
    - [Tracing]: [ConfigureTracing] of [internal/observability/tracing.go] and
      the library's globals it sets.  [Spans]: the log of the calls to the
      tracing library and the rules to follow it; [PgSpans] and [MessageSpans]:
      the spans of [internal/postgres/store.go] and of the relay, the publisher
      and the consumer of [internal/messaging]; [WorkerSpans]: the worker and the
      relay wired with them.
    - [PgTotal]: when the operations of the PostgreSQL store succeed and what
      exactly they leave; [PgSaga]: the same for the handlers over it;
      [Pipeline]: relay, broker and workers at work together on an accepted order,
      [Cancellation]: on an accepted cancel request; [PipelineSamples] a concrete
      system.

    ** How state and effects are represented

    An operation is a function [S -> result A * S] ([M S A]); an error is a
    value of [error] that keeps wrapped sentinels apart, as [errors.Is] does.
    A method that holds a mutex from its first to its last line is one atomic
    step, so an interleaving of clients is a sequence of steps ([StoreOp] and
    [run_ops] for the in-memory store).  Readings of the clock and of the
    entropy source are arguments or come from an environment that holds one
    reading per call.  Go's [int] and [int64] are [Z] with the wrap-around
    written out ([wrap64]).  Interfaces of the source are classes or records
    of operations; code outside the repository (the AMQP client, Redis, the
    JSON codec) is a parameter with its documented behaviour as laws.

    The PostgreSQL store runs on a connection whose every call may fail, before
    or after the server carried it out ([pg_fault]).  A statement is a function
    on the tables; a transaction is one step that leaves all of its writes or
    none, and in [PgStore] transactions run one after another.  The order of
    rows a statement leaves open, the clock of the server and the JSON codec are
    parameters ([PgEnv], [PgOrdering]).  An HTTP handler either has written its
    response or goes on; a request is one step of the server.  What a command
    asks of the outside while it starts is a record of outcomes; what a loop of a
    command waits for ([select]) is given by the sequence of its wake-ups.

    In [Interleaving] any number of transactions are under way, and a step is
    one statement, a commit or an abort of one of them (READ COMMITTED, the
    server's default, which the store uses).  A statement sees the committed
    rows and its own transaction's writes, and runs only when the rows and index
    entries it locks are free; it waits by not being chosen.  Locks are
    exclusive and held to the end.  The shared locks of foreign key checks are
    left out, so more interleavings are covered than the server allows; a
    deadlock victim or a lost connection is an abort.  What a transaction reads
    without a lock is an argument of it, right when it is read and possibly not
    when it commits.  Rows of the tables kept as lists are appended in the order
    of the commits.

    ** What the theorems show

    - Orders: an accepted request stores the order, its event and its audit
      entry together; a resubmission is a replay; totals are exact unless the
      64-bit sum overflows; validation accepts exactly the valid requests;
      cancellation is described on every branch.
    - Life cycle: the transition check accepts exactly the edges of the graph;
      whole histories follow it; terminal statuses absorb; cancellation is one
      way.
    - Store: operations are atomic, keep the invariant, respect the life cycle
      and only append to outbox and audit log; claims of outbox events exclude
      each other; claims and counts are exact.
    - The system: while nothing else waits and no call fails, an order the
      PostgreSQL store accepted is taken through relay, broker, inbox and handlers
      to [completed] in five rounds, with stock, payment, shipment and e-mail; a
      cancel request it accepted is resolved in two, to [cancelled] with
      everything given back, or to manual review when a booking exists; nothing is
      left waiting.
    - Workers: over the PostgreSQL store with failing calls, a run is at most one
      store operation, that of its queue on the order of its event, also when its
      error hides a commit whose confirmation was lost; handlers and queue bindings
      agree.
    - Messaging: deliveries are settled once, handled at most once, retried
      within the bound; events survive publishing, retrying and decoding;
      their trace context survives retries and replays; the relay marks what it
      sent, in order; the replay of dead letters, over a channel whose calls may
      all fail, acknowledges a message only after its confirm; every event of the
      catalogue is routable.
    - PostgreSQL store: an operation is all or nothing wherever a call fails, and
      after an error the database is as before or, when a confirmation was lost, as
      after the whole operation; the stock of every inventory row and the life
      cycle of every order are kept over any run of operations; an order is read
      back as it was written and its resubmission is a replay; a claimed event is
      not claimed again before its lease ends.
    - Concurrency: whatever interleaving ran, the committed database is reached by
      the committed transactions in the order of their commits, each with the effect
      its operation of [PgStore] has alone, but for what the code reads without a
      lock, which is spelled out (a payment failure may write back an old provider:
      [provider_overwritten]); so the life cycle, the stock and one order per
      idempotency key hold under concurrency, and relays never share a claimed
      event.
    - Refinement: both stores, and any interleaving of PostgreSQL transactions,
      do what one abstract order book does; calls that PostgreSQL accepts give
      the same book on the in-memory store.
    - HTTP API: tenants are isolated, requests without credentials are inert,
      operator rights are exactly those of a valid token, submissions and
      cancellations are described on every branch; every request is logged and
      traced once, without its credentials; the metrics page can be scraped
      back.
    - Commands: an API process that started is guarded, and a signal stops it in
      order; migrations resume where
      they stopped, also after a lost answer; connecting with retries ends and leaks nothing; the relay
      process drains the outbox; the worker process settles every delivery it
      takes; the replay command makes exactly the calls described and is audited.
    - Tracing: the spans of a delivery, of a relay batch and of every store
      operation change no result (for the relay: with any broker that ignores the
      trace headers its publisher injects), are well nested, end once each, and carry an
      error status exactly when their call failed; a message joins the trace of
      the request that caused it.
    - Providers and limits: the verifier accepts exactly authentic, fresh
      webhooks, once; signed webhooks verify; both limiters spend exactly their
      budget per window.

    The interfaces between components are [StoreLaws] (what the service needs of
    a store, met by the in-memory store), [OutboxLaws] and [Accepting] (what the
    relay process needs of its source and its broker, met by the PostgreSQL
    store), [BookImpl] (an implementation of the order book, met by both stores;
    [impl_history] is proved against it), [PgOrdering] (what the store needs of
    the server), [JsonCodec] (what events need of JSON and [JSONB]) and
    [TracePropagator] (what the messages need of the tracing library).

    ** Fuel

    Loops over data are structural.  Where fuel appears it is provided by the
    definition itself and shown or seen to be enough: the dead-letter replay runs
    [Limit] rounds, since each round returns or counts one message; trimming runs
    for the length of the text, since each round drops a byte; the fraction of a
    printed time has nine digits; SHA-256 runs for the length of the padded
    message, one block of it per round; parsing a duration runs for the length of
    its text ([parse_terms_fuel]); connecting with retries makes at most 31
    attempts, two seconds apart within a minute, and is proved to return.  The
    loop of the relay process runs until it is told to stop, so its fuel is an
    argument; the theorem about it gives a bound that suffices.

    ** What is not modelled

    The tracing library behind its calls (providers, exporters, sampling); how
    [net/http] listens, serves and drains; the wire protocols of the AMQP, Redis
    and PostgreSQL clients; JSON encoding; the detection of
    deadlocks; what the migration files do to existing data.  [Pipeline] and
    [Cancellation] follow one order while nothing else is waiting, with a broker
    that takes, confirms and keeps every message and routes it by the declared
    bindings ([broker_publish], an assumption on RabbitMQ); the interleaving of
    orders is the subject of [Concurrency], failing brokers of [Relay], [Consumer],
    [WorkerProcess] and [Dlq].  [quote] keeps what Go escapes of invalid UTF-8 and
    of unprintable text outside ASCII. *)
From stdpp Require Export base gmap strings list pretty.
From Stdlib Require Export ZArith Lia.
From Stdlib Require Ascii.
Export (notations) Stdlib.Strings.Ascii.

#[export] Set Default Goal Selector "!".

Open Scope Z_scope.

(** ** Machine integers

    Go's [int] and [int64] on the deployed 64-bit targets: a value is a [Z] in
    [[-2^63, 2^63)] and every arithmetic operation of the source that can leave
    the range is followed by [wrap64]. *)

Definition int64_min : Z := - 2 ^ 63.

Definition int64_max : Z := 2 ^ 63 - 1.

Definition wrap64 (z : Z) : Z := (z + 2 ^ 63) mod 2 ^ 64 - 2 ^ 63.

Definition in_int64 (z : Z) : Prop := int64_min <= z <= int64_max.

Lemma wrap64_id z : in_int64 z -> wrap64 z = z.
Proof.
  unfold in_int64, int64_min, int64_max, wrap64. intros.
  rewrite Z.mod_small; lia.
Qed.

Lemma wrap64_add_l a b : wrap64 (wrap64 a + b) = wrap64 (a + b).
Proof.
  unfold wrap64. f_equal. replace ((a + 2 ^ 63) mod 2 ^ 64 - 2 ^ 63 + b + 2 ^ 63)
    with ((a + 2 ^ 63) mod 2 ^ 64 + b) by ring.
  rewrite Zplus_mod_idemp_l. f_equal. ring.
Qed.

Lemma wrap64_idem a : wrap64 (wrap64 a) = wrap64 a.
Proof. rewrite <- (Z.add_0_r (wrap64 a)) at 1. by rewrite wrap64_add_l, Z.add_0_r. Qed.

Lemma wrap64_range z : in_int64 (wrap64 z).
Proof.
  unfold in_int64, int64_min, int64_max, wrap64.
  pose proof (Z.mod_pos_bound (z + 2 ^ 63) (2 ^ 64) ltac:(lia)). lia.
Qed.

Lemma wrap64_congr z : wrap64 z mod 2 ^ 64 = z mod 2 ^ 64.
Proof.
  unfold wrap64. rewrite Zminus_mod, Zmod_mod, <- Zminus_mod. f_equal. lia.
Qed.

(** ** Errors

    The values of Go's [error] interface the sources build.  [Sentinel] is a
    package-level [errors.New] variable (its text identifies it: the texts are
    distinct), [Text] an error made on the spot by [errors.New] or by
    [fmt.Errorf] without [%w], [Wrap pre e post] a [fmt.Errorf] whose text is
    [pre], the text of the [%w] operand, then [post], [Join] an [errors.Join]
    of its non-nil operands, [Validation] the struct
    [commerce.ValidationError], and [PgError code text] an error the PostgreSQL
    server reported with its SQLSTATE code. *)
Inductive error : Type :=
| Sentinel (text : string)
| Text (text : string)
| Wrap (pre : string) (e : error) (post : string)
| Join (errs : list error)
| Validation (fields : list (string * string))
| PgError (code text : string).

(** [strings.Join] of the texts, the separator an [errors.Join] prints. *)
Fixpoint join_with (sep : string) (parts : list string) : string :=
  match parts with
  | [] => ""
  | [p] => p
  | p :: rest => p +:+ sep +:+ join_with sep rest
  end.

Definition newline : string := String (Ascii.ascii_of_nat 10) "".

(** The method [Error()]. *)
Fixpoint error_text (e : error) : string :=
  match e with
  | Sentinel t | Text t | PgError _ t => t
  | Wrap pre e post => pre +:+ error_text e +:+ post
  | Join errs => join_with newline (map error_text errs)
  | Validation _ => "validation failed"
  end.

(** [errors.Is(e, target)] for a sentinel target: the tree of wrapped errors
    holds that sentinel. *)
Fixpoint error_is (e : error) (target : string) : bool :=
  match e with
  | Sentinel t => String.eqb t target
  | Text _ | Validation _ | PgError _ _ => false
  | Wrap _ e _ => error_is e target
  | Join errs => existsb (fun e => error_is e target) errs
  end.

(** [errors.As(e, &validation)]: the first [ValidationError] of the tree. *)
Fixpoint error_as_validation (e : error) : option (list (string * string)) :=
  match e with
  | Sentinel _ | Text _ | PgError _ _ => None
  | Validation fields => Some fields
  | Wrap _ e _ => error_as_validation e
  | Join errs =>
      fold_right (fun e acc => match error_as_validation e with
                               | Some f => Some f
                               | None => acc
                               end) None errs
  end.

(** [errors.As(e, &pgErr)]: the code of the first server error of the tree. *)
Fixpoint error_as_pg (e : error) : option string :=
  match e with
  | Sentinel _ | Text _ | Validation _ => None
  | PgError code _ => Some code
  | Wrap _ e _ => error_as_pg e
  | Join errs =>
      fold_right (fun e acc => match error_as_pg e with
                               | Some c => Some c
                               | None => acc
                               end) None errs
  end.

(** ** Results and the state-and-error monad

    A Go call with receiver state [S] that returns [(A, error)] is a function
    from [S] to a [result A] and the state it leaves.  An error does not undo
    the mutations made before it, so the state comes out on both branches. *)
Inductive result (A : Type) : Type :=
| Ok (a : A)
| Err (e : error).

Arguments Ok {A} a.
Arguments Err {A} e.

Definition M (S A : Type) : Type := S -> result A * S.

Definition ret {S A} (a : A) : M S A := fun s => (Ok a, s).

Definition throw {S A} (e : error) : M S A := fun s => (Err e, s).

Definition bind {S A B} (c : M S A) (k : A -> M S B) : M S B :=
  fun s => match c s with
           | (Ok a, s') => k a s'
           | (Err e, s') => (Err e, s')
           end.

(** The call as a value: what [x, err := f()] gives before [err] is tested. *)
Definition attempt {S A} (c : M S A) : M S (result A) :=
  fun s => let (r, s') := c s in (Ok r, s').

Definition getS {S} : M S S := fun s => (Ok s, s).

Definition modify {S} (f : S -> S) : M S unit := fun s => (Ok tt, f s).

(** [if err := check; err != nil { return err }]. *)
Definition require {S} (check : option error) : M S unit :=
  match check with
  | Some e => throw e
  | None => ret tt
  end.

(** [if err := c; err != nil { return fmt.Errorf(pre + "%w", err) }]. *)
Definition annotate {S A} (pre : string) (c : M S A) : M S A :=
  fun s => match c s with
           | (Err e, s') => (Err (Wrap pre e ""), s')
           | ok => ok
           end.

Declare Scope go_scope.
Delimit Scope go_scope with go.

Notation "'let!' x := c 'in' k" := (bind c (fun x => k))
  (at level 10, x binder, c at level 100, k at level 200,
   format "'let!'  x  :=  c  'in' '//' k") : go_scope.

Open Scope go_scope.

Definition is_ok {A} (r : result A) : bool :=
  match r with Ok _ => true | Err _ => false end.

Section MonadLaws.
Context {S A B C : Type}.

Lemma bind_ret_l (a : A) (k : A -> M S B) s : bind (ret a) k s = k a s.
Proof. reflexivity. Qed.

Lemma bind_assoc (c : M S A) (k : A -> M S B) (h : B -> M S C) s :
  bind (bind c k) h s = bind c (fun a => bind (k a) h) s.
Proof. unfold bind. by destruct (c s) as [[] ?]. Qed.

Lemma bind_ok_inv (c : M S A) (k : A -> M S B) s b s' :
  bind c k s = (Ok b, s') -> exists a s1, c s = (Ok a, s1) /\ k a s1 = (Ok b, s').
Proof. unfold bind. destruct (c s) as [[a|e] s1]; naive_solver. Qed.

Lemma bind_err_inv (c : M S A) (k : A -> M S B) s e s' :
  bind c k s = (Err e, s') ->
  c s = (Err e, s') \/ exists a s1, c s = (Ok a, s1) /\ k a s1 = (Err e, s').
Proof. unfold bind. destruct (c s) as [[a|e'] s1]; naive_solver. Qed.

End MonadLaws.

(** ** Loops over a slice whose body may fail: the first error ends them *)

Fixpoint for_each {C A} (body : A -> M C unit) (l : list A) : M C unit :=
  match l with
  | [] => ret tt
  | a :: l => let! _ := body a in for_each body l
  end.

(** The loop that appends one result per element. *)
Fixpoint for_collect {C A B} (body : A -> M C B) (l : list A) : M C (list B) :=
  match l with
  | [] => ret []
  | a :: l => let! b := body a in let! bs := for_collect body l in ret (b :: bs)
  end.

Lemma for_each_prefix {C A} (body : A -> M C unit) l k c :
  for_each body (l ++ k) c
  = match for_each body l c with
    | (Ok _, c') => for_each body k c'
    | (Err e, c') => (Err e, c')
    end.
Proof.
  revert c. induction l as [|a l IH]; intros c; simpl; [done|].
  unfold bind. destruct (body a c) as [[]c']; [apply IH|done].
Qed.

(** ** Tactics *)

(** One case split on the innermost scrutinee of a match of the context. *)
Ltac split_match_in H :=
  match type of H with
  | context [match ?x with _ => _ end] =>
      lazymatch x with
      | context [match _ with _ => _ end] => fail
      | _ => destruct x eqn:?
      end
  end.

Ltac split_match_goal :=
  match goal with
  | |- context [match ?x with _ => _ end] =>
      lazymatch x with
      | context [match _ with _ => _ end] => fail
      | _ => destruct x eqn:?
      end
  end.

(** Run a monadic definition that occurs in [H]: unfold the combinators, split
    the guards and keep the equations. *)
Ltac run_in H :=
  unfold bind, ret, throw, modify, getS, require, attempt in H;
  repeat (first [progress simplify_eq/= | split_match_in H]).

Ltac run_goal :=
  unfold bind, ret, throw, modify, getS, require, attempt;
  repeat (first [progress simplify_eq/= | split_match_goal]).

(** Boolean string tests to equalities. *)
Ltac string_tests :=
  repeat match goal with
         | H : String.eqb _ _ = true |- _ => apply String.eqb_eq in H
         | H : String.eqb _ _ = false |- _ => apply String.eqb_neq in H
         | H : andb _ _ = true |- _ => apply andb_true_iff in H as [? ?]
         | H : orb _ _ = false |- _ => apply orb_false_iff in H as [? ?]
         | H : negb _ = true |- _ => apply negb_true_iff in H
         | H : negb _ = false |- _ => apply negb_false_iff in H
         end.

Create HintDb hub discriminated.
#[export] Hint Resolve wrap64_range : hub.

(** ** Shared string and list facts *)

(** A Go [switch] label list: [case a, b, c:]. *)
Definition one_of (s : string) (labels : list string) : bool :=
  existsb (String.eqb s) labels.

Lemma one_of_spec s labels : one_of s labels = true <-> s ∈ labels.
Proof.
  unfold one_of. rewrite existsb_exists. setoid_rewrite String.eqb_eq.
  setoid_rewrite <- list_elem_of_In. naive_solver.
Qed.

Lemma one_of_false s labels : one_of s labels = false <-> s ∉ labels.
Proof.
  rewrite <- one_of_spec. destruct (one_of s labels); naive_solver.
Qed.

Lemma string_app_nil_r s : s +:+ "" = s.
Proof. induction s; [done|]. unfold String.append in *; simpl. by f_equal. Qed.

Lemma string_app_assoc a b c : (a +:+ b) +:+ c = a +:+ (b +:+ c).
Proof. induction a; [done|]. unfold String.append in *; simpl. by f_equal. Qed.

Lemma string_length_app a b :
  String.length (a +:+ b) = (String.length a + String.length b)%nat.
Proof. induction a; [done|]. unfold String.append in *; simpl. by f_equal. Qed.

(** Two strings cut at the first occurrence of a separator are equal only
    piecewise: the fact that makes a scoped key unambiguous. *)
Fixpoint has_char (c : Ascii.ascii) (s : string) : bool :=
  match s with
  | EmptyString => false
  | String d s => Ascii.eqb c d || has_char c s
  end.

Lemma sep_app_inj c a b x y :
  has_char c a = false -> has_char c b = false ->
  a +:+ String c x = b +:+ String c y -> a = b /\ x = y.
Proof.
  revert b. induction a as [|d a IH]; intros [|d' b]; unfold String.append; simpl;
    intros Ha Hb Heq; simplify_eq/=; [done| | |].
  - apply orb_false_iff in Hb as [Hb _]. by rewrite Ascii.eqb_refl in Hb.
  - apply orb_false_iff in Ha as [Ha _]. by rewrite Ascii.eqb_refl in Ha.
  - apply orb_false_iff in Ha as [_ Ha]. apply orb_false_iff in Hb as [_ Hb].
    destruct (IH b Ha Hb) as [-> ->]; done.
Qed.

Lemma list_fmap_fst_combine {A B} (l : list A) (k : list B) :
  length l = length k -> (zip l k).*1 = l.
Proof. revert k. induction l; intros [|]; simpl; intros; simplify_eq; f_equal; auto. Qed.

Lemma filter_app_last {A} (P : A -> Prop) `{forall x, Decision (P x)} (l : list A) x :
  filter P (l ++ [x]) = filter P l ++ (if decide (P x) then [x] else []).
Proof. rewrite filter_app. by rewrite filter_cons, filter_nil. Qed.

Lemma filter_ext_in {A} (P Q : A -> Prop) `{forall x, Decision (P x)}
    `{forall x, Decision (Q x)} (l : list A) :
  Forall (fun x => P x <-> Q x) l -> filter P l = filter Q l.
Proof.
  induction 1 as [|x l Hx _ IH]; [done|]. rewrite !filter_cons, IH.
  destruct (decide (P x)), (decide (Q x)); naive_solver.
Qed.

Lemma filter_map_same {A} (P : A -> Prop) `{forall x, Decision (P x)} (f : A -> A) (l : list A) :
  (forall x, P (f x) <-> P x) -> filter P (map f l) = map f (filter P l).
Proof.
  intros Hf. induction l as [|x l IH]; [done|]. simpl map. rewrite !filter_cons, IH.
  destruct (decide (P (f x))), (decide (P x)); naive_solver.
Qed.

(** ** Sums over finite maps *)

Section MapSum.
Context {K : Type} `{Countable K} {V : Type}.
Implicit Types (f : K -> V -> Z) (m : gmap K V).

Definition map_sum f m : Z := map_fold (fun k v acc => f k v + acc) 0 m.

(** What one key contributes. *)
Definition weight f m k : Z := match m !! k with Some v => f k v | None => 0 end.

Lemma map_sum_delete f m k : map_sum f m = weight f m k + map_sum f (delete k m).
Proof.
  unfold weight. destruct (m !! k) as [v|] eqn:E.
  - unfold map_sum. rewrite (map_fold_delete_L _ _ k v m); [done| |done]. intros. lia.
  - rewrite delete_id by done. lia.
Qed.

Lemma map_sum_ext f m m' :
  (forall k, weight f m k = weight f m' k) -> map_sum f m = map_sum f m'.
Proof.
  revert m'. induction m as [|i x m Hi IH] using map_ind; intros m' Hw.
  - assert (Hz : forall k, weight f m' k = 0) by (intros k; rewrite <- Hw; by unfold weight; rewrite lookup_empty).
    clear Hw. induction m' as [|i x m Hi IH] using map_ind; [done|].
    rewrite (map_sum_delete f (<[i:=x]> m) i), Hz, delete_insert_id by done.
    rewrite <- IH; [done|]. intros k. destruct (decide (k = i)) as [->|Hne].
    + unfold weight. by rewrite Hi.
    + specialize (Hz k). unfold weight in *. by rewrite lookup_insert_ne in Hz by done.
  - rewrite (map_sum_delete f _ i), (map_sum_delete f m' i), Hw, delete_insert_id by done.
    f_equal. apply IH. intros k. destruct (decide (k = i)) as [->|Hne].
    + unfold weight. by rewrite Hi, lookup_delete_eq.
    + specialize (Hw k). unfold weight in *.
      rewrite lookup_insert_ne in Hw by done. by rewrite lookup_delete_ne by done.
Qed.

(** Two maps that differ in one contribution. *)
Lemma map_sum_change f m m' k :
  (forall k', k' <> k -> weight f m k' = weight f m' k') ->
  map_sum f m' = map_sum f m - weight f m k + weight f m' k.
Proof.
  intros Hw. rewrite (map_sum_delete f m k), (map_sum_delete f m' k).
  rewrite (map_sum_ext f (delete k m) (delete k m')); [lia|].
  intros k'. destruct (decide (k' = k)) as [->|Hne]; unfold weight.
  - by rewrite !lookup_delete_eq.
  - rewrite !lookup_delete_ne by done. by apply Hw.
Qed.

Lemma map_sum_nonneg f m : (forall k v, m !! k = Some v -> 0 <= f k v) -> 0 <= map_sum f m.
Proof.
  induction m as [|i x m Hi IH] using map_ind; intros Hpos; [done|].
  rewrite (map_sum_delete f _ i), delete_insert_id by done.
  assert (0 <= weight f (<[i:=x]> m) i).
  { unfold weight. rewrite lookup_insert_eq. apply (Hpos i x). by rewrite lookup_insert_eq. }
  assert (0 <= map_sum f m); [|lia]. apply IH. intros k v Hk. apply Hpos.
  rewrite lookup_insert_ne; [done|]. congruence.
Qed.

Lemma weight_le f m k : (forall k v, m !! k = Some v -> 0 <= f k v) -> weight f m k <= map_sum f m.
Proof.
  intros Hpos. rewrite (map_sum_delete f m k).
  assert (0 <= map_sum f (delete k m)); [|lia]. apply map_sum_nonneg.
  intros k' v Hk. apply lookup_delete_Some in Hk as [_ Hk]. eauto.
Qed.

End MapSum.
