(* ===== verification/GoStrings.v ===== *)
(** The parts of Go's [strings], [strconv], [encoding/hex] and [fmt] the
    sources call, on byte strings: a Go [string] or [[]byte] is a Rocq
    [string], one [ascii] per byte. *)
From S2P Require Import Prelude.

(** Equality tests on literals are meant to reduce, appends to stay folded. *)
#[export] Hint Unfold one_of : hub.

Definition bytes (l : list Z) : string :=
  String.string_of_list_ascii (map (fun z => Ascii.ascii_of_nat (Z.to_nat z)) l).

Definition byte_of (c : Ascii.ascii) : Z := Z.of_nat (Ascii.nat_of_ascii c).

Definition len (s : string) : Z := Z.of_nat (String.length s).

(** ** Prefixes, cuts and splits *)

(** [strings.CutPrefix]: [None] when the prefix is absent. *)
Fixpoint CutPrefix (s prefix : string) : option string :=
  match prefix, s with
  | EmptyString, _ => Some s
  | String p prefix, String c s => if Ascii.eqb p c then CutPrefix s prefix else None
  | String _ _, EmptyString => None
  end.

Definition HasPrefix (s prefix : string) : bool :=
  match CutPrefix s prefix with Some _ => true | None => false end.

(** [strings.Cut(s, sep)] for a one-byte separator. *)
Fixpoint Cut (s : string) (sep : Ascii.ascii) : string * string * bool :=
  match s with
  | EmptyString => (EmptyString, EmptyString, false)
  | String c rest =>
      if Ascii.eqb c sep then (EmptyString, rest, true)
      else let '(before, after, found) := Cut rest sep in
           (String c before, after, found)
  end.

(** [strings.Split(s, sep)] for a one-byte separator: never empty. *)
Fixpoint Split (s : string) (sep : Ascii.ascii) : list string :=
  match s with
  | EmptyString => [""]
  | String c rest =>
      if Ascii.eqb c sep then "" :: Split rest sep
      else match Split rest sep with
           | part :: parts => String c part :: parts
           | [] => [String c ""]
           end
  end.

(** ** [strings.TrimSpace]

    The UTF-8 encodings of the code points with the Unicode White_Space
    property, the ones [unicode.IsSpace] accepts. *)
Definition space_runes : list string :=
  map bytes
    ([[9]; [10]; [11]; [12]; [13]; [32]; [194; 133]; [194; 160]; [225; 154; 128]]
     ++ map (fun k => [226; 128; 128 + k]) [0; 1; 2; 3; 4; 5; 6; 7; 8; 9; 10]
     ++ [[226; 128; 168]; [226; 128; 169]; [226; 128; 175]; [226; 129; 159]; [227; 128; 128]]).

Fixpoint strip_any (prefixes : list string) (s : string) : option string :=
  match prefixes with
  | [] => None
  | p :: rest => match CutPrefix s p with
                 | Some s' => Some s'
                 | None => strip_any rest s
                 end
  end.

(** Each round drops at least one byte, so the length is enough fuel. *)
Fixpoint trim_left_fuel (fuel : nat) (runes : list string) (s : string) : string :=
  match fuel with
  | O => s
  | Datatypes.S fuel => match strip_any runes s with
              | Some s' => trim_left_fuel fuel runes s'
              | None => s
              end
  end.

Definition trim_left (runes : list string) (s : string) : string :=
  trim_left_fuel (String.length s) runes s.

(** Trailing white space: the same loop on the reversed bytes. *)
Definition TrimSpace (s : string) : string :=
  String.rev (trim_left (map String.rev space_runes)
                        (String.rev (trim_left space_runes s))).

(** [strings.TrimSpace(s) == ""]. *)
Definition blank (s : string) : bool := String.eqb (TrimSpace s) "".

(** ** Case mapping *)

Definition lower_ascii (c : Ascii.ascii) : Ascii.ascii :=
  let n := byte_of c in
  if (65 <=? n) && (n <=? 90) then Ascii.ascii_of_nat (Z.to_nat (n + 32)) else c.

Fixpoint map_string (f : Ascii.ascii -> Ascii.ascii) (s : string) : string :=
  match s with
  | EmptyString => EmptyString
  | String c s => String (f c) (map_string f s)
  end.

Definition is_ascii (s : string) : bool :=
  forallb (fun c => byte_of c <? 128) (String.list_ascii_of_string s).

(** [strings.EqualFold(s, t)] for an ASCII [t] without the letters k and s,
    the only ASCII letters that fold to a code point outside ASCII. *)
Definition EqualFold (s t : string) : bool :=
  String.eqb (map_string lower_ascii s) (map_string lower_ascii t).

(** ** Numbers *)

(** [strconv.Itoa], [strconv.FormatInt(_, 10)] and [%d]. *)
Definition Itoa (z : Z) : string := pretty z.

Fixpoint zeros (n : nat) : string :=
  match n with O => "" | Datatypes.S n => String "0"%char (zeros n) end.

(** [%012d] of a non-negative number. *)
Definition pad12 (z : Z) : string :=
  let d := Itoa z in zeros (12 - String.length d) +:+ d.

Definition digit_value (c : Ascii.ascii) : option Z :=
  let n := byte_of c in
  if (48 <=? n) && (n <=? 57) then Some (n - 48) else None.

Fixpoint digits_value (acc : Z) (s : string) : option Z :=
  match s with
  | EmptyString => Some acc
  | String c s => match digit_value c with
                  | Some d => digits_value (acc * 10 + d) s
                  | None => None
                  end
  end.

(** [strconv.ParseInt(s, 10, 64)]: an optional sign, at least one digit, and a
    value in range; [None] is the error. [strconv.Atoi] agrees on 64 bits. *)
Definition ParseInt (s : string) : option Z :=
  let magnitude t := match t with EmptyString => None | _ => digits_value 0 t end in
  let v := match s with
           | String "-"%char t => Z.opp <$> magnitude t
           | String "+"%char t => magnitude t
           | t => magnitude t
           end in
  match v with
  | Some z => if (int64_min <=? z) && (z <=? int64_max) then Some z else None
  | None => None
  end.

(** ** Hexadecimal *)

Definition hex_digit (n : Z) : Ascii.ascii :=
  Ascii.ascii_of_nat (Z.to_nat (if n <? 10 then 48 + n else 87 + n)).

Fixpoint hex_encode (s : string) : string :=
  match s with
  | EmptyString => EmptyString
  | String c s =>
      String (hex_digit (byte_of c / 16))
        (String (hex_digit (byte_of c mod 16)) (hex_encode s))
  end.

Definition hex_value (c : Ascii.ascii) : option Z :=
  let n := byte_of c in
  if (48 <=? n) && (n <=? 57) then Some (n - 48)
  else if (97 <=? n) && (n <=? 102) then Some (n - 87)
  else if (65 <=? n) && (n <=? 70) then Some (n - 55)
  else None.

(** [hex.DecodeString]: [None] for an odd length or a byte that is no digit. *)
Fixpoint hex_decode (s : string) : option string :=
  match s with
  | EmptyString => Some EmptyString
  | String a (String b s) =>
      match hex_value a, hex_value b, hex_decode s with
      | Some x, Some y, Some rest =>
          Some (String (Ascii.ascii_of_nat (Z.to_nat (16 * x + y))) rest)
      | _, _, _ => None
      end
  | String _ EmptyString => None
  end.

(** ** [%q]

    [strconv.Quote]: quotes, backslashes and control bytes escaped; the bytes
    of printable non-ASCII text kept.  Faithful on texts that are valid UTF-8 and
    whose code points outside ASCII are printable: Go also escapes the others,
    which are kept here.  What the sources quote are order statuses, queue names
    and settings, in error messages. *)
Definition quote_byte (c : Ascii.ascii) : string :=
  let n := byte_of c in
  if n =? 34 then bytes [92; 34]
  else if n =? 92 then bytes [92; 92]
  else if n =? 7 then bytes [92; 97]
  else if n =? 8 then bytes [92; 98]
  else if n =? 9 then bytes [92; 116]
  else if n =? 10 then bytes [92; 110]
  else if n =? 11 then bytes [92; 118]
  else if n =? 12 then bytes [92; 102]
  else if n =? 13 then bytes [92; 114]
  else if (n <? 32) || (n =? 127) then bytes [92; 120] +:+ hex_encode (String c "")
  else String c "".

Fixpoint quote_bytes (s : string) : string :=
  match s with
  | EmptyString => EmptyString
  | String c s => quote_byte c +:+ quote_bytes s
  end.

Definition quote (s : string) : string := bytes [34] +:+ quote_bytes s +:+ bytes [34].

(** ** Facts *)

Lemma cut_app s sep before after :
  Cut s sep = (before, after, true) -> s = before +:+ String sep after.
Proof.
  revert before after. induction s as [|c s IH]; intros before after; simpl; [done|].
  destruct (Ascii.eqb c sep) eqn:Hc; intros Heq.
  - apply Ascii.eqb_eq in Hc. by simplify_eq.
  - destruct (Cut s sep) as [[b a] f] eqn:Hs. simplify_eq.
    rewrite (IH b after) by done. done.
Qed.

Lemma cut_at_separator a b sep :
  has_char sep a = false -> Cut (a +:+ String sep b) sep = (a, b, true).
Proof.
  induction a as [|c a IH]; unfold String.append; simpl; intros Ha.
  - by rewrite Ascii.eqb_refl.
  - apply orb_false_iff in Ha as [Hc Ha]. rewrite Ascii.eqb_sym, Hc.
    unfold String.append in IH. by rewrite IH.
Qed.

Lemma cut_prefix_app s p rest : CutPrefix s p = Some rest <-> s = p +:+ rest.
Proof.
  revert s. unfold String.append. induction p as [|c p IH]; intros s; simpl.
  - destruct s; simpl; split; congruence.
  - destruct s as [|d s]; simpl; [split; congruence|].
    destruct (Ascii.eqb c d) eqn:Hc.
    + apply Ascii.eqb_eq in Hc as ->. rewrite IH. split; congruence.
    + apply Ascii.eqb_neq in Hc. split; congruence.
Qed.

Lemma has_prefix_app p s : HasPrefix (p +:+ s) p = true.
Proof. unfold HasPrefix. by rewrite (proj2 (cut_prefix_app _ _ s) eq_refl). Qed.

Lemma split_no_sep s sep : has_char sep s = false -> Split s sep = [s].
Proof.
  induction s as [|c s IH]; simpl; intros H; [done|].
  apply orb_false_iff in H as [H1 H2]. rewrite IH by done.
  rewrite Ascii.eqb_sym, H1. done.
Qed.

Lemma split_app a b sep :
  has_char sep a = false -> Split (a +:+ String sep b) sep = a :: Split b sep.
Proof.
  induction a as [|c a IH]; unfold String.append; simpl; intros H.
  - by rewrite Ascii.eqb_refl.
  - apply orb_false_iff in H as [H1 H2]. rewrite Ascii.eqb_sym, H1.
    unfold String.append in IH. by rewrite IH.
Qed.

(** The parts hold no separator, and joined give the string back. *)
Lemma split_inv s sep p ps :
  Split s sep = p :: ps ->
  has_char sep p = false
  /\ match ps with
     | [] => s = p
     | _ => exists rest, s = p +:+ String sep rest /\ Split rest sep = ps
     end.
Proof.
  revert p. induction s as [|c s IH]; intros p; simpl; [by intros [= <- <-]|].
  destruct (Ascii.eqb_spec c sep) as [->|Hc].
  - intros [= <- Hs]. split; [done|]. destruct ps as [|q ps]; [|by exists s].
    destruct s; simpl in Hs; [done|]. repeat case_match; done.
  - destruct (Split s sep) as [|q qs] eqn:E; [by destruct s; simpl in E; repeat case_match|].
    intros [= <- <-]. destruct (IH q eq_refl) as [Hq Hs]. split.
    + simpl. rewrite Hq. apply orb_false_iff. split; [|done]. apply Ascii.eqb_neq. congruence.
    + destruct qs; [by rewrite Hs|]. destruct Hs as (rest & -> & Hr). by exists rest.
Qed.

Lemma byte_of_range c : 0 <= byte_of c < 256.
Proof. unfold byte_of. pose proof (Ascii.nat_ascii_bounded c). lia. Qed.

Lemma ascii_of_byte_of c : Ascii.ascii_of_nat (Z.to_nat (byte_of c)) = c.
Proof. unfold byte_of. rewrite Nat2Z.id. apply Ascii.ascii_nat_embedding. Qed.

Lemma byte_of_ascii z : 0 <= z < 256 -> byte_of (Ascii.ascii_of_nat (Z.to_nat z)) = z.
Proof. unfold byte_of. intros. rewrite Ascii.nat_ascii_embedding; lia. Qed.

Lemma hex_value_digit n : 0 <= n < 16 -> hex_value (hex_digit n) = Some n.
Proof.
  intros Hn. unfold hex_value, hex_digit.
  destruct (n <? 10) eqn:E; rewrite byte_of_ascii by lia; repeat case_match; f_equal; lia.
Qed.

Lemma hex_roundtrip s : hex_decode (hex_encode s) = Some s.
Proof.
  induction s as [|c s IH]; [done|]. simpl. pose proof (byte_of_range c).
  rewrite !hex_value_digit, IH.
  - f_equal. f_equal. rewrite <- Z.div_mod by lia. apply ascii_of_byte_of.
  - apply Z.mod_pos_bound. lia.
  - split; [apply Z.div_pos; lia | apply Z.div_lt_upper_bound; lia].
Qed.

Lemma hex_encode_length s : String.length (hex_encode s) = (2 * String.length s)%nat.
Proof. induction s; simpl; lia. Qed.

(** ** Checks against the documented behaviour *)

Example trim_ascii : TrimSpace "  ab c	 " = "ab c".
Proof. vm_compute. reflexivity. Qed.

Example trim_nbsp : TrimSpace (bytes [194; 160; 65; 226; 128; 137]) = "A".
Proof. vm_compute. reflexivity. Qed.

Example split_path : Split "a//b" "/"%char = ["a"; ""; "b"].
Proof. reflexivity. Qed.

Example parse_int_bounds :
  (ParseInt "-9223372036854775808", ParseInt "9223372036854775808", ParseInt "+", ParseInt "")
  = (Some int64_min, None, None, None).
Proof. vm_compute. reflexivity. Qed.

Example pad12_small : pad12 7 = "000000000007".
Proof. vm_compute. reflexivity. Qed.
