(* ===== verification/GoStringsFacts.v ===== *)
(** Facts on the string functions that several components use: trimming leaves
    graphic text alone, numbers print and parse back, hexadecimal text is made
    of digits. *)
From S2P Require Import Prelude GoStrings.

(** ** Texts by their bytes *)

Fixpoint all_chars (p : Ascii.ascii -> bool) (s : string) : bool :=
  match s with
  | EmptyString => true
  | String c s => p c && all_chars p s
  end.

(** Printable ASCII without the space. *)
Definition graphic (c : Ascii.ascii) : bool := (33 <=? byte_of c) && (byte_of c <=? 126).

Lemma all_chars_app p a b : all_chars p (a +:+ b) = all_chars p a && all_chars p b.
Proof.
  induction a as [|c a IH]; [done|]. unfold String.append in *. simpl. rewrite IH.
  by rewrite andb_assoc.
Qed.

Lemma all_chars_impl (p q : Ascii.ascii -> bool) s :
  (forall c, p c = true -> q c = true) -> all_chars p s = true -> all_chars q s = true.
Proof.
  intros Hpq. induction s as [|c s IH]; simpl; [done|].
  rewrite !andb_true_iff. intros [? ?]. auto.
Qed.

Lemma all_chars_absent p c s :
  p c = false -> all_chars p s = true -> has_char c s = false.
Proof.
  intros Hp. induction s as [|d s IH]; simpl; [done|].
  rewrite andb_true_iff, orb_false_iff. intros [Hd Hs]. split; [|auto].
  apply Ascii.eqb_neq. intros ->. congruence.
Qed.

Lemma rev_app_app a b c : String.rev_app (a +:+ b) c = String.rev_app b (String.rev_app a c).
Proof. revert c. induction a as [|x a IH]; intros c; [done|]. simpl. apply IH. Qed.

Lemma rev_app_spec a b : String.rev_app a b = String.rev a +:+ b.
Proof.
  revert b. unfold String.rev. induction a as [|x a IH]; intros b; [done|]. simpl.
  rewrite (IH (String x b)), (IH (String x "")). rewrite string_app_assoc. done.
Qed.

Lemma rev_involutive s : String.rev (String.rev s) = s.
Proof.
  induction s as [|c s IH]; [done|]. unfold String.rev at 2. simpl. rewrite rev_app_spec.
  unfold String.rev at 1. rewrite rev_app_app. simpl. f_equal. exact IH.
Qed.

Lemma all_chars_rev p s : all_chars p (String.rev s) = all_chars p s.
Proof.
  induction s as [|c s IH]; [done|]. unfold String.rev. simpl. rewrite rev_app_spec, all_chars_app.
  rewrite IH. simpl. by rewrite andb_true_r, andb_comm.
Qed.

(** ** Trimming *)

Definition starts_blank (p : string) : bool :=
  match p with EmptyString => false | String d _ => negb (graphic d) end.

Lemma strip_any_graphic runes c s :
  forallb starts_blank runes = true -> graphic c = true -> strip_any runes (String c s) = None.
Proof.
  intros Hr Hc. induction runes as [|p runes IH]; simpl in *; [done|].
  apply andb_true_iff in Hr as [Hp Hr]. destruct p as [|d p]; [done|]. simpl in *.
  destruct (Ascii.eqb d c) eqn:E; [|auto].
  apply Ascii.eqb_eq in E as ->. by rewrite Hc in Hp.
Qed.

Lemma trim_left_graphic runes s :
  forallb starts_blank runes = true -> all_chars graphic s = true -> trim_left runes s = s.
Proof.
  intros Hr Hs. destruct s as [|c s]; [done|]. unfold trim_left. simpl in *.
  apply andb_true_iff in Hs as [Hc _]. by rewrite strip_any_graphic.
Qed.

Lemma trim_graphic s : all_chars graphic s = true -> TrimSpace s = s.
Proof.
  intros Hs. unfold TrimSpace. rewrite (trim_left_graphic space_runes); [|reflexivity|done].
  rewrite trim_left_graphic; [apply rev_involutive|reflexivity|]. by rewrite all_chars_rev.
Qed.

(** Trimming keeps every byte that is part of no white space. *)
Lemma has_char_app c a b : has_char c (a +:+ b) = has_char c a || has_char c b.
Proof.
  induction a as [|d a IH]; [done|]. unfold String.append in *. simpl. rewrite IH.
  by rewrite orb_assoc.
Qed.

Lemma has_char_rev c s : has_char c (String.rev s) = has_char c s.
Proof.
  induction s as [|d s IH]; [done|]. unfold String.rev. simpl.
  rewrite rev_app_spec, has_char_app, IH. simpl. by rewrite orb_false_r, orb_comm.
Qed.

Definition lacks (c : Ascii.ascii) (s : string) : bool := negb (has_char c s).

Lemma strip_any_lacks runes c s t :
  forallb (lacks c) runes = true -> strip_any runes s = Some t -> has_char c t = has_char c s.
Proof.
  intros Hr. induction runes as [|p runes IH]; simpl in *; [done|].
  apply andb_true_iff in Hr as [Hp Hr]. destruct (CutPrefix s p) as [s'|] eqn:E; [|auto].
  intros [= ->]. apply cut_prefix_app in E as ->. rewrite has_char_app.
  unfold lacks in Hp. by apply negb_true_iff in Hp as ->.
Qed.

Lemma trim_left_lacks runes c s :
  forallb (lacks c) runes = true -> has_char c (trim_left runes s) = has_char c s.
Proof.
  intros Hr. unfold trim_left. generalize (String.length s) as n. intros n. revert s.
  induction n as [|n IH]; intros s; simpl; [done|].
  destruct (strip_any runes s) as [t|] eqn:E; [|done]. rewrite IH. by eapply strip_any_lacks.
Qed.

Lemma trim_lacks c s :
  forallb (lacks c) space_runes = true -> has_char c (TrimSpace s) = has_char c s.
Proof.
  intros Hr. unfold TrimSpace. rewrite has_char_rev, trim_left_lacks.
  - by rewrite has_char_rev, trim_left_lacks.
  - induction space_runes as [|r l IH]; [done|]. simpl in *. unfold lacks in *.
    rewrite has_char_rev. apply andb_true_iff in Hr as [-> Hr]. auto.
Qed.

(** ** Numbers *)

Definition decimal (c : Ascii.ascii) : bool := (48 <=? byte_of c) && (byte_of c <=? 57).

(** A digit or the sign. *)
Definition numeric (c : Ascii.ascii) : bool := decimal c || Ascii.eqb c "-"%char.

Lemma numeric_graphic c : numeric c = true -> graphic c = true.
Proof.
  unfold numeric, decimal, graphic. intros [H|H]%orb_true_iff; [lia|].
  by apply Ascii.eqb_eq in H as ->.
Qed.

Lemma pretty_char_digit n : (n < 10)%N -> digit_value (pretty_N_char n) = Some (Z.of_N n).
Proof.
  intros H. destruct n as [|p]; [done|].
  do 4 (destruct p as [p|p|]; try done; try lia).
Qed.

Lemma pretty_char_decimal n : decimal (pretty_N_char n) = true.
Proof. unfold pretty_N_char. repeat case_match; reflexivity. Qed.

Lemma pretty_go_value n s :
  digits_value 0 (pretty_N_go n s) = digits_value (Z.of_N n) s.
Proof.
  revert s. induction (N.lt_wf_0 n) as [n _ IH]; intros s.
  assert (n = 0 \/ 0 < n)%N as [->|Hn] by lia; [by rewrite pretty_N_go_0|].
  rewrite pretty_N_go_step by done. rewrite IH by (apply N.div_lt; lia). simpl.
  rewrite pretty_char_digit by (apply N.mod_lt; lia). f_equal.
  rewrite (N.div_mod n 10) at 3 by lia. lia.
Qed.

Lemma pretty_go_decimal n s : all_chars decimal (pretty_N_go n s) = all_chars decimal s.
Proof.
  revert s. induction (N.lt_wf_0 n) as [n _ IH]; intros s.
  assert (n = 0 \/ 0 < n)%N as [->|Hn] by lia; [by rewrite pretty_N_go_0|].
  rewrite pretty_N_go_step by done. rewrite IH by (apply N.div_lt; lia). simpl.
  by rewrite pretty_char_decimal.
Qed.

Lemma pretty_N_value (n : N) : digits_value 0 (pretty n) = Some (Z.of_N n).
Proof.
  unfold pretty, pretty_N. case_decide; [by subst|]. by rewrite pretty_go_value.
Qed.

Lemma pretty_N_decimal (n : N) : all_chars decimal (pretty n) = true.
Proof. unfold pretty, pretty_N. case_decide; [done|]. by rewrite pretty_go_decimal. Qed.

Lemma pretty_N_nonempty (n : N) : pretty n <> "".
Proof. intros H. pose proof (pretty_N_value n) as Hv. rewrite H in Hv. simpl in Hv.
  injection Hv as Hv. assert (n = 0)%N as -> by lia. discriminate H. Qed.

Lemma itoa_pos p : Itoa (Zpos p) = pretty (Npos p).
Proof. done. Qed.

Lemma itoa_neg p : Itoa (Zneg p) = String "-"%char (pretty (Npos p)).
Proof. done. Qed.

Lemma itoa_numeric z : all_chars numeric (Itoa z) = true.
Proof.
  assert (Hd : forall c, decimal c = true -> numeric c = true)
    by (unfold numeric; intros c ->; done).
  destruct z as [|p|p]; [done|rewrite itoa_pos|rewrite itoa_neg; simpl];
    eapply all_chars_impl; eauto using pretty_N_decimal.
Qed.

Lemma itoa_nonempty z : Itoa z <> "".
Proof. destruct z as [|p|p]; [done|rewrite itoa_pos; apply pretty_N_nonempty|done]. Qed.

Lemma trim_itoa z : TrimSpace (Itoa z) = Itoa z.
Proof.
  apply trim_graphic. eapply all_chars_impl; [|apply itoa_numeric]. apply numeric_graphic.
Qed.

(** [strconv.ParseInt(strconv.FormatInt(z, 10), 10, 64)]. *)
Lemma parse_itoa z : in_int64 z -> ParseInt (Itoa z) = Some z.
Proof.
  intros Hz. assert (Hb : (int64_min <=? z) && (z <=? int64_max) = true)
    by (unfold in_int64 in Hz; lia).
  unfold ParseInt. destruct z as [|p|p]; [done| |].
  - rewrite itoa_pos. pose proof (pretty_N_value (Npos p)) as Hv.
    pose proof (pretty_N_decimal (Npos p)) as Hd. pose proof (pretty_N_nonempty (Npos p)) as Hne.
    destruct (pretty (Npos p)) as [|c s]; [done|]. simpl in Hd. apply andb_true_iff in Hd as [Hc _].
    assert (Hminus : c <> "-"%char) by (intros ->; done).
    assert (Hplus : c <> "+"%char) by (intros ->; done).
    destruct c as [[] [] [] [] [] [] [] []]; try done;
      rewrite Hv; simpl Z.of_N; by rewrite Hb.
  - rewrite itoa_neg. pose proof (pretty_N_value (Npos p)) as Hv.
    pose proof (pretty_N_nonempty (Npos p)) as Hne.
    destruct (pretty (Npos p)) as [|c s]; [done|]. rewrite Hv.
    change (Z.opp <$> Some (Z.of_N (Npos p))) with (Some (Zneg p)). cbv beta match. by rewrite Hb.
Qed.

(** ** Hexadecimal *)

Definition hexadecimal (c : Ascii.ascii) : bool :=
  decimal c || ((97 <=? byte_of c) && (byte_of c <=? 102)).

Lemma hex_digit_hexadecimal n : 0 <= n < 16 -> hexadecimal (hex_digit n) = true.
Proof.
  intros Hn. unfold hexadecimal, decimal, hex_digit.
  destruct (n <? 10) eqn:E; rewrite byte_of_ascii by lia; lia.
Qed.

Lemma hex_encode_hexadecimal s : all_chars hexadecimal (hex_encode s) = true.
Proof.
  induction s as [|c s IH]; [done|]. simpl. pose proof (byte_of_range c).
  rewrite !hex_digit_hexadecimal, IH; [done| |].
  - apply Z.mod_pos_bound. lia.
  - split; [apply Z.div_pos; lia|apply Z.div_lt_upper_bound; lia].
Qed.

Lemma hexadecimal_graphic c : hexadecimal c = true -> graphic c = true.
Proof. unfold hexadecimal, decimal, graphic. lia. Qed.

Lemma trim_hex s : TrimSpace (hex_encode s) = hex_encode s.
Proof.
  apply trim_graphic. eapply all_chars_impl; [|apply hex_encode_hexadecimal].
  apply hexadecimal_graphic.
Qed.

#[export] Hint Resolve itoa_numeric itoa_nonempty hex_encode_hexadecimal : hub.
#[export] Hint Rewrite trim_itoa trim_hex : hub.
