(* ===== verification/GoTime.v ===== *)
(** Go's [time.Time] and [time.Duration] as the sources use them.

    A [Time] is the number of nanoseconds since the zero time (January 1 of
    year 1, UTC), so [IsZero] is the test against [0]; every value the sources
    build is in UTC.  A [Duration] is a number of nanoseconds. *)
From S2P Require Import Prelude GoStrings.

Definition Time : Type := Z.

Definition Duration : Type := Z.

Definition nanosecond : Duration := 1.

Definition millisecond : Duration := 1000000.

Definition second : Duration := 1000000000.

Definition minute : Duration := 60 * second.

Definition hour : Duration := 60 * minute.

Definition IsZero (t : Time) : bool := t =? 0.

Definition Before (t u : Time) : bool := t <? u.

Definition After (t u : Time) : bool := u <? t.

Definition AddD (t : Time) (d : Duration) : Time := t + d.

(** Seconds from the zero time to the Unix epoch. *)
Definition unix_to_internal : Z := 62135596800.

(** [time.Unix(sec, 0)]: the seconds field is an [int64] and wraps. *)
Definition time_Unix (sec : Z) : Time := wrap64 (sec + unix_to_internal) * second.

(** [t.Unix()]: whole seconds since the epoch, rounded down. *)
Definition Unix (t : Time) : Z := t / second - unix_to_internal.

Definition UnixNano (t : Time) : Z := wrap64 (t - unix_to_internal * second).

(** ** [t.UTC().Format(time.RFC3339Nano)] *)

(** Year, month and day of a day number counted from January 1 of year 1. *)
Definition civil_of_days (days : Z) : Z * Z * Z :=
  let z := days + 306 in
  let era := z / 146097 in
  let doe := z mod 146097 in
  let yoe := (doe - doe / 1460 + doe / 36524 - doe / 146096) / 365 in
  let doy := doe - (365 * yoe + yoe / 4 - yoe / 100) in
  let mp := (5 * doy + 2) / 153 in
  let d := doy - (153 * mp + 2) / 5 + 1 in
  let m := if mp <? 10 then mp + 3 else mp - 9 in
  let y := yoe + era * 400 + (if m <=? 2 then 1 else 0) in
  (y, m, d).

Definition pad (width : nat) (z : Z) : string :=
  let d := Itoa z in zeros (width - String.length d) +:+ d.

(** The fraction [.999999999]: nine digits without the trailing zeros. *)
Fixpoint strip_zeros (fuel : nat) (width : nat) (n : Z) : string :=
  match fuel with
  | O => pad width n
  | Datatypes.S fuel =>
      if n mod 10 =? 0 then strip_zeros fuel (width - 1) (n / 10) else pad width n
  end.

Definition fraction (nanos : Z) : string :=
  if nanos =? 0 then "" else "." +:+ strip_zeros 8 9 nanos.

Definition FormatRFC3339Nano (t : Time) : string :=
  let '(y, m, d) := civil_of_days (t / (86400 * second)) in
  let secs := (t / second) mod 86400 in
  pad 4 y +:+ "-" +:+ pad 2 m +:+ "-" +:+ pad 2 d +:+ "T"
  +:+ pad 2 (secs / 3600) +:+ ":" +:+ pad 2 (secs / 60 mod 60) +:+ ":"
  +:+ pad 2 (secs mod 60) +:+ fraction (t mod second) +:+ "Z".

(** ** Facts and checks *)

Lemma unix_time_unix sec :
  int64_min <= sec + unix_to_internal <= int64_max -> Unix (time_Unix sec) = sec.
Proof.
  intros H. unfold Unix, time_Unix. rewrite wrap64_id by exact H.
  rewrite Z.div_mul by (unfold second; lia). lia.
Qed.

Example format_epoch : FormatRFC3339Nano (time_Unix 0) = "1970-01-01T00:00:00Z".
Proof. vm_compute. reflexivity. Qed.

Example format_fraction :
  FormatRFC3339Nano (AddD (time_Unix 1780056000) (250 * millisecond))
  = "2026-05-29T12:00:00.25Z".
Proof. vm_compute. reflexivity. Qed.

Example format_leap_day : FormatRFC3339Nano (time_Unix 951782400) = "2000-02-29T00:00:00Z".
Proof. vm_compute. reflexivity. Qed.

Example format_zero : FormatRFC3339Nano 0 = "0001-01-01T00:00:00Z".
Proof. vm_compute. reflexivity. Qed.
