(* ===== verification/GoDuration.v ===== *)
(** [time.ParseDuration] and [strconv.ParseBool], as the settings of the
    commands use them.  A fraction is scaled in binary64 arithmetic, which is
    written out on the specification floats of the Standard Library. *)
From Stdlib Require Import SpecFloat.
From S2P Require Import Prelude GoStrings GoStringsFacts GoTime.

(** ** [strconv.ParseBool] *)

Definition ParseBool (s : string) : option bool :=
  if one_of s ["1"; "t"; "T"; "true"; "TRUE"; "True"] then Some true
  else if one_of s ["0"; "f"; "F"; "false"; "FALSE"; "False"] then Some false
  else None.

(** ** binary64 *)

Definition float64 (n : Z) : spec_float := binary_normalize 53 1024 n 0 false.

(** [uint64(x)] of a finite, non-negative float: towards zero. *)
Definition truncate (x : spec_float) : Z :=
  match x with
  | S754_finite false m e => if 0 <=? e then Zpos m * 2 ^ e else Zpos m / 2 ^ (- e)
  | _ => 0
  end.

(** [uint64(float64(f) * (float64(unit) / scale))]. *)
Definition scaled (f unit scale : Z) : Z :=
  truncate (SFmul 53 1024 (float64 f) (SFdiv 53 1024 (float64 unit) (float64 scale))).

(** ** [time.ParseDuration] *)

Definition is_digit (c : Ascii.ascii) : bool :=
  match digit_value c with Some _ => true | None => false end.

(** [leadingInt]: the value of the leading digits and the rest, or overflow. *)
Fixpoint leadingInt_from (x : Z) (s : string) : option (Z * string) :=
  match s with
  | EmptyString => Some (x, s)
  | String c rest =>
      match digit_value c with
      | None => Some (x, s)
      | Some d =>
          if 2 ^ 63 / 10 <? x then None
          else let x := x * 10 + d in
               if 2 ^ 63 <? x then None else leadingInt_from x rest
      end
  end.

Definition leadingInt (s : string) : option (Z * string) := leadingInt_from 0 s.

(** [leadingFraction]: digits after an overflow are dropped. *)
Fixpoint leadingFraction_from (x scale : Z) (overflow : bool) (s : string) : Z * Z * string :=
  match s with
  | EmptyString => (x, scale, s)
  | String c rest =>
      match digit_value c with
      | None => (x, scale, s)
      | Some d =>
          if overflow then leadingFraction_from x scale true rest
          else if (2 ^ 63 - 1) / 10 <? x then leadingFraction_from x scale true rest
          else let y := x * 10 + d in
               if 2 ^ 63 <? y then leadingFraction_from x scale true rest
               else leadingFraction_from y (scale * 10) false rest
      end
  end.

Definition leadingFraction (s : string) : Z * Z * string := leadingFraction_from 0 1 false s.

(** The unit runs up to the next digit or point. *)
Fixpoint take_unit (s : string) : string * string :=
  match s with
  | EmptyString => ("", "")
  | String c rest =>
      if Ascii.eqb c "."%char || is_digit c then ("", s)
      else let (u, rest) := take_unit rest in (String c u, rest)
  end.

Definition microsecond : Duration := 1000.

Definition unitMap (u : string) : option Z :=
  if String.eqb u "ns" then Some nanosecond
  else if one_of u ["us"; bytes [194; 181; 115]; bytes [206; 188; 115]] then Some microsecond
  else if String.eqb u "ms" then Some millisecond
  else if String.eqb u "s" then Some second
  else if String.eqb u "m" then Some minute
  else if String.eqb u "h" then Some hour
  else None.

(** One number with its unit: its value and the rest of the text. *)
Definition parse_term (s : string) : option (Z * string) :=
  match leadingInt s with
  | None => None
  | Some (v, s1) =>
      let pre := negb (Nat.eqb (String.length s) (String.length s1)) in
      let '(f, scale, s2, post) :=
        match s1 with
        | String "."%char t =>
            let '(f, scale, t') := leadingFraction t in
            (f, scale, t', negb (Nat.eqb (String.length t) (String.length t')))
        | _ => (0, 1, s1, false)
        end in
      if negb pre && negb post then None else
      let (u, s3) := take_unit s2 in
      if String.eqb u "" then None else
      match unitMap u with
      | None => None
      | Some unit =>
          if 2 ^ 63 / unit <? v then None else
          let v := v * unit in
          if 0 <? f then
            let v := v + scaled f unit scale in
            if 2 ^ 63 <? v then None else Some (v, s3)
          else Some (v, s3)
      end
  end.

(** Every term consumes at least one byte, so the length is enough fuel. *)
Fixpoint parse_terms (fuel : nat) (d : Z) (s : string) : option Z :=
  match s, fuel with
  | EmptyString, _ => Some d
  | _, O => None
  | String c _, Datatypes.S fuel =>
      if negb (Ascii.eqb c "."%char || is_digit c) then None else
      match parse_term s with
      | None => None
      | Some (v, rest) => let d := d + v in
                          if 2 ^ 63 <? d then None else parse_terms fuel d rest
      end
  end.

Definition ParseDuration (s : string) : option Duration :=
  let '(neg, s) := match s with
                   | String "-"%char rest => (true, rest)
                   | String "+"%char rest => (false, rest)
                   | _ => (false, s)
                   end in
  if String.eqb s "0" then Some 0
  else if String.eqb s "" then None
  else match parse_terms (String.length s) 0 s with
       | None => None
       | Some d => if neg then Some (- d)
                   else if 2 ^ 63 - 1 <? d then None else Some d
       end.

Example duration_samples :
  map ParseDuration ["250ms"; "1h15m30.918273645s"; "-1.5h"; "0.1ns"; "9223372036854775807ns";
                     "9223372036854775808ns"; "5"; ""; ".s"; "1 s"]
  = [Some 250000000; Some 4530918273645; Some (-5400000000000); Some 0; Some int64_max;
     None; None; None; None; None].
Proof. vm_compute. reflexivity. Qed.

(** ** Facts *)

Lemma digit_value_range c d : digit_value c = Some d -> 0 <= d <= 9.
Proof.
  unfold digit_value. destruct (_ && _) eqn:Hb; [|done]. intros [= <-].
  apply andb_true_iff in Hb as [?%Z.leb_le ?%Z.leb_le]. lia.
Qed.

Lemma leading_int_shorter x s v rest :
  leadingInt_from x s = Some (v, rest) -> (String.length rest <= String.length s)%nat.
Proof.
  revert x. induction s as [|c s IH]; intros x; simpl; [by intros [= _ <-]|].
  destruct (digit_value c); [|by intros [= _ <-]].
  destruct (_ <? _); [done|]. destruct (_ <? _); [done|]. intros H%IH. lia.
Qed.

Lemma leading_int_nonneg x s v rest :
  0 <= x -> leadingInt_from x s = Some (v, rest) -> 0 <= v.
Proof.
  revert x. induction s as [|c s IH]; intros x Hx; simpl; [by intros [= <- _]|].
  destruct (digit_value c) as [d|] eqn:Hd; [|by intros [= <- _]].
  apply digit_value_range in Hd.
  destruct (_ <? _); [done|]. destruct (_ <? _); [done|]. apply IH. lia.
Qed.

Lemma truncate_nonneg x : 0 <= truncate x.
Proof.
  destruct x as [| | |[] m e]; simpl; try done. destruct (Z.leb_spec 0 e).
  - apply Z.mul_nonneg_nonneg; [done|]. apply Z.pow_nonneg. lia.
  - apply Z.div_pos; [done|]. apply Z.pow_pos_nonneg; lia.
Qed.

Lemma leading_fraction_shorter x sc o s f scale rest :
  leadingFraction_from x sc o s = (f, scale, rest) ->
  (String.length rest <= String.length s)%nat.
Proof.
  revert x sc o. induction s as [|c s IH]; intros x sc o; simpl; [by intros [= _ _ <-]|].
  destruct (digit_value c); [|by intros [= _ _ <-]].
  repeat case_match; intros Hf%IH; lia.
Qed.

Lemma take_unit_shorter s u rest :
  take_unit s = (u, rest) -> (String.length u + String.length rest = String.length s)%nat.
Proof.
  revert u. induction s as [|c s IH]; intros u; simpl; [by intros [= <- <-]|].
  destruct (_ || _); [by intros [= <- <-]|].
  destruct (take_unit s) as [u' r']. intros [= <- <-]. simpl. by rewrite (IH u').
Qed.

(** A term consumes at least its unit, and its value is not negative. *)
Lemma parse_term_progress s v rest :
  parse_term s = Some (v, rest) -> (String.length rest < String.length s)%nat /\ 0 <= v.
Proof.
  unfold parse_term. destruct (leadingInt s) as [[w s1]|] eqn:Hi; [|done].
  pose proof (leading_int_shorter _ _ _ _ Hi) as H1.
  pose proof (leading_int_nonneg _ _ _ _ (Z.le_refl 0) Hi) as Hw.
  destruct (match s1 with String "."%char t => _ | _ => _ end) as [[[f scale] s2] post] eqn:Hf.
  assert (H2 : (String.length s2 <= String.length s1)%nat).
  { destruct s1 as [|c t]; [by simplify_eq|].
    destruct (decide (c = "."%char)) as [->|Hc].
    - destruct (leadingFraction t) as [[f' sc'] t'] eqn:Hl. simplify_eq.
      apply leading_fraction_shorter in Hl. simpl. lia.
    - destruct c as [[] [] [] [] [] [] [] []]; by simplify_eq. }
  destruct (negb _ && _); [done|]. destruct (take_unit s2) as [u s3] eqn:Hu.
  apply take_unit_shorter in Hu.
  destruct (String.eqb_spec u "") as [->|Hne]; [done|].
  assert (0 < String.length u)%nat by (destruct u; simpl; [done|lia]).
  destruct (unitMap u) as [unit|] eqn:Hunit; [|done].
  assert (0 < unit) by (unfold unitMap in Hunit; repeat case_match; by simplify_eq/=).
  destruct (_ <? w); [done|].
  destruct (0 <? f); [destruct (_ <? _)|]; intros [= <- <-]; (split; [lia|]).
  - pose proof (truncate_nonneg (SFmul 53 1024 (float64 f) (SFdiv 53 1024 (float64 unit) (float64 scale)))).
    unfold scaled. nia.
  - nia.
Qed.

#[local] Arguments parse_term : simpl never.

(** The fuel of [ParseDuration] never runs out. *)
Lemma parse_terms_fuel fuel fuel' d s :
  (String.length s <= fuel)%nat -> (String.length s <= fuel')%nat ->
  parse_terms fuel d s = parse_terms fuel' d s.
Proof.
  revert fuel' d s. induction fuel as [|fuel IH]; intros fuel' d [|c s] Hf Hf';
    [by destruct fuel'|simpl in Hf; lia|by destruct fuel'|].
  destruct fuel' as [|fuel']; [simpl in Hf'; lia|]. cbn [parse_terms].
  destruct (negb _); [done|].
  destruct (parse_term (String c s)) as [[v rest]|] eqn:Ht; [|done].
  apply parse_term_progress in Ht as [Hlt _].
  destruct (_ <? _); [done|]. apply IH; lia.
Qed.

Lemma parse_terms_range fuel d s r :
  0 <= d <= 2 ^ 63 -> parse_terms fuel d s = Some r -> 0 <= r <= 2 ^ 63.
Proof.
  revert d s. induction fuel as [|fuel IH]; intros d [|c s] Hd; cbn [parse_terms];
    [by intros [= <-]|done|by intros [= <-]|].
  destruct (negb _); [done|].
  destruct (parse_term (String c s)) as [[v rest]|] eqn:Ht; [|done].
  apply parse_term_progress in Ht as [_ Hv].
  destruct (Z.ltb_spec (2 ^ 63) (d + v)); [done|]. apply IH. lia.
Qed.

(** A parsed duration is an [int64]. *)
Lemma parse_duration_int64 s d : ParseDuration s = Some d -> in_int64 d.
Proof.
  unfold ParseDuration, in_int64, int64_min, int64_max.
  destruct (match s with EmptyString => _ | _ => _ end) as [neg t].
  destruct (String.eqb t "0"); [intros [= <-]; lia|]. destruct (String.eqb t ""); [done|].
  destruct (parse_terms _ 0 t) as [r|] eqn:Hp; [|done].
  apply parse_terms_range in Hp; [|lia]. destruct neg; [intros [= <-]; lia|].
  destruct (Z.ltb_spec (2 ^ 63 - 1) r); [done|]. intros [= <-]. lia.
Qed.

(** *** Plain numbers with a unit *)

Lemma leading_int_digits s rest x v :
  all_chars decimal s = true -> (forall c r, rest = String c r -> digit_value c = None) ->
  0 <= x -> digits_value x s = Some v -> v <= 2 ^ 63 ->
  leadingInt_from x (s +:+ rest) = Some (v, rest).
Proof.
  intros Hs Hrest. revert x. induction s as [|c s IH]; intros x Hx Hv Hle.
  - simpl in Hv. injection Hv as <-. destruct rest as [|c r]; [done|]. simpl.
    by rewrite (Hrest c r eq_refl).
  - simpl in Hs. apply andb_true_iff in Hs as [_ Hs]. simpl in Hv |- *.
    unfold String.append. simpl.
    destruct (digit_value c) as [d|] eqn:Hd; [|done]. pose proof (digit_value_range _ _ Hd).
    assert (Hmono : x * 10 + d <= v).
    { clear -Hv Hx H. assert (Hpos : 0 <= x * 10 + d) by lia. revert Hv Hpos.
      generalize (x * 10 + d). clear. induction s as [|c s IH]; intros y; simpl; [intros [= <-]; lia|].
      destruct (digit_value c) as [d|] eqn:Hd; [|done]. pose proof (digit_value_range _ _ Hd).
      intros Hv Hy. specialize (IH _ Hv). lia. }
    destruct (Z.ltb_spec (2 ^ 63 / 10) x).
    { assert (2 ^ 63 < x * 10) by (vm_compute (2 ^ 63 / 10) in *; lia). lia. }
    destruct (Z.ltb_spec (2 ^ 63) (x * 10 + d)); [lia|]. apply IH; [done|lia|done|done].
Qed.

Definition plain_unit (u : string) : Prop :=
  u <> "" /\ all_chars (fun c => negb (Ascii.eqb c "."%char || is_digit c)) u = true.

Lemma take_plain_unit u : plain_unit u -> take_unit u = (u, "").
Proof.
  intros [_ Hu]. induction u as [|c u IH]; [done|]. simpl in *.
  apply andb_true_iff in Hu as [Hc%negb_true_iff Hu]. by rewrite Hc, (IH Hu).
Qed.

Lemma plain_unit_head u c r :
  plain_unit u -> u = String c r -> c <> "."%char /\ digit_value c = None.
Proof.
  intros [_ Hu] ->. simpl in Hu. apply andb_true_iff in Hu as [Hc _].
  apply negb_true_iff, orb_false_iff in Hc as [Hp%Ascii.eqb_neq Hd]. split; [done|].
  unfold is_digit in Hd. by destruct (digit_value c).
Qed.

(** The digits of a positive number, then a unit. *)
Lemma parse_plain_term p u unit :
  plain_unit u -> unitMap u = Some unit -> 0 < unit -> Zpos p * unit <= 2 ^ 63 ->
  parse_term (pretty (Npos p) +:+ u) = Some (Zpos p * unit, "").
Proof.
  intros Hu Hunit Hpos Hmax. pose proof (pretty_N_nonempty (Npos p)) as Hne.
  assert (Hlead : leadingInt (pretty (Npos p) +:+ u) = Some (Zpos p, u)).
  { apply leading_int_digits; [apply pretty_N_decimal| |lia|apply pretty_N_value|nia].
    intros c r E. by apply (plain_unit_head u c r). }
  unfold parse_term. rewrite Hlead.
  assert (Hlen : Nat.eqb (String.length (pretty (Npos p) +:+ u)) (String.length u) = false).
  { apply Nat.eqb_neq. rewrite string_length_app. destruct (pretty (Npos p)); [done|]. simpl. lia. }
  rewrite Hlen. cbn [negb andb].
  assert (Hm : forall A (point : string -> A) (none : A),
             match u with String "."%char t => point t | _ => none end = none).
  { intros A point none. destruct u as [|c r] eqn:E; [done|].
    destruct (plain_unit_head u c r) as [Hc _]; [by rewrite E|done|].
    destruct c as [[] [] [] [] [] [] [] []]; done. }
  rewrite Hm, (take_plain_unit u Hu).
  destruct (String.eqb_spec u "") as [->|_]; [by destruct Hu|]. rewrite Hunit.
  destruct (Z.ltb_spec (2 ^ 63 / unit) (Zpos p)); [|done].
  assert (Zpos p <= 2 ^ 63 / unit); [|lia]. apply Z.div_le_lower_bound; lia.
Qed.

(** A positive number followed by a unit reads as that many units. *)
Lemma parse_number_with_unit n u unit :
  0 < n -> plain_unit u -> unitMap u = Some unit -> 0 < unit -> n * unit <= int64_max ->
  ParseDuration (Itoa n +:+ u) = Some (n * unit).
Proof.
  intros Hn Hu Hunit Hpos Hmax. destruct n as [|p|]; try lia. unfold int64_max in Hmax.
  pose proof (parse_plain_term p u unit Hu Hunit Hpos ltac:(lia)) as Hterm.
  pose proof (pretty_N_decimal (Npos p)) as Hdec. rewrite itoa_pos.
  destruct (pretty (Npos p)) as [|c r] eqn:Hs; [by destruct (pretty_N_nonempty (Npos p))|].
  simpl in Hdec. apply andb_true_iff in Hdec as [Hc _].
  change (String c r +:+ u) with (String c (r +:+ u)) in *. set (t := r +:+ u) in *.
  assert (Hdig : is_digit c = true).
  { unfold decimal in Hc. unfold is_digit, digit_value. by rewrite Hc. }
  unfold ParseDuration.
  assert (Hsign : match String c t with
                  | String "-"%char rest => (true, rest)
                  | String "+"%char rest => (false, rest)
                  | _ => (false, String c t)
                  end = (false, String c t)).
  { destruct c as [[] [] [] [] [] [] [] []]; done. }
  rewrite Hsign. destruct (String.eqb_spec (String c t) "0") as [E|_]; [by rewrite E in Hterm|].
  cbn [String.eqb String.length parse_terms]. rewrite Hdig, orb_true_r. cbn [negb]. rewrite Hterm.
  rewrite Z.add_0_l. destruct (Z.ltb_spec (2 ^ 63) (Zpos p * unit)); [lia|].
  assert (Hend : parse_terms (String.length t) (Zpos p * unit) "" = Some (Zpos p * unit))
    by (by destruct (String.length t)).
  rewrite Hend. destruct (Z.ltb_spec (2 ^ 63 - 1) (Zpos p * unit)); [lia|done].
Qed.
