(* ===== verification/Sha256.v ===== *)
(** SHA-256 and HMAC-SHA-256 (Go's [crypto/sha256] and [crypto/hmac]) on byte
    strings, executable, with the published test vectors.  The development
    uses two facts of them: they are functions, and a digest has 32 bytes. *)
From S2P Require Import Prelude GoStrings.

Definition word (z : Z) : Z := z mod 2 ^ 32.

Definition rotr (n x : Z) : Z :=
  Z.lor (Z.shiftr x n) (word (Z.shiftl x (32 - n))).

Definition ch (x y z : Z) : Z := Z.lxor (Z.land x y) (Z.land (Z.lxor x (2 ^ 32 - 1)) z).

Definition maj (x y z : Z) : Z :=
  Z.lxor (Z.lxor (Z.land x y) (Z.land x z)) (Z.land y z).

Definition big_sigma0 (x : Z) : Z := Z.lxor (Z.lxor (rotr 2 x) (rotr 13 x)) (rotr 22 x).

Definition big_sigma1 (x : Z) : Z := Z.lxor (Z.lxor (rotr 6 x) (rotr 11 x)) (rotr 25 x).

Definition small_sigma0 (x : Z) : Z :=
  Z.lxor (Z.lxor (rotr 7 x) (rotr 18 x)) (Z.shiftr x 3).

Definition small_sigma1 (x : Z) : Z :=
  Z.lxor (Z.lxor (rotr 17 x) (rotr 19 x)) (Z.shiftr x 10).

(** The constants of the standard are the first 32 fractional bits of the cube
    and square roots of the first primes. *)
Definition primes : list Z :=
  filter (fun p => forallb (fun d => negb (p mod d =? 0)) (seqZ 2 (p - 2)) = true) (seqZ 2 310).

(** The integer cube root of [n], from its highest of [bits] bits down. *)
Fixpoint cube_root (bits : nat) (r n : Z) : Z :=
  match bits with
  | O => r
  | Datatypes.S bits =>
      let r' := r + 2 ^ Z.of_nat bits in
      cube_root bits (if r' * r' * r' <=? n then r' else r) n
  end.

Definition round_constants : list Z :=
  Eval vm_compute in map (fun p => word (cube_root 36 0 (p * 2 ^ 96))) primes.

Record regs := Regs { ra : Z; rb : Z; rc : Z; rd : Z; re : Z; rf : Z; rg : Z; rh : Z }.

Definition initial_regs : regs :=
  Eval vm_compute in
    let h i := word (Z.sqrt (nth i primes 0 * 2 ^ 64)) in
    Regs (h 0%nat) (h 1%nat) (h 2%nat) (h 3%nat) (h 4%nat) (h 5%nat) (h 6%nat) (h 7%nat).

(** The message schedule, latest word first: each round appends one word. *)
Fixpoint extend (rounds : nat) (ws : list Z) : list Z :=
  match rounds with
  | O => ws
  | Datatypes.S rounds =>
      let w := word (small_sigma1 (nth 1 ws 0) + nth 6 ws 0
                     + small_sigma0 (nth 14 ws 0) + nth 15 ws 0) in
      extend rounds (w :: ws)
  end.

Definition round (s : regs) (kw : Z * Z) : regs :=
  let '(k, w) := kw in
  let t1 := word (rh s + big_sigma1 (re s) + ch (re s) (rf s) (rg s) + k + w) in
  let t2 := word (big_sigma0 (ra s) + maj (ra s) (rb s) (rc s)) in
  Regs (word (t1 + t2)) (ra s) (rb s) (rc s) (word (rd s + t1)) (re s) (rf s) (rg s).

Definition compress (s : regs) (block : list Z) : regs :=
  let ws := reverse (extend 48 (reverse block)) in
  let s' := fold_left round (zip round_constants ws) s in
  Regs (word (ra s + ra s')) (word (rb s + rb s')) (word (rc s + rc s'))
       (word (rd s + rd s')) (word (re s + re s')) (word (rf s + rf s'))
       (word (rg s + rg s')) (word (rh s + rh s')).

(** Big-endian words of a byte list, and bytes of a word. *)
Fixpoint words_of (l : list Z) : list Z :=
  match l with
  | a :: b :: c :: d :: l => (((a * 256 + b) * 256 + c) * 256 + d) :: words_of l
  | _ => []
  end.

Definition bytes_of_word (w : Z) : list Z :=
  [w / 2 ^ 24 mod 256; w / 2 ^ 16 mod 256; w / 2 ^ 8 mod 256; w mod 256].

Definition pad_message (l : list Z) : list Z :=
  let n := Z.of_nat (length l) in
  let fill := (55 - n) mod 64 in
  l ++ [128] ++ repeat 0 (Z.to_nat fill)
    ++ bytes_of_word (n * 8 / 2 ^ 32) ++ bytes_of_word (n * 8 mod 2 ^ 32).

(** One block of sixteen words per unit of fuel; the padded length is enough. *)
Fixpoint digest_blocks (fuel : nat) (s : regs) (ws : list Z) : regs :=
  match fuel, ws with
  | Datatypes.S fuel, _ :: _ => digest_blocks fuel (compress s (take 16 ws)) (drop 16 ws)
  | _, _ => s
  end.

Definition bytes_of_string (s : string) : list Z :=
  map byte_of (String.list_ascii_of_string s).

Definition sha256 (msg : string) : string :=
  let ws := words_of (pad_message (bytes_of_string msg)) in
  let r := digest_blocks (length ws) initial_regs ws in
  bytes (concat (map bytes_of_word [ra r; rb r; rc r; rd r; re r; rf r; rg r; rh r])).

Definition hmac_key (key : string) : list Z :=
  let k := bytes_of_string (if (64 <? len key) then sha256 key else key) in
  k ++ repeat 0 (64 - length k).

Definition xor_pad (b : Z) (key : list Z) : string := bytes (map (Z.lxor b) key).

(** [hmac.New(sha256.New, key)] fed [msg] and summed. *)
Definition hmac_sha256 (key msg : string) : string :=
  let k := hmac_key key in
  sha256 (xor_pad 0x5c k +:+ sha256 (xor_pad 0x36 k +:+ msg)).

Definition sha256_size : Z := 32.

(** ** Facts *)

Lemma bytes_length l : String.length (bytes l) = length l.
Proof.
  unfold bytes. induction l as [|z l IH]; [done|].
  cbn [map String.string_of_list_ascii String.length length]. by rewrite IH.
Qed.

Lemma sha256_length msg : len (sha256 msg) = sha256_size.
Proof. unfold len, sha256. rewrite bytes_length. reflexivity. Qed.

Lemma hmac_sha256_length key msg : len (hmac_sha256 key msg) = sha256_size.
Proof. apply sha256_length. Qed.

#[export] Hint Resolve sha256_length hmac_sha256_length : hub.

Example sha256_abc :
  hex_encode (sha256 "abc")
  = "ba7816bf8f01cfea414140de5dae2223b00361a396177a9cb410ff61f20015ad".
Proof. vm_compute. reflexivity. Qed.

Example sha256_two_blocks :
  hex_encode (sha256 "abcdbcdecdefdefgefghfghighijhijkijkljklmklmnlmnomnopnopq")
  = "248d6a61d20638b8e5c026930c3e6039a33ce45964ff2167f6ecedd419db06c1".
Proof. vm_compute. reflexivity. Qed.

Example hmac_rfc4231_case2 :
  hex_encode (hmac_sha256 "Jefe" "what do ya want for nothing?")
  = "5bdcc146bf60754e6a042426089575c75a003f089d2739839dec58b964ec3843".
Proof. vm_compute. reflexivity. Qed.
