(* ===== verification/Model.v ===== *)
(** The domain data of [internal/commerce/model.go] and the audit types of
    [internal/commerce/store.go], with the event envelope rules.

    A struct is a record whose fields carry the struct's name first
    ([Order_Status] is [Order.Status]).  A pointer field is an [option]; the
    stores clone on the way in and out, so no two records share one.  A
    [map[string]any] is a [gmap string any], its nested literal maps are
    association lists in key order, and a nil map is the empty map (the code
    only ranges over it, indexes it and takes its length). *)
From S2P Require Import Prelude GoStrings GoTime.

Record Money := mkMoney {
  Money_Amount : Z;
  Money_Currency : string
}.

Record CustomerInput := mkCustomerInput {
  CustomerInput_ID : string;
  CustomerInput_Email : string;
  CustomerInput_FullName : string
}.

Record AddressInput := mkAddressInput {
  AddressInput_Line1 : string;
  AddressInput_Line2 : string;
  AddressInput_City : string;
  AddressInput_State : string;
  AddressInput_PostalCode : string;
  AddressInput_Country : string
}.

Record OrderItemInput := mkOrderItemInput {
  OrderItemInput_SKU : string;
  OrderItemInput_Quantity : Z;
  OrderItemInput_UnitPrice : Money
}.

Record PaymentMethodInput := mkPaymentMethodInput {
  PaymentMethodInput_Provider : string;
  PaymentMethodInput_PaymentToken : string
}.

Record CreateOrderCommand := mkCreateOrderCommand {
  Cmd_ExternalOrderID : string;
  Cmd_Currency : string;
  Cmd_Customer : CustomerInput;
  Cmd_ShippingAddress : AddressInput;
  Cmd_Items : list OrderItemInput;
  Cmd_PaymentMethod : PaymentMethodInput
}.

(** [type OrderStatus string]: any string, with nine named constants. *)
Definition OrderStatus : Type := string.

Definition StatusPendingFulfillment : OrderStatus := "pending_fulfillment".

Definition StatusInventoryReserved : OrderStatus := "inventory_reserved".

Definition StatusPaymentAuthorized : OrderStatus := "payment_authorized".

Definition StatusShipmentCreated : OrderStatus := "shipment_created".

Definition StatusCancellationPending : OrderStatus := "cancellation_pending".

Definition StatusManualReview : OrderStatus := "manual_review".

Definition StatusCancelled : OrderStatus := "cancelled".

Definition StatusCompleted : OrderStatus := "completed".

Definition StatusFailed : OrderStatus := "failed".

Record OrderItem := mkOrderItem {
  OrderItem_SKU : string;
  OrderItem_Quantity : Z;
  OrderItem_UnitPrice : Money;
  OrderItem_ReservationStatus : string
}.

Record OrderTotals := mkOrderTotals {
  Totals_Subtotal : Money;
  Totals_Shipping : Money;
  Totals_Total : Money
}.

Record Payment := mkPayment {
  Payment_Provider : string;
  Payment_Status : string;
  Payment_AuthorizationID : string;
  Payment_CredentialRef : string
}.

Record ShipmentEvent := mkShipmentEvent {
  ShipmentEvent_OccurredAt : Time;
  ShipmentEvent_Status : string;
  ShipmentEvent_Description : string
}.

Record Shipment := mkShipment {
  Shipment_ShipmentID : string;
  Shipment_Status : string;
  Shipment_Carrier : string;
  Shipment_TrackingNumber : string;
  Shipment_Events : list ShipmentEvent
}.

Record ShipmentRecord := mkShipmentRecord {
  ShipmentRecord_ShipmentID : string;
  ShipmentRecord_OrderID : string;
  ShipmentRecord_MerchantID : string;
  ShipmentRecord_Carrier : string;
  ShipmentRecord_TrackingNumber : string;
  ShipmentRecord_Status : string;
  ShipmentRecord_Events : list ShipmentEvent
}.

Record Order := mkOrder {
  Order_OrderID : string;
  Order_MerchantID : string;
  Order_ExternalOrderID : string;
  Order_Status : OrderStatus;
  Order_Currency : string;
  Order_Totals : OrderTotals;
  Order_Items : list OrderItem;
  Order_Payment : option Payment;
  Order_Shipment : option Shipment;
  Order_ShippingAddressRef : string;
  Order_CreatedAt : Time;
  Order_UpdatedAt : Time
}.

(** The dynamic values the sources put in a payload. *)
Inductive any : Type :=
| AStr (s : string)
| AInt (n : Z)
| AMap (entries : list (string * any))
| AList (elems : list any).

Definition EventSchemaVersion : Z := 1.

Record OutboxEvent := mkOutboxEvent {
  Event_MessageID : string;
  Event_EventType : string;
  Event_SchemaVersion : Z;
  Event_OccurredAt : Time;
  Event_Producer : string;
  Event_MerchantID : string;
  Event_OrderID : string;
  Event_CorrelationID : string;
  Event_CausationID : string;
  Event_Payload : gmap string any
}.

Record AuditActor := mkAuditActor {
  AuditActor_Type : string;
  AuditActor_ID : string;
  AuditActor_Reason : string
}.

Record AuditLog := mkAuditLog {
  Audit_MerchantID : string;
  Audit_OrderID : string;
  Audit_ActorType : string;
  Audit_ActorID : string;
  Audit_Action : string;
  Audit_CorrelationID : string;
  Audit_CreatedAt : Time;
  Audit_Details : gmap string string
}.

(** ** Field assignments *)

Definition set_Order_Status (v : OrderStatus) (o : Order) : Order :=
  mkOrder (Order_OrderID o) (Order_MerchantID o) (Order_ExternalOrderID o) v
    (Order_Currency o) (Order_Totals o) (Order_Items o) (Order_Payment o)
    (Order_Shipment o) (Order_ShippingAddressRef o) (Order_CreatedAt o) (Order_UpdatedAt o).

Definition set_Order_Items (v : list OrderItem) (o : Order) : Order :=
  mkOrder (Order_OrderID o) (Order_MerchantID o) (Order_ExternalOrderID o) (Order_Status o)
    (Order_Currency o) (Order_Totals o) v (Order_Payment o)
    (Order_Shipment o) (Order_ShippingAddressRef o) (Order_CreatedAt o) (Order_UpdatedAt o).

Definition set_Order_Payment (v : option Payment) (o : Order) : Order :=
  mkOrder (Order_OrderID o) (Order_MerchantID o) (Order_ExternalOrderID o) (Order_Status o)
    (Order_Currency o) (Order_Totals o) (Order_Items o) v
    (Order_Shipment o) (Order_ShippingAddressRef o) (Order_CreatedAt o) (Order_UpdatedAt o).

Definition set_Order_Shipment (v : option Shipment) (o : Order) : Order :=
  mkOrder (Order_OrderID o) (Order_MerchantID o) (Order_ExternalOrderID o) (Order_Status o)
    (Order_Currency o) (Order_Totals o) (Order_Items o) (Order_Payment o)
    v (Order_ShippingAddressRef o) (Order_CreatedAt o) (Order_UpdatedAt o).

Definition set_Order_UpdatedAt (v : Time) (o : Order) : Order :=
  mkOrder (Order_OrderID o) (Order_MerchantID o) (Order_ExternalOrderID o) (Order_Status o)
    (Order_Currency o) (Order_Totals o) (Order_Items o) (Order_Payment o)
    (Order_Shipment o) (Order_ShippingAddressRef o) (Order_CreatedAt o) v.

Definition set_ReservationStatus (v : string) (i : OrderItem) : OrderItem :=
  mkOrderItem (OrderItem_SKU i) (OrderItem_Quantity i) (OrderItem_UnitPrice i) v.

Definition set_Payment_Status (v : string) (p : Payment) : Payment :=
  mkPayment (Payment_Provider p) v (Payment_AuthorizationID p) (Payment_CredentialRef p).

Definition set_Payment_Provider (v : string) (p : Payment) : Payment :=
  mkPayment v (Payment_Status p) (Payment_AuthorizationID p) (Payment_CredentialRef p).

Definition set_Payment_AuthorizationID (v : string) (p : Payment) : Payment :=
  mkPayment (Payment_Provider p) (Payment_Status p) v (Payment_CredentialRef p).

Definition set_Event_SchemaVersion (v : Z) (e : OutboxEvent) : OutboxEvent :=
  mkOutboxEvent (Event_MessageID e) (Event_EventType e) v (Event_OccurredAt e)
    (Event_Producer e) (Event_MerchantID e) (Event_OrderID e) (Event_CorrelationID e)
    (Event_CausationID e) (Event_Payload e).

Definition set_Event_Producer (v : string) (e : OutboxEvent) : OutboxEvent :=
  mkOutboxEvent (Event_MessageID e) (Event_EventType e) (Event_SchemaVersion e)
    (Event_OccurredAt e) v (Event_MerchantID e) (Event_OrderID e) (Event_CorrelationID e)
    (Event_CausationID e) (Event_Payload e).

Definition set_Event_CausationID (v : string) (e : OutboxEvent) : OutboxEvent :=
  mkOutboxEvent (Event_MessageID e) (Event_EventType e) (Event_SchemaVersion e)
    (Event_OccurredAt e) (Event_Producer e) (Event_MerchantID e) (Event_OrderID e)
    (Event_CorrelationID e) v (Event_Payload e).

Definition set_Event_Payload (v : gmap string any) (e : OutboxEvent) : OutboxEvent :=
  mkOutboxEvent (Event_MessageID e) (Event_EventType e) (Event_SchemaVersion e)
    (Event_OccurredAt e) (Event_Producer e) (Event_MerchantID e) (Event_OrderID e)
    (Event_CorrelationID e) (Event_CausationID e) v.

Definition set_Audit_Detail (k v : string) (a : AuditLog) : AuditLog :=
  mkAuditLog (Audit_MerchantID a) (Audit_OrderID a) (Audit_ActorType a) (Audit_ActorID a)
    (Audit_Action a) (Audit_CorrelationID a) (Audit_CreatedAt a)
    (<[k := v]> (Audit_Details a)).

(** ** Event envelope *)

(** [details[key]] of a [map[string]string]: the empty string when absent. *)
Definition detail (details : gmap string string) (key : string) : string :=
  default "" (details !! key).

(** [if _, ok := payload[key]; !ok { payload[key] = v }]. *)
Definition put_absent (key : string) (v : any) (payload : gmap string any) : gmap string any :=
  match payload !! key with
  | Some _ => payload
  | None => <[key := v]> payload
  end.

Definition ProducerForEventType (eventType : string) : string :=
  if one_of eventType ["order.created"; "order.cancel_requested"] then "orders-api"
  else if one_of eventType ["inventory.reserved"; "inventory.rejected"] then "inventory-worker"
  else if one_of eventType ["payment.authorized"; "payment.failed"] then "payment-worker"
  else if one_of eventType ["shipment.created"; "shipment.failed"] then "shipment-worker"
  else if one_of eventType ["order.completed"; "order.cancelled"; "order.manual_review_required"]
  then "orders-worker"
  else "fulfillhub".

Definition status_payload (status : OrderStatus) : gmap string any :=
  {["order_status" := AStr status]}.

(** The stage a failure event names by default. *)
Definition failure_stage (eventType : string) : string :=
  if String.eqb eventType "inventory.rejected" then "inventory"
  else if String.eqb eventType "payment.failed" then "payment"
  else if String.eqb eventType "shipment.failed" then "shipment"
  else "unknown".

Definition DefaultEventPayload (event : OutboxEvent) : gmap string any :=
  let ty := Event_EventType event in
  let at_time key payload :=
    if negb (IsZero (Event_OccurredAt event))
    then <[key := AStr (FormatRFC3339Nano (Event_OccurredAt event))]> payload
    else payload in
  if String.eqb ty "order.created" then status_payload StatusPendingFulfillment
  else if String.eqb ty "inventory.reserved" then status_payload StatusInventoryReserved
  else if String.eqb ty "payment.authorized" then status_payload StatusPaymentAuthorized
  else if String.eqb ty "shipment.created" then status_payload StatusShipmentCreated
  else if String.eqb ty "order.cancel_requested" then status_payload StatusCancellationPending
  else if String.eqb ty "order.completed"
  then at_time "completed_at" (status_payload StatusCompleted)
  else if String.eqb ty "order.cancelled"
  then at_time "cancelled_at" (status_payload StatusCancelled)
  else if String.eqb ty "order.manual_review_required" then status_payload StatusManualReview
  else if one_of ty ["inventory.rejected"; "payment.failed"; "shipment.failed"]
  then {["failure" := AMap [("reason", AStr "unspecified"); ("stage", AStr (failure_stage ty))]]}
  else ∅.

Definition WithDefaultCausation (e : OutboxEvent) : OutboxEvent :=
  if String.eqb (Event_CausationID e) "" then set_Event_CausationID (Event_MessageID e) e else e.

Definition WithEnvelopeDefaults (e : OutboxEvent) : OutboxEvent :=
  let e := WithDefaultCausation e in
  let e := if Event_SchemaVersion e =? 0 then set_Event_SchemaVersion EventSchemaVersion e else e in
  let e := if String.eqb (Event_Producer e) ""
           then set_Event_Producer (ProducerForEventType (Event_EventType e)) e else e in
  if Nat.eqb (size (Event_Payload e)) 0 then set_Event_Payload (DefaultEventPayload e) e else e.

Definition OrderStatusEventPayload (status : OrderStatus) (at_ : Time) (audit : AuditLog)
    (existing : gmap string any) : gmap string any :=
  let payload := <["order_status" := AStr status]> existing in
  if String.eqb status StatusCancellationPending then
    put_absent "requested_by"
      (AMap [("id", AStr (TrimSpace (Audit_ActorID audit)));
             ("type", AStr (TrimSpace (Audit_ActorType audit)))])
      (put_absent "reason" (AStr (TrimSpace (detail (Audit_Details audit) "reason"))) payload)
  else if String.eqb status StatusCompleted then
    put_absent "completed_at" (AStr (FormatRFC3339Nano at_)) payload
  else if String.eqb status StatusCancelled then
    put_absent "cancelled_at" (AStr (FormatRFC3339Nano at_)) payload
  else if String.eqb status StatusManualReview then
    let reason := TrimSpace (detail (Audit_Details audit) "review_reason") in
    if String.eqb reason "" then payload
    else put_absent "review_reason" (AStr reason) payload
  else payload.

Definition failurePayload (stage reason : string) : gmap string any :=
  let reason := if String.eqb reason "" then "unspecified" else reason in
  {["failure" := AMap [("reason", AStr reason); ("stage", AStr stage)]]}.

(** ** Facts *)

(** An event that already carries every envelope default. *)
Definition normalized (e : OutboxEvent) : Prop := WithEnvelopeDefaults e = e.

(** What [WithEnvelopeDefaults] computes, field by field. *)
Lemma envelope_fields e :
  let e' := WithEnvelopeDefaults e in
  Event_MessageID e' = Event_MessageID e
  /\ Event_EventType e' = Event_EventType e
  /\ Event_OccurredAt e' = Event_OccurredAt e
  /\ Event_MerchantID e' = Event_MerchantID e
  /\ Event_OrderID e' = Event_OrderID e
  /\ Event_CorrelationID e' = Event_CorrelationID e
  /\ Event_CausationID e'
     = (if String.eqb (Event_CausationID e) "" then Event_MessageID e else Event_CausationID e)
  /\ Event_SchemaVersion e'
     = (if Event_SchemaVersion e =? 0 then EventSchemaVersion else Event_SchemaVersion e)
  /\ Event_Producer e'
     = (if String.eqb (Event_Producer e) ""
        then ProducerForEventType (Event_EventType e) else Event_Producer e)
  /\ Event_Payload e'
     = (if Nat.eqb (size (Event_Payload e)) 0
        then DefaultEventPayload e else Event_Payload e).
Proof.
  unfold WithEnvelopeDefaults, WithDefaultCausation.
  repeat (case_match; simpl in * ); repeat split; simpl; try done; congruence.
Qed.

Lemma producer_nonempty ty : ProducerForEventType ty <> "".
Proof. unfold ProducerForEventType. repeat case_match; done. Qed.

(** Two events agree when their fields do. *)
Lemma event_ext a b :
  Event_MessageID a = Event_MessageID b -> Event_EventType a = Event_EventType b ->
  Event_SchemaVersion a = Event_SchemaVersion b -> Event_OccurredAt a = Event_OccurredAt b ->
  Event_Producer a = Event_Producer b -> Event_MerchantID a = Event_MerchantID b ->
  Event_OrderID a = Event_OrderID b -> Event_CorrelationID a = Event_CorrelationID b ->
  Event_CausationID a = Event_CausationID b -> Event_Payload a = Event_Payload b -> a = b.
Proof. destruct a, b; simpl; intros; by subst. Qed.

Lemma default_payload_ext a b :
  Event_EventType a = Event_EventType b -> Event_OccurredAt a = Event_OccurredAt b ->
  DefaultEventPayload a = DefaultEventPayload b.
Proof. unfold DefaultEventPayload. by intros -> ->. Qed.

Lemma envelope_normalized e : normalized (WithEnvelopeDefaults e).
Proof.
  unfold normalized. set (e1 := WithEnvelopeDefaults e).
  destruct (envelope_fields e) as (M1 & T1 & O1 & Me1 & Or1 & C1 & Ca1 & S1 & P1 & Pl1).
  destruct (envelope_fields e1) as (M2 & T2 & O2 & Me2 & Or2 & C2 & Ca2 & S2 & P2 & Pl2).
  fold e1 in M1, T1, O1, Me1, Or1, C1, Ca1, S1, P1, Pl1.
  apply event_ext; try assumption.
  - rewrite S2. destruct (Event_SchemaVersion e1 =? 0) eqn:E; [|done].
    rewrite S1 in E. destruct (Event_SchemaVersion e =? 0) eqn:E'; [done|congruence].
  - rewrite P2. destruct (String.eqb (Event_Producer e1) "") eqn:E; [|done].
    apply String.eqb_eq in E. by rewrite T1, E in *; destruct (producer_nonempty (Event_EventType e));
      destruct (String.eqb (Event_Producer e) "") eqn:E'; [|apply String.eqb_neq in E'].
  - rewrite Ca2. destruct (String.eqb (Event_CausationID e1) "") eqn:E; [|done].
    apply String.eqb_eq in E. rewrite M1, E. rewrite Ca1 in E.
    destruct (String.eqb (Event_CausationID e) "") eqn:E'; [done|].
    by apply String.eqb_neq in E'.
  - rewrite Pl2. destruct (Nat.eqb (size (Event_Payload e1)) 0) eqn:E; [|done].
    rewrite Pl1 in *. destruct (Nat.eqb (size (Event_Payload e)) 0) eqn:E'; [|congruence].
    by apply default_payload_ext.
Qed.

#[export] Hint Resolve envelope_normalized : hub.

(** The eleven event types of the catalogue. *)
Definition catalogue : list string :=
  ["order.created"; "inventory.reserved"; "inventory.rejected"; "payment.authorized";
   "payment.failed"; "shipment.created"; "shipment.failed"; "order.cancel_requested";
   "order.completed"; "order.cancelled"; "order.manual_review_required"].

Lemma payload_nonempty_size (p : gmap string any) : p <> ∅ -> Nat.eqb (size p) 0 = false.
Proof. intros H. apply Nat.eqb_neq. intros E. by apply map_size_empty_iff in E. Qed.

Lemma default_payload_nonempty e :
  Event_EventType e ∈ catalogue -> DefaultEventPayload e <> ∅.
Proof.
  unfold DefaultEventPayload, status_payload. destruct (negb _);
    unfold catalogue; rewrite !elem_of_cons; intros H E;
    assert (Hl : forall k, (∅ : gmap string any) !! k = None) by (intros; apply lookup_empty);
    rewrite <- E in Hl; destruct_or?; try (by apply elem_of_nil in H);
    match goal with Hty : Event_EventType e = _ |- _ => rewrite Hty in Hl end;
    solve [by specialize (Hl "order_status") | by specialize (Hl "failure")].
Qed.

(** [put_absent] keeps every entry that is there. *)
Lemma put_absent_keeps k v p k' x : p !! k' = Some x -> put_absent k v p !! k' = Some x.
Proof.
  unfold put_absent. intros H. destruct (p !! k) eqn:E; [done|].
  rewrite lookup_insert_ne by congruence. done.
Qed.

Lemma put_absent_present k v p : is_Some (put_absent k v p !! k).
Proof. unfold put_absent. destruct (p !! k) eqn:E; [by rewrite E|]. by rewrite lookup_insert_eq. Qed.

#[export] Hint Resolve put_absent_keeps put_absent_present : hub.

Lemma status_event_payload_status s at_ audit p :
  OrderStatusEventPayload s at_ audit p !! "order_status" = Some (AStr s).
Proof.
  unfold OrderStatusEventPayload. repeat case_match;
    repeat apply put_absent_keeps; apply lookup_insert_eq.
Qed.

Lemma status_event_payload_keeps s at_ audit p k x :
  k <> "order_status" -> p !! k = Some x ->
  OrderStatusEventPayload s at_ audit p !! k = Some x.
Proof.
  intros Hk Hp.
  assert (H : <["order_status" := AStr s]> p !! k = Some x) by by rewrite lookup_insert_ne.
  unfold OrderStatusEventPayload. repeat case_match; repeat apply put_absent_keeps; done.
Qed.
