(* ===== verification/StateMachine.v ===== *)
(** The order state machine of [internal/commerce/state_machine.go], its graph
    as an inductive relation, and what follows for whole histories. *)
From S2P Require Import Prelude GoStrings GoTime Model.

Definition ErrDuplicateOrder : error := Sentinel "duplicate order".

Definition ErrInvalidStateTransition : error := Sentinel "invalid state transition".

Definition ErrNotFound : error := Sentinel "not found".

Definition ErrInsufficientStock : error := Sentinel "insufficient stock".

Definition ValidOrderStatuses : list OrderStatus :=
  [StatusPendingFulfillment; StatusInventoryReserved; StatusPaymentAuthorized;
   StatusShipmentCreated; StatusCancellationPending; StatusManualReview;
   StatusCancelled; StatusCompleted; StatusFailed].

Definition IsValidOrderStatus (status : OrderStatus) : bool :=
  existsb (String.eqb status) ValidOrderStatuses.

Definition CanTransitionOrderStatus (from to : OrderStatus) : bool :=
  if String.eqb from to then IsValidOrderStatus to
  else if String.eqb from StatusPendingFulfillment then
    one_of to [StatusInventoryReserved; StatusCancellationPending; StatusFailed]
  else if String.eqb from StatusInventoryReserved then
    one_of to [StatusPaymentAuthorized; StatusCancellationPending; StatusCancelled]
  else if String.eqb from StatusPaymentAuthorized then
    one_of to [StatusShipmentCreated; StatusCancellationPending]
  else if String.eqb from StatusShipmentCreated then
    one_of to [StatusCompleted; StatusCancellationPending]
  else if String.eqb from StatusCancellationPending then
    one_of to [StatusCancelled; StatusManualReview]
  else false.

Definition ValidateOrderTransition (from to : OrderStatus) : option error :=
  if negb (IsValidOrderStatus from) then
    Some (Wrap "" ErrInvalidStateTransition (": unknown source order status " +:+ quote from))
  else if negb (IsValidOrderStatus to) then
    Some (Wrap "" ErrInvalidStateTransition (": unknown target order status " +:+ quote to))
  else if negb (CanTransitionOrderStatus from to) then
    Some (Wrap "" ErrInvalidStateTransition
            (": cannot move order from " +:+ quote from +:+ " to " +:+ quote to))
  else None.

(** ** Specification: the life cycle graph *)

(** One proper move of an order, the edges of the life cycle. *)
Inductive Moves : OrderStatus -> OrderStatus -> Prop :=
| move_reserve : Moves StatusPendingFulfillment StatusInventoryReserved
| move_fail : Moves StatusPendingFulfillment StatusFailed
| move_authorize : Moves StatusInventoryReserved StatusPaymentAuthorized
| move_drop : Moves StatusInventoryReserved StatusCancelled
| move_ship : Moves StatusPaymentAuthorized StatusShipmentCreated
| move_complete : Moves StatusShipmentCreated StatusCompleted
| move_cancel from :
    from ∈ [StatusPendingFulfillment; StatusInventoryReserved; StatusPaymentAuthorized;
            StatusShipmentCreated] ->
    Moves from StatusCancellationPending
| move_cancelled : Moves StatusCancellationPending StatusCancelled
| move_review : Moves StatusCancellationPending StatusManualReview.

(** What the code accepts: a proper move, or a rewrite of a known status. *)
Definition Allowed (from to : OrderStatus) : Prop :=
  (from = to /\ from ∈ ValidOrderStatuses) \/ Moves from to.

(** A status history: consecutive statuses are allowed moves. *)
Definition History : OrderStatus -> OrderStatus -> Prop := rtc Allowed.

Definition terminal (s : OrderStatus) : bool :=
  one_of s [StatusCompleted; StatusCancelled; StatusManualReview; StatusFailed].

(** Distance left to a terminal status; every proper move lowers it. *)
Definition rank (s : OrderStatus) : nat :=
  if String.eqb s StatusPendingFulfillment then 5
  else if String.eqb s StatusInventoryReserved then 4
  else if String.eqb s StatusPaymentAuthorized then 3
  else if String.eqb s StatusShipmentCreated then 2
  else if String.eqb s StatusCancellationPending then 1
  else 0%nat.

(** ** Facts *)

Lemma is_valid_spec s : IsValidOrderStatus s = true <-> s ∈ ValidOrderStatuses.
Proof. apply one_of_spec. Qed.

#[export] Instance is_valid_dec s : Decision (s ∈ ValidOrderStatuses).
Proof. apply _. Defined.

(** Enumerate the nine statuses behind a membership hypothesis. *)
Ltac each_status H :=
  unfold ValidOrderStatuses in H; rewrite ?elem_of_cons in H;
  destruct_or? H; try (by apply elem_of_nil in H); subst.

Lemma moves_valid from to :
  Moves from to -> from ∈ ValidOrderStatuses /\ to ∈ ValidOrderStatuses.
Proof.
  assert (H : forall s, IsValidOrderStatus s = true -> s ∈ ValidOrderStatuses)
    by apply is_valid_spec.
  destruct 1 as [| | | | | |from Hin| |]; split; try (by apply H).
  each_status Hin; by apply H.
Qed.

Lemma allowed_valid from to :
  Allowed from to -> from ∈ ValidOrderStatuses /\ to ∈ ValidOrderStatuses.
Proof. intros [[<- H]|H]; [done|by apply moves_valid]. Qed.

Lemma moves_proper from to : Moves from to -> from <> to.
Proof.
  destruct 1 as [| | | | | |from Hin| |]; try done.
  each_status Hin; done.
Qed.

Lemma can_transition_moves from to :
  from <> to -> CanTransitionOrderStatus from to = true <-> Moves from to.
Proof.
  intros Hne. unfold CanTransitionOrderStatus.
  destruct (String.eqb_spec from to) as [|_]; [done|]. split.
  - intros H. repeat (case_match; string_tests; subst);
      try (apply one_of_spec in H; rewrite ?elem_of_cons, ?elem_of_nil in H;
           destruct_or? H; subst; try done; constructor; set_solver).
    done.
  - destruct 1 as [| | | | | |from Hin| |]; try reflexivity.
    each_status Hin; reflexivity.
Qed.

Lemma validate_ok_allowed from to :
  ValidateOrderTransition from to = None <-> Allowed from to.
Proof.
  unfold ValidateOrderTransition, Allowed.
  destruct (IsValidOrderStatus from) eqn:Hf; simpl.
  2:{ split; [done|]. intros [[_ H]|H]; exfalso;
        [|apply moves_valid in H as [H _]]; apply is_valid_spec in H; congruence. }
  destruct (IsValidOrderStatus to) eqn:Ht; simpl.
  2:{ split; [done|]. intros [[<- H]|H]; exfalso;
        [|apply moves_valid in H as [_ H]]; try apply is_valid_spec in H; congruence. }
  destruct (decide (from = to)) as [<-|Hne].
  - apply is_valid_spec in Hf. unfold CanTransitionOrderStatus.
    rewrite String.eqb_refl. rewrite Ht. simpl. naive_solver.
  - pose proof (can_transition_moves from to Hne) as Hm.
    destruct (CanTransitionOrderStatus from to); simpl; naive_solver.
Qed.

Lemma validate_error from to e :
  ValidateOrderTransition from to = Some e -> error_is e "invalid state transition" = true.
Proof. unfold ValidateOrderTransition. repeat case_match; naive_solver. Qed.

(** The refusal is nothing but an invalid transition. *)
Definition only_transition_error (e : error) : Prop :=
  error_is e "invalid state transition" = true
  /\ error_as_validation e = None /\ error_is e "duplicate order" = false.

Lemma validate_error_only from to e :
  ValidateOrderTransition from to = Some e -> only_transition_error e.
Proof. unfold ValidateOrderTransition. repeat case_match; intros; by simplify_eq/=. Qed.

Lemma moves_rank from to : Moves from to -> (rank to < rank from)%nat.
Proof.
  destruct 1 as [| | | | | |from Hin| |]; try (vm_compute; lia).
  each_status Hin; vm_compute; lia.
Qed.

Lemma terminal_no_move s t : terminal s = true -> Moves s t -> False.
Proof.
  unfold terminal. rewrite one_of_spec. intros H Hm. pose proof (moves_rank _ _ Hm).
  rewrite ?elem_of_cons, ?elem_of_nil in H. destruct_or? H; subst; try done;
    vm_compute in *; lia.
Qed.

Lemma history_valid from to :
  History from to -> from ∈ ValidOrderStatuses -> to ∈ ValidOrderStatuses.
Proof. induction 1 as [|x y z Hxy _ IH]; [done|]. intros _. by apply IH, (allowed_valid x y). Qed.

Lemma history_rank from to : History from to -> (rank to <= rank from)%nat.
Proof.
  induction 1 as [|x y z Hxy _ IH]; [done|].
  destruct Hxy as [[<- _]|Hm]; [done|]. apply moves_rank in Hm. lia.
Qed.

Lemma history_step from mid to : History from mid -> Allowed mid to -> History from to.
Proof. intros. by eapply rtc_r. Qed.

#[export] Hint Resolve history_step : hub.

(** ** Properties *)

(** A transition request is accepted exactly when it is an edge of the life
    cycle graph or rewrites a known status with itself, and every refusal is an
    [ErrInvalidStateTransition], unknown statuses included. *)
Theorem validate_transition_correct from to :
  match ValidateOrderTransition from to with
  | None => Allowed from to
  | Some e => ~ Allowed from to /\ error_is e "invalid state transition" = true
  end.
Proof.
  destruct (ValidateOrderTransition from to) as [e|] eqn:H.
  - split; [|by eapply validate_error]. rewrite <- validate_ok_allowed. congruence.
  - by apply validate_ok_allowed.
Qed.

(** Completed, cancelled, manual-review and failed orders are final: no
    accepted sequence of transitions leaves a terminal status. *)
Theorem terminal_absorbing s t : terminal s = true -> History s t -> t = s.
Proof.
  intros Hs. induction 1 as [|x y z Hxy _ IH]; [done|].
  destruct Hxy as [[<- _]|Hm]; [auto|]. by destruct (terminal_no_move x y).
Qed.

Lemma terminal_absorbing_witness :
  History StatusCompleted StatusCompleted /\ StatusCompleted = StatusCompleted.
Proof.
  split; [apply rtc_refl|].
  apply (terminal_absorbing StatusCompleted StatusCompleted); [reflexivity|].
  apply rtc_once. left. split; [done|]. apply is_valid_spec. reflexivity.
Defined.

(** The life cycle terminates: from any status at most [rank] proper moves
    remain, so an order makes at most five of them. *)
Theorem lifecycle_bounded n s t : nsteps Moves n s t -> (n <= rank s <= 5)%nat.
Proof.
  intros H. split.
  - induction H as [|n x y z Hxy _ IH]; [lia|]. apply moves_rank in Hxy. lia.
  - unfold rank. repeat case_match; lia.
Qed.

Lemma lifecycle_bounded_witness : (2 <= rank StatusPendingFulfillment <= 5)%nat.
Proof.
  apply (lifecycle_bounded 2 StatusPendingFulfillment StatusPaymentAuthorized).
  eapply nsteps_l; [constructor|]. apply nsteps_once. constructor.
Defined.

(** Once a cancellation was accepted the order can never complete, nor go
    back to any fulfilment stage: it ends cancelled or in manual review. *)
Theorem cancellation_is_one_way t :
  History StatusCancellationPending t ->
  t ∈ [StatusCancellationPending; StatusCancelled; StatusManualReview].
Proof.
  intros H. cut (forall s t, History s t ->
    s ∈ [StatusCancellationPending; StatusCancelled; StatusManualReview] ->
    t ∈ [StatusCancellationPending; StatusCancelled; StatusManualReview]).
  { intros Hc. apply (Hc _ _ H). set_solver. }
  clear. induction 1 as [|x y z Hxy _ IH]; [done|]. intros Hx. apply IH.
  destruct Hxy as [[<- _]|Hm]; [done|].
  inversion Hm; subst; rewrite !elem_of_cons, elem_of_nil in Hx |- *;
    destruct_or? Hx; try done; auto.
Qed.

Lemma cancellation_is_one_way_witness :
  StatusManualReview ∈ [StatusCancellationPending; StatusCancelled; StatusManualReview].
Proof.
  apply cancellation_is_one_way. apply rtc_once. right. constructor.
Defined.
