(* ===== verification/Store.v ===== *)
(** The interface [commerce.Store] and what it promises to its clients.

    [Store] holds the operations of the Go interface; [StoreLaws] states, per
    operation and branch, what the service and the workers rely on, in terms
    of three observations of the state: the order behind an identifier, the
    order an idempotency key of a merchant is bound to, and whether an external
    order id of a merchant is taken. *)
From S2P Require Import Prelude GoStrings GoTime Model StateMachine.

Class Store (S : Type) := {
  InsertOrder : string -> string -> Order -> OutboxEvent -> AuditLog -> M S (option Order * bool);
  GetOrder : string -> M S Order;
  GetShipment : string -> M S ShipmentRecord;
  UpdateOrderStatus : string -> OrderStatus -> Time -> OutboxEvent -> AuditLog -> M S Order;
  OutboxEvents : S -> list OutboxEvent;
  AuditLogs : S -> list AuditLog
}.

(** A write that appends one event and one audit entry and otherwise changes
    the store only through the order book. *)
Definition appended {S} `{Store S} (s s' : S) (event : OutboxEvent) (audit : AuditLog) : Prop :=
  OutboxEvents s' = OutboxEvents s ++ [WithEnvelopeDefaults event]
  /\ AuditLogs s' = AuditLogs s ++ [audit].

Class StoreLaws (S : Type) `{Store S} := {
  (** the states the laws speak about: every state reachable through the
      operations *)
  store_ok : S -> Prop;
  find_order : S -> string -> option Order;
  find_idempotent : S -> string -> string -> option string;
  external_taken : S -> string -> string -> bool;

  get_order_law s id :
    GetOrder id s = (match find_order s id with
                     | Some o => Ok o
                     | None => Err ErrNotFound
                     end, s);

  get_shipment_law s id : snd (GetShipment id s) = s;

  (** the key of a merchant is bound to an order of that merchant, unless a
      merchant identifier contains the separator of the scoped keys *)
  idempotent_owner_law s m k id o :
    store_ok s -> find_idempotent s m k = Some id -> find_order s id = Some o ->
    has_char ":"%char m = false -> has_char ":"%char (Order_MerchantID o) = false ->
    Order_MerchantID o = m;

  (** a bound key replays the bound order and changes nothing *)
  insert_replay_law s m k o ev au id :
    store_ok s -> find_idempotent s m k = Some id ->
    exists o', find_order s id = Some o' /\ InsertOrder m k o ev au s = (Ok (Some o', true), s);

  (** a free key with a taken external id is refused and changes nothing *)
  insert_duplicate_law s m k o ev au :
    find_idempotent s m k = None -> external_taken s m (Order_ExternalOrderID o) = true ->
    InsertOrder m k o ev au s = (Err ErrDuplicateOrder, s);

  (** otherwise the order, its two index entries, the event and the audit
      entry are written together *)
  insert_fresh_law s m k o ev au :
    store_ok s -> Order_MerchantID o = m -> Order_Status o = StatusPendingFulfillment ->
    find_idempotent s m k = None -> external_taken s m (Order_ExternalOrderID o) = false ->
    find_order s (Order_OrderID o) = None ->
    exists s',
      InsertOrder m k o ev au s = (Ok (Some o, false), s')
      /\ store_ok s'
      /\ find_order s' (Order_OrderID o) = Some o
      /\ (forall id, id <> Order_OrderID o -> find_order s' id = find_order s id)
      /\ find_idempotent s' m k = Some (Order_OrderID o)
      /\ external_taken s' m (Order_ExternalOrderID o) = true
      /\ appended s s' ev au;

  (** a submission that is not a replay gives back the order it was handed *)
  insert_returns_law s m k o ev au o' s' :
    InsertOrder m k o ev au s = (Ok (Some o', false), s') -> o' = o;

  update_missing_law s id st now ev au :
    find_order s id = None -> UpdateOrderStatus id st now ev au s = (Err ErrNotFound, s);

  update_refused_law s id st now ev au o e :
    find_order s id = Some o -> ValidateOrderTransition (Order_Status o) st = Some e ->
    UpdateOrderStatus id st now ev au s = (Err e, s);

  update_ok_law s id st now ev au o :
    store_ok s -> find_order s id = Some o ->
    ValidateOrderTransition (Order_Status o) st = None ->
    let o' := set_Order_UpdatedAt now (set_Order_Status st o) in
    exists s',
      UpdateOrderStatus id st now ev au s = (Ok o', s')
      /\ store_ok s'
      /\ find_order s' id = Some o'
      /\ (forall id', id' <> id -> find_order s' id' = find_order s id')
      /\ (forall m k, find_idempotent s' m k = find_idempotent s m k)
      /\ (forall m x, external_taken s' m x = external_taken s m x)
      /\ appended s s'
           (set_Event_Payload (OrderStatusEventPayload st now au (Event_Payload ev)) ev) au
}.

#[export] Hint Mode StoreLaws ! - : typeclass_instances.

Section Clients.
Context {S : Type} `{StoreLaws S}.

(** An accepted, non-replayed submission of an order with a new identifier took
    the fresh branch. *)
Lemma insert_accepted_inv s m k o ev au o' s' :
  InsertOrder m k o ev au s = (Ok (Some o', false), s') ->
  store_ok s -> Order_MerchantID o = m -> Order_Status o = StatusPendingFulfillment ->
  find_order s (Order_OrderID o') = None ->
  o' = o /\ find_idempotent s m k = None
  /\ external_taken s m (Order_ExternalOrderID o) = false
  /\ store_ok s' /\ find_order s' (Order_OrderID o) = Some o
  /\ find_idempotent s' m k = Some (Order_OrderID o)
  /\ appended s s' ev au.
Proof.
  intros Hins Hok Hm Hst Hfresh.
  pose proof (insert_returns_law _ _ _ _ _ _ _ _ Hins) as ->.
  destruct (find_idempotent s m k) as [old|] eqn:Hidem.
  { destruct (insert_replay_law s m k o ev au old Hok Hidem) as (o'' & _ & E). congruence. }
  destruct (external_taken s m (Order_ExternalOrderID o)) eqn:Hext.
  { rewrite insert_duplicate_law in Hins by done. congruence. }
  destruct (insert_fresh_law s m k o ev au Hok Hm Hst Hidem Hext Hfresh)
    as (s'' & E & ? & ? & ? & ? & ? & ?).
  rewrite E in Hins. simplify_eq. done.
Qed.

End Clients.
