(* ===== verification/Service.v ===== *)
(** The application service of [internal/commerce/service.go], over any
    [Store].

    Go reads the clock and the system's entropy source through calls whose
    results the program cannot predict: the environment holds, for every call
    in order, what it returns, and the service state counts the calls made. *)
From S2P Require Import Prelude GoStrings GoTime Sha256 Model StateMachine Store.

Record Env := mkEnv {
  (** the n-th reading of [s.clock()] *)
  env_clock : nat -> Time;
  (** the 16 bytes of the n-th [cryptorand.Read], or its failure *)
  env_entropy : nat -> option string;
  (** [strings.ToLower] outside ASCII: the Unicode case tables *)
  env_lower : string -> string
}.

Record Service (St : Type) := mkService {
  svc_store : St;
  svc_counter : Z;
  svc_ticks : nat;
  svc_draws : nat
}.

Arguments mkService {St}.
Arguments svc_store {St}.
Arguments svc_counter {St}.
Arguments svc_ticks {St}.
Arguments svc_draws {St}.

Definition NewService {St} (store : St) : Service St := mkService store 0 0 0.

(** A call on the embedded store. *)
Definition on_store {St A} (c : M St A) : M (Service St) A :=
  fun s => let (r, st) := c (svc_store s) in
           (r, mkService st (svc_counter s) (svc_ticks s) (svc_draws s)).

(** [s.clock()]. *)
Definition clock {St} (env : Env) : M (Service St) Time :=
  fun s => (Ok (env_clock env (svc_ticks s)),
            mkService (svc_store s) (svc_counter s) (Datatypes.S (svc_ticks s)) (svc_draws s)).

(** [cryptorand.Read(bytes[:])]. *)
Definition rand_read {St} (env : Env) : M (Service St) (option string) :=
  fun s => (Ok (env_entropy env (svc_draws s)),
            mkService (svc_store s) (svc_counter s) (svc_ticks s) (Datatypes.S (svc_draws s))).

(** [s.counter.Add(1)] on an [atomic.Uint64]. *)
Definition counter_add {St} : M (Service St) Z :=
  fun s => let n := (svc_counter s + 1) mod 2 ^ 64 in
           (Ok n, mkService (svc_store s) n (svc_ticks s) (svc_draws s)).

Definition nextID {St} (env : Env) (prefix : string) : M (Service St) string :=
  let! r := rand_read env in
  match r with
  | Some b => ret (prefix +:+ "_" +:+ hex_encode b)
  | None =>
      let! now := clock env in
      let! n := counter_add in
      ret (prefix +:+ "_" +:+ Itoa (UnixNano now) +:+ "_" +:+ pad12 n)
  end.

Definition opaqueReference (prefix value : string) : string :=
  prefix +:+ "_" +:+ String.substring 0 24 (hex_encode (sha256 (TrimSpace value))).

Definition ToLower (env : Env) (s : string) : string :=
  if is_ascii s then map_string lower_ascii s else env_lower env s.

Definition addressFingerprint (env : Env) (a : AddressInput) : string :=
  ToLower env
    (join_with "|" [AddressInput_Line1 a; AddressInput_Line2 a; AddressInput_City a;
                    AddressInput_State a; AddressInput_PostalCode a; AddressInput_Country a]).

(** ** Validation *)

Definition when (b : bool) (field issue : string) : list (string * string) :=
  if b then [(field, issue)] else [].

Definition item_field (idx : Z) (name : string) : string :=
  "items[" +:+ Itoa idx +:+ "]." +:+ name.

(** The loop over the items, with the map [seenSKUs]. *)
Fixpoint validate_items (currency : string) (idx : Z) (seen : gmap string Z)
    (items : list OrderItemInput) : list (string * string) :=
  match items with
  | [] => []
  | item :: rest =>
      let sku := TrimSpace (OrderItemInput_SKU item) in
      let '(sku_errors, seen') :=
        if String.eqb sku "" then ([(item_field idx "sku", "is required")], seen)
        else match seen !! sku with
             | Some firstIdx =>
                 ([(item_field idx "sku", "duplicates items[" +:+ Itoa firstIdx +:+ "].sku")], seen)
             | None => ([], <[sku := idx]> seen)
             end in
      sku_errors
      ++ when (OrderItemInput_Quantity item <? 1)
           (item_field idx "quantity") "must be greater than zero"
      ++ when (Money_Amount (OrderItemInput_UnitPrice item) <? 0)
           (item_field idx "unit_price.amount") "must not be negative"
      ++ when (negb (String.eqb (Money_Currency (OrderItemInput_UnitPrice item)) currency))
           (item_field idx "unit_price.currency") "must match order currency"
      ++ validate_items currency (idx + 1) seen' rest
  end.

Definition create_order_errors (merchantID idempotencyKey : string) (req : CreateOrderCommand)
    : list (string * string) :=
  when (blank merchantID) "merchant_id" "is required from authentication context"
  ++ when (len (TrimSpace idempotencyKey) <? 12) "Idempotency-Key"
       "must contain at least 12 characters"
  ++ when (blank (Cmd_ExternalOrderID req)) "external_order_id" "is required"
  ++ when (negb (len (Cmd_Currency req) =? 3)) "currency"
       "must be a three-letter ISO currency code"
  ++ when (blank (CustomerInput_Email (Cmd_Customer req))) "customer.email" "is required"
  ++ when (blank (AddressInput_Country (Cmd_ShippingAddress req)))
       "shipping_address.country" "is required"
  ++ when (Nat.eqb (length (Cmd_Items req)) 0) "items" "must contain at least one item"
  ++ validate_items (Cmd_Currency req) 0 ∅ (Cmd_Items req)
  ++ when (blank (PaymentMethodInput_Provider (Cmd_PaymentMethod req)))
       "payment_method.provider" "is required"
  ++ when (blank (PaymentMethodInput_PaymentToken (Cmd_PaymentMethod req)))
       "payment_method.payment_token" "is required".

(** [if len(fields) > 0 { return ValidationError{Fields: fields} }]. *)
Definition validation_result (fields : list (string * string)) : option error :=
  match fields with
  | [] => None
  | _ => Some (Validation fields)
  end.

Definition validateCreateOrder (merchantID idempotencyKey : string) (req : CreateOrderCommand)
    : option error :=
  validation_result (create_order_errors merchantID idempotencyKey req).

Definition cancel_actor_errors (actor : AuditActor) : list (string * string) :=
  when (blank (AuditActor_Reason actor)) "reason" "is required"
  ++ when (blank (AuditActor_Type actor)) "requested_by.type" "is required"
  ++ when (blank (AuditActor_ID actor)) "requested_by.id" "is required".

Definition validateCancelActor (actor : AuditActor) : option error :=
  validation_result (cancel_actor_errors actor).

(** ** Order creation *)

(** [subtotal.Amount += int64(item.Quantity) * item.UnitPrice.Amount]. *)
Definition add_line (acc : Z) (item : OrderItemInput) : Z :=
  wrap64 (acc + wrap64 (OrderItemInput_Quantity item
                        * Money_Amount (OrderItemInput_UnitPrice item))).

Definition subtotal_amount (items : list OrderItemInput) : Z := fold_left add_line items 0.

Definition order_item (item : OrderItemInput) : OrderItem :=
  mkOrderItem (OrderItemInput_SKU item) (OrderItemInput_Quantity item)
    (OrderItemInput_UnitPrice item) "pending".

Definition shipping_amount : Z := 1200.

Definition new_order (env : Env) (orderID merchantID : string) (now : Time)
    (req : CreateOrderCommand) : Order :=
  let cur := Cmd_Currency req in
  let subtotal := subtotal_amount (Cmd_Items req) in
  {| Order_OrderID := orderID;
     Order_MerchantID := merchantID;
     Order_ExternalOrderID := Cmd_ExternalOrderID req;
     Order_Status := StatusPendingFulfillment;
     Order_Currency := cur;
     Order_Totals := mkOrderTotals (mkMoney subtotal cur) (mkMoney shipping_amount cur)
                       (mkMoney (wrap64 (subtotal + shipping_amount)) cur);
     Order_Items := map order_item (Cmd_Items req);
     Order_Payment := Some (mkPayment (PaymentMethodInput_Provider (Cmd_PaymentMethod req))
                              "pending_authorization" ""
                              (opaqueReference "paycred"
                                 (PaymentMethodInput_PaymentToken (Cmd_PaymentMethod req))));
     Order_Shipment := None;
     Order_ShippingAddressRef :=
       opaqueReference "addr" (addressFingerprint env (Cmd_ShippingAddress req));
     Order_CreatedAt := now;
     Order_UpdatedAt := now |}.

Definition created_event (messageID correlationID : string) (now : Time) (order : Order)
    : OutboxEvent :=
  {| Event_MessageID := messageID;
     Event_EventType := "order.created";
     Event_SchemaVersion := EventSchemaVersion;
     Event_OccurredAt := now;
     Event_Producer := ProducerForEventType "order.created";
     Event_MerchantID := Order_MerchantID order;
     Event_OrderID := Order_OrderID order;
     Event_CorrelationID := correlationID;
     Event_CausationID := messageID;
     Event_Payload :=
       <["external_order_id" := AStr (Order_ExternalOrderID order)]>
       (<["order_status" := AStr (Order_Status order)]>
       (<["currency" := AStr (Order_Currency order)]>
       (<["total_amount" := AInt (Money_Amount (Totals_Total (Order_Totals order)))]>
       (<["item_count" := AInt (Z.of_nat (length (Order_Items order)))]> ∅)))) |}.

Definition create_audit (merchantID orderID correlationID : string) (now : Time) : AuditLog :=
  mkAuditLog merchantID orderID "merchant" merchantID "order.create" correlationID now ∅.

Definition cancel_event (messageID correlationID : string) (now : Time) (order : Order)
    (orderID : string) (actor : AuditActor) : OutboxEvent :=
  {| Event_MessageID := messageID;
     Event_EventType := "order.cancel_requested";
     Event_SchemaVersion := EventSchemaVersion;
     Event_OccurredAt := now;
     Event_Producer := ProducerForEventType "order.cancel_requested";
     Event_MerchantID := Order_MerchantID order;
     Event_OrderID := orderID;
     Event_CorrelationID := correlationID;
     Event_CausationID := messageID;
     Event_Payload :=
       <["order_status" := AStr StatusCancellationPending]>
       (<["reason" := AStr (TrimSpace (AuditActor_Reason actor))]>
       (<["requested_by" := AMap [("id", AStr (TrimSpace (AuditActor_ID actor)));
                                  ("type", AStr (TrimSpace (AuditActor_Type actor)))]]> ∅)) |}.

Definition cancel_audit (order : Order) (orderID correlationID : string) (now : Time)
    (actor : AuditActor) : AuditLog :=
  mkAuditLog (Order_MerchantID order) orderID (TrimSpace (AuditActor_Type actor))
    (TrimSpace (AuditActor_ID actor)) "order.cancel_requested" correlationID now
    {["reason" := TrimSpace (AuditActor_Reason actor)]}.

Section Operations.
Context {St : Type} `{Store St}.
Variable env : Env.

Definition CreateOrderContext (merchantID idempotencyKey correlationID : string)
    (req : CreateOrderCommand) : M (Service St) (option Order * bool) :=
  let! _ := require (validateCreateOrder merchantID idempotencyKey req) in
  let! now := clock env in
  let! orderID := nextID env "ord" in
  let order := new_order env orderID merchantID now req in
  let! messageID := nextID env "msg" in
  let event := created_event messageID correlationID now order in
  let audit := create_audit merchantID (Order_OrderID order) correlationID now in
  on_store (InsertOrder merchantID idempotencyKey order event audit).

Definition GetOrderContext (orderID : string) : M (Service St) Order :=
  on_store (GetOrder orderID).

Definition GetShipmentContext (shipmentID : string) : M (Service St) ShipmentRecord :=
  on_store (GetShipment shipmentID).

Definition CancelOrderContext (orderID correlationID : string) (actor : AuditActor)
    : M (Service St) Order :=
  let! _ := require (validateCancelActor actor) in
  let! order := on_store (GetOrder orderID) in
  let! _ := require (if String.eqb (Order_Status order) StatusCompleted
                        || String.eqb (Order_Status order) StatusCancelled
                     then Some ErrInvalidStateTransition else None) in
  let! _ := require (ValidateOrderTransition (Order_Status order) StatusCancellationPending) in
  let! now := clock env in
  let! messageID := nextID env "msg" in
  let event := cancel_event messageID correlationID now order orderID actor in
  let audit := cancel_audit order orderID correlationID now actor in
  on_store (UpdateOrderStatus orderID StatusCancellationPending now event audit).

End Operations.

(** ** Specification of a valid request *)

Definition valid_item (currency : string) (item : OrderItemInput) : Prop :=
  TrimSpace (OrderItemInput_SKU item) <> ""
  /\ 1 <= OrderItemInput_Quantity item
  /\ 0 <= Money_Amount (OrderItemInput_UnitPrice item)
  /\ Money_Currency (OrderItemInput_UnitPrice item) = currency.

Definition item_skus (items : list OrderItemInput) : list string :=
  map (fun i => TrimSpace (OrderItemInput_SKU i)) items.

Record ValidCommand (merchantID idempotencyKey : string) (req : CreateOrderCommand) : Prop := {
  vc_merchant : TrimSpace merchantID <> "";
  vc_key : 12 <= len (TrimSpace idempotencyKey);
  vc_external : TrimSpace (Cmd_ExternalOrderID req) <> "";
  vc_currency : len (Cmd_Currency req) = 3;
  vc_email : TrimSpace (CustomerInput_Email (Cmd_Customer req)) <> "";
  vc_country : TrimSpace (AddressInput_Country (Cmd_ShippingAddress req)) <> "";
  vc_items_some : Cmd_Items req <> [];
  vc_items : Forall (valid_item (Cmd_Currency req)) (Cmd_Items req);
  vc_skus : NoDup (item_skus (Cmd_Items req));
  vc_provider : TrimSpace (PaymentMethodInput_Provider (Cmd_PaymentMethod req)) <> "";
  vc_token : TrimSpace (PaymentMethodInput_PaymentToken (Cmd_PaymentMethod req)) <> ""
}.

(** The mathematical value of the order, before any wrap-around. *)
Definition line_value (item : OrderItemInput) : Z :=
  OrderItemInput_Quantity item * Money_Amount (OrderItemInput_UnitPrice item).

Definition items_value (items : list OrderItemInput) : Z := foldr Z.add 0 (map line_value items).

(** ** Facts *)

Lemma when_nil b f i : when b f i = [] <-> b = false.
Proof. destruct b; simpl; split; congruence. Qed.

Lemma app_nil_iff {A} (l k : list A) : l ++ k = [] <-> l = [] /\ k = [].
Proof. split; [apply app_eq_nil|]. by intros [-> ->]. Qed.

Lemma blank_false s : blank s = false <-> TrimSpace s <> "".
Proof. unfold blank. apply String.eqb_neq. Qed.

Lemma validation_result_none fields : validation_result fields = None <-> fields = [].
Proof. destruct fields; simpl; split; congruence. Qed.

(** The item loop reports nothing exactly when every item is valid and its SKU
    is new, both within the list and against the ones seen before it. *)
Lemma validate_items_nil cur items idx seen :
  validate_items cur idx seen items = [] <->
  Forall (valid_item cur) items /\ NoDup (item_skus items)
  /\ Forall (fun sku => seen !! sku = None) (item_skus items).
Proof.
  revert idx seen. induction items as [|item rest IH]; intros idx seen; simpl.
  { split; [|done]. intros _. split_and!; constructor. }
  rewrite Forall_cons. rewrite NoDup_cons. rewrite Forall_cons.
  set (sku := TrimSpace (OrderItemInput_SKU item)).
  destruct (String.eqb sku "") eqn:Hsku.
  { apply String.eqb_eq in Hsku. split; [done|]. intros ((Hv & _) & _). by destruct Hv. }
  apply String.eqb_neq in Hsku.
  destruct (seen !! sku) as [first|] eqn:Hseen.
  { split; [done|]. intros (_ & _ & H & _). congruence. }
  rewrite app_nil_l, !app_nil_iff, !when_nil, IH. unfold valid_item at 2. fold sku.
  rewrite !Z.ltb_ge, negb_false_iff, String.eqb_eq.
  assert (Hins : Forall (fun k => <[sku := idx]> seen !! k = None) (item_skus rest) <->
                 sku ∉ item_skus rest /\ Forall (fun k => seen !! k = None) (item_skus rest)).
  { rewrite !Forall_forall. split.
    - intros Hf. split.
      + intros Hin. specialize (Hf _ Hin). by rewrite lookup_insert_eq in Hf.
      + intros k Hk. specialize (Hf _ Hk). by apply lookup_insert_None in Hf as [? _].
    - intros [Hn Hf] k Hk. apply lookup_insert_None. split; [by apply Hf|]. congruence. }
  rewrite Hins. naive_solver.
Qed.

Lemma validate_create_none m k req :
  validateCreateOrder m k req = None <-> ValidCommand m k req.
Proof.
  unfold validateCreateOrder, create_order_errors.
  rewrite validation_result_none, !app_nil_iff, !when_nil, validate_items_nil, !blank_false.
  rewrite Z.ltb_ge, negb_false_iff, Z.eqb_eq, Nat.eqb_neq.
  assert (Hlen : length (Cmd_Items req) <> 0%nat <-> Cmd_Items req <> [])
    by (destruct (Cmd_Items req); simpl; split; congruence).
  rewrite Hlen. split.
  - intros (? & ? & ? & ? & ? & ? & ? & (? & ? & _) & ? & ?). by constructor.
  - intros []. split_and!; try done. apply Forall_forall. intros. apply lookup_empty.
Qed.

Lemma items_value_nonneg cur items :
  Forall (valid_item cur) items -> 0 <= items_value items.
Proof.
  unfold items_value. induction 1 as [|i l (_ & Hq & Hp & _) _ IH]; simpl; [lia|].
  unfold line_value at 1. nia.
Qed.

Lemma fold_add_line_exact cur items acc :
  Forall (valid_item cur) items -> 0 <= acc -> acc + items_value items <= int64_max ->
  fold_left add_line items acc = acc + items_value items.
Proof.
  intros Hf. revert acc. induction Hf as [|i l Hi Hl IH]; intros acc Ha Hb; simpl.
  { unfold items_value; simpl. lia. }
  pose proof (items_value_nonneg _ _ Hl) as Hnn.
  assert (Hline : 0 <= line_value i) by (destruct Hi as (_ & ? & ? & _); unfold line_value; nia).
  assert (Hval : items_value (i :: l) = line_value i + items_value l) by done.
  rewrite Hval in *. unfold add_line at 2. fold (line_value i).
  assert (int64_min <= 0) by (unfold int64_min; lia).
  rewrite !(wrap64_id (line_value i)), (wrap64_id (acc + line_value i)) by (split; lia).
  rewrite IH by lia. lia.
Qed.

Lemma fold_add_line_congr items acc :
  fold_left add_line items acc mod 2 ^ 64 = (acc + items_value items) mod 2 ^ 64.
Proof.
  revert acc. induction items as [|i l IH]; intros acc; simpl.
  { unfold items_value; simpl. f_equal. lia. }
  rewrite IH. unfold add_line.
  rewrite Zplus_mod, wrap64_congr, <- Zplus_mod.
  rewrite <- Z.add_assoc, (Z.add_comm _ (items_value l)), Z.add_assoc.
  rewrite Zplus_mod, wrap64_congr, <- Zplus_mod. f_equal.
  unfold items_value at 2; simpl. fold (items_value l) (line_value i). lia.
Qed.

Lemma subtotal_exact cur items :
  Forall (valid_item cur) items -> items_value items <= int64_max ->
  subtotal_amount items = items_value items.
Proof. intros. unfold subtotal_amount. rewrite (fold_add_line_exact cur); lia || done. Qed.

(** The calls of [nextID] and [clock] leave the store alone. *)
Lemma next_id_store {St} env prefix (s : Service St) :
  exists id s', nextID env prefix s = (Ok (prefix +:+ "_" +:+ id), s') /\ svc_store s' = svc_store s.
Proof.
  unfold nextID, rand_read, clock, counter_add, bind. simpl.
  destruct (env_entropy env (svc_draws s)); simpl; eauto.
Qed.

Lemma on_store_run {St A} (c : M St A) (s : Service St) r st :
  c (svc_store s) = (r, st) ->
  on_store c s = (r, mkService st (svc_counter s) (svc_ticks s) (svc_draws s)).
Proof. unfold on_store. by intros ->. Qed.

(** What [CreateOrderContext] hands to the store once the request is valid. *)
Lemma create_order_calls_insert {St} `{Store St} env m k c req (s : Service St) :
  validateCreateOrder m k req = None ->
  exists orderID messageID s',
    fst (nextID env "ord" (snd (clock env s))) = Ok orderID
    /\ orderID <> "" /\ messageID <> "" /\ svc_store s' = svc_store s
    /\ let now := env_clock env (svc_ticks s) in
       let order := new_order env orderID m now req in
       CreateOrderContext env m k c req s
       = on_store (InsertOrder m k order (created_event messageID c now order)
                     (create_audit m orderID c now)) s'.
Proof.
  intros Hv. unfold CreateOrderContext, bind at 1. rewrite Hv. simpl.
  set (s1 := mkService (svc_store s) (svc_counter s) (Datatypes.S (svc_ticks s)) (svc_draws s)).
  destruct (next_id_store env "ord" s1) as (id & s2 & H2 & E2).
  destruct (next_id_store env "msg" s2) as (mid & s3 & H3 & E3).
  exists ("ord_" +:+ id), ("msg_" +:+ mid), s3.
  split; [unfold clock; simpl; fold s1; by rewrite H2|]. split; [done|]. split; [done|].
  split; [by rewrite E3, E2|]. simpl.
  unfold bind at 1. simpl. fold s1. unfold bind at 1. rewrite H2.
  unfold bind at 1. by rewrite H3.
Qed.

(** What [CancelOrderContext] hands to the store once its checks pass. *)
Lemma cancel_order_calls_update {St} `{Store St} env id c actor o (s : Service St) :
  validateCancelActor actor = None ->
  GetOrder id (svc_store s) = (Ok o, svc_store s) ->
  ValidateOrderTransition (Order_Status o) StatusCancellationPending = None ->
  exists messageID s',
    svc_store s' = svc_store s
    /\ let now := env_clock env (svc_ticks s) in
       CancelOrderContext env id c actor s
       = on_store (UpdateOrderStatus id StatusCancellationPending now
                     (cancel_event messageID c now o id actor)
                     (cancel_audit o id c now actor)) s'.
Proof.
  intros Hv Hget Ht. unfold CancelOrderContext, bind at 1. rewrite Hv. simpl.
  unfold bind at 1. rewrite (on_store_run _ _ _ _ Hget).
  set (s0 := mkService _ _ _ _).
  assert (Hterm : (String.eqb (Order_Status o) StatusCompleted
                   || String.eqb (Order_Status o) StatusCancelled) = false).
  { apply validate_ok_allowed in Ht. apply orb_false_iff.
    split; apply String.eqb_neq; intros E; rewrite E in Ht;
      destruct Ht as [[? _]|Hm]; try done; eapply terminal_no_move in Hm; done. }
  rewrite Hterm. unfold bind at 1. simpl. rewrite Ht. simpl. unfold bind at 1. simpl.
  unfold bind at 1. simpl.
  set (s1 := mkService _ _ (Datatypes.S _) _).
  destruct (next_id_store env "msg" s1) as (mid & s2 & H2 & E2).
  exists ("msg_" +:+ mid), s2. split; [by rewrite E2|]. unfold bind at 1. rewrite H2. done.
Qed.

(** ** Properties *)

(** C21: [validateCreateOrder] accepts exactly the valid requests (merchant,
    idempotency key of twelve characters, external id, currency, e-mail,
    country, at least one item, each item with a SKU of its own, a positive
    quantity, a non-negative price in the order currency, and a payment
    method); everything else is a [ValidationError] that names at least one
    field. *)
Theorem validate_create_correct m k req :
  match validateCreateOrder m k req with
  | None => ValidCommand m k req
  | Some e => ~ ValidCommand m k req
              /\ exists field issue rest, e = Validation ((field, issue) :: rest)
  end.
Proof.
  destruct (validateCreateOrder m k req) as [e|] eqn:Hv.
  - split.
    + rewrite <- validate_create_none. congruence.
    + unfold validateCreateOrder, validation_result in Hv.
      destruct (create_order_errors m k req) as [|[f i] l]; naive_solver.
  - by apply validate_create_none.
Qed.

(** C19: For a valid request whose value plus shipping fits an [int64], the
    subtotal is the mathematical sum of quantity times unit price over the
    lines, the total adds the 1200 minor units of shipping, and all three
    amounts carry the order currency. *)
Theorem order_totals_exact env id m k now req :
  ValidCommand m k req -> items_value (Cmd_Items req) + shipping_amount <= int64_max ->
  Order_Totals (new_order env id m now req)
  = mkOrderTotals (mkMoney (items_value (Cmd_Items req)) (Cmd_Currency req))
      (mkMoney 1200 (Cmd_Currency req))
      (mkMoney (items_value (Cmd_Items req) + 1200) (Cmd_Currency req)).
Proof.
  intros Hv Hb. pose proof (items_value_nonneg _ _ (vc_items _ _ _ Hv)) as Hnn.
  unfold shipping_amount in *. simpl.
  rewrite (subtotal_exact (Cmd_Currency req)) by (apply Hv || lia).
  unfold shipping_amount. rewrite wrap64_id; [done|].
  unfold in_int64, int64_min. lia.
Qed.

(** In every case, overflow included, the stored total is the true value of
    the order modulo [2^64]. *)
Theorem order_total_mod env id m now req :
  Money_Amount (Totals_Total (Order_Totals (new_order env id m now req))) mod 2 ^ 64
  = (items_value (Cmd_Items req) + shipping_amount) mod 2 ^ 64.
Proof.
  simpl. rewrite wrap64_congr, Zplus_mod.
  unfold subtotal_amount. rewrite fold_add_line_congr, <- Zplus_mod. done.
Qed.

(** A request that passes every check of [validateCreateOrder]. *)
Definition sample_request (quantity price : Z) : CreateOrderCommand :=
  mkCreateOrderCommand "ext-1" "USD" (mkCustomerInput "c1" "a@b.example" "A B")
    (mkAddressInput "1 Main St" "" "Springfield" "IL" "62701" "US")
    [mkOrderItemInput "SKU-CHAIR-BLK" quantity (mkMoney price "USD")]
    (mkPaymentMethodInput "stripe" "tok_visa").

Definition sample_env : Env :=
  mkEnv (fun n => time_Unix (1780056000 + Z.of_nat n))
        (fun n => Some (bytes [Z.of_nat n])) (fun s => s).

(** No bound on quantity or price is checked, so the line product can wrap:
    there is a request that validation accepts and whose stored total is
    negative. *)
Theorem order_total_can_wrap :
  exists req, ValidCommand "mer_1" "idem-key-0001" req
    /\ Money_Amount (Totals_Total (Order_Totals (new_order sample_env "ord_1" "mer_1" 0 req))) < 0.
Proof.
  exists (sample_request 3037000500 3037000500). split.
  - apply validate_create_none. vm_compute. reflexivity.
  - vm_compute. reflexivity.
Qed.

Lemma order_totals_exact_witness :
  Order_Totals (new_order sample_env "ord_1" "mer_1" 0 (sample_request 2 9450))
  = mkOrderTotals (mkMoney 18900 "USD") (mkMoney 1200 "USD") (mkMoney 20100 "USD").
Proof.
  apply (order_totals_exact sample_env "ord_1" "mer_1" "idem-key-0001" 0 (sample_request 2 9450)).
  - apply validate_create_none. vm_compute. reflexivity.
  - vm_compute. discriminate.
Defined.

Section Properties.
Context {St : Type} `{StoreLaws St}.
Variable env : Env.

(** The identifier the next submission draws is not in use: sixteen random
    bytes, or the clock and a counter when the entropy source fails. *)
Definition draws_new_id (s : Service St) : Prop :=
  forall id, fst (nextID env "ord" (snd (clock env s))) = Ok id ->
             find_order (svc_store s) id = None.

Lemma create_invalid (s : Service St) m k c req e :
  validateCreateOrder m k req = Some e -> CreateOrderContext env m k c req s = (Err e, s).
Proof. intros Hv. unfold CreateOrderContext, bind, require. by rewrite Hv. Qed.

(** A valid submission under a bound key. *)
Lemma create_replays (s : Service St) m k c req id :
  store_ok (svc_store s) -> validateCreateOrder m k req = None ->
  find_idempotent (svc_store s) m k = Some id ->
  exists o s', find_order (svc_store s) id = Some o
    /\ CreateOrderContext env m k c req s = (Ok (Some o, true), s') /\ svc_store s' = svc_store s.
Proof.
  intros Hok Hv Hid.
  destruct (create_order_calls_insert env m k c req s Hv) as (oid & mid & s1 & _ & _ & _ & Es & ->).
  edestruct (insert_replay_law (svc_store s) m k) as (o & Ho & Hreplay); [done..|].
  eexists o, _. split; [done|]. erewrite on_store_run by (rewrite Es; apply Hreplay). done.
Qed.

(** A valid submission under a free key with a taken external id. *)
Lemma create_duplicate (s : Service St) m k c req :
  validateCreateOrder m k req = None -> find_idempotent (svc_store s) m k = None ->
  external_taken (svc_store s) m (Cmd_ExternalOrderID req) = true ->
  exists s', CreateOrderContext env m k c req s = (Err ErrDuplicateOrder, s')
             /\ svc_store s' = svc_store s.
Proof.
  intros Hv Hid Hx.
  destruct (create_order_calls_insert env m k c req s Hv) as (oid & mid & s1 & _ & _ & _ & Es & ->).
  eexists. erewrite on_store_run by (rewrite Es; by apply insert_duplicate_law). done.
Qed.

(** What a submission that stores a new order does. *)
Record order_placed (s s1 : Service St) (m k c : string) (req : CreateOrderCommand)
    (o : Order) : Prop := {
  placed_ok : store_ok (svc_store s1);
  placed_order : exists id, o = new_order env id m (env_clock env (svc_ticks s)) req;
  placed_found : find_order (svc_store s1) (Order_OrderID o) = Some o;
  placed_others id : id <> Order_OrderID o ->
    find_order (svc_store s1) id = find_order (svc_store s) id;
  placed_key : find_idempotent (svc_store s1) m k = Some (Order_OrderID o);
  placed_appended : exists mid, mid <> ""
    /\ appended (svc_store s) (svc_store s1)
         (created_event mid c (env_clock env (svc_ticks s)) o)
         (create_audit m (Order_OrderID o) c (env_clock env (svc_ticks s)))
}.

Lemma create_places (s : Service St) m k c req :
  store_ok (svc_store s) -> validateCreateOrder m k req = None ->
  find_idempotent (svc_store s) m k = None ->
  external_taken (svc_store s) m (Cmd_ExternalOrderID req) = false ->
  draws_new_id s ->
  exists o s1, CreateOrderContext env m k c req s = (Ok (Some o, false), s1)
               /\ find_order (svc_store s) (Order_OrderID o) = None
               /\ order_placed s s1 m k c req o.
Proof.
  intros Hok Hv Hid Hx Hnew.
  destruct (create_order_calls_insert env m k c req s Hv) as (oid & mid & s1 & Hd & _ & Hm & Es & ->).
  specialize (Hnew _ Hd).
  edestruct (insert_fresh_law (svc_store s) m k
               (new_order env oid m (env_clock env (svc_ticks s)) req))
    as (st & Hins & Hok' & Hfound & Hothers & Hkey & _ & Happ); [done..|].
  eexists _, _. erewrite on_store_run by (rewrite Es; apply Hins).
  split; [done|]. split; [done|]. split; simpl; eauto.
Qed.

(** An accepted, non-replayed submission that drew a new identifier placed its
    order. *)
Lemma create_accepted_inv (s s1 : Service St) m k c req o :
  store_ok (svc_store s) ->
  CreateOrderContext env m k c req s = (Ok (Some o, false), s1) ->
  find_order (svc_store s) (Order_OrderID o) = None ->
  order_placed s s1 m k c req o.
Proof.
  intros Hok Hrun Hfresh.
  destruct (validateCreateOrder m k req) as [e|] eqn:Hv.
  { by rewrite (create_invalid s m k c req e Hv) in Hrun. }
  destruct (create_order_calls_insert env m k c req s Hv) as (id & mid & s' & Hd & _ & Hm & Es & Hcall).
  assert (Hnew : draws_new_id s).
  { intros x Hx. rewrite Hd in Hx. injection Hx as <-.
    rewrite Hrun in Hcall. symmetry in Hcall. unfold on_store in Hcall.
    destruct (InsertOrder _ _ _ _ _ _) as [r st] eqn:Hins in Hcall. simplify_eq.
    apply insert_returns_law in Hins as ->. exact Hfresh. }
  destruct (find_idempotent (svc_store s) m k) as [old|] eqn:Hid.
  { destruct (create_replays s m k c req old Hok Hv Hid) as (? & ? & _ & E & _). congruence. }
  destruct (external_taken (svc_store s) m (Cmd_ExternalOrderID req)) eqn:Hx.
  { destruct (create_duplicate s m k c req Hv Hid Hx) as (? & E & _). congruence. }
  destruct (create_places s m k c req Hok Hv Hid Hx Hnew) as (o' & s2 & E & _ & Hp).
  rewrite Hrun in E. by simplify_eq.
Qed.

Lemma created_event_total mid c now o :
  Event_Payload (created_event mid c now o) !! "total_amount"
  = Some (AInt (Money_Amount (Totals_Total (Order_Totals o)))).
Proof. done. Qed.

(** What an accepted cancellation does. *)
Record cancel_placed (s s' : Service St) (id c : string) (actor : AuditActor) (o o' : Order)
    : Prop := {
  cancelled_ok : store_ok (svc_store s');
  cancelled_order :
    o' = set_Order_UpdatedAt (env_clock env (svc_ticks s))
           (set_Order_Status StatusCancellationPending o);
  cancelled_found : find_order (svc_store s') id = Some o';
  cancelled_others id' : id' <> id -> find_order (svc_store s') id' = find_order (svc_store s) id';
  cancelled_event :
    exists ev, OutboxEvents (svc_store s') = OutboxEvents (svc_store s) ++ [ev]
      /\ Event_EventType ev = "order.cancel_requested" /\ Event_OrderID ev = id
      /\ Event_MerchantID ev = Order_MerchantID o /\ Event_CorrelationID ev = c;
  cancelled_audit :
    AuditLogs (svc_store s')
    = AuditLogs (svc_store s) ++ [cancel_audit o id c (env_clock env (svc_ticks s)) actor]
}.

(** Cancellation, branch by branch. *)
Lemma cancel_cases (s : Service St) id c actor :
  store_ok (svc_store s) ->
  let '(r, s') := CancelOrderContext env id c actor s in
  match validateCancelActor actor, find_order (svc_store s) id with
  | Some e, _ => r = Err e /\ svc_store s' = svc_store s
  | None, None => r = Err ErrNotFound /\ svc_store s' = svc_store s
  | None, Some o =>
      match ValidateOrderTransition (Order_Status o) StatusCancellationPending with
      | Some _ => (exists e, r = Err e /\ only_transition_error e) /\ svc_store s' = svc_store s
      | None => exists o', r = Ok o' /\ cancel_placed s s' id c actor o o'
      end
  end.
Proof.
  intros Hok. destruct (CancelOrderContext env id c actor s) as [r s'] eqn:Hrun.
  destruct (validateCancelActor actor) as [e|] eqn:Hv.
  { unfold CancelOrderContext, bind in Hrun. rewrite Hv in Hrun. by simplify_eq/=. }
  pose proof (get_order_law (svc_store s) id) as Hget.
  destruct (find_order (svc_store s) id) as [o|] eqn:Hfind.
  2:{ unfold CancelOrderContext, bind, on_store in Hrun. rewrite Hv in Hrun. simpl in Hrun.
      rewrite Hget in Hrun. by simplify_eq/=. }
  destruct (ValidateOrderTransition (Order_Status o) StatusCancellationPending) as [e|] eqn:Ht.
  - unfold CancelOrderContext, bind, on_store in Hrun. rewrite Hv in Hrun. simpl in Hrun.
    rewrite Hget in Hrun.
    destruct (String.eqb _ _ || String.eqb _ _); simpl in Hrun; [|rewrite Ht in Hrun; simpl in Hrun];
      simplify_eq/=; (split; [|done]); eexists; (split; [done|]);
      first [by eapply validate_error_only | done].
  - destruct (cancel_order_calls_update env id c actor o s Hv Hget Ht) as (mid & s1 & Es & Hcall).
    rewrite Hrun in Hcall. unfold on_store in Hcall. rewrite Es in Hcall.
    destruct (update_ok_law (svc_store s) id StatusCancellationPending
                (env_clock env (svc_ticks s))
                (cancel_event mid c (env_clock env (svc_ticks s)) o id actor)
                (cancel_audit o id c (env_clock env (svc_ticks s)) actor) o Hok Hfind Ht)
      as (st & Hupd & Hok' & Hfind' & Hothers & _ & _ & Hout & Haud).
    rewrite Hupd in Hcall. simplify_eq/=. eexists. split; [done|]. split; simpl; try done.
    eexists. split; [exact Hout|].
    match goal with |- context [WithEnvelopeDefaults ?e] =>
      destruct (envelope_fields e) as (_ & HT & _ & HM & HO & HC & _) end.
    rewrite HT, HM, HO, HC. done.
Qed.

(** C2: order submission is idempotent: after an order was accepted under a
    merchant's idempotency key, any further valid submission under that key,
    whatever its body, returns that same order marked as a replay and leaves
    the store, its outbox and its audit log exactly as they were. *)
Theorem create_order_idempotent (s s1 : Service St) m k c1 c2 req1 req2 o :
  store_ok (svc_store s) ->
  CreateOrderContext env m k c1 req1 s = (Ok (Some o, false), s1) ->
  find_order (svc_store s) (Order_OrderID o) = None ->
  validateCreateOrder m k req2 = None ->
  exists s2, CreateOrderContext env m k c2 req2 s1 = (Ok (Some o, true), s2)
             /\ svc_store s2 = svc_store s1.
Proof.
  intros Hok Hrun Hfresh Hv2.
  destruct (create_accepted_inv _ _ _ _ _ _ _ Hok Hrun Hfresh) as [Hok1 _ Hfound _ Hkey _].
  destruct (create_replays s1 m k c2 req2 _ Hok1 Hv2 Hkey) as (o' & s2 & Ho' & Hrun2 & Hst).
  rewrite Hfound in Ho'. injection Ho' as <-. eauto.
Qed.

(** C11: an accepted submission stores the order pending fulfilment under the
    authenticated merchant, and in the same step appends exactly one
    [order.created] event that names that order, merchant and correlation id
    and carries the total, and exactly one audit entry. *)
Theorem create_order_transactional (s s1 : Service St) m k c req o :
  store_ok (svc_store s) ->
  CreateOrderContext env m k c req s = (Ok (Some o, false), s1) ->
  find_order (svc_store s) (Order_OrderID o) = None ->
  find_order (svc_store s1) (Order_OrderID o) = Some o
  /\ Order_Status o = StatusPendingFulfillment /\ Order_MerchantID o = m
  /\ Order_ExternalOrderID o = Cmd_ExternalOrderID req
  /\ exists ev au,
       OutboxEvents (svc_store s1) = OutboxEvents (svc_store s) ++ [ev]
       /\ AuditLogs (svc_store s1) = AuditLogs (svc_store s) ++ [au]
       /\ Event_EventType ev = "order.created" /\ Event_OrderID ev = Order_OrderID o
       /\ Event_MerchantID ev = m /\ Event_CorrelationID ev = c
       /\ Event_Payload ev !! "total_amount"
          = Some (AInt (Money_Amount (Totals_Total (Order_Totals o))))
       /\ Audit_Action au = "order.create" /\ Audit_OrderID au = Order_OrderID o.
Proof.
  intros Hok Hrun Hfresh.
  destruct (create_accepted_inv _ _ _ _ _ _ _ Hok Hrun Hfresh)
    as [_ [id ->] Hfound _ _ (mid & _ & Hout & Haud)].
  split_and!; [done..|]. eexists _, _.
  split_and!; [exact Hout|exact Haud| | | | | |done|done];
    match goal with |- context [WithEnvelopeDefaults ?e] =>
      destruct (envelope_fields e) as (_ & HT & _ & HM & HO & HC & _ & _ & _ & HP) end;
    rewrite ?HT, ?HM, ?HO, ?HC, ?HP; [done..|apply created_event_total].
Qed.

(** Cancellation, branch by branch: an actor without reason, type or id is
    refused by validation; an unknown order is [ErrNotFound]; an order whose
    status cannot move to cancellation is refused as an invalid transition; all
    of these leave the store untouched.  Otherwise the order becomes
    [cancellation_pending] and one [order.cancel_requested] event and one audit
    entry with the trimmed reason are appended with it. *)
Theorem cancel_order_outcome (s : Service St) id c actor :
  store_ok (svc_store s) ->
  let '(r, s') := CancelOrderContext env id c actor s in
  match validateCancelActor actor, find_order (svc_store s) id with
  | Some e, _ => r = Err e /\ svc_store s' = svc_store s
  | None, None => r = Err ErrNotFound /\ svc_store s' = svc_store s
  | None, Some o =>
      match ValidateOrderTransition (Order_Status o) StatusCancellationPending with
      | Some _ => (exists e, r = Err e /\ error_is e "invalid state transition" = true)
                  /\ svc_store s' = svc_store s
      | None =>
          let now := env_clock env (svc_ticks s) in
          let o' := set_Order_UpdatedAt now (set_Order_Status StatusCancellationPending o) in
          r = Ok o' /\ find_order (svc_store s') id = Some o'
          /\ exists ev, OutboxEvents (svc_store s') = OutboxEvents (svc_store s) ++ [ev]
               /\ Event_EventType ev = "order.cancel_requested" /\ Event_OrderID ev = id
               /\ Event_MerchantID ev = Order_MerchantID o /\ Event_CorrelationID ev = c
               /\ AuditLogs (svc_store s')
                  = AuditLogs (svc_store s) ++ [cancel_audit o id c now actor]
      end
  end.
Proof.
  intros Hok. pose proof (cancel_cases s id c actor Hok) as Hc.
  destruct (CancelOrderContext env id c actor s) as [r s'].
  repeat case_match; [done| | |done].
  - destruct Hc as [(e' & -> & He & _) Hs]. eauto.
  - destruct Hc as (o' & -> & [_ -> Hf _ (ev & Hev) Ha]). naive_solver.
Qed.

End Properties.
