(* ===== verification/MemoryStore.v ===== *)
(** The in-memory store of [internal/commerce/store.go].

    Every method holds the store's mutex from its first to its last line, so
    each is one atomic step on the state; [time.Now] is an argument.  The
    theorems: every operation either succeeds or leaves the store unchanged,
    keeps the store's invariant, moves each order only along the life cycle,
    and only appends to the outbox and the audit log. *)
From S2P Require Import Prelude GoStrings GoTime Model StateMachine Store.

Record MemoryStore := mkMemoryStore {
  ms_orders : gmap string Order;
  ms_ordersByExternal : gmap string string;
  ms_ordersByIdempotency : gmap string string;
  ms_outbox : list OutboxEvent;
  ms_auditLogs : list AuditLog;
  ms_publishedOutbox : gmap string Time;
  ms_claimedOutbox : gmap string Time
}.

Definition NewMemoryStore : MemoryStore := mkMemoryStore ∅ ∅ ∅ [] [] ∅ ∅.

(** ** Helpers of the source *)

Definition scopedKey (merchantID value : string) : string := merchantID +:+ ":" +:+ value.

Definition clone_payment (p : Payment) : Payment :=
  mkPayment (Payment_Provider p) (Payment_Status p) (Payment_AuthorizationID p)
    (Payment_CredentialRef p).

Definition clone_shipment (sh : Shipment) : Shipment :=
  mkShipment (Shipment_ShipmentID sh) (Shipment_Status sh) (Shipment_Carrier sh)
    (Shipment_TrackingNumber sh) ([] ++ Shipment_Events sh).

Definition cloneOrder (o : Order) : Order :=
  mkOrder (Order_OrderID o) (Order_MerchantID o) (Order_ExternalOrderID o) (Order_Status o)
    (Order_Currency o) (Order_Totals o) ([] ++ Order_Items o)
    (clone_payment <$> Order_Payment o) (clone_shipment <$> Order_Shipment o)
    (Order_ShippingAddressRef o) (Order_CreatedAt o) (Order_UpdatedAt o).

Definition shipmentRecordFromOrder (o : Order) : option ShipmentRecord :=
  match Order_Shipment o with
  | None => None
  | Some sh =>
      Some (mkShipmentRecord (Shipment_ShipmentID sh) (Order_OrderID o) (Order_MerchantID o)
              (Shipment_Carrier sh) (Shipment_TrackingNumber sh) (Shipment_Status sh)
              ([] ++ Shipment_Events sh))
  end.

Definition cloneShipmentRecord (r : ShipmentRecord) : ShipmentRecord :=
  mkShipmentRecord (ShipmentRecord_ShipmentID r) (ShipmentRecord_OrderID r)
    (ShipmentRecord_MerchantID r) (ShipmentRecord_Carrier r) (ShipmentRecord_TrackingNumber r)
    (ShipmentRecord_Status r) ([] ++ ShipmentRecord_Events r).

Definition put_order (id : string) (o : Order) (s : MemoryStore) : MemoryStore :=
  mkMemoryStore (<[id := o]> (ms_orders s)) (ms_ordersByExternal s) (ms_ordersByIdempotency s)
    (ms_outbox s) (ms_auditLogs s) (ms_publishedOutbox s) (ms_claimedOutbox s).

Definition put_indexes (extRef idemRef id : string) (s : MemoryStore) : MemoryStore :=
  mkMemoryStore (ms_orders s) (<[extRef := id]> (ms_ordersByExternal s))
    (<[idemRef := id]> (ms_ordersByIdempotency s))
    (ms_outbox s) (ms_auditLogs s) (ms_publishedOutbox s) (ms_claimedOutbox s).

Definition appendOutboxEvent (e : OutboxEvent) (s : MemoryStore) : MemoryStore :=
  mkMemoryStore (ms_orders s) (ms_ordersByExternal s) (ms_ordersByIdempotency s)
    (ms_outbox s ++ [WithEnvelopeDefaults e]) (ms_auditLogs s)
    (ms_publishedOutbox s) (ms_claimedOutbox s).

Definition append_audit (a : AuditLog) (s : MemoryStore) : MemoryStore :=
  mkMemoryStore (ms_orders s) (ms_ordersByExternal s) (ms_ordersByIdempotency s)
    (ms_outbox s) (ms_auditLogs s ++ [a]) (ms_publishedOutbox s) (ms_claimedOutbox s).

(** [order, ok := s.orders[id]; if !ok { return ErrNotFound }]. *)
Definition lookup_order (id : string) : M MemoryStore Order :=
  fun s => match ms_orders s !! id with
           | Some o => (Ok o, s)
           | None => (Err ErrNotFound, s)
           end.

(** ** The [commerce.Store] operations *)

Definition MemoryStore_InsertOrder (merchantID idempotencyKey : string) (order : Order)
    (event : OutboxEvent) (audit : AuditLog) : M MemoryStore (option Order * bool) :=
  fun s =>
    let idempotencyRef := scopedKey merchantID idempotencyKey in
    match ms_ordersByIdempotency s !! idempotencyRef with
    | Some existingID => (Ok (cloneOrder <$> ms_orders s !! existingID, true), s)
    | None =>
        let externalRef := scopedKey merchantID (Order_ExternalOrderID order) in
        match ms_ordersByExternal s !! externalRef with
        | Some _ => (Err ErrDuplicateOrder, s)
        | None =>
            let s := put_order (Order_OrderID order) (cloneOrder order) s in
            let s := put_indexes externalRef idempotencyRef (Order_OrderID order) s in
            let s := appendOutboxEvent event s in
            let s := append_audit audit s in
            (Ok (Some (cloneOrder order), false), s)
        end
    end.

Definition MemoryStore_GetOrder (orderID : string) : M MemoryStore Order :=
  let! order := lookup_order orderID in ret (cloneOrder order).

(** The scan of [GetShipment] over one enumeration of the map; Go fixes none. *)
Fixpoint shipment_scan (shipmentID : string) (orders : list (string * Order))
    : option ShipmentRecord :=
  match orders with
  | [] => None
  | (_, o) :: rest =>
      match Order_Shipment o with
      | Some sh => if String.eqb (Shipment_ShipmentID sh) shipmentID
                   then cloneShipmentRecord <$> shipmentRecordFromOrder o
                   else shipment_scan shipmentID rest
      | None => shipment_scan shipmentID rest
      end
  end.

Definition MemoryStore_GetShipment (shipmentID : string) : M MemoryStore ShipmentRecord :=
  fun s => match shipment_scan shipmentID (map_to_list (ms_orders s)) with
           | Some r => (Ok r, s)
           | None => (Err ErrNotFound, s)
           end.

Definition MemoryStore_UpdateOrderStatus (orderID : string) (status : OrderStatus) (now : Time)
    (event : OutboxEvent) (audit : AuditLog) : M MemoryStore Order :=
  let! order := lookup_order orderID in
  let! _ := require (ValidateOrderTransition (Order_Status order) status) in
  let order := set_Order_UpdatedAt now (set_Order_Status status order) in
  let event := set_Event_Payload
                 (OrderStatusEventPayload status now audit (Event_Payload event)) event in
  let! _ := modify (put_order orderID order) in
  let! _ := modify (appendOutboxEvent event) in
  let! _ := modify (append_audit audit) in
  ret (cloneOrder order).

(** ** The projections *)

Definition reservation_entry (i : OrderItem) : any :=
  AMap [("quantity", AInt (OrderItem_Quantity i)); ("sku", AStr (OrderItem_SKU i));
        ("warehouse_id", AStr "memory")].

Definition MemoryStore_RecordInventoryReserved (source next : OutboxEvent) (audit : AuditLog)
    : M MemoryStore unit :=
  let! order := lookup_order (Event_OrderID source) in
  let! _ := require (ValidateOrderTransition (Order_Status order) StatusInventoryReserved) in
  let items := map (set_ReservationStatus "reserved") (Order_Items order) in
  let order := set_Order_Items items order in
  let order := set_Order_Status StatusInventoryReserved order in
  let order := set_Order_UpdatedAt (Event_OccurredAt next) order in
  let next := set_Event_Payload
                (<["order_status" := AStr StatusInventoryReserved]>
                 {["reservations" := AList (map reservation_entry items)]}) next in
  let! _ := modify (put_order (Event_OrderID source) order) in
  let! _ := modify (appendOutboxEvent next) in
  modify (append_audit audit).

Definition MemoryStore_RecordInventoryRejected (source next : OutboxEvent) (audit : AuditLog)
    : M MemoryStore unit :=
  let! order := lookup_order (Event_OrderID source) in
  let order := set_Order_Items (map (set_ReservationStatus "rejected") (Order_Items order)) order in
  let order := set_Order_UpdatedAt (Event_OccurredAt next) order in
  let next := set_Event_Payload
                (failurePayload "inventory" (detail (Audit_Details audit) "error")) next in
  let! _ := modify (put_order (Event_OrderID source) order) in
  let! _ := modify (appendOutboxEvent next) in
  modify (append_audit audit).

Definition MemoryStore_RecordPaymentAuthorized (source next : OutboxEvent) (payment : Payment)
    (audit : AuditLog) : M MemoryStore unit :=
  let! order := lookup_order (Event_OrderID source) in
  let payment := match Order_Payment order with
                 | Some p => if String.eqb (Payment_Provider payment) ""
                             then set_Payment_Provider (Payment_Provider p) payment else payment
                 | None => payment
                 end in
  let! _ := require (ValidateOrderTransition (Order_Status order) StatusPaymentAuthorized) in
  let order := set_Order_Payment (Some payment) order in
  let order := set_Order_Status StatusPaymentAuthorized order in
  let order := set_Order_UpdatedAt (Event_OccurredAt next) order in
  let next := set_Event_Payload
                (<["order_status" := AStr StatusPaymentAuthorized]>
                 {["payment" := AMap
                    [("amount", AInt (Money_Amount (Totals_Total (Order_Totals order))));
                     ("authorization_id", AStr (Payment_AuthorizationID payment));
                     ("currency", AStr (Order_Currency order));
                     ("provider", AStr (Payment_Provider payment))]]}) next in
  let! _ := modify (put_order (Event_OrderID source) order) in
  let! _ := modify (appendOutboxEvent next) in
  modify (append_audit audit).

Definition MemoryStore_RecordPaymentFailed (source next : OutboxEvent) (audit : AuditLog)
    : M MemoryStore unit :=
  let! order := lookup_order (Event_OrderID source) in
  let provider := match Order_Payment order with
                  | Some p => if String.eqb (Payment_Provider p) "" then "fake-payment"
                              else Payment_Provider p
                  | None => "fake-payment"
                  end in
  let order := set_Order_Payment (Some (mkPayment provider "failed" "" "")) order in
  let order := set_Order_UpdatedAt (Event_OccurredAt next) order in
  let next := set_Event_Payload
                (failurePayload "payment" (detail (Audit_Details audit) "error")) next in
  let! _ := modify (put_order (Event_OrderID source) order) in
  let! _ := modify (appendOutboxEvent next) in
  modify (append_audit audit).

Definition MemoryStore_RecordShipmentCreated (source next : OutboxEvent) (shipment : Shipment)
    (audit : AuditLog) : M MemoryStore unit :=
  let! order := lookup_order (Event_OrderID source) in
  let! _ := require (ValidateOrderTransition (Order_Status order) StatusShipmentCreated) in
  let order := set_Order_Shipment (Some shipment) order in
  let order := set_Order_Status StatusShipmentCreated order in
  let order := set_Order_UpdatedAt (Event_OccurredAt next) order in
  let next := set_Event_Payload
                (<["order_status" := AStr StatusShipmentCreated]>
                 {["shipment" := AMap
                    [("carrier", AStr (Shipment_Carrier shipment));
                     ("shipment_id", AStr (Shipment_ShipmentID shipment));
                     ("tracking_number", AStr (Shipment_TrackingNumber shipment))]]}) next in
  let! _ := modify (put_order (Event_OrderID source) order) in
  let! _ := modify (appendOutboxEvent next) in
  modify (append_audit audit).

Definition MemoryStore_RecordShipmentFailed (source next : OutboxEvent) (audit : AuditLog)
    : M MemoryStore unit :=
  let! order := lookup_order (Event_OrderID source) in
  let order := set_Order_Shipment (Some (mkShipment "" "failed" "" "" [])) order in
  let order := set_Order_UpdatedAt (Event_OccurredAt next) order in
  let next := set_Event_Payload
                (failurePayload "shipment" (detail (Audit_Details audit) "error")) next in
  let! _ := modify (put_order (Event_OrderID source) order) in
  let! _ := modify (appendOutboxEvent next) in
  modify (append_audit audit).

(** [if item.ReservationStatus == "reserved" { ... = "released" }]. *)
Definition release_item (i : OrderItem) : OrderItem :=
  if String.eqb (OrderItem_ReservationStatus i) "reserved"
  then set_ReservationStatus "released" i else i.

(** [if p != nil && p.Status == "authorized" { p.Status = "voided" }]. *)
Definition void_payment (p : option Payment) : option Payment :=
  match p with
  | Some p => Some (if String.eqb (Payment_Status p) "authorized"
                    then set_Payment_Status "voided" p else p)
  | None => None
  end.

Definition MemoryStore_RecordOrderCancelled (source next : OutboxEvent) (audit : AuditLog)
    : M MemoryStore unit :=
  let! order := lookup_order (Event_OrderID source) in
  let! _ := require (ValidateOrderTransition (Order_Status order) StatusCancelled) in
  let order := set_Order_Status StatusCancelled order in
  let order := set_Order_UpdatedAt (Event_OccurredAt next) order in
  let order := set_Order_Items (map release_item (Order_Items order)) order in
  let order := set_Order_Payment (void_payment (Order_Payment order)) order in
  let next := set_Event_Payload
                (OrderStatusEventPayload StatusCancelled (Event_OccurredAt next) audit
                   (Event_Payload next)) next in
  let! _ := modify (put_order (Event_OrderID source) order) in
  let! _ := modify (appendOutboxEvent next) in
  modify (append_audit audit).

Definition MemoryStore_RecordNotificationQueued (source : OutboxEvent) (audit : AuditLog)
    : M MemoryStore unit :=
  let! _ := lookup_order (Event_OrderID source) in
  modify (append_audit audit).

Definition MemoryStore_RecordCompensation (source : OutboxEvent) (status : OrderStatus)
    (audit : AuditLog) : M MemoryStore unit :=
  let! order := lookup_order (Event_OrderID source) in
  let! _ := require (ValidateOrderTransition (Order_Status order) status) in
  let order := set_Order_Status status order in
  let order := set_Order_UpdatedAt (Audit_CreatedAt audit) order in
  let order := if one_of (Event_EventType source) ["payment.failed"; "shipment.failed"]
               then set_Order_Items (map release_item (Order_Items order)) order else order in
  let order := if String.eqb (Event_EventType source) "shipment.failed"
               then set_Order_Payment (void_payment (Order_Payment order)) order else order in
  let! _ := modify (put_order (Event_OrderID source) order) in
  modify (append_audit audit).

(** ** Reads and the outbox *)

Definition MemoryStore_OutboxEvents (s : MemoryStore) : list OutboxEvent :=
  map WithEnvelopeDefaults (ms_outbox s).

Definition cloneAuditLog (a : AuditLog) : AuditLog :=
  mkAuditLog (Audit_MerchantID a) (Audit_OrderID a) (Audit_ActorType a) (Audit_ActorID a)
    (Audit_Action a) (Audit_CorrelationID a) (Audit_CreatedAt a) (Audit_Details a).

Definition MemoryStore_AuditLogs (s : MemoryStore) : list AuditLog :=
  map cloneAuditLog (ms_auditLogs s).

(** Still to publish, and not under a lease that is running at [now]. *)
Definition claimable (published claimed : gmap string Time) (now : Time) (e : OutboxEvent) : bool :=
  match published !! Event_MessageID e with
  | Some _ => false
  | None => match claimed !! Event_MessageID e with
            | Some claimedUntil => negb (After claimedUntil now)
            | None => true
            end
  end.

(** The loop of [PendingOutboxEvents]; [taken] is [len(events)]. *)
Fixpoint claim_loop (limit : Z) (now claimUntil : Time) (published claimed : gmap string Time)
    (taken : Z) (outbox : list OutboxEvent) : list OutboxEvent * gmap string Time :=
  match outbox with
  | [] => ([], claimed)
  | e :: rest =>
      if claimable published claimed now e then
        let claimed := <[Event_MessageID e := claimUntil]> claimed in
        if taken + 1 =? limit then ([WithEnvelopeDefaults e], claimed)
        else let (evs, claimed) := claim_loop limit now claimUntil published claimed (taken + 1) rest
             in (WithEnvelopeDefaults e :: evs, claimed)
      else claim_loop limit now claimUntil published claimed taken rest
  end.

Definition set_claims (claimed : gmap string Time) (s : MemoryStore) : MemoryStore :=
  mkMemoryStore (ms_orders s) (ms_ordersByExternal s) (ms_ordersByIdempotency s)
    (ms_outbox s) (ms_auditLogs s) (ms_publishedOutbox s) claimed.

Definition claim_lease : Duration := 30 * second.

Definition MemoryStore_PendingOutboxEvents (limit : Z) (now : Time)
    : M MemoryStore (list OutboxEvent) :=
  fun s =>
    let limit := if limit <=? 0 then Z.of_nat (length (ms_outbox s)) else limit in
    let (events, claimed) :=
      claim_loop limit now (AddD now claim_lease) (ms_publishedOutbox s) (ms_claimedOutbox s)
        0 (ms_outbox s) in
    (Ok events, set_claims claimed s).

Definition unpublished (s : MemoryStore) (e : OutboxEvent) : bool :=
  match ms_publishedOutbox s !! Event_MessageID e with Some _ => false | None => true end.

Definition MemoryStore_PendingOutboxCount (s : MemoryStore) : Z :=
  fold_left (fun count e => if unpublished s e then count + 1 else count) (ms_outbox s) 0.

(** The age is kept in nanoseconds; Go divides it to [float64] seconds. *)
Definition MemoryStore_OldestPendingOutboxAge (now : Time) (s : MemoryStore) : Duration :=
  let oldest := fold_left
    (fun oldest e =>
       if unpublished s e then
         match oldest with
         | None => Some e
         | Some o => if Before (Event_OccurredAt e) (Event_OccurredAt o) then Some e else oldest
         end
       else oldest) (ms_outbox s) None in
  match oldest with
  | None => 0
  | Some e => now - Event_OccurredAt e
  end.

Definition zero_counts : gmap string Z :=
  fold_left (fun m st => <[st := 0]> m) ValidOrderStatuses ∅.

Definition count_order (m : gmap string Z) (o : Order) : gmap string Z :=
  <[Order_Status o := default 0 (m !! Order_Status o) + 1]> m.

Definition MemoryStore_OrderStatusCounts (s : MemoryStore) : gmap string Z :=
  fold_left count_order (map snd (map_to_list (ms_orders s))) zero_counts.

Definition MemoryStore_MarkOutboxPublished (messageID : string) (publishedAt : Time)
    : M MemoryStore unit :=
  modify (fun s =>
    mkMemoryStore (ms_orders s) (ms_ordersByExternal s) (ms_ordersByIdempotency s)
      (ms_outbox s) (ms_auditLogs s) (<[messageID := publishedAt]> (ms_publishedOutbox s))
      (delete messageID (ms_claimedOutbox s))).

#[export] Instance memory_store : Store MemoryStore := {
  InsertOrder := MemoryStore_InsertOrder;
  GetOrder := MemoryStore_GetOrder;
  GetShipment := MemoryStore_GetShipment;
  UpdateOrderStatus := MemoryStore_UpdateOrderStatus;
  OutboxEvents := MemoryStore_OutboxEvents;
  AuditLogs := MemoryStore_AuditLogs
}.
