(* ===== verification/MemoryInvariant.v ===== *)
(** The invariant of the in-memory store, that every operation keeps it, and
    the instance of the store interface. *)
From S2P Require Import Prelude GoStrings GoTime Model StateMachine Store MemoryStore.

(** ** Operations as data: a client is a sequence of these *)

Inductive StoreOp : Type :=
| OpInsert (m k : string) (o : Order) (ev : OutboxEvent) (au : AuditLog)
| OpUpdate (id : string) (st : OrderStatus) (now : Time) (ev : OutboxEvent) (au : AuditLog)
| OpReserved (src next : OutboxEvent) (au : AuditLog)
| OpRejected (src next : OutboxEvent) (au : AuditLog)
| OpAuthorized (src next : OutboxEvent) (p : Payment) (au : AuditLog)
| OpPaymentFailed (src next : OutboxEvent) (au : AuditLog)
| OpShipped (src next : OutboxEvent) (sh : Shipment) (au : AuditLog)
| OpShipmentFailed (src next : OutboxEvent) (au : AuditLog)
| OpCancelled (src next : OutboxEvent) (au : AuditLog)
| OpNotified (src : OutboxEvent) (au : AuditLog)
| OpCompensated (src : OutboxEvent) (st : OrderStatus) (au : AuditLog)
| OpClaim (limit : Z) (now : Time)
| OpPublished (id : string) (at_ : Time).

Definition discard {S A} (c : M S A) : M S unit := let! _ := c in ret tt.

Definition run_op (op : StoreOp) : M MemoryStore unit :=
  match op with
  | OpInsert m k o ev au => discard (MemoryStore_InsertOrder m k o ev au)
  | OpUpdate id st now ev au => discard (MemoryStore_UpdateOrderStatus id st now ev au)
  | OpReserved src next au => MemoryStore_RecordInventoryReserved src next au
  | OpRejected src next au => MemoryStore_RecordInventoryRejected src next au
  | OpAuthorized src next p au => MemoryStore_RecordPaymentAuthorized src next p au
  | OpPaymentFailed src next au => MemoryStore_RecordPaymentFailed src next au
  | OpShipped src next sh au => MemoryStore_RecordShipmentCreated src next sh au
  | OpShipmentFailed src next au => MemoryStore_RecordShipmentFailed src next au
  | OpCancelled src next au => MemoryStore_RecordOrderCancelled src next au
  | OpNotified src au => MemoryStore_RecordNotificationQueued src au
  | OpCompensated src st au => MemoryStore_RecordCompensation src st au
  | OpClaim limit now => discard (MemoryStore_PendingOutboxEvents limit now)
  | OpPublished id at_ => MemoryStore_MarkOutboxPublished id at_
  end.

(** What the service guarantees of an insertion: a new identifier, the
    authenticated merchant and the initial status. *)
Definition op_pre (s : MemoryStore) (op : StoreOp) : Prop :=
  match op with
  | OpInsert m _ o _ _ =>
      ms_orders s !! Order_OrderID o = None /\ Order_MerchantID o = m
      /\ Order_Status o = StatusPendingFulfillment
  | _ => True
  end.

Definition store_step (s s' : MemoryStore) : Prop :=
  exists op, op_pre s op /\ snd (run_op op s) = s'.

Definition reachable (s : MemoryStore) : Prop := rtc store_step NewMemoryStore s.

(** ** The parts of an order no operation changes *)

Definition line_snapshot (i : OrderItem) : string * Z * Money :=
  (OrderItem_SKU i, OrderItem_Quantity i, OrderItem_UnitPrice i).

Definition snapshot (o : Order) :=
  (Order_OrderID o, Order_MerchantID o, Order_ExternalOrderID o, Order_Currency o,
   Order_Totals o, map line_snapshot (Order_Items o), Order_ShippingAddressRef o,
   Order_CreatedAt o).

Record order_evolves (o o' : Order) : Prop := {
  oe_snapshot : snapshot o' = snapshot o;
  oe_status : rtc Moves (Order_Status o) (Order_Status o')
}.

(** ** What one operation may do *)

Record evolves (s s' : MemoryStore) : Prop := {
  ev_orders id o : ms_orders s !! id = Some o ->
    exists o', ms_orders s' !! id = Some o' /\ order_evolves o o';
  ev_no_new id : ms_orders s !! id = None -> ms_orders s' !! id = None;
  ev_external : ms_ordersByExternal s' = ms_ordersByExternal s;
  ev_idempotency : ms_ordersByIdempotency s' = ms_ordersByIdempotency s;
  ev_outbox : exists evs, Forall normalized evs /\ ms_outbox s' = ms_outbox s ++ evs;
  ev_audit : exists aus, ms_auditLogs s' = ms_auditLogs s ++ aus
}.

#[export] Instance order_evolves_preorder : PreOrder order_evolves.
Proof.
  split.
  - intros o. split; [done|apply rtc_refl].
  - intros a b c [H1 H2] [H3 H4]. split; [congruence|]. by etrans.
Qed.

#[export] Instance evolves_preorder : PreOrder evolves.
Proof.
  split.
  - intros s. split; try done.
    + intros id o H. exists o. split; [done|reflexivity].
    + exists []. split; [constructor|by rewrite app_nil_r].
    + exists []. by rewrite app_nil_r.
  - intros a b c [O1 N1 E1 I1 [x1 [F1 X1]] [y1 Y1]] [O2 N2 E2 I2 [x2 [F2 X2]] [y2 Y2]].
    split; [|auto|congruence|congruence| |].
    + intros id o H. destruct (O1 _ _ H) as (o1 & H1 & He1).
      destruct (O2 _ _ H1) as (o2 & H2 & He2). exists o2. split; [done|by etrans].
    + exists (x1 ++ x2). split; [by apply Forall_app|]. by rewrite X2, X1, app_assoc.
    + exists (y1 ++ y2). by rewrite Y2, Y1, app_assoc.
Qed.

(** ** The elementary mutations *)

Lemma evolves_put id o o' s :
  ms_orders s !! id = Some o -> order_evolves o o' -> evolves s (put_order id o' s).
Proof.
  intros Ho He. split; simpl; try done.
  - intros id' x Hx. destruct (decide (id = id')) as [<-|Hne].
    + exists o'. rewrite lookup_insert_eq. split; [done|congruence].
    + exists x. rewrite lookup_insert_ne by done. split; [done|reflexivity].
  - intros id' Hx. rewrite lookup_insert_ne; [done|]. congruence.
  - exists []. split; [constructor|by rewrite app_nil_r].
  - exists []. by rewrite app_nil_r.
Qed.

Lemma evolves_outbox e s : evolves s (appendOutboxEvent e s).
Proof.
  split; simpl; try done.
  - intros id o H. exists o. split; [done|reflexivity].
  - exists [WithEnvelopeDefaults e]. split; [|done]. repeat constructor. apply envelope_normalized.
  - exists []. by rewrite app_nil_r.
Qed.

Lemma evolves_audit a s : evolves s (append_audit a s).
Proof.
  split; simpl; try done.
  - intros id o H. exists o. split; [done|reflexivity].
  - exists []. split; [constructor|by rewrite app_nil_r].
  - by exists [a].
Qed.

Lemma evolves_claims c s : evolves s (set_claims c s).
Proof.
  split; simpl; try done.
  - intros id o H. exists o. split; [done|reflexivity].
  - exists []. split; [constructor|by rewrite app_nil_r].
  - exists []. by rewrite app_nil_r.
Qed.

Lemma evolves_published id at_ s : evolves s (snd (MemoryStore_MarkOutboxPublished id at_ s)).
Proof.
  split; simpl; try done.
  - intros i o H. exists o. split; [done|reflexivity].
  - exists []. split; [constructor|by rewrite app_nil_r].
  - exists []. by rewrite app_nil_r.
Qed.

#[export] Hint Resolve evolves_outbox evolves_audit evolves_claims evolves_published : hub.

Lemma allowed_moves from to : ValidateOrderTransition from to = None -> rtc Moves from to.
Proof.
  intros H. apply validate_ok_allowed in H as [[<- _]|H]; [apply rtc_refl|by apply rtc_once].
Qed.

Lemma map_lines_same f items :
  (forall i, line_snapshot (f i) = line_snapshot i) ->
  map line_snapshot (map f items) = map line_snapshot items.
Proof. intros H. induction items; simpl; f_equal; auto. Qed.

Lemma release_item_line i : line_snapshot (release_item i) = line_snapshot i.
Proof. unfold release_item. by case_match. Qed.

#[export] Hint Resolve allowed_moves release_item_line rtc_refl : hub.

Lemma clone_order_id o : cloneOrder o = o.
Proof. destruct o as [? ? ? ? ? ? ? [[]|] [[]|] ? ? ?]; reflexivity. Qed.

Lemma clone_audit_id a : cloneAuditLog a = a.
Proof. by destruct a. Qed.

(** The new value of an order after an operation evolves from the old one. *)
Ltac order_step :=
  split; simpl;
  [ unfold snapshot; simpl; rewrite ?map_lines_same; eauto with hub
  | eauto with hub ].

(** Run one operation of the store down to its elementary mutations. *)
Tactic Notation "run_store" reference(op) :=
  unfold run_op, discard; unfold op;
  unfold bind, lookup_order, require, modify, ret, throw; simpl;
  repeat (case_match; simplify_eq/=).

Ltac chain_evolves :=
  repeat (etransitivity;
          [| first [ apply evolves_audit | apply evolves_outbox | apply evolves_claims ] ]);
  first [ reflexivity | eapply evolves_put; [eassumption|] ].

(** Every operation but an insertion evolves the store. *)
Lemma run_op_evolves op s :
  match op with OpInsert _ _ _ _ _ => True | _ => evolves s (snd (run_op op s)) end.
Proof.
  destruct op; try exact I.
  - run_store MemoryStore_UpdateOrderStatus; chain_evolves; order_step.
  - run_store MemoryStore_RecordInventoryReserved; chain_evolves; order_step.
  - run_store MemoryStore_RecordInventoryRejected; chain_evolves; order_step.
  - run_store MemoryStore_RecordPaymentAuthorized; chain_evolves; order_step.
  - run_store MemoryStore_RecordPaymentFailed; chain_evolves; order_step.
  - run_store MemoryStore_RecordShipmentCreated; chain_evolves; order_step.
  - run_store MemoryStore_RecordShipmentFailed; chain_evolves; order_step.
  - run_store MemoryStore_RecordOrderCancelled; chain_evolves; order_step.
  - run_store MemoryStore_RecordNotificationQueued; chain_evolves.
  - run_store MemoryStore_RecordCompensation; chain_evolves; order_step.
  - run_store MemoryStore_PendingOutboxEvents; apply evolves_claims.
  - apply evolves_published.
Qed.

(** ** Failure atomicity *)

(** Open one run of any operation in a hypothesis. *)
Ltac unfold_op_in H :=
  unfold run_op, discard, MemoryStore_InsertOrder, MemoryStore_UpdateOrderStatus,
    MemoryStore_RecordInventoryReserved, MemoryStore_RecordInventoryRejected,
    MemoryStore_RecordPaymentAuthorized, MemoryStore_RecordPaymentFailed,
    MemoryStore_RecordShipmentCreated, MemoryStore_RecordShipmentFailed,
    MemoryStore_RecordOrderCancelled, MemoryStore_RecordNotificationQueued,
    MemoryStore_RecordCompensation, MemoryStore_PendingOutboxEvents,
    MemoryStore_MarkOutboxPublished in H;
  unfold bind, lookup_order, require, modify, ret, throw in H; simpl in H.

Lemma run_op_error_unchanged op s e s' : run_op op s = (Err e, s') -> s' = s.
Proof.
  intros H. destruct op; unfold_op_in H; repeat (case_match; simplify_eq/=); done.
Qed.

(** ** The invariant *)

Record mem_ok (s : MemoryStore) : Prop := {
  (** an order is filed under its own identifier, in a known status *)
  ok_order id o : ms_orders s !! id = Some o ->
    Order_OrderID o = id /\ Order_Status o ∈ ValidOrderStatuses;
  (** the external index holds every order, under its merchant and external id *)
  ok_external id o : ms_orders s !! id = Some o ->
    ms_ordersByExternal s !! scopedKey (Order_MerchantID o) (Order_ExternalOrderID o) = Some id;
  (** both indexes point to stored orders, of the merchant in the key *)
  ok_external_back ref id : ms_ordersByExternal s !! ref = Some id ->
    exists o, ms_orders s !! id = Some o
              /\ ref = scopedKey (Order_MerchantID o) (Order_ExternalOrderID o);
  ok_idempotency ref id : ms_ordersByIdempotency s !! ref = Some id ->
    exists o k, ms_orders s !! id = Some o /\ ref = scopedKey (Order_MerchantID o) k;
  (** stored events carry their envelope defaults *)
  ok_outbox : Forall normalized (ms_outbox s)
}.

Lemma snapshot_keys o o' :
  snapshot o' = snapshot o ->
  Order_OrderID o' = Order_OrderID o /\ Order_MerchantID o' = Order_MerchantID o
  /\ Order_ExternalOrderID o' = Order_ExternalOrderID o.
Proof. unfold snapshot. intros. by simplify_eq. Qed.

Lemma rtc_moves_valid from to :
  rtc Moves from to -> from ∈ ValidOrderStatuses -> to ∈ ValidOrderStatuses.
Proof. induction 1 as [|x y z Hxy _ IH]; [done|]. intros _. by apply IH, (moves_valid x y). Qed.

Lemma evolves_back s s' id o' :
  evolves s s' -> ms_orders s' !! id = Some o' ->
  exists o, ms_orders s !! id = Some o /\ order_evolves o o'.
Proof.
  intros Hev H'. destruct (ms_orders s !! id) as [o|] eqn:Ho.
  - destruct (ev_orders _ _ Hev _ _ Ho) as (x & Hx & He). simplify_eq. eauto.
  - apply (ev_no_new _ _ Hev) in Ho. congruence.
Qed.

Lemma evolves_ok s s' : evolves s s' -> mem_ok s -> mem_ok s'.
Proof.
  intros Hev [Ho He Hb Hi Hn]. split.
  - intros id o' H'. destruct (evolves_back _ _ _ _ Hev H') as (o & H & [Hs Ht]).
    destruct (snapshot_keys _ _ Hs) as (-> & _ & _). destruct (Ho _ _ H). split; [done|].
    by eapply rtc_moves_valid.
  - intros id o' H'. destruct (evolves_back _ _ _ _ Hev H') as (o & H & [Hs _]).
    destruct (snapshot_keys _ _ Hs) as (_ & -> & ->).
    rewrite (ev_external _ _ Hev). by apply He.
  - intros ref id H'. rewrite (ev_external _ _ Hev) in H'. destruct (Hb _ _ H') as (o & H & ->).
    destruct (ev_orders _ _ Hev _ _ H) as (o' & H1 & [Hs _]). exists o'.
    destruct (snapshot_keys _ _ Hs) as (_ & -> & ->). done.
  - intros ref id H'. rewrite (ev_idempotency _ _ Hev) in H'.
    destruct (Hi _ _ H') as (o & k & H & ->).
    destruct (ev_orders _ _ Hev _ _ H) as (o' & H1 & [Hs _]). exists o', k.
    destruct (snapshot_keys _ _ Hs) as (_ & -> & _). done.
  - destruct (ev_outbox _ _ Hev) as (evs & Hf & ->). by apply Forall_app.
Qed.

(** The state an accepted insertion leaves. *)
Definition inserted (m k : string) (o : Order) (ev : OutboxEvent) (au : AuditLog)
    (s : MemoryStore) : MemoryStore :=
  append_audit au
    (appendOutboxEvent ev
       (put_indexes (scopedKey m (Order_ExternalOrderID o)) (scopedKey m k) (Order_OrderID o)
          (put_order (Order_OrderID o) o s))).

Lemma insert_run m k o ev au s :
  MemoryStore_InsertOrder m k o ev au s =
  match ms_ordersByIdempotency s !! scopedKey m k with
  | Some id => (Ok (ms_orders s !! id, true), s)
  | None => match ms_ordersByExternal s !! scopedKey m (Order_ExternalOrderID o) with
            | Some _ => (Err ErrDuplicateOrder, s)
            | None => (Ok (Some o, false), inserted m k o ev au s)
            end
  end.
Proof.
  unfold MemoryStore_InsertOrder. rewrite clone_order_id.
  destruct (ms_ordersByIdempotency s !! scopedKey m k) as [id|]; [|done].
  destruct (ms_orders s !! id); simpl; [by rewrite clone_order_id|done].
Qed.

Lemma inserted_ok m k o ev au s :
  mem_ok s -> ms_orders s !! Order_OrderID o = None -> Order_MerchantID o = m ->
  Order_Status o = StatusPendingFulfillment ->
  ms_ordersByIdempotency s !! scopedKey m k = None ->
  ms_ordersByExternal s !! scopedKey m (Order_ExternalOrderID o) = None ->
  mem_ok (inserted m k o ev au s).
Proof.
  intros [Ho He Hb Hi Hn] Hnew Hm Hst Hidem Hext.
  assert (Hne : forall id x, ms_orders s !! id = Some x -> Order_OrderID o <> id) by congruence.
  split; simpl.
  - intros id x [[<- <-]|[Hid Hx]]%lookup_insert_Some; [|auto].
    split; [done|]. rewrite Hst. by apply is_valid_spec.
  - intros id x [[<- <-]|[Hid Hx]]%lookup_insert_Some.
    + rewrite Hm. apply lookup_insert_eq.
    + rewrite lookup_insert_ne; [by apply He|]. intros E. specialize (He _ _ Hx). congruence.
  - intros ref id [[<- <-]|[Hr Hx]]%lookup_insert_Some.
    + exists o. rewrite lookup_insert_eq. by rewrite Hm.
    + destruct (Hb _ _ Hx) as (x & Hx' & ->). exists x.
      rewrite lookup_insert_ne by eauto. done.
  - intros ref id [[<- <-]|[Hr Hx]]%lookup_insert_Some.
    + exists o, k. rewrite lookup_insert_eq. by rewrite Hm.
    + destruct (Hi _ _ Hx) as (x & k' & Hx' & ->). exists x, k'.
      rewrite lookup_insert_ne by eauto. done.
  - apply Forall_app. split; [done|]. repeat constructor. apply envelope_normalized.
Qed.

Lemma empty_ok : mem_ok NewMemoryStore.
Proof. split; simpl; try (intros ? ? H; by rewrite lookup_empty in H). constructor. Qed.

Lemma step_ok s s' : store_step s s' -> mem_ok s -> mem_ok s'.
Proof.
  intros (op & Hpre & <-) Hok. destruct op;
    try (eapply evolves_ok; [|exact Hok];
         match goal with |- evolves _ (snd (run_op ?op _)) =>
           exact (run_op_evolves op s) end).
  destruct Hpre as (Hnew & Hm & Hst).
  unfold run_op, discard, bind. rewrite insert_run.
  destruct (ms_ordersByIdempotency s !! _) eqn:Hidem; [done|].
  destruct (ms_ordersByExternal s !! _) eqn:Hext; [done|]. by apply inserted_ok.
Qed.

Lemma reachable_ok s : reachable s -> mem_ok s.
Proof.
  unfold reachable. intros H. pose proof empty_ok as Hok. revert Hok.
  induction H as [|x y z Hxy _ IH]; [done|]. intros Hok. apply IH. by eapply step_ok.
Qed.

Lemma outbox_view s : mem_ok s -> MemoryStore_OutboxEvents s = ms_outbox s.
Proof.
  intros [_ _ _ _ H]. unfold MemoryStore_OutboxEvents.
  induction H as [|e l He _ IH]; simpl; [done|]. by rewrite He, IH.
Qed.

Lemma audit_view s : MemoryStore_AuditLogs s = ms_auditLogs s.
Proof.
  unfold MemoryStore_AuditLogs. induction (ms_auditLogs s); simpl; [done|].
  by rewrite clone_audit_id, IHl.
Qed.
