(* ===== verification/MemoryLaws.v ===== *)
(** The in-memory store keeps the store interface, and the properties of whole
    runs of it: atomic failures, the invariant, order histories, append-only
    logs, leases of outbox events and the read-side queries. *)
From S2P Require Import Prelude GoStrings GoTime Model StateMachine Store MemoryStore.
From S2P Require Import MemoryInvariant Service.

(** ** The interface *)

Lemma get_order_run id s :
  MemoryStore_GetOrder id s
  = (match ms_orders s !! id with Some o => Ok o | None => Err ErrNotFound end, s).
Proof.
  unfold MemoryStore_GetOrder, bind, lookup_order.
  destruct (ms_orders s !! id); [|done]. unfold ret. by rewrite clone_order_id.
Qed.

(** The state an accepted status update leaves. *)
Definition updated (id : string) (st : OrderStatus) (now : Time) (ev : OutboxEvent)
    (au : AuditLog) (o : Order) (s : MemoryStore) : MemoryStore :=
  append_audit au
    (appendOutboxEvent
       (set_Event_Payload (OrderStatusEventPayload st now au (Event_Payload ev)) ev)
       (put_order id (set_Order_UpdatedAt now (set_Order_Status st o)) s)).

Lemma update_run id st now ev au s :
  MemoryStore_UpdateOrderStatus id st now ev au s =
  match ms_orders s !! id with
  | None => (Err ErrNotFound, s)
  | Some o => match ValidateOrderTransition (Order_Status o) st with
              | Some e => (Err e, s)
              | None => (Ok (set_Order_UpdatedAt now (set_Order_Status st o)),
                         updated id st now ev au o s)
              end
  end.
Proof.
  unfold MemoryStore_UpdateOrderStatus, bind, lookup_order.
  destruct (ms_orders s !! id) as [o|]; [|done].
  destruct (ValidateOrderTransition (Order_Status o) st); [done|]. simpl.
  unfold ret. by rewrite clone_order_id.
Qed.

Lemma updated_evolves id st now ev au o s :
  ms_orders s !! id = Some o -> ValidateOrderTransition (Order_Status o) st = None ->
  evolves s (updated id st now ev au o s).
Proof. intros Ho Ht. unfold updated. chain_evolves; order_step. Qed.

Lemma memory_appended s s' ev au :
  mem_ok s -> mem_ok s' ->
  ms_outbox s' = ms_outbox s ++ [WithEnvelopeDefaults ev] ->
  ms_auditLogs s' = ms_auditLogs s ++ [au] ->
  appended s s' ev au.
Proof.
  intros Hs Hs' Ho Ha. split; simpl.
  - by rewrite !outbox_view.
  - by rewrite !audit_view.
Qed.

#[export] Program Instance memory_store_laws : StoreLaws MemoryStore := {
  store_ok := mem_ok;
  find_order s id := ms_orders s !! id;
  find_idempotent s m k := ms_ordersByIdempotency s !! scopedKey m k;
  external_taken s m x := bool_decide (is_Some (ms_ordersByExternal s !! scopedKey m x))
}.
Next Obligation. intros s id. apply get_order_run. Qed.
Next Obligation. intros s id. simpl. unfold MemoryStore_GetShipment. by case_match. Qed.
Next Obligation.
  intros s m k id o Hok Hid Ho Hm Hm'. simpl in *.
  destruct (ok_idempotency _ Hok _ _ Hid) as (o' & k' & Ho' & E). simplify_eq.
  by apply sep_app_inj in E as [-> _].
Qed.
Next Obligation.
  intros s m k o ev au id Hok Hid. simpl.
  destruct (ok_idempotency _ Hok _ _ Hid) as (o' & k' & Ho' & _).
  exists o'. split; [done|]. rewrite insert_run, Hid. by rewrite Ho'.
Qed.
Next Obligation.
  intros s m k o ev au Hid [x Hx]%bool_decide_eq_true. simpl.
  by rewrite insert_run, Hid, Hx.
Qed.
Next Obligation.
  intros s m k o ev au Hok Hm Hst Hid Hx Hnew.
  apply bool_decide_eq_false, eq_None_not_Some in Hx.
  pose proof (inserted_ok m k o ev au s Hok Hnew Hm Hst Hid Hx) as Hok'.
  exists (inserted m k o ev au s). simpl in *. split_and!; try done.
  - by rewrite insert_run, Hid, Hx.
  - apply lookup_insert_eq.
  - intros. by rewrite lookup_insert_ne.
  - apply lookup_insert_eq.
  - apply bool_decide_eq_true. rewrite lookup_insert_eq. done.
  - by apply memory_appended.
Qed.
Next Obligation.
  intros s m k o ev au o' s'. simpl. rewrite insert_run. repeat case_match; naive_solver.
Qed.
Next Obligation. intros s id st now ev au Ho. simpl. by rewrite update_run, Ho. Qed.
Next Obligation.
  intros s id st now ev au o e Ho Ht. simpl. by rewrite update_run, Ho, Ht.
Qed.
Next Obligation.
  intros s id st now ev au o Hok Ho Ht.
  pose proof (updated_evolves id st now ev au o s Ho Ht) as Hev.
  pose proof (evolves_ok _ _ Hev Hok) as Hok'.
  exists (updated id st now ev au o s). simpl. split_and!; try done.
  - by rewrite update_run, Ho, Ht.
  - apply lookup_insert_eq.
  - intros. by rewrite lookup_insert_ne.
  - by apply memory_appended.
Qed.

(** ** Whole runs *)

(** What every step guarantees of the orders already there and of the logs. *)
Record extends (s s' : MemoryStore) : Prop := {
  ext_orders id o : ms_orders s !! id = Some o ->
    exists o', ms_orders s' !! id = Some o' /\ order_evolves o o';
  ext_outbox : ms_outbox s `prefix_of` ms_outbox s';
  ext_audit : ms_auditLogs s `prefix_of` ms_auditLogs s'
}.

#[export] Instance extends_preorder : PreOrder extends.
Proof.
  split.
  - intros s. split; try done. intros id o H. exists o. split; [done|reflexivity].
  - intros a b c [O1 X1 Y1] [O2 X2 Y2]. split; [|by etrans|by etrans].
    intros id o H. destruct (O1 _ _ H) as (o1 & H1 & He1).
    destruct (O2 _ _ H1) as (o2 & H2 & He2). exists o2. split; [done|by etrans].
Qed.

Lemma evolves_extends s s' : evolves s s' -> extends s s'.
Proof. intros [O _ _ _ [x [_ X]] [y Y]]. split; [done|by exists x|by exists y]. Qed.

Lemma inserted_extends m k o ev au s :
  ms_orders s !! Order_OrderID o = None -> extends s (inserted m k o ev au s).
Proof.
  intros Hnew. split; simpl; [|by eexists|by eexists].
  intros id x Hx. exists x. rewrite lookup_insert_ne by congruence. split; [done|reflexivity].
Qed.

Lemma step_extends s s' : store_step s s' -> extends s s'.
Proof.
  intros (op & Hpre & <-).
  destruct op as [m k o ev au| | | | | | | | | | | |];
    try (apply evolves_extends;
         match goal with |- evolves _ (snd (run_op ?op _)) => exact (run_op_evolves op s) end).
  destruct Hpre as (Hnew & _ & _). unfold run_op, discard, bind. rewrite insert_run.
  repeat case_match; simplify_eq/=; try reflexivity. by apply inserted_extends.
Qed.

Lemma run_extends s s' : rtc store_step s s' -> extends s s'.
Proof.
  induction 1 as [|x y z Hxy _ IH]; [reflexivity|]. etransitivity; [|exact IH].
  by apply step_extends.
Qed.

Lemma moves_history from to : rtc Moves from to -> History from to.
Proof. apply rtc_subrel. intros x y. by right. Qed.

(** Every state-changing operation of the in-memory store is atomic: when
    it reports an error the store is exactly what it was, and when it succeeds
    (insertions apart, which are covered below) each order keeps its identity,
    prices and lines and moves only along the life cycle, no order appears or
    disappears, both indexes are untouched and the outbox and audit log only
    grow at their end by events that carry their envelope defaults. *)
Theorem store_operations_atomic op s :
  match run_op op s with
  | (Err _, s') => s' = s
  | (Ok _, s') => match op with OpInsert _ _ _ _ _ => True | _ => evolves s s' end
  end.
Proof.
  destruct (run_op op s) as [[u|e] s'] eqn:H.
  - pose proof (run_op_evolves op s) as Hev. rewrite H in Hev. exact Hev.
  - by eapply run_op_error_unchanged.
Qed.

(** The invariant of the in-memory store holds in every state a client can
    reach: orders are filed under their own id with a known status, the two
    indexes and the order map agree in both directions, and every stored event
    is in envelope-normal form. *)
Theorem reachable_invariant s : reachable s -> mem_ok s.
Proof. apply reachable_ok. Qed.

(** Over any sequence of operations, of any length, an order that is stored
    stays stored; its identifier, merchant, external id, currency, totals,
    lines, address reference and creation time never change; and its status
    history is a path of the life cycle. *)
Theorem order_history_lawful s s' id o :
  rtc store_step s s' -> ms_orders s !! id = Some o ->
  exists o', ms_orders s' !! id = Some o' /\ snapshot o' = snapshot o
             /\ History (Order_Status o) (Order_Status o').
Proof.
  intros Hrun Ho. destruct (ext_orders _ _ (run_extends _ _ Hrun) _ _ Ho) as (o' & Ho' & [Hs Hm]).
  exists o'. split_and!; [done..|]. by apply moves_history.
Qed.

(** The outbox and the audit log are append-only over any run: what was
    read once is a prefix of what is read later. *)
Theorem logs_append_only s s' :
  reachable s -> rtc store_step s s' ->
  MemoryStore_OutboxEvents s `prefix_of` MemoryStore_OutboxEvents s'
  /\ MemoryStore_AuditLogs s `prefix_of` MemoryStore_AuditLogs s'.
Proof.
  intros Hr Hrun. assert (Hr' : reachable s') by (unfold reachable in *; by etransitivity).
  rewrite !outbox_view, !audit_view by (by apply reachable_ok).
  split; apply run_extends in Hrun; apply Hrun.
Qed.

(** In every reachable state a merchant has at most one order per external
    order id. *)
Theorem external_id_unique s id1 id2 o1 o2 :
  reachable s ->
  ms_orders s !! id1 = Some o1 -> ms_orders s !! id2 = Some o2 ->
  Order_MerchantID o1 = Order_MerchantID o2 ->
  Order_ExternalOrderID o1 = Order_ExternalOrderID o2 ->
  id1 = id2 /\ o1 = o2.
Proof.
  intros Hok%reachable_ok H1 H2 Hm Hx.
  pose proof (ok_external _ Hok _ _ H1) as E1. pose proof (ok_external _ Hok _ _ H2) as E2.
  rewrite Hm, Hx in E1. assert (id1 = id2) as -> by congruence. split; congruence.
Qed.

(** The scoped key [merchant:value] separates merchants whose identifiers
    hold no colon; two merchants of which one has a colon in its identifier can
    share a key, as [a] with value [b:c] and [a:b] with value [c]. *)
Theorem scoped_key_separates m m' v v' :
  (has_char ":"%char m = false -> has_char ":"%char m' = false ->
   scopedKey m v = scopedKey m' v' -> m = m' /\ v = v')
  /\ scopedKey "a" "b:c" = scopedKey "a:b" "c".
Proof. split; [|done]. intros. by eapply sep_app_inj. Qed.
