(* ===== verification/OutboxLease.v ===== *)
(** Claims of outbox events in the in-memory store: which events
    [PendingOutboxEvents] hands out, and that a running lease excludes a second
    claim whatever happens in between. *)
From S2P Require Import Prelude GoStrings GoTime Model StateMachine Store MemoryStore.
From S2P Require Import MemoryInvariant.

(** ** The claim loop *)

Lemma after_true c now : After c now = true <-> now < c.
Proof. unfold After. apply Z.ltb_lt. Qed.

(** A claim entry that is added keeps the other entries' verdicts and blocks
    its own. *)
Lemma claimable_insert pub claimed now until id e :
  now < until -> claimable pub (<[id := until]> claimed) now e = true ->
  Event_MessageID e <> id /\ claimable pub claimed now e = true.
Proof.
  unfold claimable. intros Hu. destruct (pub !! Event_MessageID e); [done|].
  destruct (decide (id = Event_MessageID e)) as [->|Hne].
  - rewrite lookup_insert_eq. apply after_true in Hu. by rewrite Hu.
  - rewrite lookup_insert_ne by done. done.
Qed.

Lemma claimable_insert_ne pub claimed now until id e :
  Event_MessageID e <> id ->
  claimable pub (<[id := until]> claimed) now e = claimable pub claimed now e.
Proof. unfold claimable. intros. by rewrite lookup_insert_ne. Qed.

Lemma claimable_not_running pub claimed now e (c : Time) :
  claimable pub claimed now e = true -> claimed !! Event_MessageID e = Some c -> c <= now.
Proof.
  unfold claimable. intros H Hc. rewrite Hc in H. destruct (pub !! _); [done|].
  apply negb_true_iff in H. unfold After in H. apply Z.ltb_ge in H. done.
Qed.

Lemma claimable_unpublished pub claimed now e :
  claimable pub claimed now e = true -> pub !! Event_MessageID e = None.
Proof. unfold claimable. by destruct (pub !! _). Qed.

Lemma envelope_id e : Event_MessageID (WithEnvelopeDefaults e) = Event_MessageID e.
Proof. by destruct (envelope_fields e) as [-> _]. Qed.

(** What one pass of the loop does, whatever the outbox holds. *)
Record claimed_by (now until : Time) (pub claimed : gmap string Time) (outbox : list OutboxEvent)
    (evs : list OutboxEvent) (claimed' : gmap string Time) : Prop := {
  cb_running id (c : Time) : claimed !! id = Some c -> now < c -> claimed' !! id = Some c;
  cb_entries id : claimed' !! id = claimed !! id \/ claimed' !! id = Some until;
  cb_source e : e ∈ evs ->
    exists e0, e0 ∈ outbox /\ e = WithEnvelopeDefaults e0 /\ claimable pub claimed now e0 = true;
  cb_leased e : e ∈ evs -> claimed' !! Event_MessageID e = Some until;
  cb_distinct : NoDup (map Event_MessageID evs)
}.

Lemma claimed_by_nil now until pub claimed outbox :
  claimed_by now until pub claimed outbox [] claimed.
Proof. split; auto; try (intros ? []%elem_of_nil). constructor. Qed.

Lemma claimed_by_skip now until pub claimed e outbox evs claimed' :
  claimed_by now until pub claimed outbox evs claimed' ->
  claimed_by now until pub claimed (e :: outbox) evs claimed'.
Proof.
  intros [R E S L D]. split; auto. intros x Hx. destruct (S x Hx) as (e0 & ? & ? & ?).
  exists e0. split; [by apply list_elem_of_further|done].
Qed.

Lemma claimed_by_cons now until pub claimed e outbox evs claimed' :
  now < until -> claimable pub claimed now e = true ->
  claimed_by now until pub (<[Event_MessageID e := until]> claimed) outbox evs claimed' ->
  claimed_by now until pub claimed (e :: outbox) (WithEnvelopeDefaults e :: evs) claimed'.
Proof.
  intros Hu Hc [R E S L D]. split.
  - intros id c Hid Hrun. apply R; [|done]. rewrite lookup_insert_ne; [done|].
    intros <-. pose proof (claimable_not_running _ _ _ _ _ Hc Hid). lia.
  - intros id. destruct (E id) as [-> | ->]; [|by right].
    destruct (decide (Event_MessageID e = id)) as [<-|Hne].
    + right. apply lookup_insert_eq.
    + left. by rewrite lookup_insert_ne.
  - intros x [->|Hx]%elem_of_cons.
    + exists e. split; [apply list_elem_of_here|done].
    + destruct (S x Hx) as (e0 & ? & ? & H0). exists e0. split; [by apply list_elem_of_further|].
      split; [done|]. by apply claimable_insert in H0 as [_ ?].
  - intros x [->|Hx]%elem_of_cons; [|auto]. rewrite envelope_id.
    apply R; [apply lookup_insert_eq|done].
  - simpl. apply NoDup_cons. split; [|done]. rewrite envelope_id. intros Hin.
    apply list_elem_of_fmap in Hin as (x & Hid & Hx). destruct (S x Hx) as (e0 & _ & -> & H0).
    rewrite envelope_id in Hid. by apply claimable_insert in H0 as [? _].
Qed.

Lemma claim_loop_claims limit now until pub outbox claimed taken evs claimed' :
  now < until -> claim_loop limit now until pub claimed taken outbox = (evs, claimed') ->
  claimed_by now until pub claimed outbox evs claimed'.
Proof.
  intros Hu. revert claimed taken evs claimed'.
  induction outbox as [|e rest IH]; simpl; intros claimed taken evs claimed' Hrun.
  - simplify_eq. apply claimed_by_nil.
  - destruct (claimable pub claimed now e) eqn:Hc; [|by eapply claimed_by_skip, IH].
    destruct (taken + 1 =? limit).
    + simplify_eq. apply claimed_by_cons; [done..|]. apply claimed_by_nil.
    + destruct (claim_loop _ _ _ _ _ _ _) as [evs1 claimed1] eqn:Hr. simplify_eq.
      apply claimed_by_cons; [done..|]. by eapply IH.
Qed.

(** With distinct message ids the loop takes the first claimable events. *)
Lemma claim_loop_exact limit now until pub outbox claimed taken :
  NoDup (map Event_MessageID outbox) -> taken < limit ->
  fst (claim_loop limit now until pub claimed taken outbox)
  = map WithEnvelopeDefaults
      (take (Z.to_nat (limit - taken))
         (filter (fun e => claimable pub claimed now e = true) outbox)).
Proof.
  revert claimed taken. induction outbox as [|e rest IH]; simpl; intros claimed taken Hnd Hlt.
  { by rewrite filter_nil, take_nil. }
  apply NoDup_cons in Hnd as [Hnin Hnd]. rewrite filter_cons.
  destruct (claimable pub claimed now e) eqn:Hc; simpl; [|by apply IH].
  replace (Z.to_nat (limit - taken)) with (Datatypes.S (Z.to_nat (limit - (taken + 1)))) by lia.
  destruct (taken + 1 =? limit) eqn:Hl; simpl.
  - replace (limit - (taken + 1)) with 0 by lia. done.
  - specialize (IH (<[Event_MessageID e := until]> claimed) (taken + 1) Hnd ltac:(lia)).
    destruct (claim_loop _ _ _ _ _ _ _) as [evs1 claimed1] eqn:Hr. simpl in *. rewrite IH.
    f_equal. f_equal. f_equal. apply filter_ext_in. apply Forall_forall. intros x Hx.
    rewrite claimable_insert_ne; [done|]. intros E. apply Hnin. rewrite <- E.
    apply list_elem_of_fmap. eauto.
Qed.

(** ** Leases across operations *)

(** The event is published, or claimed at least until [bound]. *)
Definition lease_held (bound : Time) (id : string) (s : MemoryStore) : Prop :=
  is_Some (ms_publishedOutbox s !! id)
  \/ exists c : Time, ms_claimedOutbox s !! id = Some c /\ bound <= c.

Lemma run_op_maps op s :
  match op with
  | OpClaim _ _ | OpPublished _ _ => True
  | _ => ms_publishedOutbox (snd (run_op op s)) = ms_publishedOutbox s
         /\ ms_claimedOutbox (snd (run_op op s)) = ms_claimedOutbox s
  end.
Proof.
  destruct op; try exact I.
  - run_store MemoryStore_InsertOrder; done.
  - run_store MemoryStore_UpdateOrderStatus; done.
  - run_store MemoryStore_RecordInventoryReserved; done.
  - run_store MemoryStore_RecordInventoryRejected; done.
  - run_store MemoryStore_RecordPaymentAuthorized; done.
  - run_store MemoryStore_RecordPaymentFailed; done.
  - run_store MemoryStore_RecordShipmentCreated; done.
  - run_store MemoryStore_RecordShipmentFailed; done.
  - run_store MemoryStore_RecordOrderCancelled; done.
  - run_store MemoryStore_RecordNotificationQueued; done.
  - run_store MemoryStore_RecordCompensation; done.
Qed.

Lemma lease_positive now : now < AddD now claim_lease.
Proof. unfold AddD, claim_lease, second. lia. Qed.

Lemma pending_run limit now s :
  exists evs claimed',
    MemoryStore_PendingOutboxEvents limit now s = (Ok evs, set_claims claimed' s)
    /\ claimed_by now (AddD now claim_lease) (ms_publishedOutbox s) (ms_claimedOutbox s)
         (ms_outbox s) evs claimed'.
Proof.
  unfold MemoryStore_PendingOutboxEvents.
  destruct (claim_loop _ _ _ _ _ _ _) as [evs claimed'] eqn:Hr. exists evs, claimed'.
  split; [done|]. eapply claim_loop_claims; [apply lease_positive|exact Hr].
Qed.

(** Operations whose claims happen before [bound]. *)
Definition op_before (bound : Time) (op : StoreOp) : Prop :=
  match op with OpClaim _ now => now < bound | _ => True end.

Lemma lease_kept bound id op s :
  op_before bound op -> lease_held bound id s -> lease_held bound id (snd (run_op op s)).
Proof.
  intros Hb Hl. pose proof (run_op_maps op s) as Hmaps.
  destruct op as [| | | | | | | | | | |limit now|mid at_];
    try (destruct Hmaps as [Hp Hc]; unfold lease_held; by rewrite Hp, Hc).
  - destruct (pending_run limit now s) as (evs & claimed' & Hrun & [R _ _ _ _]).
    unfold run_op, discard, bind. rewrite Hrun. simpl in *.
    destruct Hl as [Hl|(c & Hc & Hle)]; [by left|]. right. exists c. split; [|done].
    apply R; [done|lia].
  - unfold lease_held in *. simpl.
    destruct (decide (mid = id)) as [<-|Hne]; [left; rewrite lookup_insert_eq; done|].
    rewrite lookup_insert_ne, lookup_delete_ne by done. done.
Qed.

Definition run_ops (ops : list StoreOp) (s : MemoryStore) : MemoryStore :=
  fold_left (fun s op => snd (run_op op s)) ops s.

Lemma leases_kept bound id ops s :
  Forall (op_before bound) ops -> lease_held bound id s -> lease_held bound id (run_ops ops s).
Proof.
  intros Hf. revert s. induction Hf as [|op ops Hop _ IH]; intros s Hl; [done|].
  apply IH. by apply lease_kept.
Qed.

Lemma lease_not_claimable now bound e s :
  now < bound -> lease_held bound (Event_MessageID e) s ->
  claimable (ms_publishedOutbox s) (ms_claimedOutbox s) now e = false.
Proof.
  intros Hlt [Hp|(c & Hc & Hle)]; apply not_true_iff_false; intros H.
  - apply claimable_unpublished in H. rewrite H in Hp. by destruct Hp.
  - pose proof (claimable_not_running _ _ _ _ _ H Hc). lia.
Qed.

Lemma pending_exact limit now s :
  NoDup (map Event_MessageID (ms_outbox s)) ->
  fst (MemoryStore_PendingOutboxEvents limit now s)
  = Ok (map WithEnvelopeDefaults
          (take (if limit <=? 0 then length (ms_outbox s) else Z.to_nat limit)
             (filter (fun e => claimable (ms_publishedOutbox s) (ms_claimedOutbox s) now e = true)
                (ms_outbox s)))).
Proof.
  intros Hnd. unfold MemoryStore_PendingOutboxEvents.
  set (n := if limit <=? 0 then Z.of_nat (length (ms_outbox s)) else limit).
  assert (Hn : Z.to_nat n = if limit <=? 0 then length (ms_outbox s) else Z.to_nat limit)
    by (unfold n; destruct (limit <=? 0); lia).
  pose proof (claim_loop_exact n now (AddD now claim_lease) (ms_publishedOutbox s)
                (ms_outbox s) (ms_claimedOutbox s) 0 Hnd) as H.
  destruct (decide (0 < n)) as [Hpos|Hz].
  - specialize (H Hpos). rewrite Z.sub_0_r, Hn in H.
    destruct (claim_loop _ _ _ _ _ _ _) as [evs c]. simpl in *. by rewrite H.
  - assert (ms_outbox s = []) as ->.
    { destruct (ms_outbox s); [done|]. unfold n in Hz. simpl in Hz.
      destruct (limit <=? 0) eqn:E; lia. }
    simpl. by rewrite filter_nil, take_nil.
Qed.

(** ** Properties *)

(** When the outbox holds distinct message ids, a claim returns exactly the
    first [limit] events (all of them when [limit] is not positive), in outbox
    order, that are neither published nor under a running lease. *)
Theorem pending_events_exact limit now s :
  NoDup (map Event_MessageID (ms_outbox s)) ->
  fst (MemoryStore_PendingOutboxEvents limit now s)
  = Ok (map WithEnvelopeDefaults
          (take (if limit <=? 0 then length (ms_outbox s) else Z.to_nat limit)
             (filter (fun e => claimable (ms_publishedOutbox s) (ms_claimedOutbox s) now e = true)
                (ms_outbox s)))).
Proof. apply pending_exact. Qed.

(** An event claimed at [now] is not handed out again before its
    thirty-second lease ends, whatever operations run in between: further
    claims by other relays, publications, orders and projections. *)
Theorem no_double_claim limit1 limit2 now1 now2 ops s :
  let '(r1, s1) := MemoryStore_PendingOutboxEvents limit1 now1 s in
  let bound := AddD now1 claim_lease in
  Forall (op_before bound) ops -> now2 < bound ->
  forall evs1 evs2 e1 e2,
    r1 = Ok evs1 ->
    fst (MemoryStore_PendingOutboxEvents limit2 now2 (run_ops ops s1)) = Ok evs2 ->
    e1 ∈ evs1 -> e2 ∈ evs2 -> Event_MessageID e1 <> Event_MessageID e2.
Proof.
  destruct (pending_run limit1 now1 s) as (evs & c & Hrun & Hcb). rewrite Hrun.
  intros bound Hf Hlt evs1 evs2 e1 e2 [= <-] H2 Hin1 Hin2 Heq.
  assert (Hl : lease_held bound (Event_MessageID e1) (run_ops ops (set_claims c s))).
  { apply leases_kept; [done|]. right. exists bound. split; [|done].
    by apply (cb_leased _ _ _ _ _ _ _ Hcb). }
  destruct (pending_run limit2 now2 (run_ops ops (set_claims c s))) as (evs' & c' & Hrun2 & Hcb2).
  rewrite Hrun2 in H2. simpl in H2. injection H2 as ->.
  destruct (cb_source _ _ _ _ _ _ _ Hcb2 e2 Hin2) as (e0 & _ & -> & Hc).
  rewrite envelope_id in Heq. rewrite Heq in Hl.
  by rewrite (lease_not_claimable now2 bound e0) in Hc.
Qed.
