(* ===== verification/MemoryQueries.v ===== *)
(** Compensation and the read side of the in-memory store: what a cancellation
    releases, the per-status counts and the shipment lookup, and one concrete
    store on which the store-level properties are exercised. *)
From S2P Require Import Prelude GoStrings GoTime Sha256 Model StateMachine Store Service.
From S2P Require Import MemoryStore MemoryInvariant MemoryLaws OutboxLease.

(** ** Resources an order holds *)

Definition holds_stock (o : Order) : bool :=
  existsb (fun i => String.eqb (OrderItem_ReservationStatus i) "reserved") (Order_Items o).

Definition holds_payment (o : Order) : bool :=
  match Order_Payment o with
  | Some p => String.eqb (Payment_Status p) "authorized"
  | None => false
  end.

Lemma release_items_free items :
  existsb (fun i => String.eqb (OrderItem_ReservationStatus i) "reserved")
    (map release_item items) = false.
Proof.
  induction items as [|i l IH]; [done|]. simpl. rewrite IH, orb_false_r.
  unfold release_item. by destruct (String.eqb (OrderItem_ReservationStatus i) "reserved") eqn:E.
Qed.

Lemma void_payment_free p :
  match void_payment p with
  | Some p => String.eqb (Payment_Status p) "authorized"
  | None => false
  end = false.
Proof.
  destruct p as [p|]; [|done]. simpl.
  by destruct (String.eqb (Payment_Status p) "authorized") eqn:E.
Qed.

(** Recording a cancellation fails without effect on an unknown order or one
    that may not be cancelled; otherwise the order is cancelled, none of its
    lines stays reserved, its payment is no longer authorized, every other order
    is untouched and one event that announces the cancelled status is
    appended. *)
Theorem cancellation_releases src next au s :
  let id := Event_OrderID src in
  let '(r, s') := MemoryStore_RecordOrderCancelled src next au s in
  match ms_orders s !! id with
  | None => r = Err ErrNotFound /\ s' = s
  | Some o =>
      match ValidateOrderTransition (Order_Status o) StatusCancelled with
      | Some e => r = Err e /\ s' = s
      | None =>
          r = Ok tt
          /\ (exists o', ms_orders s' !! id = Some o' /\ Order_Status o' = StatusCancelled
                         /\ snapshot o' = snapshot o
                         /\ holds_stock o' = false /\ holds_payment o' = false)
          /\ (forall id', id' <> id -> ms_orders s' !! id' = ms_orders s !! id')
          /\ exists ev, ms_outbox s' = ms_outbox s ++ [ev]
                        /\ Event_EventType ev = Event_EventType next
                        /\ Event_Payload ev !! "order_status" = Some (AStr StatusCancelled)
      end
  end.
Proof.
  destruct (MemoryStore_RecordOrderCancelled src next au s) as [r s'] eqn:Hrun. revert Hrun.
  unfold MemoryStore_RecordOrderCancelled, bind, lookup_order, modify.
  destruct (ms_orders s !! Event_OrderID src) as [o|]; [|by intros; simplify_eq].
  destruct (ValidateOrderTransition _ _); simpl; intros; simplify_eq; [done|].
  split_and!; [done| | |].
  - eexists. simpl. rewrite lookup_insert_eq. split_and!; [done|done| | |].
    + unfold snapshot. simpl. by rewrite map_lines_same by auto with hub.
    + apply release_items_free.
    + apply void_payment_free.
  - intros. simpl. by rewrite lookup_insert_ne.
  - eexists. split; [done|].
    match goal with |- context [WithEnvelopeDefaults ?e] =>
      destruct (envelope_fields e) as (_ & -> & _ & _ & _ & _ & _ & _ & _ & ->) end.
    split; [done|]. rewrite payload_nonempty_size; [apply status_event_payload_status|].
    intros E. pose proof (status_event_payload_status StatusCancelled (Event_OccurredAt next) au
                            (Event_Payload next)) as Hl.
    simpl in E. rewrite E in Hl. done.
Qed.

(** Recording a compensation moves the order to the requested status only
    along the life cycle; a failed payment or shipment frees all reserved lines,
    a failed shipment also voids the authorized payment; the write comes with
    one audit entry and no event. *)
Theorem compensation_releases src st au s :
  let id := Event_OrderID src in
  let '(r, s') := MemoryStore_RecordCompensation src st au s in
  match ms_orders s !! id with
  | None => r = Err ErrNotFound /\ s' = s
  | Some o =>
      match ValidateOrderTransition (Order_Status o) st with
      | Some e => r = Err e /\ s' = s
      | None =>
          r = Ok tt /\ ms_outbox s' = ms_outbox s /\ ms_auditLogs s' = ms_auditLogs s ++ [au]
          /\ exists o', ms_orders s' !! id = Some o' /\ Order_Status o' = st
               /\ snapshot o' = snapshot o
               /\ holds_stock o' = (if one_of (Event_EventType src)
                                         ["payment.failed"; "shipment.failed"]
                                    then false else holds_stock o)
               /\ holds_payment o' = (if String.eqb (Event_EventType src) "shipment.failed"
                                      then false else holds_payment o)
      end
  end.
Proof.
  destruct (MemoryStore_RecordCompensation src st au s) as [r s'] eqn:Hrun. revert Hrun.
  unfold MemoryStore_RecordCompensation, bind, lookup_order, modify.
  destruct (ms_orders s !! Event_OrderID src) as [o|]; [|by intros; simplify_eq].
  destruct (ValidateOrderTransition _ _); simpl; intros; simplify_eq; [done|].
  split_and!; [done..|]. setoid_rewrite lookup_insert_eq.
  destruct (String.eqb (Event_EventType src) "shipment.failed") eqn:Hs;
    destruct (String.eqb (Event_EventType src) "payment.failed") eqn:Hp; simpl;
    (eexists; split_and!;
     [done|done|unfold snapshot; simpl; by rewrite ?map_lines_same by auto with hub|..];
     first [apply release_items_free|apply void_payment_free|done]).
Qed.

(** ** Counts per status *)

Definition orders_in (st : OrderStatus) (orders : list Order) : list Order :=
  filter (fun o => Order_Status o = st) orders.

Lemma count_fold orders m st :
  fold_left count_order orders m !! st
  = match m !! st with
    | Some n => Some (n + Z.of_nat (length (orders_in st orders)))
    | None => if Nat.eqb (length (orders_in st orders)) 0 then None
              else Some (Z.of_nat (length (orders_in st orders)))
    end.
Proof.
  unfold orders_in. revert m. induction orders as [|o l IH]; intros m; simpl.
  { destruct (m !! st); [f_equal; lia|done]. }
  rewrite IH. unfold count_order. rewrite filter_cons.
  destruct (decide (Order_Status o = st)) as [->|Hne]; simpl.
  - rewrite lookup_insert_eq. destruct (m !! st); simpl; f_equal; lia.
  - rewrite lookup_insert_ne by done. done.
Qed.

Lemma zero_counts_lookup st :
  zero_counts !! st = if decide (st ∈ ValidOrderStatuses) then Some 0 else None.
Proof.
  destruct (decide (st ∈ ValidOrderStatuses)) as [H|H].
  - each_status H; reflexivity.
  - unfold zero_counts, ValidOrderStatuses in *. rewrite !not_elem_of_cons in H.
    destruct_and! H. simpl. by rewrite !lookup_insert_ne by done.
Qed.

(** In every reachable state the status counts list exactly the nine known
    statuses, each with the number of stored orders in it, whatever order the
    map of orders is enumerated in. *)
Theorem status_counts_correct s orders st :
  reachable s -> orders ≡ₚ map snd (map_to_list (ms_orders s)) ->
  MemoryStore_OrderStatusCounts s !! st
  = if decide (st ∈ ValidOrderStatuses)
    then Some (Z.of_nat (length (orders_in st orders))) else None.
Proof.
  intros Hok%reachable_ok Hperm. unfold MemoryStore_OrderStatusCounts.
  assert (Hlen : length (orders_in st (map snd (map_to_list (ms_orders s))))
                 = length (orders_in st orders)) by (unfold orders_in; by rewrite Hperm).
  rewrite count_fold, zero_counts_lookup, Hlen. unfold orders_in.
  destruct (decide _) as [|Hn]; [done|].
  destruct (filter _ orders) as [|o l] eqn:E; [done|]. exfalso. apply Hn.
  assert (Ho : o ∈ filter (fun o => Order_Status o = st) orders)
    by (rewrite E; apply list_elem_of_here).
  apply list_elem_of_filter in Ho as [<- Ho]. rewrite Hperm in Ho.
  apply list_elem_of_fmap in Ho as ([id o'] & -> & Hin). apply elem_of_map_to_list in Hin.
  by destruct (ok_order _ Hok _ _ Hin).
Qed.

(** ** Shipment lookup *)

Definition has_shipment (shipmentID : string) (o : Order) : Prop :=
  exists sh, Order_Shipment o = Some sh /\ Shipment_ShipmentID sh = shipmentID.

Lemma shipment_scan_spec sid l :
  match shipment_scan sid l with
  | Some r => exists id o, (id, o) ∈ l /\ has_shipment sid o /\ shipmentRecordFromOrder o = Some r
  | None => forall id o, (id, o) ∈ l -> ~ has_shipment sid o
  end.
Proof.
  induction l as [|[id o] l IH]; simpl; [intros ? ? []%elem_of_nil|].
  assert (Hskip : ~ has_shipment sid o ->
    match shipment_scan sid l with
    | Some r => exists id' o', (id', o') ∈ (id, o) :: l /\ has_shipment sid o'
                               /\ shipmentRecordFromOrder o' = Some r
    | None => forall id' o', (id', o') ∈ (id, o) :: l -> ~ has_shipment sid o'
    end).
  { intros Hno. destruct (shipment_scan sid l) as [r|].
    - destruct IH as (id' & o' & Hin & H). exists id', o'.
      split; [by apply list_elem_of_further|done].
    - intros id' o' [[= -> ->]|Hin]%elem_of_cons; [done|by apply (IH id')]. }
  destruct (Order_Shipment o) as [sh|] eqn:Hsh.
  2:{ apply Hskip. intros (sh & H & _). congruence. }
  destruct (String.eqb_spec (Shipment_ShipmentID sh) sid) as [Heq|Hne].
  - unfold shipmentRecordFromOrder. rewrite Hsh. exists id, o.
    split; [apply list_elem_of_here|]. split; [by exists sh|]. by rewrite Hsh.
  - apply Hskip. intros (sh' & H & Hid). congruence.
Qed.

Lemma shipment_record_fields o r :
  shipmentRecordFromOrder o = Some r ->
  ShipmentRecord_OrderID r = Order_OrderID o /\ ShipmentRecord_MerchantID r = Order_MerchantID o.
Proof. unfold shipmentRecordFromOrder. destruct (Order_Shipment o); [|done]. intros [= <-]. done. Qed.

(** As long as the orders that carry a shipment id are at most one, the
    lookup does not depend on the order Go enumerates the map of orders in: it
    returns the record of that order, with its order and merchant ids, and
    reports [ErrNotFound] exactly when no order carries the shipment. *)
Theorem get_shipment_deterministic s sid orders :
  orders ≡ₚ map_to_list (ms_orders s) ->
  (forall id1 id2 o1 o2, ms_orders s !! id1 = Some o1 -> ms_orders s !! id2 = Some o2 ->
     has_shipment sid o1 -> has_shipment sid o2 -> id1 = id2) ->
  MemoryStore_GetShipment sid s
  = (match shipment_scan sid orders with Some r => Ok r | None => Err ErrNotFound end, s)
  /\ match fst (MemoryStore_GetShipment sid s) with
     | Ok r => exists id o, ms_orders s !! id = Some o /\ has_shipment sid o
                 /\ shipmentRecordFromOrder o = Some r
                 /\ ShipmentRecord_OrderID r = Order_OrderID o
                 /\ ShipmentRecord_MerchantID r = Order_MerchantID o
     | Err e => e = ErrNotFound /\ forall id o, ms_orders s !! id = Some o -> ~ has_shipment sid o
     end.
Proof.
  intros Hperm Huniq. unfold MemoryStore_GetShipment.
  pose proof (shipment_scan_spec sid (map_to_list (ms_orders s))) as H1.
  pose proof (shipment_scan_spec sid orders) as H2.
  assert (Hin : forall id o, (id, o) ∈ orders <-> ms_orders s !! id = Some o)
    by (intros; rewrite Hperm; apply elem_of_map_to_list).
  assert (Hin' : forall id o, (id, o) ∈ map_to_list (ms_orders s) <-> ms_orders s !! id = Some o)
    by (intros; apply elem_of_map_to_list).
  destruct (shipment_scan sid (map_to_list _)) as [r1|], (shipment_scan sid orders) as [r2|];
    setoid_rewrite Hin' in H1; setoid_rewrite Hin in H2.
  - destruct H1 as (id1 & o1 & Hl1 & Hs1 & Hr1), H2 as (id2 & o2 & Hl2 & Hs2 & Hr2).
    rewrite (Huniq id1 id2 o1 o2) in Hl1 by done. simplify_eq. split; [done|]. simpl.
    destruct (shipment_record_fields _ _ Hr1). by exists id2, o1.
  - destruct H1 as (id1 & o1 & Hl1 & Hs1 & _). by destruct (H2 _ _ Hl1).
  - destruct H2 as (id2 & o2 & Hl2 & Hs2 & _). by destruct (H1 _ _ Hl2).
  - done.
Qed.

(** ** A concrete store

    One order of one merchant, submitted through the service. *)

Definition sample_start : Service MemoryStore := NewService NewMemoryStore.

Lemma sample_start_ok : store_ok (svc_store sample_start).
Proof. exact empty_ok. Qed.

Definition sample_submit (req : CreateOrderCommand)
    : M (Service MemoryStore) (option Order * bool) :=
  CreateOrderContext sample_env "mer_1" "idem-key-0001" "corr-1" req.

Lemma sample_submit_fresh :
  match fst (sample_submit (sample_request 2 9450) sample_start) with
  | Ok (Some _, false) => true
  | _ => false
  end = true.
Proof. vm_compute. reflexivity. Qed.

Definition sample_order : Order := new_order sample_env "ord_1" "mer_1" 0 (sample_request 2 9450).

Definition sample_insert : StoreOp :=
  OpInsert "mer_1" "idem-key-0001" sample_order (created_event "msg_1" "corr-1" 0 sample_order)
    (create_audit "mer_1" "ord_1" "corr-1" 0).

Definition sample_store : MemoryStore := snd (run_op sample_insert NewMemoryStore).

Lemma sample_step : store_step NewMemoryStore sample_store.
Proof. exists sample_insert. split; [|done]. split_and!; [apply lookup_empty|done|done]. Qed.

Lemma sample_reachable : reachable sample_store.
Proof. apply rtc_once, sample_step. Qed.

Lemma sample_store_ok : store_ok (svc_store (NewService sample_store)).
Proof. exact (reachable_ok _ sample_reachable). Qed.

Lemma sample_lookup : ms_orders sample_store !! "ord_1" = Some sample_order.
Proof.
  unfold sample_store, sample_insert, run_op, discard, bind. rewrite insert_run. simpl.
  apply lookup_insert_eq.
Qed.

Lemma create_order_idempotent_witness :
  exists o s1 s2, sample_submit (sample_request 2 9450) sample_start = (Ok (Some o, false), s1)
    /\ sample_submit (sample_request 7 1) s1 = (Ok (Some o, true), s2)
    /\ svc_store s2 = svc_store s1.
Proof.
  pose proof sample_submit_fresh as Hf.
  destruct (sample_submit (sample_request 2 9450) sample_start) as [[[[o|] []]|] s1] eqn:H;
    try discriminate Hf.
  destruct (create_order_idempotent (St := MemoryStore) sample_env sample_start s1 "mer_1" "idem-key-0001" "corr-1"
              "corr-1" (sample_request 2 9450) (sample_request 7 1) o sample_start_ok H
              (lookup_empty _) ltac:(vm_compute; reflexivity)) as (s2 & H2 & E2).
  exists o, s1, s2. exact (conj eq_refl (conj H2 E2)).
Defined.

Lemma create_order_transactional_witness :
  exists o s1, sample_submit (sample_request 2 9450) sample_start = (Ok (Some o, false), s1)
    /\ find_order (svc_store s1) (Order_OrderID o) = Some o.
Proof.
  pose proof sample_submit_fresh as Hf.
  destruct (sample_submit (sample_request 2 9450) sample_start) as [[[[o|] []]|] s1] eqn:H;
    try discriminate Hf.
  exists o, s1. split; [done|].
  apply (create_order_transactional (St := MemoryStore) sample_env sample_start s1 "mer_1" "idem-key-0001" "corr-1"
           (sample_request 2 9450) o sample_start_ok H (lookup_empty _)).
Defined.

Lemma cancel_order_outcome_witness :
  exists o s', CancelOrderContext sample_env "ord_1" "corr-2"
      (mkAuditActor "merchant" "mer_1" "changed my mind") (NewService sample_store) = (Ok o, s')
    /\ Order_Status o = StatusCancellationPending.
Proof.
  pose proof (cancel_order_outcome sample_env (NewService sample_store) "ord_1" "corr-2"
                (mkAuditActor "merchant" "mer_1" "changed my mind")
                sample_store_ok) as H.
  destruct (CancelOrderContext _ _ _ _ _) as [r s'].
  replace (validateCancelActor _) with (@None error) in H by (vm_compute; reflexivity).
  change (find_order (svc_store (NewService sample_store)) "ord_1")
    with (ms_orders sample_store !! "ord_1") in H.
  rewrite sample_lookup in H. simpl in H. destruct H as (-> & _).
  eexists _, _. split; reflexivity.
Defined.

Lemma reachable_invariant_witness : mem_ok sample_store.
Proof. exact (reachable_invariant sample_store sample_reachable). Defined.

Lemma order_history_lawful_witness :
  exists o', ms_orders sample_store !! "ord_1" = Some o' /\ snapshot o' = snapshot sample_order
             /\ History (Order_Status sample_order) (Order_Status o').
Proof.
  apply (order_history_lawful sample_store sample_store "ord_1" sample_order).
  - apply rtc_refl.
  - apply sample_lookup.
Defined.

Lemma logs_append_only_witness :
  MemoryStore_OutboxEvents NewMemoryStore `prefix_of` MemoryStore_OutboxEvents sample_store.
Proof.
  apply (logs_append_only NewMemoryStore sample_store); [apply rtc_refl|].
  apply rtc_once, sample_step.
Defined.

Lemma external_id_unique_witness : "ord_1" = "ord_1" /\ sample_order = sample_order.
Proof.
  apply (external_id_unique sample_store "ord_1" "ord_1" sample_order sample_order);
    [apply sample_reachable|apply sample_lookup|apply sample_lookup|reflexivity|reflexivity].
Defined.

Lemma pending_events_exact_witness :
  exists evs, fst (MemoryStore_PendingOutboxEvents 10 0 sample_store) = Ok evs
              /\ length evs = 1%nat.
Proof.
  eexists. split.
  - apply (pending_events_exact 10 0 sample_store). vm_compute. repeat constructor. set_solver.
  - vm_compute. reflexivity.
Defined.

(** The sample order with a second event in the outbox. *)
Definition second_event : OutboxEvent :=
  cancel_event "msg_2" "corr-2" 0 sample_order "ord_1" (mkAuditActor "merchant" "mer_1" "late").

Definition two_event_store : MemoryStore := appendOutboxEvent second_event sample_store.

Definition first_claim : result (list OutboxEvent) * MemoryStore :=
  MemoryStore_PendingOutboxEvents 1 0 two_event_store.

Definition first_event : OutboxEvent :=
  WithEnvelopeDefaults (created_event "msg_1" "corr-1" 0 sample_order).

Lemma first_claim_events : fst first_claim = Ok [first_event].
Proof. vm_compute. reflexivity. Qed.

Lemma second_claim_events :
  fst (MemoryStore_PendingOutboxEvents 1 1 (run_ops [OpClaim 1 0] (snd first_claim))) = Ok []
  /\ fst (MemoryStore_PendingOutboxEvents 1 1 (run_ops [] (snd first_claim)))
     = Ok [WithEnvelopeDefaults second_event].
Proof. split; vm_compute; reflexivity. Qed.

Lemma no_double_claim_witness :
  Event_MessageID first_event <> Event_MessageID (WithEnvelopeDefaults second_event).
Proof.
  pose proof (no_double_claim 1 1 0 1 [] two_event_store) as H.
  pose proof first_claim_events as H1. destruct second_claim_events as [_ H2].
  change (MemoryStore_PendingOutboxEvents 1 0 two_event_store) with first_claim in H.
  destruct first_claim as [r1 s1]. simpl in H1, H2.
  eapply (H (Forall_nil_2 _) (ltac:(reflexivity)) _ _ _ _ H1 H2); apply list_elem_of_here.
Defined.

Lemma status_counts_correct_witness :
  MemoryStore_OrderStatusCounts sample_store !! StatusPendingFulfillment = Some 1.
Proof.
  rewrite (status_counts_correct sample_store _ StatusPendingFulfillment sample_reachable
             (Permutation_refl _)).
  vm_compute. reflexivity.
Defined.

Definition shipped_store : MemoryStore :=
  put_order "ord_1"
    (set_Order_Shipment (Some (mkShipment "shp_1" "label_created" "fake" "TRK1" [])) sample_order)
    NewMemoryStore.

Lemma shipped_single id o : ms_orders shipped_store !! id = Some o -> id = "ord_1".
Proof.
  unfold shipped_store. simpl. intros [[<- _]|[_ H]]%lookup_insert_Some; [done|].
  by rewrite lookup_empty in H.
Qed.

Lemma get_shipment_deterministic_witness :
  fst (MemoryStore_GetShipment "shp_1" shipped_store)
  = Ok (mkShipmentRecord "shp_1" "ord_1" "mer_1" "fake" "TRK1" "label_created" []).
Proof.
  rewrite (proj1 (get_shipment_deterministic shipped_store "shp_1" _ (Permutation_refl _)
             (fun id1 id2 o1 o2 H1 H2 _ _ =>
                eq_trans (shipped_single id1 o1 H1) (eq_sym (shipped_single id2 o2 H2))))).
  vm_compute. reflexivity.
Defined.
