(* ===== verification/Webhook.v ===== *)
(** Provider webhooks, [internal/providers/webhook.go]: signing, verification
    and the in-memory replay store.

    The verifier reads its clock once; the reading is an argument.  The replay
    store behind it is an interface, here a class; a nil [ReplayStore] is the
    verifier field [Verifier_HasReplayStore] being false. *)
From S2P Require Import Prelude GoStrings GoStringsFacts GoTime Sha256.

Definition ErrWebhookProviderMissing : error := Sentinel "webhook provider is required".

Definition ErrWebhookSecretMissing : error := Sentinel "webhook signing secret is required".

Definition ErrWebhookEventIDMissing : error := Sentinel "webhook event id is required".

Definition ErrWebhookTimestampMissing : error := Sentinel "webhook timestamp is required".

Definition ErrWebhookSignatureMissing : error := Sentinel "webhook signature is required".

Definition ErrWebhookTimestampInvalid : error := Sentinel "webhook timestamp is invalid".

Definition ErrWebhookTimestampOutOfWindow : error :=
  Sentinel "webhook timestamp is outside tolerance".

Definition ErrWebhookSignatureInvalid : error := Sentinel "webhook signature is invalid".

Definition ErrWebhookReplay : error := Sentinel "webhook event was already accepted".

Definition ErrWebhookReplayStoreUnavailable : error :=
  Sentinel "webhook replay store is unavailable".

Definition defaultWebhookTolerance : Duration := 5 * minute.

Definition defaultWebhookReplayTTL : Duration := 24 * hour.

Record WebhookRequest := mkWebhookRequest {
  WebhookRequest_EventID : string;
  WebhookRequest_Timestamp : string;
  WebhookRequest_Signature : string;
  WebhookRequest_Payload : string
}.

Record VerifiedWebhook := mkVerifiedWebhook {
  Verified_Provider : string;
  Verified_EventID : string;
  Verified_Timestamp : Time;
  Verified_ReceivedAt : Time;
  Verified_ReplayExpiresAt : Time
}.

Class WebhookReplayStore (RS : Type) := {
  RecordWebhook : string -> string -> Time -> Time -> M RS bool
}.

Record WebhookVerifier := mkWebhookVerifier {
  Verifier_Provider : string;
  Verifier_CurrentSecret : string;
  Verifier_PreviousSecrets : list string;
  Verifier_HasReplayStore : bool;
  Verifier_Tolerance : Duration;
  Verifier_ReplayTTL : Duration
}.

(** ** Signatures *)

(** The bytes the five [mac.Write] calls feed. *)
Definition webhook_message (eventID : string) (timestamp : Z) (payload : string) : string :=
  Itoa timestamp +:+ "." +:+ eventID +:+ "." +:+ payload.

Definition webhookDigest (secret eventID : string) (timestamp : Z) (payload : string) : string :=
  hmac_sha256 secret (webhook_message eventID timestamp payload).

Definition SignWebhook (secret eventID : string) (timestamp : Time) (payload : string) : string :=
  "v1=" +:+ hex_encode (webhookDigest secret eventID (Unix timestamp) payload).

Definition parse_signature_part (part : string) : list string :=
  let '(key, value, ok) := Cut (TrimSpace part) "="%char in
  if negb ok || negb (String.eqb key "v1") then []
  else match hex_decode (TrimSpace value) with
       | Some decoded => if len decoded =? sha256_size then [decoded] else []
       | None => []
       end.

Definition parseWebhookSignatures (header : string) : list string :=
  concat (map parse_signature_part (Split header ","%char)).

Definition secrets (v : WebhookVerifier) : list string :=
  filter (fun s => s <> "")
    (map TrimSpace (Verifier_CurrentSecret v :: Verifier_PreviousSecrets v)).

Definition matchesSignature (secrets : list string) (eventID : string) (timestamp : Z)
    (payload : string) (signatures : list string) : bool :=
  existsb (fun secret =>
    existsb (fun got => String.eqb got (webhookDigest secret eventID timestamp payload))
      signatures) secrets.

(** [x := field; if x == 0 { x = fallback }]. *)
Definition or_default (d fallback : Duration) : Duration := if d =? 0 then fallback else d.

Definition tolerance (v : WebhookVerifier) : Duration :=
  or_default (Verifier_Tolerance v) defaultWebhookTolerance.

Definition replay_ttl (v : WebhookVerifier) : Duration :=
  or_default (Verifier_ReplayTTL v) defaultWebhookReplayTTL.

Section Verifier.
Context {RS : Type} `{WebhookReplayStore RS}.

(** The tail of [Verify], once the signature matched. *)
Definition record_verified (v : WebhookVerifier) (provider eventID : string) (timestamp now : Time)
    : M RS VerifiedWebhook :=
  let expiresAt := AddD now (replay_ttl v) in
  let verified := mkVerifiedWebhook provider eventID timestamp now expiresAt in
  if Verifier_HasReplayStore v then
    let! r := attempt (RecordWebhook provider eventID now expiresAt) in
    match r with
    | Err e => throw (Wrap "" ErrWebhookReplayStoreUnavailable (": " +:+ error_text e))
    | Ok accepted => if negb accepted then throw ErrWebhookReplay else ret verified
    end
  else ret verified.

Definition Verify (v : WebhookVerifier) (now : Time) (request : WebhookRequest)
    : M RS VerifiedWebhook :=
  let provider := TrimSpace (Verifier_Provider v) in
  if String.eqb provider "" then throw ErrWebhookProviderMissing else
  if Nat.eqb (length (secrets v)) 0 then throw ErrWebhookSecretMissing else
  let eventID := TrimSpace (WebhookRequest_EventID request) in
  if String.eqb eventID "" then throw ErrWebhookEventIDMissing else
  if blank (WebhookRequest_Timestamp request) then throw ErrWebhookTimestampMissing else
  if blank (WebhookRequest_Signature request) then throw ErrWebhookSignatureMissing else
  match ParseInt (TrimSpace (WebhookRequest_Timestamp request)) with
  | None => throw ErrWebhookTimestampInvalid
  | Some timestampUnix =>
      let timestamp := time_Unix timestampUnix in
      if Before timestamp (AddD now (- tolerance v)) || After timestamp (AddD now (tolerance v))
      then throw ErrWebhookTimestampOutOfWindow else
      let signatures := parseWebhookSignatures (WebhookRequest_Signature request) in
      if Nat.eqb (length signatures) 0 then throw ErrWebhookSignatureInvalid else
      if negb (matchesSignature (secrets v) eventID timestampUnix
                 (WebhookRequest_Payload request) signatures)
      then throw ErrWebhookSignatureInvalid else
      record_verified v provider eventID timestamp now
  end.

End Verifier.

(** ** The in-memory replay store; [None] is a nil pointer *)

Definition MemoryWebhookReplayStore : Type := option (gmap string Time).

Definition NewMemoryWebhookReplayStore : MemoryWebhookReplayStore := Some ∅.

Definition replay_key (provider eventID : string) : string :=
  provider +:+ String (Ascii.ascii_of_nat 0) eventID.

Definition MemoryWebhookReplayStore_RecordWebhook (provider eventID : string)
    (receivedAt expiresAt : Time) : M MemoryWebhookReplayStore bool :=
  fun s => match s with
  | None => (Err (Text "nil memory webhook replay store"), s)
  | Some seen =>
      let seen := filter (fun kv => After (snd kv) receivedAt = true) seen in
      let key := replay_key provider eventID in
      match seen !! key with
      | Some existing => if After existing receivedAt then (Ok false, Some seen)
                         else (Ok true, Some (<[key := expiresAt]> seen))
      | None => (Ok true, Some (<[key := expiresAt]> seen))
      end
  end.

#[export] Instance memory_replay_store : WebhookReplayStore MemoryWebhookReplayStore := {
  RecordWebhook := MemoryWebhookReplayStore_RecordWebhook
}.

(** ** Specification *)

(** The request is authentic for the verifier at [now]: it names an event, its
    timestamp is within the tolerance, and one of its [v1] signatures is the
    HMAC-SHA256 of timestamp, event id and payload under one of the verifier's
    secrets. *)
Record Authentic (v : WebhookVerifier) (now : Time) (req : WebhookRequest) (ts : Z) : Prop := {
  au_provider : TrimSpace (Verifier_Provider v) <> "";
  au_event : TrimSpace (WebhookRequest_EventID req) <> "";
  au_timestamp : ParseInt (TrimSpace (WebhookRequest_Timestamp req)) = Some ts;
  au_window : now - tolerance v <= time_Unix ts <= now + tolerance v;
  au_signature : exists secret,
    secret ∈ secrets v
    /\ webhookDigest secret (TrimSpace (WebhookRequest_EventID req)) ts
         (WebhookRequest_Payload req)
       ∈ parseWebhookSignatures (WebhookRequest_Signature req)
}.

(** ** Facts *)

Lemma existsb_elem {A} (f : A -> bool) l : existsb f l = true <-> exists x, x ∈ l /\ f x = true.
Proof.
  rewrite existsb_exists. setoid_rewrite list_elem_of_In. done.
Qed.

Lemma matches_signature_spec keys eventID ts payload sigs :
  matchesSignature keys eventID ts payload sigs = true
  <-> exists secret, secret ∈ keys /\ webhookDigest secret eventID ts payload ∈ sigs.
Proof.
  unfold matchesSignature. rewrite existsb_elem. setoid_rewrite existsb_elem.
  setoid_rewrite String.eqb_eq. naive_solver.
Qed.

Lemma parse_int_nonblank t ts : ParseInt (TrimSpace t) = Some ts -> blank t = false.
Proof.
  unfold blank. intros H. apply String.eqb_neq. intros E. rewrite E in H. discriminate H.
Qed.

Lemma blank_signature header : blank header = true -> parseWebhookSignatures header = [].
Proof.
  unfold blank. intros H. apply String.eqb_eq in H. unfold parseWebhookSignatures.
  rewrite split_no_sep.
  - simpl. unfold parse_signature_part. by rewrite H.
  - rewrite <- (trim_lacks ","%char header) by (vm_compute; reflexivity). by rewrite H.
Qed.

Lemma authentic_signature v now req ts :
  Authentic v now req ts ->
  secrets v <> [] /\ parseWebhookSignatures (WebhookRequest_Signature req) <> []
  /\ blank (WebhookRequest_Signature req) = false
  /\ matchesSignature (secrets v) (TrimSpace (WebhookRequest_EventID req)) ts
       (WebhookRequest_Payload req) (parseWebhookSignatures (WebhookRequest_Signature req)) = true.
Proof.
  intros [_ _ _ _ (secret & Hs & Hd)].
  assert (Hne : parseWebhookSignatures (WebhookRequest_Signature req) <> [])
    by (intros E; rewrite E in Hd; by apply elem_of_nil in Hd).
  split_and!; [|done| |].
  - intros E. rewrite E in Hs. by apply elem_of_nil in Hs.
  - destruct (blank _) eqn:E; [|done]. by apply blank_signature in E.
  - apply matches_signature_spec. eauto.
Qed.

Lemma window_spec t now tol :
  Before t (AddD now (- tol)) || After t (AddD now tol) = false <-> now - tol <= t <= now + tol.
Proof. unfold Before, After, AddD. lia. Qed.

Lemma length_zero {A} (l : list A) : Nat.eqb (length l) 0 = false <-> l <> [].
Proof. destruct l; simpl; split; congruence. Qed.

Section Facts.
Context {RS : Type} `{WebhookReplayStore RS}.

(** An authentic request reaches the replay store. *)
Lemma verify_authentic v now req ts (s : RS) :
  Authentic v now req ts ->
  Verify v now req s
  = record_verified v (TrimSpace (Verifier_Provider v)) (TrimSpace (WebhookRequest_EventID req))
      (time_Unix ts) now s.
Proof.
  intros Ha. destruct (authentic_signature _ _ _ _ Ha) as (Hs & Hp & Hb & Hm).
  destruct Ha as [Hprov Hev Hts Hwin _]. unfold Verify.
  apply String.eqb_neq in Hprov as ->. apply length_zero in Hs as ->.
  apply String.eqb_neq in Hev as ->. rewrite (parse_int_nonblank _ ts) by done.
  rewrite Hb, Hts. apply window_spec in Hwin as ->.
  apply length_zero in Hp as ->. by rewrite Hm.
Qed.

(** A request that is not authentic is refused before the store is asked. *)
Lemma verify_unauthentic v now req (s : RS) :
  (forall ts, ~ Authentic v now req ts) -> exists e, Verify v now req s = (Err e, s).
Proof.
  intros Hno. unfold Verify.
  destruct (String.eqb _ "") eqn:Hp; [by eexists|].
  destruct (Nat.eqb _ 0); [by eexists|].
  destruct (String.eqb (TrimSpace (WebhookRequest_EventID req)) "") eqn:He; [by eexists|].
  destruct (blank _); [by eexists|]. destruct (blank _); [by eexists|].
  destruct (ParseInt _) as [ts|] eqn:Hts; [|by eexists].
  destruct (_ || _) eqn:Hw; [by eexists|].
  destruct (Nat.eqb _ 0); [by eexists|].
  destruct (matchesSignature _ _ _ _ _) eqn:Hm; [|by eexists].
  exfalso. apply (Hno ts). apply String.eqb_neq in Hp, He. apply window_spec in Hw.
  apply matches_signature_spec in Hm. by split.
Qed.

End Facts.

(** Whether a request is authentic is decidable. *)
Lemma authentic_dec v now req :
  (exists ts, Authentic v now req ts) \/ (forall ts, ~ Authentic v now req ts).
Proof.
  destruct (ParseInt (TrimSpace (WebhookRequest_Timestamp req))) as [ts|] eqn:Hts.
  2:{ right. intros ts []. congruence. }
  destruct (decide (TrimSpace (Verifier_Provider v) = "")); [right; by intros ? []|].
  destruct (decide (TrimSpace (WebhookRequest_EventID req) = "")); [right; by intros ? []|].
  destruct (decide (now - tolerance v <= time_Unix ts <= now + tolerance v)).
  2:{ right. intros ts' []. assert (ts = ts') as -> by congruence. done. }
  destruct (matchesSignature (secrets v) (TrimSpace (WebhookRequest_EventID req)) ts
              (WebhookRequest_Payload req)
              (parseWebhookSignatures (WebhookRequest_Signature req))) eqn:Hm.
  - left. exists ts. apply matches_signature_spec in Hm. by split.
  - right. intros ts' Ha. pose proof (au_timestamp _ _ _ _ Ha) as E. rewrite Hts in E.
    injection E as <-. apply authentic_signature in Ha as (_ & _ & _ & E). congruence.
Qed.

(** ** Signing *)

Lemma sign_parses secret eventID t payload :
  parseWebhookSignatures (SignWebhook secret eventID t payload)
  = [webhookDigest secret eventID (Unix t) payload].
Proof.
  unfold parseWebhookSignatures, SignWebhook.
  set (d := webhookDigest secret eventID (Unix t) payload).
  assert (Hlen : len d = sha256_size) by apply hmac_sha256_length.
  clearbody d. rewrite split_no_sep.
  2:{ rewrite has_char_app. simpl.
      apply (all_chars_absent hexadecimal); [reflexivity|apply hex_encode_hexadecimal]. }
  simpl. rewrite app_nil_r. unfold parse_signature_part. rewrite trim_graphic.
  2:{ rewrite all_chars_app. simpl. eapply all_chars_impl; [|apply hex_encode_hexadecimal].
      apply hexadecimal_graphic. }
  unfold String.append. simpl. rewrite trim_hex, hex_roundtrip, Hlen. done.
Qed.

Lemma secret_listed v secret :
  secret ∈ Verifier_CurrentSecret v :: Verifier_PreviousSecrets v ->
  TrimSpace secret = secret -> secret <> "" -> secret ∈ secrets v.
Proof.
  intros Hin Ht Hne. unfold secrets. apply list_elem_of_filter. split; [done|].
  apply list_elem_of_fmap. eauto.
Qed.

(** The request the holder of [secret] sends. *)
Definition signed_request (secret eventID : string) (ts : Z) (payload : string)
    : WebhookRequest :=
  mkWebhookRequest eventID (Itoa ts) (SignWebhook secret eventID (time_Unix ts) payload) payload.

Lemma signed_authentic v now secret eventID ts payload :
  TrimSpace (Verifier_Provider v) <> "" ->
  secret ∈ secrets v ->
  TrimSpace eventID = eventID -> eventID <> "" ->
  in_int64 ts -> in_int64 (ts + unix_to_internal) ->
  now - tolerance v <= time_Unix ts <= now + tolerance v ->
  Authentic v now (signed_request secret eventID ts payload) ts.
Proof.
  intros Hp Hs He Hne Hts Hts' Hw. split; simpl; rewrite ?He; try done.
  - rewrite trim_itoa. by apply parse_itoa.
  - exists secret. split; [done|]. rewrite sign_parses, unix_time_unix by done.
    apply list_elem_of_here.
Qed.

(** ** Replays in the in-memory store *)

(** The key is remembered at least until [bound]. *)
Definition remembered (bound : Time) (key : string) (s : MemoryWebhookReplayStore) : Prop :=
  exists seen (c : Time), s = Some seen /\ seen !! key = Some c /\ bound <= c.

Lemma pruned_lookup (seen : gmap string Time) now key (c : Time) :
  seen !! key = Some c -> now < c ->
  filter (fun kv : string * Time => After (snd kv) now = true) seen !! key = Some c.
Proof.
  intros Hc Hlt. apply map_lookup_filter_Some. split; [done|]. simpl. unfold After. lia.
Qed.

Lemma record_refuses bound p e now exp s :
  remembered bound (replay_key p e) s -> now < bound ->
  exists s', MemoryWebhookReplayStore_RecordWebhook p e now exp s = (Ok false, s').
Proof.
  intros (seen & c & -> & Hc & Hle) Hlt. unfold MemoryWebhookReplayStore_RecordWebhook.
  rewrite (pruned_lookup _ _ _ c) by (done || lia).
  assert (After c now = true) as -> by (unfold After; lia). eauto.
Qed.

Lemma record_remembers p e now exp s s' :
  MemoryWebhookReplayStore_RecordWebhook p e now exp s = (Ok true, s') ->
  remembered exp (replay_key p e) s'.
Proof.
  unfold MemoryWebhookReplayStore_RecordWebhook. destruct s as [seen|]; [|done].
  intros H. repeat case_match; simplify_eq; eexists _, exp;
    (split_and!; [done|apply lookup_insert_eq|done]).
Qed.

Lemma record_keeps bound key p e now exp s r s' :
  MemoryWebhookReplayStore_RecordWebhook p e now exp s = (r, s') ->
  now < bound -> remembered bound key s -> remembered bound key s'.
Proof.
  intros H Hlt (seen & c & -> & Hc & Hle). revert H.
  unfold MemoryWebhookReplayStore_RecordWebhook.
  pose proof (pruned_lookup _ now _ _ Hc ltac:(lia)) as Hf.
  destruct (decide (replay_key p e = key)) as [->|Hne].
  - rewrite Hf. assert (After c now = true) as -> by (unfold After; lia).
    intros. simplify_eq. exists (filter (fun kv : string * Time => After (snd kv) now = true) seen), c.
    exact (conj eq_refl (conj Hf Hle)).
  - revert Hf. generalize (filter (fun kv : string * Time => After (snd kv) now = true) seen).
    intros seen' Hf. assert (Hput : remembered bound key (Some (<[replay_key p e := exp]> seen'))).
    { exists (<[replay_key p e := exp]> seen'), c. by rewrite lookup_insert_ne. }
    destruct (seen' !! replay_key p e); [destruct (After _ _)|]; intros; simplify_eq; [|done|done].
    by exists seen', c.
Qed.

Lemma verify_keeps bound key v now req (s : MemoryWebhookReplayStore) r s' :
  Verify v now req s = (r, s') -> now < bound -> remembered bound key s -> remembered bound key s'.
Proof.
  intros Hrun Hlt Hr. destruct (authentic_dec v now req) as [[ts Ha]|Hno].
  - rewrite (verify_authentic _ _ _ _ _ Ha) in Hrun. unfold record_verified in Hrun.
    destruct (Verifier_HasReplayStore v); [|by injection Hrun as <- <-].
    unfold bind, attempt in Hrun. simpl in Hrun.
    destruct (MemoryWebhookReplayStore_RecordWebhook _ _ _ _ _) as [q s1] eqn:Hrec.
    assert (s' = s1) as ->
      by (destruct q as [[]|]; unfold throw, ret in Hrun; simpl in Hrun; congruence).
    by eapply record_keeps.
  - destruct (verify_unauthentic v now req s Hno) as [e E]. rewrite E in Hrun. by simplify_eq.
Qed.

(** A sequence of verifications, by any verifiers that share the store. *)
Definition verify_all (calls : list (WebhookVerifier * Time * WebhookRequest))
    (s : MemoryWebhookReplayStore) : MemoryWebhookReplayStore :=
  fold_left (fun s '(v, now, req) => snd (Verify v now req s)) calls s.

Lemma verify_all_keeps bound key calls s :
  Forall (fun call => call.1.2 < bound) calls ->
  remembered bound key s -> remembered bound key (verify_all calls s).
Proof.
  intros Hf. revert s. induction Hf as [|[[v now] req] calls Hlt _ IH]; intros s Hr; [done|].
  simpl. apply IH. destruct (Verify v now req s) as [r s'] eqn:E. by eapply verify_keeps.
Qed.

Lemma verify_accepts_remembers v now req (s : MemoryWebhookReplayStore) w s' :
  Verifier_HasReplayStore v = true -> Verify v now req s = (Ok w, s') ->
  remembered (now + replay_ttl v)
    (replay_key (TrimSpace (Verifier_Provider v)) (TrimSpace (WebhookRequest_EventID req))) s'.
Proof.
  intros Hhas Hrun. destruct (authentic_dec v now req) as [[ts Ha]|Hno].
  - rewrite (verify_authentic _ _ _ _ _ Ha) in Hrun. unfold record_verified in Hrun.
    rewrite Hhas in Hrun. unfold bind, attempt in Hrun. simpl in Hrun.
    destruct (MemoryWebhookReplayStore_RecordWebhook _ _ _ _ _) as [[[]|] s1] eqn:Hrec;
      unfold throw, ret in Hrun; simpl in Hrun; try discriminate Hrun.
    injection Hrun as _ <-. by apply record_remembers in Hrec.
  - destruct (verify_unauthentic v now req s Hno) as [e E]. by rewrite E in Hrun.
Qed.

(** ** Properties *)

Section Properties.
Context {RS : Type} `{WebhookReplayStore RS}.

(** C17: verification accepts exactly the authentic requests that the replay
    store lets through.  An accepted webhook carries a signature under one of the
    secrets and a timestamp within the tolerance, and its event was recorded with
    the replay store, which accepted it as new (without a store, nothing is
    recorded).  A refusal either left the replay store alone because the request
    is not authentic, or reports that the store had seen the event before, or
    that it failed. *)
Theorem webhook_verify_outcome v now req (s : RS) :
  let record := RecordWebhook (TrimSpace (Verifier_Provider v))
                  (TrimSpace (WebhookRequest_EventID req)) now (now + replay_ttl v) s in
  match Verify v now req s with
  | (Ok w, s') =>
      (if Verifier_HasReplayStore v then record = (Ok true, s') else s' = s)
      /\ exists ts, Authentic v now req ts
        /\ w = mkVerifiedWebhook (TrimSpace (Verifier_Provider v))
                 (TrimSpace (WebhookRequest_EventID req)) (time_Unix ts) now
                 (now + replay_ttl v)
  | (Err e, s') =>
      (s' = s /\ forall ts, ~ Authentic v now req ts)
      \/ (exists ts, Authentic v now req ts) /\ Verifier_HasReplayStore v = true
         /\ exists r, record = (r, s')
                      /\ match r with
                         | Ok accepted => accepted = false /\ e = ErrWebhookReplay
                         | Err _ => error_is e "webhook replay store is unavailable" = true
                         end
  end.
Proof.
  intros record. destruct (authentic_dec v now req) as [[ts Ha]|Hno].
  2:{ destruct (verify_unauthentic v now req s Hno) as [e ->]. by left. }
  rewrite (verify_authentic _ _ _ _ _ Ha). unfold record_verified, AddD.
  destruct (Verifier_HasReplayStore v); [|split; [done|by exists ts]].
  unfold bind, attempt. fold record. destruct record as [[[]|e] s1]; simpl.
  - split; [done|by exists ts].
  - right. split; [by exists ts|]. split; [done|]. by eexists.
  - right. split; [by exists ts|]. split; [done|]. by eexists.
Qed.

(** Signing and verifying agree: a request signed with the current secret or
    any previous one, stamped inside the tolerance, is accepted with its event
    id and timestamp whenever the replay store accepts the event (or there is
    none). *)
Theorem signed_webhook_accepted v now secret eventID ts payload (s s' : RS) :
  TrimSpace (Verifier_Provider v) <> "" ->
  secret ∈ Verifier_CurrentSecret v :: Verifier_PreviousSecrets v ->
  TrimSpace secret = secret -> secret <> "" ->
  TrimSpace eventID = eventID -> eventID <> "" ->
  in_int64 ts -> in_int64 (ts + unix_to_internal) ->
  now - tolerance v <= time_Unix ts <= now + tolerance v ->
  (if Verifier_HasReplayStore v
   then RecordWebhook (TrimSpace (Verifier_Provider v)) eventID now (now + replay_ttl v) s
        = (Ok true, s')
   else s' = s) ->
  Verify v now (signed_request secret eventID ts payload) s
  = (Ok (mkVerifiedWebhook (TrimSpace (Verifier_Provider v)) eventID (time_Unix ts) now
           (now + replay_ttl v)), s').
Proof.
  intros Hp Hin Hts Hsne He Hne Hr1 Hr2 Hw Hrec.
  assert (Ha : Authentic v now (signed_request secret eventID ts payload) ts)
    by (apply signed_authentic; try done; by apply secret_listed).
  rewrite (verify_authentic _ _ _ _ _ Ha). unfold record_verified, AddD. simpl. rewrite He.
  destruct (Verifier_HasReplayStore v); [|by subst].
  unfold bind, attempt. by rewrite Hrec.
Qed.

End Properties.

(** C18: a webhook accepted through the in-memory replay store is accepted once:
    any later request for the same event of the same provider that arrives
    before the retention ends is refused, whatever its signature, payload and
    timestamp and whatever other webhooks, of any verifiers that share the
    store, were processed in between. *)
Theorem webhook_accepted_once v v2 now1 now2 req1 req2 calls
    (s s1 : MemoryWebhookReplayStore) w :
  Verifier_HasReplayStore v = true -> Verifier_HasReplayStore v2 = true ->
  TrimSpace (Verifier_Provider v2) = TrimSpace (Verifier_Provider v) ->
  TrimSpace (WebhookRequest_EventID req2) = TrimSpace (WebhookRequest_EventID req1) ->
  Verify v now1 req1 s = (Ok w, s1) ->
  Forall (fun call => call.1.2 < now1 + replay_ttl v) calls -> now2 < now1 + replay_ttl v ->
  exists e, fst (Verify v2 now2 req2 (verify_all calls s1)) = Err e.
Proof.
  intros Hh Hh2 Hprov Hev Hrun Hf Hlt.
  pose proof (verify_accepts_remembers _ _ _ _ _ _ Hh Hrun) as Hr.
  apply (verify_all_keeps _ _ calls) in Hr; [|done].
  destruct (authentic_dec v2 now2 req2) as [[ts Ha]|Hno].
  - rewrite (verify_authentic _ _ _ _ _ Ha). unfold record_verified. rewrite Hh2, Hprov, Hev.
    unfold bind, attempt. simpl.
    edestruct record_refuses as [s' ->]; [exact Hr|exact Hlt|]. by eexists.
  - destruct (verify_unauthentic v2 now2 req2 (verify_all calls s1) Hno) as [e ->]. by eexists.
Qed.

(** The signed text fixes event id and payload when event ids hold no dot.
    When they may, it does not: whoever saw an authentic request for the event
    [a.b] can present the same signature for the event [a], with [b.] moved to
    the front of the payload, and that request is authentic too. *)
Theorem webhook_signature_boundary :
  (forall e e' ts ts' p p', has_char "."%char e = false -> has_char "."%char e' = false ->
     webhook_message e ts p = webhook_message e' ts' p' -> ts = ts' /\ e = e' /\ p = p')
  /\ (forall v now a b t sig payload ts,
        TrimSpace a = a -> TrimSpace (a +:+ "." +:+ b) = a +:+ "." +:+ b -> a <> "" ->
        Authentic v now (mkWebhookRequest (a +:+ "." +:+ b) t sig payload) ts ->
        Authentic v now (mkWebhookRequest a t sig (b +:+ "." +:+ payload)) ts).
Proof.
  split.
  - intros e e' ts ts' p p' He He' Heq. unfold webhook_message in Heq.
    assert (Hd : forall z, has_char "."%char (Itoa z) = false).
    { intros z. eapply all_chars_absent; [|apply itoa_numeric]. reflexivity. }
    apply sep_app_inj in Heq as [Hts Heq]; [|apply Hd..].
    apply (inj pretty) in Hts. unfold String.append in Heq. simpl in Heq.
    apply (sep_app_inj "."%char e e') in Heq as [-> ->]; done.
  - intros v now a b t sig payload ts Ha Hab Hne [Hp He Ht Hw (secret & Hs & Hd)].
    simpl in *. split; simpl; rewrite ?Ha; try done.
    exists secret. split; [done|]. rewrite Hab in Hd.
    unfold webhookDigest, webhook_message in *. rewrite !string_app_assoc in Hd. exact Hd.
Qed.

(** ** Instances *)

Definition sample_verifier : WebhookVerifier :=
  mkWebhookVerifier "stripe" "whsec_current" ["whsec_old"] true 0 0.

Definition sample_webhook : WebhookRequest := signed_request "whsec_old" "evt_1" 1780056000 "{}".

Lemma signed_webhook_accepted_witness :
  exists s', Verify sample_verifier (time_Unix 1780056030) sample_webhook
               NewMemoryWebhookReplayStore
  = (Ok (mkVerifiedWebhook "stripe" "evt_1" (time_Unix 1780056000) (time_Unix 1780056030)
           (time_Unix 1780056030 + 24 * hour)), s').
Proof.
  eexists (Some {[replay_key "stripe" "evt_1" := time_Unix 1780056030 + 24 * hour]}).
  apply (signed_webhook_accepted sample_verifier (time_Unix 1780056030) "whsec_old" "evt_1"
           1780056000 "{}");
    [discriminate|set_solver|reflexivity|discriminate|reflexivity|discriminate
    |split; vm_compute; discriminate|split; vm_compute; discriminate
    |split; vm_compute; discriminate|vm_compute; reflexivity].
Defined.

Lemma sample_webhook_ok :
  is_ok (fst (Verify sample_verifier (time_Unix 1780056030) sample_webhook
                NewMemoryWebhookReplayStore)) = true.
Proof. vm_compute. reflexivity. Qed.

Lemma webhook_accepted_once_witness :
  exists s1 e, fst (Verify sample_verifier (time_Unix 1780056060) sample_webhook s1) = Err e.
Proof.
  pose proof sample_webhook_ok as Hok.
  destruct (Verify sample_verifier (time_Unix 1780056030) sample_webhook
              NewMemoryWebhookReplayStore) as [[w|] s1] eqn:H; [|discriminate Hok].
  exists s1.
  apply (webhook_accepted_once sample_verifier sample_verifier (time_Unix 1780056030)
           (time_Unix 1780056060) sample_webhook sample_webhook [] NewMemoryWebhookReplayStore
           s1 w); [reflexivity|reflexivity|reflexivity|reflexivity|exact H|constructor|].
  vm_compute. reflexivity.
Defined.
