(* ===== verification/RateLimit.v ===== *)
(** Rate limiting, [internal/ratelimit]: the in-memory fixed-window limiter and
    the limiter that runs a script on a Redis server.

    Redis is a parameter: the two commands the script calls are a class, with
    the documented behaviour the limiter relies on as its laws. *)
From S2P Require Import Prelude GoStrings GoTime.

(** ** [MemoryLimiter] *)

Record bucket := mkBucket {
  bucket_count : Z;
  bucket_reset : Time
}.

Record MemoryLimiter := mkMemoryLimiter {
  limiter_limit : Z;
  limiter_window : Duration;
  limiter_buckets : gmap string bucket
}.

Definition NewMemoryLimiter (limit : Z) (window : Duration) : MemoryLimiter :=
  mkMemoryLimiter limit window ∅.

(** The zero value a Go map gives for an absent key. *)
Definition zero_bucket : bucket := mkBucket 0 0.

Definition MemoryLimiter_Allow (now : Time) (key : string) : M MemoryLimiter bool :=
  fun l =>
    let current := default zero_bucket (limiter_buckets l !! key) in
    let current := if IsZero (bucket_reset current) || negb (Before now (bucket_reset current))
                   then mkBucket 0 (AddD now (limiter_window l)) else current in
    let current := mkBucket (wrap64 (bucket_count current + 1)) (bucket_reset current) in
    (Ok (bucket_count current <=? limiter_limit l),
     mkMemoryLimiter (limiter_limit l) (limiter_window l)
       (<[key := current]> (limiter_buckets l))).

(** ** [RedisLimiter] *)

Class Redis (R : Type) := {
  INCR : string -> M R Z;
  PEXPIRE : string -> Z -> M R unit
}.

Record RedisLimiter := mkRedisLimiter {
  redis_limit : Z;
  redis_window : Duration
}.

Section RedisLimiter.
Context {R : Type} `{Redis R}.

Definition redisLimiterScript (key : string) (arg : Z) : M R Z :=
  let! current := INCR key in
  if current =? 1 then let! _ := PEXPIRE key arg in ret current else ret current.

Definition RedisLimiter_Allow (l : RedisLimiter) (key : string) : M R bool :=
  if redis_window l <=? 0 then throw (Text "rate limit window must be positive") else
  let redisKey := "rate_limit:" +:+ key in
  let! r := attempt (redisLimiterScript redisKey (Z.quot (redis_window l) millisecond)) in
  match r with
  | Err e => throw (Wrap "increment rate limit: " e "")
  | Ok count => ret (count <=? redis_limit l)
  end.

End RedisLimiter.

(** What the Redis documentation promises of a key that does not expire during
    the calls: [INCR] counts from 0, [PEXPIRE] keeps the value, keys do not
    interfere. *)
Class RedisLaws (R : Type) `{Redis R} := {
  counter : R -> string -> Z;
  incr_law r k : exists r', INCR k r = (Ok (counter r k + 1), r')
    /\ counter r' k = counter r k + 1 /\ forall k', k' <> k -> counter r' k' = counter r k';
  pexpire_law r k ms : exists r', PEXPIRE k ms r = (Ok tt, r')
    /\ forall k', counter r' k' = counter r k'
}.

(** ** Sequences of calls *)

Fixpoint allow_all {L} (allow : Time -> string -> M L bool) (calls : list (Time * string)) (l : L)
    : list (string * result bool) * L :=
  match calls with
  | [] => ([], l)
  | (now, key) :: rest =>
      let (r, l) := allow now key l in
      let (rs, l) := allow_all allow rest l in
      ((key, r) :: rs, l)
  end.

Definition answers_for (key : string) (rs : list (string * result bool)) : list (result bool) :=
  map snd (filter (fun r => r.1 = key) rs).

Definition calls_for (key : string) (calls : list (Time * string)) : nat :=
  length (filter (fun c => c.2 = key) calls).

(** The first [limit - used] of [n] calls are let through. *)
Definition budget (limit used : Z) (n : nat) : list (result bool) :=
  map (fun i => Ok (used + Z.of_nat i + 1 <=? limit)) (seq 0 n).

(** ** Facts *)

Lemma budget_cons limit used n :
  budget limit used (Datatypes.S n) = Ok (used + 1 <=? limit) :: budget limit (used + 1) n.
Proof.
  unfold budget. simpl. f_equal; [do 2 f_equal; lia|]. rewrite <- seq_shift, map_map.
  apply map_ext. intros i. do 2 f_equal. lia.
Qed.

Lemma calls_for_cons key t k calls :
  calls_for key ((t, k) :: calls)
  = (if decide (k = key) then Datatypes.S (calls_for key calls) else calls_for key calls).
Proof. unfold calls_for. rewrite filter_cons. simpl. by case_decide. Qed.

Lemma answers_for_cons key k r rs :
  answers_for key ((k, r) :: rs)
  = if decide (k = key) then r :: answers_for key rs else answers_for key rs.
Proof. unfold answers_for. rewrite filter_cons. simpl. by case_decide. Qed.

(** A call inside a running window counts one up. *)
Lemma allow_running now key l b :
  limiter_buckets l !! key = Some b -> bucket_reset b <> 0 -> now < bucket_reset b ->
  0 <= bucket_count b < int64_max ->
  MemoryLimiter_Allow now key l
  = (Ok (bucket_count b + 1 <=? limiter_limit l),
     mkMemoryLimiter (limiter_limit l) (limiter_window l)
       (<[key := mkBucket (bucket_count b + 1) (bucket_reset b)]> (limiter_buckets l))).
Proof.
  intros Hb Hz Hlt Hc. unfold MemoryLimiter_Allow. rewrite Hb. simpl.
  assert (IsZero (bucket_reset b) || negb (Before now (bucket_reset b)) = false) as ->
    by (unfold IsZero, Before; lia).
  simpl. rewrite wrap64_id; [done|]. unfold in_int64, int64_min. lia.
Qed.

Lemma allow_shape now key l :
  exists r b, MemoryLimiter_Allow now key l
    = (Ok r, mkMemoryLimiter (limiter_limit l) (limiter_window l)
               (<[key := b]> (limiter_buckets l))).
Proof. unfold MemoryLimiter_Allow. eauto. Qed.

Lemma allow_all_running key reset calls limit window buckets c :
  buckets !! key = Some (mkBucket c reset) -> reset <> 0 ->
  Forall (fun call => call.1 < reset) calls ->
  0 <= c -> c + Z.of_nat (length calls) <= int64_max ->
  answers_for key (fst (allow_all MemoryLimiter_Allow calls (mkMemoryLimiter limit window buckets)))
  = budget limit c (calls_for key calls).
Proof.
  intros Hb Hz Hf. revert c buckets Hb.
  induction Hf as [|[now k] calls Hlt _ IH]; intros c buckets Hb Hc Hlen; [done|].
  rewrite calls_for_cons. cbn [allow_all]. simpl in Hlt, Hlen.
  destruct (decide (k = key)) as [->|Hne].
  - erewrite allow_running; [|exact Hb|done|done|simpl; lia]. cbn [limiter_limit limiter_window].
    specialize (IH (c + 1) (<[key := mkBucket (c + 1) reset]> buckets) (lookup_insert_eq _ _ _)
                  ltac:(lia) ltac:(lia)).
    cbn [limiter_buckets bucket_count bucket_reset].
    destruct (allow_all _ calls _) as [rs l']. simpl in *.
    rewrite answers_for_cons, decide_True, budget_cons by done. by rewrite IH.
  - destruct (allow_shape now k (mkMemoryLimiter limit window buckets)) as (r & b' & ->).
    cbn [limiter_limit limiter_window limiter_buckets].
    specialize (IH c (<[k := b']> buckets)). rewrite lookup_insert_ne in IH by done.
    specialize (IH Hb Hc ltac:(lia)).
    destruct (allow_all _ calls _) as [rs l']. simpl in *.
    by rewrite answers_for_cons, decide_False.
Qed.

(** A call at a key without a running window opens one. *)
Lemma allow_opening now key l :
  limiter_buckets l !! key = None
  \/ (exists b, limiter_buckets l !! key = Some b /\ bucket_reset b <= now) ->
  MemoryLimiter_Allow now key l
  = (Ok (1 <=? limiter_limit l),
     mkMemoryLimiter (limiter_limit l) (limiter_window l)
       (<[key := mkBucket 1 (AddD now (limiter_window l))]> (limiter_buckets l))).
Proof.
  unfold MemoryLimiter_Allow. intros [->|(b & -> & Hle)]; simpl; [done|].
  assert (IsZero (bucket_reset b) || negb (Before now (bucket_reset b)) = true) as ->
    by (unfold IsZero, Before; lia).
  done.
Qed.

(** ** Properties *)

(** C22: Fixed-window budget of the in-memory limiter: from a call at [now] that
    finds no running window for its key, the calls for that key up to the end of
    the window are answered yes exactly [limit] times, first come first served,
    whatever calls for other keys are interleaved. *)
Theorem memory_limiter_budget now key calls l :
  limiter_buckets l !! key = None
  \/ (exists b, limiter_buckets l !! key = Some b /\ bucket_reset b <= now) ->
  let reset := now + limiter_window l in
  reset <> 0 -> Forall (fun call => call.1 < reset) calls ->
  Z.of_nat (length calls) < int64_max ->
  answers_for key (fst (allow_all MemoryLimiter_Allow ((now, key) :: calls) l))
  = budget (limiter_limit l) 0 (Datatypes.S (calls_for key calls)).
Proof.
  intros Hopen reset Hz Hf Hlen. cbn [allow_all]. rewrite allow_opening by done.
  pose proof (allow_all_running key reset calls (limiter_limit l) (limiter_window l)
                (<[key := mkBucket 1 reset]> (limiter_buckets l)) 1 (lookup_insert_eq _ _ _) Hz Hf
                ltac:(lia) ltac:(lia)) as H.
  change (AddD now (limiter_window l)) with reset.
  destruct (allow_all _ calls _) as [rs l']. simpl in *.
  rewrite answers_for_cons, decide_True, budget_cons by done. by rewrite H.
Qed.

Lemma memory_limiter_budget_witness :
  answers_for "m:create" (fst (allow_all MemoryLimiter_Allow
    [(10, "m:create"); (20, "n:create"); (30, "m:create"); (40, "m:create")]
    (NewMemoryLimiter 2 minute))) = [Ok true; Ok true; Ok false].
Proof.
  rewrite (memory_limiter_budget 10 "m:create" [(20, "n:create"); (30, "m:create"); (40, "m:create")]
             (NewMemoryLimiter 2 minute)).
  - reflexivity.
  - left. apply lookup_empty.
  - discriminate.
  - repeat constructor.
  - reflexivity.
Defined.

Section RedisProperties.
Context {R : Type} `{RedisLaws R}.

Lemma redis_script_counts k ms (r : R) :
  exists r', redisLimiterScript k ms r = (Ok (counter r k + 1), r')
    /\ counter r' k = counter r k + 1 /\ forall k', k' <> k -> counter r' k' = counter r k'.
Proof.
  unfold redisLimiterScript, bind. destruct (incr_law r k) as (r1 & -> & Hk & Ho).
  destruct (_ =? 1); [|by exists r1].
  destruct (pexpire_law r1 k ms) as (r2 & -> & Hall). exists r2. simpl.
  split; [done|]. split; [by rewrite Hall|]. intros. rewrite Hall. auto.
Qed.

(** The Redis limiter spends the same budget: while the key of a merchant
    does not expire, its calls are let through as long as the count of the
    window stays within the limit, independently of the other keys; a limiter
    with a window that is not positive refuses every call and touches no
    counter. *)
Theorem redis_limiter_budget l key calls (r : R) :
  answers_for key (fst (allow_all (fun _ => RedisLimiter_Allow l) calls r))
  = if redis_window l <=? 0
    then repeat (Err (Text "rate limit window must be positive")) (calls_for key calls)
    else budget (redis_limit l) (counter r ("rate_limit:" +:+ key)) (calls_for key calls).
Proof.
  revert r. induction calls as [|[now k] calls IH]; intros r.
  { by destruct (redis_window l <=? 0). }
  cbn [allow_all]. rewrite calls_for_cons. unfold RedisLimiter_Allow at 1.
  destruct (redis_window l <=? 0) eqn:Hw.
  - specialize (IH r). unfold throw. destruct (allow_all _ calls r) as [rs l']. simpl in *.
    rewrite answers_for_cons, IH. by case_decide.
  - unfold bind, attempt.
    destruct (redis_script_counts ("rate_limit:" +:+ k)
                (Z.quot (redis_window l) millisecond) r) as (r1 & -> & Hk & Ho).
    specialize (IH r1). unfold ret. destruct (allow_all _ calls r1) as [rs l']. simpl in *.
    rewrite answers_for_cons, IH. case_decide as Hd.
    + subst k. by rewrite budget_cons, Hk.
    + rewrite Ho; [done|]. intros E. apply Hd. unfold String.append in E. simpl in E. congruence.
Qed.

End RedisProperties.

(** A server that only counts satisfies the laws. *)
#[export] Instance counting_redis : Redis (gmap string Z) := {
  INCR k := fun r => let n := default 0 (r !! k) + 1 in (Ok n, <[k := n]> r);
  PEXPIRE _ _ := fun r => (Ok tt, r)
}.

#[export] Program Instance counting_redis_laws : RedisLaws (gmap string Z) := {
  counter r k := default 0 (r !! k)
}.
Next Obligation.
  intros r k. eexists. split; [done|]. simpl. rewrite lookup_insert_eq. split; [done|].
  intros. by rewrite lookup_insert_ne.
Qed.
Next Obligation. intros r k ms. by eexists. Qed.

Lemma redis_limiter_budget_witness :
  answers_for "m" (fst (allow_all (fun _ => RedisLimiter_Allow (mkRedisLimiter 1 minute))
                          [(0, "m"); (0, "n"); (0, "m")] (∅ : gmap string Z)))
  = [Ok true; Ok false].
Proof.
  rewrite (redis_limiter_budget (mkRedisLimiter 1 minute) "m" [(0, "m"); (0, "n"); (0, "m")]
             (∅ : gmap string Z)).
  vm_compute. reflexivity.
Defined.
