(* ===== verification/Topology.v ===== *)
(** The message topology, [internal/messaging/topology.go] and
    [DeclareTopology] of [internal/messaging/rabbitmq.go].

    The AMQP client is a parameter: a function that performs one declaration
    and may fail.  Routing is read off the declarations issued: all exchanges
    are topic exchanges, and no binding key holds a wildcard, so a message goes
    to the queues bound with exactly its routing key. *)
From S2P Require Import Prelude GoStrings GoTime Model.

Definition DomainExchange : string := "fulfillhub.domain".

Definition RetryExchange : string := "fulfillhub.retry".

Definition DLXExchange : string := "fulfillhub.dlx".

Definition InventoryReserveQueue : string := "inventory.reserve".

Definition PaymentsAuthorizeQueue : string := "payments.authorize".

Definition ShipmentsCreateQueue : string := "shipments.create".

Definition OrdersFinalizeQueue : string := "orders.finalize".

Definition OrdersCancelQueue : string := "orders.cancel".

Definition OrdersCompensateQueue : string := "orders.compensate".

Definition NotificationsEmailQueue : string := "notifications.email".

Definition defaultMaxRetryAttempts : Z := 3.

Record QueueTopology := mkQueueTopology {
  Topology_Queue : string;
  Topology_RoutingKeys : list string;
  Topology_RetryQueue : string;
  Topology_RetryTTL : Duration;
  Topology_DLQ : string
}.

Definition RoutingKey (eventType : string) : string := TrimSpace eventType.

Definition QueueNames : list string :=
  [InventoryReserveQueue; PaymentsAuthorizeQueue; ShipmentsCreateQueue; OrdersFinalizeQueue;
   OrdersCancelQueue; OrdersCompensateQueue; NotificationsEmailQueue].

Definition QueueTopologies : list QueueTopology :=
  [mkQueueTopology InventoryReserveQueue ["order.created"]
     "inventory.reserve.retry.5s" (5 * second) "inventory.reserve.dlq";
   mkQueueTopology PaymentsAuthorizeQueue ["inventory.reserved"]
     "payments.authorize.retry.15s" (15 * second) "payments.authorize.dlq";
   mkQueueTopology ShipmentsCreateQueue ["payment.authorized"]
     "shipments.create.retry.30s" (30 * second) "shipments.create.dlq";
   mkQueueTopology OrdersFinalizeQueue ["shipment.created"]
     "orders.finalize.retry.15s" (15 * second) "orders.finalize.dlq";
   mkQueueTopology OrdersCancelQueue ["order.cancel_requested"]
     "orders.cancel.retry.15s" (15 * second) "orders.cancel.dlq";
   mkQueueTopology OrdersCompensateQueue
     ["inventory.rejected"; "payment.failed"; "shipment.failed"]
     "orders.compensate.retry.15s" (15 * second) "orders.compensate.dlq";
   mkQueueTopology NotificationsEmailQueue
     ["order.completed"; "order.cancelled"; "order.manual_review_required";
      "inventory.rejected"; "payment.failed"; "shipment.failed"]
     "notifications.email.retry.60s" (60 * second) "notifications.email.dlq"].

(** ** Declarations *)

(** One call on the channel; the queue arguments are the dead-letter exchange
    and the message TTL in milliseconds, an [int32]. *)
Inductive Declaration : Type :=
| ExchangeDeclare (exchange kind : string)
| QueueDeclare (queue : string) (deadLetter : option string) (ttl : option Z)
| QueueBind (queue key exchange : string).

Definition wrap32 (z : Z) : Z := (z + 2 ^ 31) mod 2 ^ 32 - 2 ^ 31.

Section Declare.
Context {C : Type}.
Variable call : Declaration -> M C unit.

(** A call whose error is returned with the text of the source in front. *)
Definition declare (text : string) (d : Declaration) : M C unit :=
  annotate (text +:+ ": ") (call d).

Definition declare_bindings (t : QueueTopology) (key : string) : M C unit :=
  let! _ := declare ("bind queue " +:+ Topology_Queue t +:+ " to " +:+ key)
              (QueueBind (Topology_Queue t) key DomainExchange) in
  let! _ := declare ("bind retry queue " +:+ Topology_RetryQueue t +:+ " to " +:+ key)
              (QueueBind (Topology_RetryQueue t) key RetryExchange) in
  declare ("bind dlq " +:+ Topology_DLQ t +:+ " to " +:+ key)
    (QueueBind (Topology_DLQ t) key DLXExchange).

Definition declare_queue (t : QueueTopology) : M C unit :=
  let! _ := declare ("declare queue " +:+ Topology_Queue t)
              (QueueDeclare (Topology_Queue t) (Some DLXExchange) None) in
  let! _ := declare ("declare retry queue " +:+ Topology_RetryQueue t)
              (QueueDeclare (Topology_RetryQueue t) (Some DomainExchange)
                 (Some (wrap32 (Z.quot (Topology_RetryTTL t) millisecond)))) in
  let! _ := declare ("declare dlq " +:+ Topology_DLQ t)
              (QueueDeclare (Topology_DLQ t) None None) in
  for_each (declare_bindings t) (Topology_RoutingKeys t).

Definition DeclareTopology : M C unit :=
  let! _ := for_each (fun exchange => declare ("declare exchange " +:+ exchange)
                                        (ExchangeDeclare exchange "topic"))
              [DomainExchange; RetryExchange; DLXExchange] in
  for_each declare_queue QueueTopologies.

End Declare.

(** ** Routing over declarations *)

(** A broker that accepts everything and remembers it. *)
Definition accept_all (d : Declaration) : M (list Declaration) unit := modify (fun ds => ds ++ [d]).

Definition declared : list Declaration := snd (DeclareTopology accept_all []).

(** The queues a message published to [exchange] under [key] lands in. *)
Definition routes (exchange key : string) : list string :=
  flat_map (fun d => match d with
                     | QueueBind q k x => if String.eqb k key && String.eqb x exchange
                                          then [q] else []
                     | _ => []
                     end) declared.

(** Where a queue sends its dead letters: rejected ones, or expired ones. *)
Definition dead_letter_of (queue : string) : option string :=
  foldr (fun d acc => match d with
                      | QueueDeclare q dl _ => if String.eqb q queue then dl else acc
                      | _ => acc
                      end) None declared.

Definition ttl_of (queue : string) : option Z :=
  foldr (fun d acc => match d with
                      | QueueDeclare q _ ttl => if String.eqb q queue then ttl else acc
                      | _ => acc
                      end) None declared.

(** A rejected or expired message keeps its routing key. *)
Definition dead_letter (queue key : string) : list string :=
  match dead_letter_of queue with
  | Some x => routes x key
  | None => []
  end.

(** The work queues a message sent to the retry exchange comes back to: one
    copy per retry queue, each dead-lettered when its TTL ends. *)
Definition redelivered (key : string) : list string :=
  flat_map (fun rq => dead_letter rq key) (routes RetryExchange key).

(** ** Facts *)

(** A computation that performs exactly the declarations of a plan. *)
Definition follows {C} (call : Declaration -> M C unit) (c : M C unit)
    (plan : list (string * Declaration)) : Prop :=
  forall s, c s = for_each (fun p => declare call p.1 p.2) plan s.

Section Plans.
Context {C : Type}.
Variable call : Declaration -> M C unit.

Lemma follows_one text d : follows call (declare call text d) [(text, d)].
Proof. intros s. simpl. unfold bind at 1. by destruct (declare call text d s) as [[[]|] ?]. Qed.

Lemma follows_bind (c k : M C unit) p q :
  follows call c p -> follows call k q -> follows call (let! _ := c in k) (p ++ q).
Proof.
  intros Hc Hk s. rewrite for_each_prefix. unfold bind. rewrite Hc.
  by destruct (for_each _ p s) as [[] s'].
Qed.

Lemma follows_each {A} (body : A -> M C unit) (plan : A -> list (string * Declaration)) l :
  (forall a, follows call (body a) (plan a)) ->
  follows call (for_each body l) (flat_map plan l).
Proof.
  intros Hb. induction l as [|a l IH]; [by intros s|]. simpl. by apply follows_bind.
Qed.

End Plans.

(** The declarations with the text each error would carry. *)
Definition bindings_plan (t : QueueTopology) (key : string) : list (string * Declaration) :=
  [("bind queue " +:+ Topology_Queue t +:+ " to " +:+ key,
    QueueBind (Topology_Queue t) key DomainExchange);
   ("bind retry queue " +:+ Topology_RetryQueue t +:+ " to " +:+ key,
    QueueBind (Topology_RetryQueue t) key RetryExchange);
   ("bind dlq " +:+ Topology_DLQ t +:+ " to " +:+ key,
    QueueBind (Topology_DLQ t) key DLXExchange)].

Definition queue_plan (t : QueueTopology) : list (string * Declaration) :=
  [("declare queue " +:+ Topology_Queue t,
    QueueDeclare (Topology_Queue t) (Some DLXExchange) None);
   ("declare retry queue " +:+ Topology_RetryQueue t,
    QueueDeclare (Topology_RetryQueue t) (Some DomainExchange)
      (Some (wrap32 (Z.quot (Topology_RetryTTL t) millisecond))));
   ("declare dlq " +:+ Topology_DLQ t, QueueDeclare (Topology_DLQ t) None None)]
  ++ flat_map (bindings_plan t) (Topology_RoutingKeys t).

Definition topology_plan : list (string * Declaration) :=
  flat_map (fun x => [("declare exchange " +:+ x, ExchangeDeclare x "topic")])
    [DomainExchange; RetryExchange; DLXExchange]
  ++ flat_map queue_plan QueueTopologies.

Lemma declare_topology_plan {C} (call : Declaration -> M C unit) :
  follows call (DeclareTopology call) topology_plan.
Proof.
  apply follows_bind; apply follows_each; [intros x; apply follows_one|].
  intros t. apply (follows_bind call _ _ [_]); [apply follows_one|].
  apply (follows_bind call _ _ [_]); [apply follows_one|].
  apply (follows_bind call _ _ [_]); [apply follows_one|].
  apply follows_each. intros key.
  apply (follows_bind call _ _ [_]); [apply follows_one|].
  apply (follows_bind call _ _ [_]); apply follows_one.
Qed.

Lemma declared_plan : declared = map snd topology_plan.
Proof. vm_compute. reflexivity. Qed.

Lemma for_each_logs {C} (call : Declaration -> M C unit) (log : C -> list Declaration) :
  (forall d c, match call d c with
               | (Ok _, c') => log c' = log c ++ [d]
               | (Err _, c') => log c' = log c
               end) ->
  forall plan c,
    match for_each (fun p => declare call p.1 p.2) plan c with
    | (Ok _, c') => log c' = log c ++ map snd plan
    | (Err _, c') => exists issued refused rest,
        map snd plan = issued ++ refused :: rest /\ log c' = log c ++ issued
    end.
Proof.
  intros Hlog plan. induction plan as [|[text d] plan IH]; intros c; simpl.
  { by rewrite app_nil_r. }
  unfold bind at 1, declare at 1, annotate. specialize (Hlog d c). simpl.
  destruct (call d c) as [[u|e] c1]; simpl.
  - specialize (IH c1). destruct (for_each _ plan c1) as [[] c2].
    + by rewrite IH, Hlog, <- app_assoc.
    + destruct IH as (i & r & rest & E & L). exists (d :: i), r, rest.
      split; [simpl; by rewrite E|]. by rewrite L, Hlog, <- app_assoc.
  - exists [], d, (map snd plan). by rewrite app_nil_r.
Qed.

(** Case analysis over the catalogue of events. *)
Ltac each_event H :=
  unfold catalogue in H; rewrite ?elem_of_cons in H;
  destruct_or? H; try (by apply elem_of_nil in H); subst.

(** ** Properties *)

(** No event of the catalogue is unroutable: published on the domain
    exchange it reaches a work queue, sent to the retry exchange it reaches a
    retry queue with a positive TTL for each of its work queues, and rejected by
    any of its work queues it reaches that queue's dead-letter queue. *)
Theorem catalogue_routable ty :
  ty ∈ catalogue ->
  routes DomainExchange (RoutingKey ty) <> []
  /\ forall t, t ∈ QueueTopologies -> RoutingKey ty ∈ Topology_RoutingKeys t ->
       Topology_Queue t ∈ routes DomainExchange (RoutingKey ty)
       /\ Topology_RetryQueue t ∈ routes RetryExchange (RoutingKey ty)
       /\ ttl_of (Topology_RetryQueue t) = Some (Topology_RetryTTL t / millisecond)
       /\ Topology_Queue t ∈ dead_letter (Topology_RetryQueue t) (RoutingKey ty)
       /\ Topology_DLQ t ∈ dead_letter (Topology_Queue t) (RoutingKey ty).
Proof.
  set (ok := fun ty t =>
    implb (one_of ty (Topology_RoutingKeys t))
      (one_of (Topology_Queue t) (routes DomainExchange ty)
       && one_of (Topology_RetryQueue t) (routes RetryExchange ty)
       && bool_decide (ttl_of (Topology_RetryQueue t) = Some (Topology_RetryTTL t / millisecond))
       && one_of (Topology_Queue t) (dead_letter (Topology_RetryQueue t) ty)
       && one_of (Topology_DLQ t) (dead_letter (Topology_Queue t) ty))).
  assert (Hall : forallb (fun ty => negb (Nat.eqb (length (routes DomainExchange (RoutingKey ty))) 0)
                                    && forallb (ok (RoutingKey ty)) QueueTopologies) catalogue
                 = true) by (vm_compute; reflexivity).
  intros Hty. rewrite forallb_forall in Hall. apply list_elem_of_In in Hty.
  specialize (Hall _ Hty). apply andb_true_iff in Hall as [Hne Hq]. split.
  - intros E. by rewrite E in Hne.
  - intros t Ht Hk. rewrite forallb_forall in Hq. apply list_elem_of_In in Ht.
    specialize (Hq _ Ht). unfold ok in Hq. apply one_of_spec in Hk. rewrite Hk in Hq.
    simpl in Hq. rewrite !andb_true_iff, !one_of_spec, bool_decide_eq_true in Hq.
    destruct Hq as [[[[H1 H2] H3] H4] H5]. done.
Qed.

Lemma catalogue_routable_witness : routes DomainExchange (RoutingKey "payment.failed") <> [].
Proof.
  apply (catalogue_routable "payment.failed"). apply one_of_spec. reflexivity.
Defined.

(** A retry comes back to the queue that asked for it and to no other queue
    exactly when that event has one consumer; for the three failure events the
    retry of either consumer is duplicated: it is held in both retry queues and
    comes back twice to [orders.compensate] and twice to
    [notifications.email]. *)
Theorem retry_fan_out ty :
  ty ∈ catalogue ->
  redelivered ty
  = (if one_of ty ["inventory.rejected"; "payment.failed"; "shipment.failed"]
     then [OrdersCompensateQueue; NotificationsEmailQueue;
           OrdersCompensateQueue; NotificationsEmailQueue]
     else routes DomainExchange ty)
  /\ (one_of ty ["inventory.rejected"; "payment.failed"; "shipment.failed"] = false ->
      exists q, routes DomainExchange ty = [q]).
Proof.
  intros H. each_event H; (split; [vm_compute; reflexivity|]); intros Hf;
    try discriminate Hf; eexists; vm_compute; reflexivity.
Qed.

Lemma retry_fan_out_witness : length (redelivered "payment.failed") = 4%nat.
Proof.
  rewrite (proj1 (retry_fan_out "payment.failed" ltac:(apply one_of_spec; reflexivity))).
  reflexivity.
Defined.

(** Declaring the topology stops at the first refused declaration and
    reports it, with everything before it issued and nothing after it; after
    success every declaration was issued, in the order of the code, whatever
    client performs them. *)
Theorem declare_topology_complete {C} (call : Declaration -> M C unit)
    (log : C -> list Declaration) c :
  (forall d c, match call d c with
               | (Ok _, c') => log c' = log c ++ [d]
               | (Err _, c') => log c' = log c
               end) ->
  match DeclareTopology call c with
  | (Ok _, c') => log c' = log c ++ declared
  | (Err _, c') => exists issued refused rest,
      declared = issued ++ refused :: rest /\ log c' = log c ++ issued
  end.
Proof.
  intros Hlog. rewrite declare_topology_plan, declared_plan.
  pose proof (for_each_logs call log Hlog topology_plan c) as H.
  by destruct (for_each _ topology_plan c) as [[] c'].
Qed.

Lemma declare_topology_complete_witness :
  fst (DeclareTopology accept_all []) = Ok tt /\ declared = [] ++ declared.
Proof.
  pose proof (declare_topology_complete accept_all (fun ds => ds) [] (fun d ds => eq_refl)) as H.
  split; [vm_compute; reflexivity|]. exact H.
Defined.
