(* ===== verification/Amqp.v ===== *)
(** AMQP messages as the sources build and read them: headers, the published
    form of an event, the retry of a delivery, its decoding, and the wait for a
    publisher confirm ([internal/messaging/rabbitmq.go], [rabbitmq_consumer.go],
    [consumer.go]).

    The client library is a parameter where it performs I/O.  The JSON codec is
    the pair [marshal] and [unmarshal]; the only law asked of it is that the
    event at hand survives both. *)
From S2P Require Import Prelude GoStrings GoStringsFacts GoTime Model Topology.

(** The dynamic values of an [amqp.Table] the sources tell apart: the integer
    types that convert to [int] without loss, [uint64], strings, byte slices
    and the rest. *)
Inductive header : Type :=
| HInt (n : Z)
| HUint64 (n : Z)
| HStr (s : string)
| HBytes (s : string)
| HOther.

Notation Table := (gmap string header).

Record Delivery := mkDelivery {
  Delivery_Exchange : string;
  Delivery_RoutingKey : string;
  Delivery_ContentType : string;
  Delivery_MessageId : string;
  Delivery_CorrelationId : string;
  Delivery_Timestamp : Time;
  Delivery_Type : string;
  Delivery_Headers : Table;
  Delivery_Body : string
}.

(** [amqp.Publishing]; every one of the sources is persistent. *)
Record Publishing := mkPublishing {
  Publishing_ContentType : string;
  Publishing_MessageId : string;
  Publishing_CorrelationId : string;
  Publishing_Timestamp : Time;
  Publishing_Type : string;
  Publishing_Headers : Table;
  Publishing_Body : string
}.

(** What a broker hands to a consumer of a publishing. *)
Definition deliver (exchange key : string) (p : Publishing) : Delivery :=
  mkDelivery exchange key (Publishing_ContentType p) (Publishing_MessageId p)
    (Publishing_CorrelationId p) (Publishing_Timestamp p) (Publishing_Type p)
    (Publishing_Headers p) (Publishing_Body p).

(** ** Helpers of the sources *)

Fixpoint firstNonEmpty (values : list string) : string :=
  match values with
  | [] => ""
  | v :: rest => if String.eqb v "" then firstNonEmpty rest else v
  end.

Definition headerString (headers : Table) (key : string) : string :=
  match headers !! key with
  | Some (HStr s) | Some (HBytes s) => s
  | _ => ""
  end.

(** Copying a map gives the same map. *)
Definition cloneHeaders (headers : Table) : Table :=
  map_fold (fun key value clone => <[key := value]> clone) ∅ headers.

Definition retryAttempt (headers : Table) : Z :=
  match headers !! "fulfillhub_retry_attempt" with
  | Some (HInt n) => n
  | Some (HUint64 n) => wrap64 n
  | _ => 0
  end.

Section Codec.
Variable marshal : OutboxEvent -> result string.
Variable unmarshal : string -> result OutboxEvent.
(** [injectTraceHeaders]: what the tracing library writes into the table. *)
Variable inject : Table -> Table.

(** ** Publishing an event *)

Definition event_publishing (event : OutboxEvent) (body : string) (now : Time) : Publishing :=
  mkPublishing "application/json" (Event_MessageID event) (Event_CorrelationID event) now
    (Event_EventType event)
    (inject (<["causation_id" := HStr (Event_CausationID event)]>
             (<["merchant_id" := HStr (Event_MerchantID event)]>
              {["order_id" := HStr (Event_OrderID event)]})))
    body.

Section Publisher.
Context {B : Type}.
(** [PublishWithContext], mandatory, and the wait for its outcome. *)
Variable PublishWithContext : string -> string -> Publishing -> M B unit.
Variable waitForPublishOutcome : string -> M B unit.

Definition RabbitPublisher_Publish (now : Time) (event : OutboxEvent) : M B unit :=
  let event := WithEnvelopeDefaults event in
  match marshal event with
  | Err e => throw (Wrap "marshal event: " e "")
  | Ok body =>
      let! _ := PublishWithContext DomainExchange (RoutingKey (Event_EventType event))
                  (event_publishing event body now) in
      waitForPublishOutcome (Event_MessageID event)
  end.

(** ** Publishing a retry *)

Definition retry_key (delivery : Delivery) (event : OutboxEvent) : string :=
  if String.eqb (Delivery_RoutingKey delivery) "" then RoutingKey (Event_EventType event)
  else Delivery_RoutingKey delivery.

Definition retry_publishing (delivery : Delivery) (event : OutboxEvent) (attempt : Z) (now : Time)
    : Publishing :=
  let headers := cloneHeaders (Delivery_Headers delivery) in
  let headers := <["fulfillhub_retry_attempt" := HInt (wrap32 attempt)]> headers in
  let headers := <["causation_id" := HStr (firstNonEmpty [headerString headers "causation_id";
                                              Event_CausationID event; Event_MessageID event])]>
                 headers in
  mkPublishing (Delivery_ContentType delivery)
    (firstNonEmpty [Delivery_MessageId delivery; Event_MessageID event])
    (firstNonEmpty [Delivery_CorrelationId delivery; Event_CorrelationID event]) now
    (firstNonEmpty [Delivery_Type delivery; Event_EventType event]) headers
    (Delivery_Body delivery).

Definition PublishRetry (now : Time) (delivery : Delivery) (event : OutboxEvent) (n : Z)
    : M B unit :=
  let p := retry_publishing delivery event n now in
  let! _ := annotate "publish retry message: "
              (PublishWithContext RetryExchange (retry_key delivery event) p) in
  annotate "confirm retry message: " (waitForPublishOutcome (Publishing_MessageId p)).

End Publisher.

(** ** Decoding a delivery *)

(** [if field == "" { field = v }]. *)
Definition or_else (field v : string) : string := if String.eqb field "" then v else field.

Definition decodeDelivery (delivery : Delivery) : result OutboxEvent :=
  match unmarshal (Delivery_Body delivery) with
  | Err e => Err e
  | Ok event =>
      let messageID := or_else (Event_MessageID event) (Delivery_MessageId delivery) in
      let correlationID := or_else (Event_CorrelationID event) (Delivery_CorrelationId delivery) in
      let causationID :=
        or_else (Event_CausationID event)
          (firstNonEmpty [headerString (Delivery_Headers delivery) "causation_id";
                          Delivery_MessageId delivery; messageID]) in
      let eventType := or_else (Event_EventType event) (Delivery_Type delivery) in
      let schemaVersion := if Event_SchemaVersion event =? 0 then EventSchemaVersion
                           else Event_SchemaVersion event in
      if negb (schemaVersion =? EventSchemaVersion)
      then Err (Text ("unsupported event schema version " +:+ Itoa schemaVersion))
      else Ok (WithEnvelopeDefaults
                 (mkOutboxEvent messageID eventType schemaVersion (Event_OccurredAt event)
                    (Event_Producer event) (Event_MerchantID event) (Event_OrderID event)
                    correlationID causationID (Event_Payload event)))
  end.

(** ** Facts *)

Lemma clone_headers_id h : cloneHeaders h = h.
Proof.
  unfold cloneHeaders. apply (map_fold_weak_ind (fun r m => r = m)); [done|].
  intros i x m r _ ->. done.
Qed.

Lemma or_else_id f v : f <> "" -> or_else f v = f.
Proof. unfold or_else. intros H. by apply String.eqb_neq in H as ->. Qed.

Lemma or_else_same f : or_else f f = f.
Proof. unfold or_else. destruct (String.eqb_spec f ""); by subst. Qed.

Lemma first_non_empty_cons v l : v <> "" -> firstNonEmpty (v :: l) = v.
Proof. intros H. simpl. by apply String.eqb_neq in H as ->. Qed.

(** A retry keeps the fields a later decoding may fall back on. *)
Lemma or_else_retry f v : or_else f (firstNonEmpty [v; or_else f v]) = or_else f v.
Proof.
  unfold or_else. destruct (String.eqb_spec f ""); [subst|done]. simpl.
  destruct (String.eqb_spec v ""); [subst|done]. done.
Qed.

Lemma causation_retry own hdr id id' :
  let causation := or_else own (firstNonEmpty [hdr; id; id']) in
  let stored := if String.eqb causation "" then id' else causation in
  or_else own (firstNonEmpty [firstNonEmpty [hdr; stored; id']; firstNonEmpty [id; id']; id'])
  = causation.
Proof.
  unfold or_else, firstNonEmpty.
  destruct (String.eqb_spec own ""), (String.eqb_spec hdr ""), (String.eqb_spec id ""),
    (String.eqb_spec id' ""); subst; simpl; try done;
    repeat match goal with H : ?x <> "" |- _ => apply String.eqb_neq in H; rewrite ?H end; done.
Qed.

Lemma retry_causation_header delivery event n now :
  headerString (Publishing_Headers (retry_publishing delivery event n now)) "causation_id"
  = firstNonEmpty [headerString (Delivery_Headers delivery) "causation_id";
                   Event_CausationID event; Event_MessageID event].
Proof.
  unfold retry_publishing, headerString at 1. cbn [Publishing_Headers].
  rewrite lookup_insert_eq. unfold headerString. by rewrite lookup_insert_ne, clone_headers_id.
Qed.

(** ** Properties *)

(** What the publisher sends is what the consumer decodes: an event with a
    message id and the current schema version, published on the domain exchange
    and delivered from any queue, decodes to itself with its envelope defaults
    filled in, as long as the JSON codec gives the event back. *)
Theorem publish_decode_roundtrip event body now queue_key :
  Event_MessageID event <> "" ->
  Event_SchemaVersion event = 0 \/ Event_SchemaVersion event = EventSchemaVersion ->
  marshal (WithEnvelopeDefaults event) = Ok body ->
  unmarshal body = Ok (WithEnvelopeDefaults event) ->
  decodeDelivery (deliver DomainExchange queue_key
                    (event_publishing (WithEnvelopeDefaults event) body now))
  = Ok (WithEnvelopeDefaults event).
Proof.
  intros Hid Hv _ Hun. unfold decodeDelivery. simpl. rewrite Hun.
  set (e := WithEnvelopeDefaults event) in *.
  destruct (envelope_fields event) as (HM & _ & _ & _ & _ & _ & HC & HS & _ & _).
  fold e in HM, HC, HS.
  assert (Hs : (Event_SchemaVersion e =? 0) = false /\ Event_SchemaVersion e = EventSchemaVersion).
  { rewrite HS. unfold EventSchemaVersion in *. destruct Hv as [-> | ->]; done. }
  destruct Hs as [-> Hs]. rewrite Hs. simpl.
  rewrite (or_else_id (Event_MessageID e)) by congruence.
  rewrite (or_else_id (Event_CausationID e)), !or_else_same.
  - rewrite <- Hs at 1. f_equal. transitivity (WithEnvelopeDefaults e).
    + f_equal. by destruct e.
    + apply envelope_normalized.
  - rewrite HC. destruct (String.eqb_spec (Event_CausationID event) ""); done.
Qed.

(** A retry carries the same event: decoding the republished delivery gives
    the event the first delivery gave, message id included, so the inbox
    recognises it. *)
Theorem retry_keeps_event delivery event n now exchange key :
  decodeDelivery delivery = Ok event ->
  decodeDelivery (deliver exchange key (retry_publishing delivery event n now)) = Ok event.
Proof.
  unfold decodeDelivery, deliver.
  cbn [Delivery_Body Delivery_MessageId Delivery_CorrelationId Delivery_Type Delivery_Headers].
  rewrite retry_causation_header. unfold retry_publishing.
  cbn [Publishing_Body Publishing_MessageId Publishing_CorrelationId Publishing_Type].
  destruct (unmarshal (Delivery_Body delivery)) as [e0|]; [|done].
  destruct (negb _); [done|]. intros [= <-]. do 2 f_equal.
  match goal with |- context [WithEnvelopeDefaults ?e] =>
    destruct (envelope_fields e) as (HM & HT & _ & _ & _ & HC & HCa & _) end.
  rewrite HM, HT, HC, HCa.
  cbn [Event_MessageID Event_EventType Event_CorrelationID Event_CausationID].
  rewrite !or_else_retry. f_equal. apply causation_retry.
Qed.

(** The retry counter goes up by one as long as it fits the [int32] header. *)
Lemma retry_attempt_next delivery event n now :
  - 2 ^ 31 <= n < 2 ^ 31 ->
  retryAttempt (Publishing_Headers (retry_publishing delivery event n now)) = n.
Proof.
  intros Hn. unfold retryAttempt, retry_publishing. cbn [Publishing_Headers].
  rewrite lookup_insert_ne, lookup_insert_eq by done. unfold wrap32. rewrite Z.mod_small; lia.
Qed.

End Codec.

Definition sample_event : OutboxEvent :=
  mkOutboxEvent "msg_1" "order.created" 1 0 "" "mer_1" "ord_1" "corr-1" "" ∅.

Lemma publish_decode_roundtrip_witness :
  decodeDelivery (fun _ => Ok (WithEnvelopeDefaults sample_event))
    (deliver DomainExchange "order.created"
       (event_publishing (fun h => h) (WithEnvelopeDefaults sample_event) "{}" 0))
  = Ok (WithEnvelopeDefaults sample_event).
Proof.
  apply (publish_decode_roundtrip (fun _ => Ok "{}") (fun _ => Ok (WithEnvelopeDefaults sample_event))
           (fun h => h) sample_event "{}" 0 "order.created");
    [discriminate|by right|reflexivity|reflexivity].
Defined.

Definition sample_delivery : Delivery :=
  mkDelivery DomainExchange "order.created" "application/json" "msg_1" "corr-1" 0 "order.created"
    ∅ "{}".

Lemma retry_keeps_event_witness :
  decodeDelivery (fun _ => Ok sample_event)
    (deliver RetryExchange "order.created"
       (retry_publishing sample_delivery (WithEnvelopeDefaults sample_event) 1 0))
  = Ok (WithEnvelopeDefaults sample_event).
Proof.
  apply (retry_keeps_event (fun _ => Ok sample_event) sample_delivery
           (WithEnvelopeDefaults sample_event) 1 0 RetryExchange "order.created").
  vm_compute. reflexivity.
Defined.

(** ** Waiting for the outcome of a publish

    [waitForAMQPPublishOutcome] selects among three channels.  Go picks any
    ready one, so one wait is a relation between what the channels hold (what
    has arrived or will arrive), its result, and what is left in them. *)

Record Confirmation := mkConfirmation {
  Confirmation_DeliveryTag : Z;
  Confirmation_Ack : bool
}.

Record Return := mkReturn {
  Return_MessageId : string;
  Return_ReplyText : string
}.

Record Channels := mkChannels {
  ch_returns : list Return;
  ch_returns_closed : bool;
  ch_confirms : list Confirmation;
  ch_confirms_closed : bool;
  (** [ctx.Err()] once the context is done *)
  ch_done : option error
}.

Inductive waitForAMQPPublishOutcome (messageID : string)
    : Channels -> option error -> Channels -> Prop :=
| wait_return_closed confirms cc ctx :
    waitForAMQPPublishOutcome messageID (mkChannels [] true confirms cc ctx)
      (Some (Text "rabbitmq return channel closed")) (mkChannels [] true confirms cc ctx)
| wait_returned r rs rc confirms cc ctx :
    Return_MessageId r = messageID ->
    waitForAMQPPublishOutcome messageID (mkChannels (r :: rs) rc confirms cc ctx)
      (Some (Text ("rabbitmq message " +:+ messageID +:+ " was returned as unroutable: "
                   +:+ Return_ReplyText r)))
      (mkChannels rs rc confirms cc ctx)
| wait_other_return r rs rc confirms cc ctx err ch' :
    Return_MessageId r <> messageID ->
    waitForAMQPPublishOutcome messageID (mkChannels rs rc confirms cc ctx) err ch' ->
    waitForAMQPPublishOutcome messageID (mkChannels (r :: rs) rc confirms cc ctx) err ch'
| wait_confirm_closed returns rc ctx :
    waitForAMQPPublishOutcome messageID (mkChannels returns rc [] true ctx)
      (Some (Text "rabbitmq confirm channel closed")) (mkChannels returns rc [] true ctx)
| wait_nacked c cs returns rc cc ctx :
    Confirmation_Ack c = false ->
    waitForAMQPPublishOutcome messageID (mkChannels returns rc (c :: cs) cc ctx)
      (Some (Text ("rabbitmq negatively acknowledged message " +:+ messageID)))
      (mkChannels returns rc cs cc ctx)
| wait_acked c cs returns rc cc ctx :
    Confirmation_Ack c = true ->
    waitForAMQPPublishOutcome messageID (mkChannels returns rc (c :: cs) cc ctx) None
      (mkChannels returns rc cs cc ctx)
| wait_done returns rc confirms cc e :
    waitForAMQPPublishOutcome messageID (mkChannels returns rc confirms cc (Some e))
      (Some (Wrap "wait for rabbitmq publish confirmation: " e ""))
      (mkChannels returns rc confirms cc (Some e)).

(** A publish is reported as confirmed only after one positive confirm of
    the channel was consumed; a failure consumes at most one confirm, which was
    then negative. *)
Theorem publish_confirmed_by_ack messageID ch err ch' :
  waitForAMQPPublishOutcome messageID ch err ch' ->
  match err with
  | None => exists c, Confirmation_Ack c = true /\ ch_confirms ch = c :: ch_confirms ch'
  | Some _ => ch_confirms ch' = ch_confirms ch
              \/ exists c, Confirmation_Ack c = false /\ ch_confirms ch = c :: ch_confirms ch'
  end.
Proof. induction 1; simpl in *; eauto. Qed.

Lemma publish_confirmed_by_ack_witness :
  exists c, Confirmation_Ack c = true /\ [mkConfirmation 1 true] = c :: [].
Proof.
  apply (publish_confirmed_by_ack "msg_1" (mkChannels [] false [mkConfirmation 1 true] false None)
           None (mkChannels [] false [] false None)).
  by apply wait_acked.
Defined.

(** The wait may report success for a message the broker returned as
    unroutable: when the return and the confirm that follows it are both ready,
    taking the confirm first ends the wait without an error.  And the confirm is
    not matched with the message: one that a cancelled wait left behind confirms
    the next message. *)
Theorem unroutable_may_pass_as_confirmed messageID next text e :
  (exists ch', waitForAMQPPublishOutcome messageID
      (mkChannels [mkReturn messageID text] false [mkConfirmation 1 true] false None) None ch')
  /\ exists ch1 ch2,
       waitForAMQPPublishOutcome messageID
         (mkChannels [] false [mkConfirmation 1 true] false (Some e))
         (Some (Wrap "wait for rabbitmq publish confirmation: " e "")) ch1
       /\ waitForAMQPPublishOutcome next
            (mkChannels (ch_returns ch1) false (ch_confirms ch1) false None) None ch2
       /\ ch_confirms ch2 = [].
Proof.
  split; [eexists; by apply wait_acked|].
  eexists _, _. split_and!; [apply wait_done|by apply wait_acked|done].
Qed.
