(* ===== verification/Consumer.v ===== *)
(** The queue consumer and its inboxes, [internal/messaging/consumer.go] and
    [inbox.go].

    The world holds the inbox, the state behind the handler, the broker as the
    client sees it, and a log of the calls made on them in order: the log adds
    nothing to the behaviour and is what the theorems speak about. *)
From S2P Require Import Prelude GoStrings GoTime Model Topology Amqp.

(** ** Inboxes *)

(** An inbox, and its [Release] when it is a [ReleasableInbox]. *)
Record Inbox (I : Type) := mkInbox {
  Inbox_Record : string -> OutboxEvent -> M I bool;
  Inbox_Release : option (string -> OutboxEvent -> M I unit)
}.

Arguments mkInbox {I}.
Arguments Inbox_Record {I}.
Arguments Inbox_Release {I}.

(** [MemoryInbox]: the set of keys seen. *)
Definition MemoryInbox : Type := gset string.

Definition NewMemoryInbox : MemoryInbox := ∅.

Definition inbox_key (consumerName : string) (event : OutboxEvent) : string :=
  consumerName +:+ ":" +:+ Event_MessageID event.

Definition MemoryInbox_Record (consumerName : string) (event : OutboxEvent)
    : M MemoryInbox bool :=
  fun i => let key := inbox_key consumerName event in
           if bool_decide (key ∈ i) then (Ok false, i) else (Ok true, {[key]} ∪ i).

Definition MemoryInbox_Release (consumerName : string) (event : OutboxEvent)
    : M MemoryInbox unit :=
  modify (fun i => i ∖ {[inbox_key consumerName event]}).

Definition memory_inbox : Inbox MemoryInbox :=
  mkInbox MemoryInbox_Record (Some MemoryInbox_Release).

(** [PersistentInbox] over a recorder, nil or not, that may also be an
    [InboxReleaseRecorder]. *)
Definition persistent_inbox {I}
    (recorder : option ((string -> OutboxEvent -> M I bool)
                        * option (string -> OutboxEvent -> M I unit))) : Inbox I :=
  mkInbox
    (fun name event => match recorder with
                       | None => throw (Text "persistent inbox recorder is required")
                       | Some (record, _) => record name event
                       end)
    (Some (fun name event =>
       match recorder with
       | Some (_, Some release) => release name event
       | _ => throw (Text "persistent inbox recorder does not support release")
       end)).

(** ** The world of a consumer *)

Inductive Action : Type :=
| DidRecord (key : string) (messageID : string)
| DidHandle (event : OutboxEvent)
| DidRelease (messageID : string)
| DidRetry (n : Z)
| DidAck
| DidNack.

Record World (I H B : Type) := mkWorld {
  w_inbox : I;
  w_app : H;
  w_broker : B;
  w_log : list Action
}.

Arguments mkWorld {I H B}.
Arguments w_inbox {I H B}.
Arguments w_app {I H B}.
Arguments w_broker {I H B}.
Arguments w_log {I H B}.

Record Consumer (I H B : Type) := mkConsumer {
  Consumer_Queue : string;
  Consumer_ConsumerName : string;
  Consumer_Inbox : option (Inbox I);
  Consumer_Handler : option (OutboxEvent -> M H unit);
  Consumer_Retry : option (Delivery -> OutboxEvent -> Z -> M B unit);
  Consumer_MaxRetries : Z
}.

Arguments mkConsumer {I H B}.
Arguments Consumer_Queue {I H B}.
Arguments Consumer_ConsumerName {I H B}.
Arguments Consumer_Inbox {I H B}.
Arguments Consumer_Handler {I H B}.
Arguments Consumer_Retry {I H B}.
Arguments Consumer_MaxRetries {I H B}.

Section Consumer.
Context {I H B : Type}.
Variable unmarshal : string -> result OutboxEvent.
(** [delivery.Ack(false)] and [delivery.Nack(false, false)]. *)
Variables Ack Nack : Delivery -> M B unit.

Definition in_inbox {A} (a : Action) (c : M I A) : M (World I H B) A :=
  fun w => let (r, i) := c (w_inbox w) in
           (r, mkWorld i (w_app w) (w_broker w) (w_log w ++ [a])).

Definition in_app {A} (a : Action) (c : M H A) : M (World I H B) A :=
  fun w => let (r, h) := c (w_app w) in
           (r, mkWorld (w_inbox w) h (w_broker w) (w_log w ++ [a])).

Definition in_broker {A} (a : Action) (c : M B A) : M (World I H B) A :=
  fun w => let (r, b) := c (w_broker w) in
           (r, mkWorld (w_inbox w) (w_app w) b (w_log w ++ [a])).

Definition ackDelivery (d : Delivery) : M (World I H B) unit :=
  annotate "ack delivery: " (in_broker DidAck (Ack d)).

Definition nackDelivery (d : Delivery) : M (World I H B) unit :=
  annotate "nack delivery: " (in_broker DidNack (Nack d)).

(** [return errors.Join(errs..., c)]. *)
Definition join_after (errs : list error) (c : M (World I H B) unit) : M (World I H B) unit :=
  let! r := attempt c in
  throw (Join (errs ++ match r with Err e => [e] | Ok _ => [] end)).

Definition Consumer_validate (c : Consumer I H B) : option error :=
  match Consumer_Inbox c with
  | None => Some (Text "consumer inbox is required")
  | Some _ => match Consumer_Handler c with
              | None => Some (Text "consumer handler is required")
              | Some _ => None
              end
  end.

Definition consumerName (c : Consumer I H B) : string :=
  if negb (String.eqb (Consumer_ConsumerName c) "") then Consumer_ConsumerName c
  else Consumer_Queue c.

Definition maxRetries (c : Consumer I H B) : Z :=
  if 0 <? Consumer_MaxRetries c then Consumer_MaxRetries c else defaultMaxRetryAttempts.

Definition shouldRetry (c : Consumer I H B) (d : Delivery) : bool :=
  match Consumer_Retry c with
  | None => false
  | Some _ => retryAttempt (Delivery_Headers d) <? maxRetries c
  end.

Definition releaseInbox (inbox : Inbox I) (name : string) (event : OutboxEvent)
    : M (World I H B) unit :=
  match Inbox_Release inbox with
  | None => ret tt
  | Some release =>
      annotate "release inbox message: "
        (in_inbox (DidRelease (Event_MessageID event)) (release name event))
  end.

(** The branch of [ProcessDelivery] after a failed handler. *)
Definition handle_failed (c : Consumer I H B) (inbox : Inbox I) (d : Delivery)
    (event : OutboxEvent) (e : error) : M (World I H B) unit :=
  let herr := Wrap "handle delivery: " e "" in
  let! released := attempt (releaseInbox inbox (consumerName c) event) in
  match released with
  | Err releaseErr => join_after [herr; releaseErr] (nackDelivery d)
  | Ok _ =>
      match Consumer_Retry c with
      | Some publish_retry =>
          if shouldRetry c d then
            let n := wrap64 (retryAttempt (Delivery_Headers d) + 1) in
            let! retried := attempt (in_broker (DidRetry n) (publish_retry d event n)) in
            match retried with
            | Err retryErr =>
                join_after [herr; Wrap "publish retry: " retryErr ""] (nackDelivery d)
            | Ok _ => join_after [herr] (ackDelivery d)
            end
          else join_after [herr] (nackDelivery d)
      | None => join_after [herr] (nackDelivery d)
      end
  end.

Definition ProcessDelivery (c : Consumer I H B) (d : Delivery) : M (World I H B) unit :=
  match Consumer_Inbox c, Consumer_Handler c with
  | Some inbox, Some handler =>
      match decodeDelivery unmarshal d with
      | Err e => join_after [Wrap "decode delivery: " e ""] (nackDelivery d)
      | Ok event =>
          let name := consumerName c in
          let! recorded := attempt (in_inbox (DidRecord (inbox_key name event)
                                                (Event_MessageID event))
                                      (Inbox_Record inbox name event)) in
          match recorded with
          | Err e => join_after [Wrap "record inbox message: " e ""] (nackDelivery d)
          | Ok recorded =>
              if negb recorded then ackDelivery d else
              let! handled := attempt (in_app (DidHandle event) (handler event)) in
              match handled with
              | Err e => handle_failed c inbox d event e
              | Ok _ => ackDelivery d
              end
          end
      end
  | _, _ => require (Consumer_validate c)
  end.

(** ** Facts *)

Definition settles (a : Action) : bool :=
  match a with DidAck | DidNack => true | _ => false end.

(** The calls after a failed handler: the release if the inbox has one, then a
    retry within the bound or none, then the settlement. *)
Definition failed_tail (c : Consumer I H B) (d : Delivery) (event : OutboxEvent)
    (acts : list Action) : Prop :=
  exists release retry last,
    acts = release ++ retry ++ [last]
    /\ (release = [] \/ release = [DidRelease (Event_MessageID event)])
    /\ ((retry = [] /\ last = DidNack)
        \/ (exists n, retry = [DidRetry n] /\ n = wrap64 (retryAttempt (Delivery_Headers d) + 1)
                      /\ retryAttempt (Delivery_Headers d) < maxRetries c
                      /\ settles last = true)).

(** The calls one delivery may cause, in order; the last one settles it. *)
Inductive delivery_log (c : Consumer I H B) (d : Delivery) : list Action -> Prop :=
| log_undecodable : delivery_log c d [DidNack]
| log_unrecorded event : delivery_log c d
    [DidRecord (inbox_key (consumerName c) event) (Event_MessageID event); DidNack]
| log_duplicate event : delivery_log c d
    [DidRecord (inbox_key (consumerName c) event) (Event_MessageID event); DidAck]
| log_handled event : delivery_log c d
    [DidRecord (inbox_key (consumerName c) event) (Event_MessageID event);
     DidHandle event; DidAck]
| log_failed event tail :
    failed_tail c d event tail ->
    delivery_log c d
      ([DidRecord (inbox_key (consumerName c) event) (Event_MessageID event); DidHandle event]
       ++ tail).

Lemma in_inbox_log {A} a (m : M I A) w : w_log (snd (in_inbox a m w)) = w_log w ++ [a].
Proof. unfold in_inbox. by destruct (m (w_inbox w)). Qed.

Lemma in_app_log {A} a (m : M H A) w : w_log (snd (in_app a m w)) = w_log w ++ [a].
Proof. unfold in_app. by destruct (m (w_app w)). Qed.

Lemma in_broker_log {A} a (m : M B A) w : w_log (snd (in_broker a m w)) = w_log w ++ [a].
Proof. unfold in_broker. by destruct (m (w_broker w)). Qed.

Lemma annotate_state {S A} pre (m : M S A) s : snd (annotate pre m s) = snd (m s).
Proof. unfold annotate. by destruct (m s) as [[] ?]. Qed.

Lemma ack_log d w : w_log (snd (ackDelivery d w)) = w_log w ++ [DidAck].
Proof. unfold ackDelivery. by rewrite annotate_state, in_broker_log. Qed.

Lemma nack_log d w : w_log (snd (nackDelivery d w)) = w_log w ++ [DidNack].
Proof. unfold nackDelivery. by rewrite annotate_state, in_broker_log. Qed.

Lemma join_after_log errs m w : w_log (snd (join_after errs m w)) = w_log (snd (m w)).
Proof. unfold join_after, bind, attempt. by destruct (m w). Qed.

Lemma attempt_run {S A} (m : M S A) s : attempt m s = (Ok (fst (m s)), snd (m s)).
Proof. unfold attempt. by destruct (m s). Qed.

Lemma release_log inbox name event w :
  exists release, w_log (snd (releaseInbox inbox name event w)) = w_log w ++ release
    /\ (release = [] \/ release = [DidRelease (Event_MessageID event)]).
Proof.
  unfold releaseInbox. destruct (Inbox_Release inbox) as [release|].
  - eexists. rewrite annotate_state, in_inbox_log. eauto.
  - exists []. rewrite app_nil_r. eauto.
Qed.

Lemma handle_failed_log c inbox d event e w :
  exists tail, w_log (snd (handle_failed c inbox d event e w)) = w_log w ++ tail
               /\ failed_tail c d event tail.
Proof.
  unfold handle_failed. unfold bind at 1. rewrite attempt_run.
  destruct (release_log inbox (consumerName c) event w) as (release & Hlog & Hrel).
  destruct (releaseInbox inbox (consumerName c) event w) as [r w1]. simpl in Hlog |- *.
  assert (Hnack : forall errs, exists tail,
    w_log (snd (join_after errs (nackDelivery d) w1)) = w_log w ++ tail
    /\ failed_tail c d event tail).
  { intros errs. eexists. rewrite join_after_log, nack_log, Hlog, <- app_assoc. split; [done|].
    exists release, [], DidNack. eauto. }
  destruct r as [u|re]; [|apply Hnack].
  destruct (Consumer_Retry c) as [publish|] eqn:Hr; [|apply Hnack].
  destruct (shouldRetry c d) eqn:Hs; [|apply Hnack].
  unfold shouldRetry in Hs. rewrite Hr in Hs. apply Z.ltb_lt in Hs.
  unfold bind. rewrite attempt_run.
  set (n := wrap64 (retryAttempt (Delivery_Headers d) + 1)).
  pose proof (in_broker_log (DidRetry n) (publish d event n) w1) as Hb.
  destruct (in_broker (DidRetry n) (publish d event n) w1) as [[u2|e2] w2]; simpl in Hb |- *;
    eexists; rewrite join_after_log, ?ack_log, ?nack_log, Hb, Hlog, <- !app_assoc;
    (split; [done|]); eexists release, [DidRetry n], _; eauto 10.
Qed.

Lemma process_log c d w :
  Consumer_validate c = None ->
  exists acts, w_log (snd (ProcessDelivery c d w)) = w_log w ++ acts /\ delivery_log c d acts.
Proof.
  intros Hv. unfold ProcessDelivery, Consumer_validate in *.
  destruct (Consumer_Inbox c) as [inbox|]; [|done].
  destruct (Consumer_Handler c) as [handler|]; [|done].
  destruct (decodeDelivery unmarshal d) as [event|e].
  2:{ eexists. rewrite join_after_log, nack_log. split; [done|constructor]. }
  unfold bind at 1. rewrite attempt_run.
  pose proof (in_inbox_log (DidRecord (inbox_key (consumerName c) event) (Event_MessageID event))
                (Inbox_Record inbox (consumerName c) event) w) as Hi.
  destruct (in_inbox _ _ w) as [[[]|e] w1]; simpl in Hi |- *.
  - unfold bind at 1. rewrite attempt_run.
    pose proof (in_app_log (DidHandle event) (handler event) w1) as Ha.
    destruct (in_app _ _ w1) as [[u|e] w2]; simpl in Ha |- *.
    + eexists. rewrite ack_log, Ha, Hi, <- !app_assoc. split; [done|]. apply log_handled.
    + destruct (handle_failed_log c inbox d event e w2) as (tail & Hl & Ht).
      eexists. rewrite Hl, Ha, Hi, <- !app_assoc. split; [done|]. by apply log_failed.
  - eexists. rewrite ack_log, Hi, <- !app_assoc. split; [done|]. apply log_duplicate.
  - eexists. rewrite join_after_log, nack_log, Hi, <- !app_assoc. split; [done|].
    apply log_unrecorded.
Qed.

End Consumer.

(** ** With the in-memory inbox *)

Section Deduplication.
Context {H B : Type}.
Variable unmarshal : string -> result OutboxEvent.
Variables Ack Nack : Delivery -> M B unit.

Notation process := (@ProcessDelivery MemoryInbox H B unmarshal Ack Nack).

Lemma ack_inbox {I} d (w : World I H B) : w_inbox (snd (ackDelivery Ack d w)) = w_inbox w.
Proof.
  unfold ackDelivery. rewrite annotate_state. unfold in_broker. by destruct (Ack d (w_broker w)).
Qed.

Lemma ack_app {I} d (w : World I H B) : w_app (snd (ackDelivery Ack d w)) = w_app w.
Proof.
  unfold ackDelivery. rewrite annotate_state. unfold in_broker. by destruct (Ack d (w_broker w)).
Qed.

Lemma nack_inbox {I} d (w : World I H B) errs :
  w_inbox (snd (join_after errs (nackDelivery Nack d) w)) = w_inbox w.
Proof.
  unfold join_after, bind. rewrite attempt_run. simpl. unfold nackDelivery.
  rewrite annotate_state. unfold in_broker. by destruct (Nack d (w_broker w)).
Qed.

Lemma join_ack_inbox {I} d (w : World I H B) errs :
  w_inbox (snd (join_after errs (ackDelivery Ack d) w)) = w_inbox w.
Proof. unfold join_after, bind. rewrite attempt_run. simpl. apply ack_inbox. Qed.

(** A failed handler gives the key back. *)
Lemma handle_failed_inbox c d event e (w : World MemoryInbox H B) :
  w_inbox (snd (handle_failed Ack Nack c memory_inbox d event e w))
  = w_inbox w ∖ {[inbox_key (consumerName c) event]}.
Proof.
  unfold handle_failed, bind at 1. rewrite attempt_run. cbn -[join_after nackDelivery].
  set (w1 := mkWorld _ _ _ _).
  assert (Hn : forall errs, w_inbox (snd (join_after errs (nackDelivery Nack d) w1))
               = w_inbox w ∖ {[inbox_key (consumerName c) event]})
    by (intros; apply nack_inbox).
  destruct (Consumer_Retry c) as [publish|]; [|apply Hn].
  destruct (shouldRetry c d); [|apply Hn].
  unfold bind. rewrite attempt_run.
  set (n := wrap64 _). unfold in_broker.
  destruct (publish d event n (w_broker w1)) as [[u|e'] b]; cbn -[join_after nackDelivery ackDelivery].
  - by rewrite join_ack_inbox.
  - by rewrite nack_inbox.
Qed.

(** What one delivery leaves in the inbox. *)
Lemma process_inbox c d handler (w : World MemoryInbox H B) :
  Consumer_Inbox c = Some memory_inbox -> Consumer_Handler c = Some handler ->
  w_inbox (snd (process c d w))
  = match decodeDelivery unmarshal d with
    | Err _ => w_inbox w
    | Ok event =>
        let key := inbox_key (consumerName c) event in
        if bool_decide (key ∈ w_inbox w) then w_inbox w
        else if is_ok (fst (handler event (w_app w))) then {[key]} ∪ w_inbox w else w_inbox w
    end.
Proof.
  intros Hi Hh. unfold ProcessDelivery. rewrite Hi, Hh.
  destruct (decodeDelivery unmarshal d) as [event|e]; [|apply nack_inbox].
  set (key := inbox_key (consumerName c) event). cbn [Inbox_Record memory_inbox].
  unfold bind at 1. rewrite attempt_run. unfold in_inbox, MemoryInbox_Record. fold key.
  destruct (bool_decide (key ∈ w_inbox w)) eqn:Hk; cbn [fst snd negb].
  { by rewrite ack_inbox. }
  unfold bind. rewrite attempt_run. unfold in_app. cbn [w_app w_inbox w_broker w_log].
  destruct (handler event (w_app w)) as [[u|e] h]; cbn [fst snd is_ok].
  - by rewrite ack_inbox.
  - rewrite handle_failed_inbox. cbn [w_inbox]. fold key.
    apply bool_decide_eq_false in Hk. set_solver.
Qed.

(** A message whose key is in the inbox is acknowledged and not handled. *)
Lemma process_duplicate c d handler event (w : World MemoryInbox H B) :
  Consumer_Inbox c = Some memory_inbox -> Consumer_Handler c = Some handler ->
  decodeDelivery unmarshal d = Ok event -> inbox_key (consumerName c) event ∈ w_inbox w ->
  w_app (snd (process c d w)) = w_app w
  /\ w_log (snd (process c d w))
     = w_log w ++ [DidRecord (inbox_key (consumerName c) event) (Event_MessageID event); DidAck].
Proof.
  intros Hi Hh Hd Hk. unfold ProcessDelivery. rewrite Hi, Hh, Hd.
  unfold bind. rewrite attempt_run. unfold in_inbox. cbn [Inbox_Record memory_inbox].
  unfold MemoryInbox_Record. rewrite bool_decide_eq_true_2 by done. cbn [fst snd negb].
  split; [by rewrite ack_app|]. rewrite ack_log. cbn [w_log]. by rewrite <- app_assoc.
Qed.

(** Deliveries one after the other, of any consumers that share the inbox. *)
Definition process_all (calls : list (Consumer MemoryInbox H B * Delivery))
    (w : World MemoryInbox H B) : World MemoryInbox H B :=
  fold_left (fun w '(c, d) => snd (process c d w)) calls w.

Definition ready (c : Consumer MemoryInbox H B) : Prop :=
  Consumer_Inbox c = Some memory_inbox /\ exists handler, Consumer_Handler c = Some handler.

Lemma process_all_keeps key calls w :
  Forall (fun call => ready call.1) calls -> key ∈ w_inbox w -> key ∈ w_inbox (process_all calls w).
Proof.
  intros Hf. revert w. induction Hf as [|[c d] calls [Hi [handler Hh]] _ IH]; intros w Hk; [done|].
  simpl. apply IH. simpl in Hi, Hh. rewrite (process_inbox c d handler) by done.
  destruct (decodeDelivery unmarshal d) as [event|]; [cbv zeta|done].
  destruct (bool_decide _); [done|]. destruct (is_ok _); set_solver.
Qed.

(** ** Properties *)

(** C14: a message is handled successfully at most once per consumer: once a
    delivery of it was handled, every later delivery with the same message id is
    acknowledged without calling the handler and without any effect behind it,
    whatever other deliveries, to any consumers that share the inbox, came in
    between. *)
Theorem handled_at_most_once c d d2 handler event event2 calls (w : World MemoryInbox H B) :
  Consumer_Inbox c = Some memory_inbox -> Consumer_Handler c = Some handler ->
  decodeDelivery unmarshal d = Ok event -> inbox_key (consumerName c) event ∉ w_inbox w ->
  is_ok (fst (handler event (w_app w))) = true ->
  Forall (fun call => ready call.1) calls ->
  decodeDelivery unmarshal d2 = Ok event2 -> Event_MessageID event2 = Event_MessageID event ->
  let w2 := process_all calls (snd (process c d w)) in
  w_app (snd (process c d2 w2)) = w_app w2
  /\ w_log (snd (process c d2 w2))
     = w_log w2 ++ [DidRecord (inbox_key (consumerName c) event) (Event_MessageID event); DidAck].
Proof.
  intros Hi Hh Hd Hk Hok Hf Hd2 Hid w2.
  assert (Hkey : inbox_key (consumerName c) event2 = inbox_key (consumerName c) event)
    by (unfold inbox_key; by rewrite Hid).
  rewrite <- Hkey, <- Hid. apply (process_duplicate c d2 handler event2); [done..|].
  apply process_all_keeps; [done|]. rewrite (process_inbox c d handler) by done.
  rewrite Hd, Hkey. cbv zeta. rewrite bool_decide_eq_false_2, Hok by done. set_solver.
Qed.

(** A failed message stays eligible: when the handler reports an error the
    inbox is exactly as before the delivery, so the next delivery of the same
    message is handled again; success adds exactly its key; anything else adds
    nothing. *)
Theorem inbox_records_successes_only c d handler (w : World MemoryInbox H B) :
  Consumer_Inbox c = Some memory_inbox -> Consumer_Handler c = Some handler ->
  w_inbox (snd (process c d w))
  = match decodeDelivery unmarshal d with
    | Err _ => w_inbox w
    | Ok event =>
        let key := inbox_key (consumerName c) event in
        if bool_decide (key ∈ w_inbox w) then w_inbox w
        else if is_ok (fst (handler event (w_app w))) then {[key]} ∪ w_inbox w else w_inbox w
    end.
Proof. apply process_inbox. Qed.

End Deduplication.

Section Settlement.
Context {I H B : Type}.
Variable unmarshal : string -> result OutboxEvent.
Variables Ack Nack : Delivery -> M B unit.

(** The last call, and no other, settles the delivery; a retry stays within the
    bound. *)
Lemma delivery_log_last (c : Consumer I H B) d all :
  delivery_log c d all ->
  exists acts last, all = acts ++ [last] /\ settles last = true
    /\ Forall (fun a => settles a = false) acts
    /\ forall n, DidRetry n ∈ acts ->
        n = wrap64 (retryAttempt (Delivery_Headers d) + 1)
        /\ retryAttempt (Delivery_Headers d) < maxRetries c.
Proof using Type.
  clear Ack Nack unmarshal. intros Hd. destruct Hd as [|ev|ev|ev|ev tail (rel & rt & last & -> & Hrel & Hrt)].
  - exists [], DidNack. split_and!; [done..|constructor|]. by intros ? []%elem_of_nil.
  - eexists [_], DidNack. split_and!; [done..|by repeat constructor|]. set_solver.
  - eexists [_], DidAck. split_and!; [done..|by repeat constructor|]. set_solver.
  - eexists [_; _], DidAck. split_and!; [done..|by repeat constructor|]. set_solver.
  - eexists ([_; _] ++ rel ++ rt), last. split_and!.
    + by rewrite <- !app_assoc.
    + destruct Hrt as [[_ ->]|(n & _ & _ & _ & Hs)]; done.
    + destruct Hrel as [-> | ->], Hrt as [[-> _]|(n & -> & _)]; by repeat constructor.
    + intros n Hn. destruct Hrt as [[-> _]|(n' & -> & -> & Hlt & _)];
        destruct Hrel as [-> | ->]; set_solver.
Qed.

(** A delivery is settled exactly once, by its last call: acknowledged after
    it was handled, recognised as a duplicate or its retry was published, and
    rejected to the dead-letter exchange otherwise; the handler runs at most
    once and only after the inbox recorded the message; and a published retry
    carries the counter of the delivery plus one, never above the bound.  A
    consumer without inbox or handler touches nothing and reports it. *)
Theorem delivery_settled_once c d (w : World I H B) :
  match Consumer_validate c with
  | Some e => ProcessDelivery unmarshal Ack Nack c d w = (Err e, w)
  | None =>
      exists acts last,
        w_log (snd (ProcessDelivery unmarshal Ack Nack c d w)) = w_log w ++ acts ++ [last]
        /\ delivery_log c d (acts ++ [last])
        /\ settles last = true /\ Forall (fun a => settles a = false) acts
        /\ forall n, DidRetry n ∈ acts ->
             n = wrap64 (retryAttempt (Delivery_Headers d) + 1)
             /\ retryAttempt (Delivery_Headers d) < maxRetries c
  end.
Proof.
  destruct (Consumer_validate c) as [e|] eqn:Hv.
  { unfold ProcessDelivery. unfold Consumer_validate in *.
    destruct (Consumer_Inbox c); [destruct (Consumer_Handler c)|]; by simplify_eq/=. }
  destruct (process_log unmarshal Ack Nack c d w Hv) as (all & Hlog & Hd).
  destruct (delivery_log_last c d all Hd) as (acts & last & -> & Hs & Hf & Hr).
  exists acts, last. by rewrite Hlog.
Qed.

(** The inbox entry is written before the handler runs, so a crash between
    the two loses the message: when the inbox already holds it, the redelivery
    is acknowledged although no handler ever ran. *)
Theorem crash_after_record_loses_event c d inbox handler event (w : World I H B) i :
  Consumer_Inbox c = Some inbox -> Consumer_Handler c = Some handler ->
  decodeDelivery unmarshal d = Ok event ->
  Inbox_Record inbox (consumerName c) event (w_inbox w) = (Ok false, i) ->
  w_app (snd (ProcessDelivery unmarshal Ack Nack c d w)) = w_app w
  /\ w_log (snd (ProcessDelivery unmarshal Ack Nack c d w))
     = w_log w ++ [DidRecord (inbox_key (consumerName c) event) (Event_MessageID event); DidAck].
Proof.
  intros Hi Hh Hd Hr. unfold ProcessDelivery. rewrite Hi, Hh, Hd.
  unfold bind. rewrite attempt_run. unfold in_inbox. rewrite Hr. cbn [fst snd negb].
  split; [by rewrite ack_app|]. rewrite ack_log. cbn [w_log]. by rewrite <- app_assoc.
Qed.

End Settlement.

(** ** Instances: a consumer whose handler counts its calls *)

Definition counting_consumer : Consumer MemoryInbox nat unit :=
  mkConsumer InventoryReserveQueue "" (Some memory_inbox) (Some (fun _ => modify Datatypes.S))
    None 0.

Definition sample_decode (body : string) : result OutboxEvent := Ok sample_event.

Definition broker_ok (d : Delivery) : M unit unit := ret tt.

Definition fresh_world : World MemoryInbox nat unit := mkWorld ∅ 0%nat tt [].

Lemma handled_at_most_once_witness :
  w_app (snd (ProcessDelivery sample_decode broker_ok broker_ok counting_consumer sample_delivery
     (process_all sample_decode broker_ok broker_ok []
        (snd (ProcessDelivery sample_decode broker_ok broker_ok counting_consumer sample_delivery
                fresh_world))))) = 1%nat.
Proof.
  rewrite (proj1 (handled_at_most_once sample_decode broker_ok broker_ok counting_consumer
             sample_delivery sample_delivery (fun _ => modify Datatypes.S)
             (WithEnvelopeDefaults sample_event) (WithEnvelopeDefaults sample_event) [] fresh_world
             eq_refl eq_refl eq_refl (not_elem_of_empty _) eq_refl (Forall_nil_2 _) eq_refl eq_refl)).
  vm_compute. reflexivity.
Defined.

Lemma inbox_records_successes_only_witness :
  w_inbox (snd (ProcessDelivery sample_decode broker_ok broker_ok counting_consumer sample_delivery
                  fresh_world)) = {["inventory.reserve:msg_1"]} ∪ ∅.
Proof.
  rewrite (inbox_records_successes_only sample_decode broker_ok broker_ok counting_consumer
             sample_delivery (fun _ => modify Datatypes.S) fresh_world eq_refl eq_refl).
  reflexivity.
Defined.

(** The world of a consumer that crashed after recording the message. *)
Definition crashed_world : World MemoryInbox nat unit :=
  mkWorld (snd (MemoryInbox_Record InventoryReserveQueue sample_event ∅)) 0%nat tt [].

Lemma crash_after_record_loses_event_witness :
  w_app (snd (ProcessDelivery sample_decode broker_ok broker_ok counting_consumer sample_delivery
                crashed_world)) = 0%nat.
Proof.
  assert (Hr : Inbox_Record memory_inbox (consumerName counting_consumer)
                 (WithEnvelopeDefaults sample_event) (w_inbox crashed_world)
               = (Ok false, w_inbox crashed_world)) by (vm_compute; reflexivity).
  rewrite (proj1 (crash_after_record_loses_event sample_decode broker_ok broker_ok
             counting_consumer sample_delivery memory_inbox (fun _ => modify Datatypes.S)
             (WithEnvelopeDefaults sample_event) crashed_world (w_inbox crashed_world)
             eq_refl eq_refl eq_refl Hr)).
  reflexivity.
Defined.
