(* ===== verification/Relay.v ===== *)
(** The outbox relay, [internal/messaging/relay.go], over any outbox source and
    publisher, and over the in-memory store. *)
From S2P Require Import Prelude GoStrings GoTime Model StateMachine Store MemoryStore.
From S2P Require Import MemoryInvariant OutboxLease MemoryQueries.

(** The two interfaces of the source, as records of operations. *)
Record OutboxSource (S : Type) := mkOutboxSource {
  PendingOutboxEvents : Z -> M S (list OutboxEvent);
  MarkOutboxPublished : string -> Time -> M S unit
}.

Arguments mkOutboxSource {S}.
Arguments PendingOutboxEvents {S}.
Arguments MarkOutboxPublished {S}.

Record Publisher (P : Type) := mkPublisher {
  Publish : OutboxEvent -> M P unit
}.

Arguments mkPublisher {P}.
Arguments Publish {P}.

(** The relay's world: source, publisher and the readings of its clock. *)
Record RelayState (S P : Type) := mkRelayState {
  rs_source : S;
  rs_publisher : P;
  rs_ticks : nat
}.

Arguments mkRelayState {S P}.
Arguments rs_source {S P}.
Arguments rs_publisher {S P}.
Arguments rs_ticks {S P}.

Section Relay.
Context {S P : Type}.
Variable source : OutboxSource S.
Variable publisher : Publisher P.
Variable clock : nat -> Time.

Definition on_source {A} (c : M S A) : M (RelayState S P) A :=
  fun st => let (r, s) := c (rs_source st) in
            (r, mkRelayState s (rs_publisher st) (rs_ticks st)).

Definition on_publisher {A} (c : M P A) : M (RelayState S P) A :=
  fun st => let (r, p) := c (rs_publisher st) in
            (r, mkRelayState (rs_source st) p (rs_ticks st)).

(** [r.Clock()]. *)
Definition relay_clock : M (RelayState S P) Time :=
  fun st => (Ok (clock (rs_ticks st)),
             mkRelayState (rs_source st) (rs_publisher st) (Datatypes.S (rs_ticks st))).

(** The body of the loop: publish, then mark. *)
Definition relay_event (event : OutboxEvent) : M (RelayState S P) unit :=
  let! _ := annotate ("publish " +:+ Event_MessageID event +:+ ": ")
              (on_publisher (Publish publisher event)) in
  let! now := relay_clock in
  annotate ("mark " +:+ Event_MessageID event +:+ " published: ")
    (on_source (MarkOutboxPublished source (Event_MessageID event) now)).

(** The loop; Go returns the count beside the error. *)
Fixpoint relay_loop (published : Z) (events : list OutboxEvent) (st : RelayState S P)
    : (Z * option error) * RelayState S P :=
  match events with
  | [] => ((published, None), st)
  | event :: rest =>
      match relay_event event st with
      | (Err e, st) => ((published, Some e), st)
      | (Ok _, st) => relay_loop (published + 1) rest st
      end
  end.

Definition RunOnce (limit : Z) (st : RelayState S P) : (Z * option error) * RelayState S P :=
  match on_source (PendingOutboxEvents source limit) st with
  | (Err e, st) => ((0, Some (Wrap "load pending outbox events: " e "")), st)
  | (Ok events, st) => relay_loop 0 events st
  end.

(** ** Specification *)

(** The events went out and were marked, one after the other. *)
Inductive relayed : list OutboxEvent -> RelayState S P -> RelayState S P -> Prop :=
| relayed_nil st : relayed [] st st
| relayed_cons event rest st st1 st2 :
    relay_event event st = (Ok tt, st1) -> relayed rest st1 st2 ->
    relayed (event :: rest) st st2.

Lemma relay_loop_spec events k st :
  match relay_loop k events st with
  | ((n, None), st') => relayed events st st' /\ n = k + Z.of_nat (length events)
  | ((n, Some e), st') =>
      exists sent event rest st1,
        events = sent ++ event :: rest /\ relayed sent st st1
        /\ relay_event event st1 = (Err e, st') /\ n = k + Z.of_nat (length sent)
  end.
Proof.
  revert k st. induction events as [|event rest IH]; intros k st; simpl.
  { split; [constructor|lia]. }
  destruct (relay_event event st) as [[[]|e] st1] eqn:Hrun.
  - specialize (IH (k + 1) st1). destruct (relay_loop (k + 1) rest st1) as [[n [e|]] st'].
    + destruct IH as (sent & ev & rest' & st2 & -> & Hr & He & Hn).
      exists (event :: sent), ev, rest', st2. split_and!; [done|by econstructor|done|].
      simpl. lia.
    + destruct IH as [Hr Hn]. split; [by econstructor|lia].
  - exists [], event, rest, st. split_and!; [done|constructor|done|simpl; lia].
Qed.

(** One run of the relay publishes and marks the claimed events strictly in
    order: without an error all of them, with an error exactly the [n] events
    before the one whose publish or mark failed, and none after it; the count
    returned is the number of events published and marked. *)
Theorem relay_run_in_order limit st :
  match RunOnce limit st with
  | ((n, None), st') =>
      exists events st1, on_source (PendingOutboxEvents source limit) st = (Ok events, st1)
        /\ relayed events st1 st' /\ n = Z.of_nat (length events)
  | ((n, Some e), st') =>
      (exists e0, on_source (PendingOutboxEvents source limit) st = (Err e0, st') /\ n = 0)
      \/ exists sent event rest st1 st2,
           on_source (PendingOutboxEvents source limit) st = (Ok (sent ++ event :: rest), st1)
           /\ relayed sent st1 st2 /\ relay_event event st2 = (Err e, st')
           /\ n = Z.of_nat (length sent)
  end.
Proof.
  unfold RunOnce. destruct (on_source _ st) as [[events|e] st1]; [|by left; eauto].
  pose proof (relay_loop_spec events 0 st1) as H.
  destruct (relay_loop 0 events st1) as [[n [e|]] st'].
  - right. destruct H as (sent & ev & rest & st2 & -> & Hr & He & Hn).
    exists sent, ev, rest, st1, st2. split_and!; try done; lia.
  - destruct H as [Hr Hn]. exists events, st1. split_and!; try done; lia.
Qed.

End Relay.

(** ** Over the in-memory store *)

(** The store as a source, with [now] the reading of [time.Now] in
    [PendingOutboxEvents]. *)
Definition memory_source (now : Time) : OutboxSource MemoryStore :=
  mkOutboxSource (fun limit => MemoryStore_PendingOutboxEvents limit now)
    MemoryStore_MarkOutboxPublished.

(** A publisher that keeps what it accepts and refuses the rest. *)
Definition selective_publisher (accept : OutboxEvent -> bool) : Publisher (list OutboxEvent) :=
  mkPublisher (fun e sent => if accept e then (Ok tt, sent ++ [e])
                             else (Err (Text "refused"), sent)).

Section MemoryRelay.
Variable now : Time.
Variable accept : OutboxEvent -> bool.
Variable clock : nat -> Time.

Notation memory_event := (relay_event (memory_source now) (selective_publisher accept) clock).
Notation memory_run := (RunOnce (memory_source now) (selective_publisher accept) clock).
Notation memory_relayed := (relayed (memory_source now) (selective_publisher accept) clock).

Lemma memory_event_run e st :
  memory_event e st =
  if accept e then
    (Ok tt, mkRelayState
       (snd (MemoryStore_MarkOutboxPublished (Event_MessageID e) (clock (rs_ticks st))
               (rs_source st)))
       (rs_publisher st ++ [e]) (Datatypes.S (rs_ticks st)))
  else (Err (Wrap ("publish " +:+ Event_MessageID e +:+ ": ") (Text "refused") ""), st).
Proof.
  unfold relay_event, bind, annotate, on_publisher. simpl. destruct (accept e); [done|].
  by destruct st.
Qed.

Lemma memory_relayed_effect evs st st' :
  memory_relayed evs st st' ->
  rs_publisher st' = rs_publisher st ++ evs
  /\ ms_outbox (rs_source st') = ms_outbox (rs_source st)
  /\ Forall (fun e => accept e = true) evs
  /\ forall id, is_Some (ms_publishedOutbox (rs_source st') !! id)
                <-> is_Some (ms_publishedOutbox (rs_source st) !! id)
                    \/ id ∈ map Event_MessageID evs.
Proof.
  induction 1 as [st|e rest st st1 st2 Hrun _ (Hp & Ho & Hf & Hm)].
  { rewrite app_nil_r. split_and!; try done. intros id. set_solver. }
  rewrite memory_event_run in Hrun. destruct (accept e) eqn:Ha; [|done]. simplify_eq.
  cbn [rs_publisher rs_source ms_outbox] in *. split_and!.
  - by rewrite Hp, <- app_assoc.
  - by rewrite Ho.
  - by constructor.
  - intros id. rewrite Hm. cbn [map]. rewrite elem_of_cons. simpl.
    destruct (decide (Event_MessageID e = id)) as [->|Hne].
    + rewrite lookup_insert_eq. naive_solver.
    + rewrite lookup_insert_ne by done. naive_solver.
Qed.

(** The events a claim at [now] hands out. *)
Definition claimable_events (limit : Z) (s : MemoryStore) : list OutboxEvent :=
  map WithEnvelopeDefaults
    (take (if limit <=? 0 then length (ms_outbox s) else Z.to_nat limit)
       (filter (fun e => claimable (ms_publishedOutbox s) (ms_claimedOutbox s) now e = true)
          (ms_outbox s))).

Lemma memory_pending_run limit s (p : list OutboxEvent) (t : nat) :
  NoDup (map Event_MessageID (ms_outbox s)) ->
  exists claims,
    on_source (PendingOutboxEvents (memory_source now) limit) (mkRelayState s p t)
    = (Ok (claimable_events limit s), mkRelayState (set_claims claims s) p t).
Proof.
  intros Hnd. unfold on_source. simpl.
  destruct (pending_run limit now s) as (evs & claims & Hrun & _).
  pose proof (pending_exact limit now s Hnd) as He. rewrite Hrun in *. simpl in He.
  injection He as ->. by exists claims.
Qed.

(** Relaying the in-memory outbox is at least once and in order: a run sends
    a prefix, in outbox order, of the events it claimed, all of them when the
    publisher accepts them all; exactly the events sent become marked as
    published, so an event the publisher refused, and every one after it, stays
    in the outbox for a later run. *)
Theorem relay_marks_what_it_sent limit s sent ticks :
  NoDup (map Event_MessageID (ms_outbox s)) ->
  let '((n, err), st') := memory_run limit (mkRelayState s sent ticks) in
  exists out rest,
    claimable_events limit s = out ++ rest
    /\ rs_publisher st' = sent ++ out /\ n = Z.of_nat (length out)
    /\ ms_outbox (rs_source st') = ms_outbox s
    /\ Forall (fun e => accept e = true) out
    /\ (forall id, is_Some (ms_publishedOutbox (rs_source st') !! id)
                   <-> is_Some (ms_publishedOutbox s !! id) \/ id ∈ map Event_MessageID out)
    /\ match err with
       | None => rest = []
       | Some _ => exists e rest', rest = e :: rest' /\ accept e = false
       end.
Proof.
  intros Hnd. destruct (memory_pending_run limit s sent ticks Hnd) as [claims Hp].
  unfold RunOnce. rewrite Hp.
  pose proof (relay_loop_spec (memory_source now) (selective_publisher accept) clock
                (claimable_events limit s) 0 (mkRelayState (set_claims claims s) sent ticks)) as H.
  destruct (relay_loop _ _ _ _ _ _) as [[n [e|]] st'].
  - destruct H as (out & ev & rest & st1 & Heq & Hr & He & Hn).
    rewrite memory_event_run in He. destruct (accept ev) eqn:Ha; [done|]. simplify_eq.
    apply memory_relayed_effect in Hr as (H1 & H2 & H3 & H4).
    exists out, (ev :: rest). split_and!; try done. by exists ev, rest.
  - destruct H as [Hr Hn]. apply memory_relayed_effect in Hr as (H1 & H2 & H3 & H4).
    exists (claimable_events limit s), []. rewrite app_nil_r. split_and!; try done; lia.
Qed.

End MemoryRelay.

Lemma two_event_ids : map Event_MessageID (ms_outbox two_event_store) = ["msg_1"; "msg_2"].
Proof. vm_compute. reflexivity. Qed.

Lemma relay_marks_what_it_sent_witness :
  exists out, rs_publisher (snd (RunOnce (memory_source 0) (selective_publisher (fun _ => true))
                                   (fun _ => 1) 0 (mkRelayState two_event_store [] 0%nat)))
              = [] ++ out /\ Forall (fun _ => true = true) out.
Proof.
  assert (Hnd : NoDup (map Event_MessageID (ms_outbox two_event_store)))
    by (rewrite two_event_ids; repeat constructor; set_solver).
  pose proof (relay_marks_what_it_sent 0 (fun _ => true) (fun _ => 1) 0 two_event_store [] 0%nat
                Hnd) as H.
  destruct (RunOnce _ _ _ _ _) as [[n err] st'].
  destruct H as (out & rest & _ & Hp & _ & _ & Hf & _). by exists out.
Defined.
