(* ===== verification/Dlq.v ===== *)
(** Dead-letter replay: [internal/messaging/dlq.go] and the settings and audit
    entry of [cmd/fulfillhub-dlq-replay].

    The channel is a parameter, one function per AMQP call.  The loop returns
    or counts one replayed message per round, so [Limit] rounds are enough. *)
From S2P Require Import Prelude GoStrings GoStringsFacts GoTime Model Topology Amqp.

Record DLQReplayConfig := mkDLQReplayConfig {
  Replay_Queue : string;
  Replay_Exchange : string;
  Replay_RoutingKey : string;
  Replay_Limit : Z
}.

(** The publishing a dead-lettered delivery is sent again as. *)
Definition republishing (d : Delivery) : Publishing :=
  mkPublishing (Delivery_ContentType d) (Delivery_MessageId d) (Delivery_CorrelationId d)
    (Delivery_Timestamp d) (Delivery_Type d) (Delivery_Headers d) (Delivery_Body d).

Section Replay.
Context {C : Type}.
Variable Confirm : M C unit.
(** [channel.Get(queue, false)]: [None] when the queue is empty. *)
Variable Get : string -> M C (option Delivery).
Variable PublishWithContext : string -> string -> Publishing -> M C unit.
Variable waitForOutcome : string -> M C unit.
Variable Ack : Delivery -> M C unit.
(** [delivery.Nack(false, true)]: back to the queue. *)
Variable Requeue : Delivery -> M C unit.

(** [_ = delivery.Nack(false, true); return ...]. *)
Definition requeue_and_fail (d : Delivery) (pre : string) (e : error) (c : C) : option error * C :=
  (Some (Wrap pre e ""), snd (Requeue d c)).

(** One delivery of the loop, after [Get]. *)
Definition replay_one (config : DLQReplayConfig) (d : Delivery) (c : C) : option error * C :=
  match PublishWithContext (Replay_Exchange config) (Replay_RoutingKey config) (republishing d) c with
  | (Err e, c) => requeue_and_fail d "republish dlq message: " e c
  | (Ok _, c) =>
      match waitForOutcome (Delivery_MessageId d) c with
      | (Err e, c) => requeue_and_fail d "confirm dlq replay message: " e c
      | (Ok _, c) =>
          match Ack d c with
          | (Err e, c) => (Some (Wrap "ack dlq message: " e ""), c)
          | (Ok _, c) => (None, c)
          end
      end
  end.

(** The loop with [rounds] left before [Limit]. *)
Fixpoint replay_loop (config : DLQReplayConfig) (rounds : nat) (replayed : Z) (c : C)
    : (Z * option error) * C :=
  match rounds with
  | O => ((replayed, None), c)
  | Datatypes.S rounds =>
      match Get (Replay_Queue config) c with
      | (Err e, c) => ((replayed, Some (Wrap "get dlq message: " e "")), c)
      | (Ok None, c) => ((replayed, None), c)
      | (Ok (Some d), c) =>
          match replay_one config d c with
          | (Some e, c) => ((replayed, Some e), c)
          | (None, c) => replay_loop config rounds (replayed + 1) c
          end
      end
  end.

Definition ReplayDLQ (config : DLQReplayConfig) (c : C) : (Z * option error) * C :=
  if String.eqb (Replay_Queue config) "" || String.eqb (Replay_Exchange config) ""
     || String.eqb (Replay_RoutingKey config) ""
  then ((0, Some (Text "queue, exchange, and routing key are required")), c)
  else
    let limit := if Replay_Limit config <=? 0 then 100 else Replay_Limit config in
    match Confirm c with
    | (Err e, c) => ((0, Some (Wrap "enable dlq replay publisher confirms: " e "")), c)
    | (Ok _, c) => replay_loop config (Z.to_nat limit) 0 c
    end.

End Replay.

(** ** The command *)

Record replaySettings := mkReplaySettings {
  Settings_RabbitURL : string;
  Settings_DatabaseURL : string;
  Settings_Queue : string;
  Settings_Exchange : string;
  Settings_RoutingKey : string;
  Settings_Limit : Z;
  Settings_ActorID : string;
  Settings_AuditMerchantID : string;
  Settings_CorrelationID : string
}.

(** [strconv.Atoi] and its bound; an unset variable keeps the default. *)
Definition replay_limit (raw : string) : result Z :=
  if String.eqb raw "" then Ok 100
  else match ParseInt raw with
       | Some n => if n <=? 0 then Err (Text "REPLAY_LIMIT must be a positive integer") else Ok n
       | None => Err (Text "REPLAY_LIMIT must be a positive integer")
       end.

Definition loadReplaySettings (getenv : string -> string) (now : Time) : result replaySettings :=
  let env name := TrimSpace (getenv name) in
  let merchant := or_else (env "AUDIT_MERCHANT_ID") "platform" in
  let correlation := or_else (env "REPLAY_CORRELATION_ID")
                       ("cor_dlq_replay_" +:+ Itoa (UnixNano now)) in
  match replay_limit (env "REPLAY_LIMIT") with
  | Err e => Err e
  | Ok limit =>
      if String.eqb (env "RABBITMQ_URL") "" then Err (Text "RABBITMQ_URL is required")
      else if String.eqb (env "DATABASE_URL") "" then Err (Text "DATABASE_URL is required")
      else if String.eqb (env "DLQ_QUEUE") "" then Err (Text "DLQ_QUEUE is required")
      else if String.eqb (env "TARGET_ROUTING_KEY") "" then
        Err (Text "TARGET_ROUTING_KEY is required")
      else if String.eqb (env "OPS_ACTOR_ID") "" then Err (Text "OPS_ACTOR_ID is required")
      else Ok (mkReplaySettings (env "RABBITMQ_URL") (env "DATABASE_URL") (env "DLQ_QUEUE")
                 DomainExchange (env "TARGET_ROUTING_KEY") limit (env "OPS_ACTOR_ID")
                 merchant correlation)
  end.

Definition buildReplayAudit (settings : replaySettings) (replayed : Z) (replayErr : option error)
    (at_ : Time) : AuditLog :=
  let details : gmap string string :=
    <["queue" := Settings_Queue settings]>
    (<["exchange" := Settings_Exchange settings]>
    (<["target_routing_key" := Settings_RoutingKey settings]>
    (<["replay_limit" := Itoa (Settings_Limit settings)]>
    (<["replayed_count" := Itoa replayed]>
    (<["status" := "succeeded"]> ∅))))) in
  let details := match replayErr with
                 | Some e => <["error" := error_text e]> (<["status" := "failed"]> details)
                 | None => details
                 end in
  mkAuditLog (Settings_AuditMerchantID settings) "" "ops" (Settings_ActorID settings)
    "dlq.replay" (Settings_CorrelationID settings) at_ details.

(** ** What the command asks of the channel

    Nothing is assumed of the channel: any call may fail, with or without an
    effect on the broker.  Each call is written down with its answer. *)
Inductive ChannelCall : Type :=
| CalledConfirm (r : result unit)
| CalledGet (queue : string) (r : result (option Delivery))
| CalledPublish (exchange key : string) (p : Publishing) (r : result unit)
| CalledWait (messageID : string) (r : result unit)
| CalledAck (d : Delivery) (r : result unit)
| CalledRequeue (d : Delivery) (r : result unit).

Section Journal.
Context {C : Type}.

Definition logged {A} (note : result A -> ChannelCall) (m : M C A) : M (C * list ChannelCall) A :=
  fun '(c, log) => let '(r, c') := m c in (r, (c', log ++ [note r])).

Variable Confirm : M C unit.
Variable Get : string -> M C (option Delivery).
Variable PublishWithContext : string -> string -> Publishing -> M C unit.
Variable waitForOutcome : string -> M C unit.
Variables Ack Requeue : Delivery -> M C unit.

(** [ReplayDLQ] on a channel that keeps a journal. *)
Definition logged_replay : DLQReplayConfig -> C * list ChannelCall
    -> (Z * option error) * (C * list ChannelCall) :=
  ReplayDLQ (logged CalledConfirm Confirm) (fun q => logged (CalledGet q) (Get q))
    (fun x k p => logged (CalledPublish x k p) (PublishWithContext x k p))
    (fun id => logged (CalledWait id) (waitForOutcome id))
    (fun d => logged (CalledAck d) (Ack d)) (fun d => logged (CalledRequeue d) (Requeue d)).

(** A message that was moved: taken, sent again as it was under the target
    exchange and key, confirmed, and only then acknowledged. *)
Definition moved (config : DLQReplayConfig) (d : Delivery) : list ChannelCall :=
  [CalledGet (Replay_Queue config) (Ok (Some d));
   CalledPublish (Replay_Exchange config) (Replay_RoutingKey config) (republishing d) (Ok tt);
   CalledWait (Delivery_MessageId d) (Ok tt); CalledAck d (Ok tt)].

(** How a replay ends before its limit: at an empty queue, or at the first
    call that fails.  A message in hand that was not confirmed is given back to
    the queue; one whose acknowledgement failed was confirmed and is left to the
    broker. *)
Inductive stopped (config : DLQReplayConfig) : list ChannelCall -> option error -> Prop :=
| stopped_empty : stopped config [CalledGet (Replay_Queue config) (Ok None)] None
| stopped_get e :
    stopped config [CalledGet (Replay_Queue config) (Err e)]
      (Some (Wrap "get dlq message: " e ""))
| stopped_publish d e r :
    stopped config
      [CalledGet (Replay_Queue config) (Ok (Some d));
       CalledPublish (Replay_Exchange config) (Replay_RoutingKey config) (republishing d) (Err e);
       CalledRequeue d r]
      (Some (Wrap "republish dlq message: " e ""))
| stopped_wait d e r :
    stopped config
      [CalledGet (Replay_Queue config) (Ok (Some d));
       CalledPublish (Replay_Exchange config) (Replay_RoutingKey config) (republishing d) (Ok tt);
       CalledWait (Delivery_MessageId d) (Err e); CalledRequeue d r]
      (Some (Wrap "confirm dlq replay message: " e ""))
| stopped_ack d e :
    stopped config
      [CalledGet (Replay_Queue config) (Ok (Some d));
       CalledPublish (Replay_Exchange config) (Replay_RoutingKey config) (republishing d) (Ok tt);
       CalledWait (Delivery_MessageId d) (Ok tt); CalledAck d (Err e)]
      (Some (Wrap "ack dlq message: " e "")).

(** The journal of a loop of at most [rounds] messages. *)
Definition loop_journal (config : DLQReplayConfig) (rounds : nat) (out : list Delivery)
    (last : list ChannelCall) (err : option error) : Prop :=
  length out = rounds /\ last = [] /\ err = None
  \/ (length out < rounds)%nat /\ stopped config last err.

Lemma replay_loop_journal config rounds k c log :
  exists out last err c',
    replay_loop (fun q => logged (CalledGet q) (Get q))
      (fun x k p => logged (CalledPublish x k p) (PublishWithContext x k p))
      (fun id => logged (CalledWait id) (waitForOutcome id))
      (fun d => logged (CalledAck d) (Ack d)) (fun d => logged (CalledRequeue d) (Requeue d))
      config rounds k (c, log)
    = ((k + Z.of_nat (length out), err), (c', log ++ (concat (map (moved config) out) ++ last)))
    /\ loop_journal config rounds out last err.
Proof using Type.
  revert k c log. induction rounds as [|rounds IH]; intros k c log.
  { exists [], [], None, c. simpl. rewrite app_nil_r, Z.add_0_r. split; [done|by left]. }
  assert (Hstop : forall last err (c' : C), stopped config last err ->
    exists out last' err' c'',
      ((k, err), (c', log ++ last))
      = ((k + Z.of_nat (length out), err'),
         (c'', log ++ (concat (map (moved config) out) ++ last')))
      /\ loop_journal config (Datatypes.S rounds) out last' err').
  { intros last err c' Hs. exists [], last, err, c'. simpl. rewrite Z.add_0_r.
    split; [done|right; split; [simpl; lia|done]]. }
  simpl. unfold logged at 1. destruct (Get (Replay_Queue config) c) as [[[d|]|e] c1].
  2,3: apply Hstop; constructor.
  unfold replay_one, requeue_and_fail, logged.
  destruct (PublishWithContext _ _ _ c1) as [[[]|e] c2].
  2:{ destruct (Requeue d c2) as [r c3]. simpl. rewrite <- !app_assoc. apply Hstop. constructor. }
  destruct (waitForOutcome _ c2) as [[[]|e] c3].
  2:{ destruct (Requeue d c3) as [r c4]. simpl. rewrite <- !app_assoc. apply Hstop. constructor. }
  destruct (Ack d c3) as [[[]|e] c4].
  2:{ rewrite <- !app_assoc. apply Hstop. constructor. }
  edestruct IH as (out & last & err & c' & Hrun & Hj).
  exists (d :: out), last, err, c'. split.
  - unfold logged in Hrun. rewrite Hrun. simpl. f_equal; [f_equal; lia|].
    by rewrite <- !app_assoc.
  - destruct Hj as [(Hl & -> & ->)|[Hl Hs]]; [left|right]; simpl; split_and!; auto; lia.
Qed.

(** The whole replay, whatever the channel answers: it moves messages one at a
    time up to its limit (100 when that is not positive) and stops at the first
    failure. *)
Lemma dlq_replay_journal config c :
  String.eqb (Replay_Queue config) "" || String.eqb (Replay_Exchange config) ""
  || String.eqb (Replay_RoutingKey config) "" = false ->
  let limit := if Replay_Limit config <=? 0 then 100 else Replay_Limit config in
  exists count err c' log,
    logged_replay config (c, []) = ((count, err), (c', log))
    /\ ((exists e, log = [CalledConfirm (Err e)] /\ count = 0
                   /\ err = Some (Wrap "enable dlq replay publisher confirms: " e ""))
        \/ exists out last,
             log = CalledConfirm (Ok tt) :: concat (map (moved config) out) ++ last
             /\ count = Z.of_nat (length out)
             /\ loop_journal config (Z.to_nat limit) out last err).
Proof using Type.
  intros Hc limit. unfold logged_replay, ReplayDLQ. rewrite Hc. fold limit.
  unfold logged at 1. destruct (Confirm c) as [[[]|e] c1].
  - edestruct (replay_loop_journal config (Z.to_nat limit) 0 c1 ([] ++ [CalledConfirm (Ok tt)]))
      as (out & last & err & c' & Hrun & Hj).
    rewrite Hrun. eexists _, _, _, _. split; [done|]. right. by exists out, last.
  - eexists _, _, _, _. split; [done|]. left. by exists e.
Qed.

End Journal.
