(* ===== verification/TraceHeaders.v ===== *)
(** Trace context in message headers: [amqpHeaderCarrier], the injection of the
    publisher and the extraction of the consumer
    ([internal/messaging/rabbitmq.go], [consumer.go]), and that the context
    survives retries and dead-letter replays.

    The propagator is OpenTelemetry's [propagation.TraceContext]; of it the
    development uses what its documentation says, in [TracePropagator]. *)
From S2P Require Import Prelude GoStrings GoTime Model Topology Amqp Dlq.

(** ** The carrier *)

Definition carrier_Get (headers : Table) (key : string) : string :=
  match headers !! key with
  | Some (HStr typed) => typed
  | Some (HBytes typed) => typed
  | _ => ""
  end.

Definition carrier_Set (headers : Table) (key value : string) : Table :=
  <[key := HStr value]> headers.

Definition carrier_Keys (headers : Table) : list string := map fst (map_to_list headers).

(** ** The propagator *)

(** The fields of the W3C trace context. *)
Definition trace_fields : list string := ["traceparent"; "tracestate"].

Class TracePropagator (SpanContext : Type) := {
  (** the calls of [Set] that [Inject] makes *)
  tp_inject : SpanContext -> list (string * string);
  (** what [Extract] finds with [Get] *)
  tp_extract : (string -> string) -> option SpanContext;
  tp_valid : SpanContext -> Prop;
  (** [Inject] sets no other field, [Extract] reads no other, and it gives back a
      valid context from the values that were set *)
  tp_fields sc : Forall (fun kv => fst kv ∈ trace_fields) (tp_inject sc);
  tp_reads get get' :
    (forall field, field ∈ trace_fields -> get field = get' field) ->
    tp_extract get = tp_extract get';
  tp_round_trip sc :
    tp_valid sc ->
    tp_extract (fun field => default "" ((list_to_map (reverse (tp_inject sc)) : gmap string string)
                                           !! field)) = Some sc
}.

Section Propagation.
Context {SpanContext : Type} `{TracePropagator SpanContext}.

Definition injectTraceHeaders (sc : SpanContext) (headers : Table) : Table :=
  fold_left (fun headers kv => carrier_Set headers (fst kv) (snd kv)) (tp_inject sc) headers.

Definition extractTraceHeaders (headers : Table) : option SpanContext :=
  tp_extract (carrier_Get headers).

(** Two messages that differ in nothing but the fields of the propagator. *)
Definition same_message (p p' : Publishing) : Prop :=
  Publishing_ContentType p = Publishing_ContentType p'
  /\ Publishing_MessageId p = Publishing_MessageId p'
  /\ Publishing_CorrelationId p = Publishing_CorrelationId p'
  /\ Publishing_Timestamp p = Publishing_Timestamp p'
  /\ Publishing_Type p = Publishing_Type p' /\ Publishing_Body p = Publishing_Body p'
  /\ forall key, key ∉ trace_fields -> Publishing_Headers p !! key = Publishing_Headers p' !! key.

(** A broker that does not look at the fields of the propagator, in a state from
    which they are left out. *)
Definition blind {B} (send : string -> string -> Publishing -> M B unit) : Prop :=
  forall exchange key p p' b, same_message p p' -> send exchange key p b = send exchange key p' b.

(** ** The way of a message *)

(** What happens to a message between its publication and a delivery: the
    consumer publishes a retry of it, the broker dead-letters it (and adds
    headers of its own), or an operator replays it. *)
Inductive Hop : Type :=
| Retried (event : OutboxEvent) (attempt : Z) (now : Time) (exchange key : string)
| DeadLettered (added : Table) (exchange key : string)
| Replayed (exchange key : string).

Definition hop (d : Delivery) (h : Hop) : Delivery :=
  match h with
  | Retried event attempt now exchange key =>
      deliver exchange key (retry_publishing d event attempt now)
  | DeadLettered added exchange key =>
      mkDelivery exchange key (Delivery_ContentType d) (Delivery_MessageId d)
        (Delivery_CorrelationId d) (Delivery_Timestamp d) (Delivery_Type d)
        (added ∪ Delivery_Headers d) (Delivery_Body d)
  | Replayed exchange key => deliver exchange key (republishing d)
  end.

(** The broker's own headers are neither the trace fields nor those of the
    publisher. *)
Definition publisher_headers : list string := ["causation_id"; "merchant_id"; "order_id"].

Definition broker_adds (h : Hop) : Prop :=
  match h with
  | DeadLettered added _ _ =>
      forall key, key ∈ trace_fields ++ publisher_headers -> added !! key = None
  | _ => True
  end.

(** ** Facts *)

Lemma carrier_get_set headers key value key' :
  carrier_Get (carrier_Set headers key value) key'
  = if decide (key = key') then value else carrier_Get headers key'.
Proof. unfold carrier_Get, carrier_Set. rewrite lookup_insert. by case_decide. Qed.

Lemma carrier_keys_set headers key value :
  key ∈ carrier_Keys (carrier_Set headers key value).
Proof.
  unfold carrier_Keys, carrier_Set. apply (list_elem_of_fmap_2' _ _ (key, HStr value)); [|done].
  by apply elem_of_map_to_list, lookup_insert_eq.
Qed.

(** The headers after the calls of [Set]. *)
Lemma sets_lookup (sets : list (string * string)) (headers : Table) key :
  fold_left (fun headers kv => carrier_Set headers (fst kv) (snd kv)) sets headers !! key
  = match (list_to_map (reverse sets) : gmap string string) !! key with
    | Some value => Some (HStr value)
    | None => headers !! key
    end.
Proof.
  revert headers. induction sets as [|[k v] sets IH]; intros headers; simpl; [done|].
  rewrite IH, reverse_cons, list_to_map_app. unfold carrier_Set. rewrite lookup_union.
  destruct (list_to_map (reverse sets) !! key) ; simpl.
  - by destruct (_ !! key).
  - rewrite lookup_insert, insert_empty, lookup_singleton. by case_decide.
Qed.

Lemma inject_other sc headers key :
  key ∉ trace_fields -> injectTraceHeaders sc headers !! key = headers !! key.
Proof.
  intros Hk. unfold injectTraceHeaders. rewrite sets_lookup.
  destruct (list_to_map _ !! key) as [v|] eqn:E; [|done]. exfalso. apply Hk.
  apply elem_of_list_to_map_2 in E. rewrite elem_of_reverse in E.
  pose proof (tp_fields sc) as Hf. rewrite Forall_forall in Hf. by apply Hf in E.
Qed.

(** The injected context is all that distinguishes the message. *)
Lemma injected_same sc event body now :
  same_message (event_publishing (injectTraceHeaders sc) event body now)
    (event_publishing (fun headers => headers) event body now).
Proof. repeat split. intros key Hk. by apply inject_other. Qed.

(** Fresh headers give the injected context back. *)
Lemma extract_inject sc headers :
  tp_valid sc -> (forall field, field ∈ trace_fields -> headers !! field = None) ->
  extractTraceHeaders (injectTraceHeaders sc headers) = Some sc.
Proof.
  intros Hv Hfresh. rewrite <- (tp_round_trip sc Hv). apply tp_reads. intros field Hf.
  unfold carrier_Get, injectTraceHeaders. rewrite sets_lookup, (Hfresh field Hf).
  by destruct (list_to_map _ !! field).
Qed.

(** A hop keeps the trace fields, and the headers of the publisher that no
    retry rewrites. *)
Lemma hop_lookup d h key :
  broker_adds h -> key ∈ trace_fields ++ ["merchant_id"; "order_id"] ->
  Delivery_Headers (hop d h) !! key = Delivery_Headers d !! key.
Proof.
  intros Hb Hk. destruct h as [event n now ex rk|added ex rk|ex rk]; simpl in *; [| |done].
  - rewrite !lookup_insert_ne, clone_headers_id; [done|..]; set_solver.
  - rewrite lookup_union, Hb by set_solver. by destruct (_ !! key).
Qed.

Lemma hops_lookup hops d key :
  Forall broker_adds hops -> key ∈ trace_fields ++ ["merchant_id"; "order_id"] ->
  Delivery_Headers (fold_left hop hops d) !! key = Delivery_Headers d !! key.
Proof.
  intros Hb Hk. revert d. induction Hb as [|h hops Hh _ IH]; intros d; simpl; [done|].
  rewrite IH. by apply hop_lookup.
Qed.

(** The trace fields and the headers no retry rewrites arrive as they were sent. *)
Lemma delivered_header sc event body now exchange key hops field :
  Forall broker_adds hops -> field ∈ trace_fields ++ ["merchant_id"; "order_id"] ->
  Delivery_Headers (fold_left hop hops
    (deliver exchange key (event_publishing (injectTraceHeaders sc) event body now))) !! field
  = injectTraceHeaders sc
      (<["causation_id" := HStr (Event_CausationID event)]>
         (<["merchant_id" := HStr (Event_MerchantID event)]>
            {["order_id" := HStr (Event_OrderID event)]})) !! field.
Proof. intros Hb Hk. by rewrite hops_lookup. Qed.

(** The context arrives, whatever happened to the message on its way. *)
Lemma context_arrives sc event body now exchange key hops :
  tp_valid sc -> Forall broker_adds hops ->
  extractTraceHeaders (Delivery_Headers (fold_left hop hops
    (deliver exchange key (event_publishing (injectTraceHeaders sc) event body now)))) = Some sc.
Proof.
  intros Hv Hb.
  rewrite <- (extract_inject sc
    (<["causation_id" := HStr (Event_CausationID event)]>
       (<["merchant_id" := HStr (Event_MerchantID event)]>
          {["order_id" := HStr (Event_OrderID event)]})) Hv).
  - apply tp_reads. intros field Hf. unfold carrier_Get.
    rewrite delivered_header; [done|done|]. set_solver.
  - intros field Hf. unfold trace_fields in Hf.
    rewrite list_elem_of_In in Hf. by destruct Hf as [<-|[<-|[]]].
Qed.

(** The trace follows the message.  The context a publisher injects is the
    one every consumer extracts, however often the message was retried,
    dead-lettered or replayed on its way, and the order and merchant headers the
    publisher set arrive unchanged. *)
Theorem trace_follows_message sc event body now exchange key hops :
  tp_valid sc -> Forall broker_adds hops ->
  let d := fold_left hop hops
             (deliver exchange key (event_publishing (injectTraceHeaders sc) event body now)) in
  extractTraceHeaders (Delivery_Headers d) = Some sc
  /\ headerString (Delivery_Headers d) "order_id" = Event_OrderID event
  /\ headerString (Delivery_Headers d) "merchant_id" = Event_MerchantID event.
Proof.
  intros Hv Hb d. split_and!; [by apply context_arrives|..];
    unfold headerString, d; rewrite delivered_header, inject_other by set_solver; done.
Qed.

End Propagation.

(** ** A propagator *)

(** A span context written as its [traceparent] text. *)
#[local] Instance text_propagator : TracePropagator string.
Proof.
  refine {| tp_inject sc := if String.eqb sc "" then [] else [("traceparent", sc)];
            tp_extract get := if String.eqb (get "traceparent") "" then None
                              else Some (get "traceparent");
            tp_valid sc := sc <> "" |}.
  - intros sc. destruct (String.eqb sc ""); repeat constructor.
  - intros get get' Hget. by rewrite (Hget "traceparent") by constructor.
  - intros sc Hv. apply String.eqb_neq in Hv. rewrite Hv. simpl.
    rewrite insert_empty, lookup_singleton_eq. simpl. by rewrite Hv.
Defined.

Lemma trace_follows_message_witness :
  extractTraceHeaders
    (Delivery_Headers
       (fold_left hop
          [Retried sample_event 1 0 RetryExchange "order.created";
           DeadLettered {["x-death" := HOther]} DLXExchange "order.created";
           Replayed DomainExchange "order.created"]
          (deliver DomainExchange "order.created"
             (event_publishing (injectTraceHeaders "00-4bf92f35-00f067aa-01") sample_event "{}" 0))))
  = Some "00-4bf92f35-00f067aa-01".
Proof.
  apply (trace_follows_message "00-4bf92f35-00f067aa-01").
  - discriminate.
  - repeat constructor; try done. intros key Hk. apply lookup_singleton_ne.
    intros <-. rewrite list_elem_of_In in Hk. simpl in Hk. naive_solver.
Defined.
