(* ===== verification/Handlers.v ===== *)
(** The fulfilment workers: [internal/fulfillment/handlers.go] and
    [provider_adapters.go], over the provider interfaces of
    [internal/providers].

    The world of a handler holds the store, the state behind the external
    providers, and how often the clock and the entropy source were read; what
    those readings are is the environment's. *)
From S2P Require Import Prelude GoStrings GoTime Model StateMachine Store Topology.

(** ** Interfaces *)

Record OrderStatusUpdater (S : Type) := mkOrderStatusUpdater {
  Orders_GetOrder : string -> M S Order;
  Orders_UpdateOrderStatus :
    string -> OrderStatus -> Time -> OutboxEvent -> AuditLog -> M S Order
}.

Arguments mkOrderStatusUpdater {S}.
Arguments Orders_GetOrder {S}.
Arguments Orders_UpdateOrderStatus {S}.

Record Projector (S : Type) := mkProjector {
  RecordInventoryReserved : OutboxEvent -> OutboxEvent -> AuditLog -> M S unit;
  RecordInventoryRejected : OutboxEvent -> OutboxEvent -> AuditLog -> M S unit;
  RecordPaymentAuthorized : OutboxEvent -> OutboxEvent -> Payment -> AuditLog -> M S unit;
  RecordPaymentFailed : OutboxEvent -> OutboxEvent -> AuditLog -> M S unit;
  RecordShipmentCreated : OutboxEvent -> OutboxEvent -> Shipment -> AuditLog -> M S unit;
  RecordShipmentFailed : OutboxEvent -> OutboxEvent -> AuditLog -> M S unit;
  RecordOrderCancelled : OutboxEvent -> OutboxEvent -> AuditLog -> M S unit;
  RecordNotificationQueued : OutboxEvent -> AuditLog -> M S unit;
  RecordCompensation : OutboxEvent -> OrderStatus -> AuditLog -> M S unit
}.

Arguments mkProjector {S}.
Arguments RecordInventoryReserved {S}.
Arguments RecordInventoryRejected {S}.
Arguments RecordPaymentAuthorized {S}.
Arguments RecordPaymentFailed {S}.
Arguments RecordShipmentCreated {S}.
Arguments RecordShipmentFailed {S}.
Arguments RecordOrderCancelled {S}.
Arguments RecordNotificationQueued {S}.
Arguments RecordCompensation {S}.

Record HWorld (S P : Type) := mkHWorld {
  hw_store : S;
  hw_ext : P;
  hw_ticks : nat;
  hw_draws : nat
}.

Arguments mkHWorld {S P}.
Arguments hw_store {S P}.
Arguments hw_ext {S P}.
Arguments hw_ticks {S P}.
Arguments hw_draws {S P}.

(** What the clock and [rand.Read] return, reading by reading. *)
Record HEnv := mkHEnv {
  he_clock : nat -> Time;
  he_entropy : nat -> option string
}.

Record Dependencies (S P : Type) := mkDependencies {
  deps_Projector : option (Projector S);
  deps_Orders : option (OrderStatusUpdater S);
  deps_InventoryReserver : option (OutboxEvent -> M (HWorld S P) unit);
  deps_PaymentAuthorizer : option (OutboxEvent -> M (HWorld S P) Payment);
  deps_ShipmentCreator : option (OutboxEvent -> M (HWorld S P) Shipment);
  deps_NewID : option (string -> M (HWorld S P) string)
}.

Arguments mkDependencies {S P}.
Arguments deps_Projector {S P}.
Arguments deps_Orders {S P}.
Arguments deps_InventoryReserver {S P}.
Arguments deps_PaymentAuthorizer {S P}.
Arguments deps_ShipmentCreator {S P}.
Arguments deps_NewID {S P}.

(** ** Checks and values of the source *)

Definition validateEventIdentity (event : OutboxEvent) : option error :=
  if String.eqb (Event_MessageID event) "" then Some (Text "message id is required")
  else if String.eqb (Event_CorrelationID event) "" then Some (Text "correlation id is required")
  else if String.eqb (Event_CausationID event) "" then Some (Text "causation id is required")
  else if String.eqb (Event_OrderID event) "" then Some (Text "order id is required")
  else if String.eqb (Event_MerchantID event) "" then Some (Text "merchant id is required")
  else None.

Definition validateEvent (event : OutboxEvent) (expectedType : string) : option error :=
  if negb (String.eqb (Event_EventType event) expectedType)
  then Some (Text ("expected " +:+ expectedType +:+ " event, got " +:+ Event_EventType event))
  else validateEventIdentity event.

Definition isNotificationEvent (eventType : string) : bool :=
  one_of eventType ["order.completed"; "order.cancelled"; "order.manual_review_required";
                    "inventory.rejected"; "payment.failed"; "shipment.failed"].

Definition compensationPlan (eventType : string) : result (OrderStatus * string) :=
  if String.eqb eventType "inventory.rejected"
  then Ok (StatusFailed, "compensation.inventory_rejected")
  else if String.eqb eventType "payment.failed"
  then Ok (StatusCancelled, "compensation.payment_failed")
  else if String.eqb eventType "shipment.failed"
  then Ok (StatusCancellationPending, "compensation.shipment_failed")
  else Err (Text ("unsupported compensation event " +:+ eventType)).

Definition normalizedPayment (p : Payment) : Payment :=
  let p := if String.eqb (Payment_Provider p) "" then set_Payment_Provider "fake-payment" p else p in
  if String.eqb (Payment_Status p) "" then set_Payment_Status "authorized" p else p.

Definition requiresManualReview (order : Order) : bool :=
  String.eqb (Order_Status order) StatusCompleted
  || match Order_Shipment order with
     | Some sh => negb (String.eqb (Shipment_Status sh) "")
                  && negb (String.eqb (Shipment_Status sh) "failed")
     | None => false
     end.

Definition hasReservedInventory (order : Order) : bool :=
  existsb (fun i => String.eqb (OrderItem_ReservationStatus i) "reserved") (Order_Items order).

Definition hasAuthorizedPayment (order : Order) : bool :=
  match Order_Payment order with
  | Some p => String.eqb (Payment_Status p) "authorized"
  | None => false
  end.

Definition systemAudit (event : OutboxEvent) (action : string) (now : Time) : AuditLog :=
  mkAuditLog (Event_MerchantID event) (Event_OrderID event) "system" "fulfillment-worker" action
    (Event_CorrelationID event) now
    (<["source_message_id" := Event_MessageID event]>
     {["source_event_type" := Event_EventType event]}).

(** ** Handlers *)

Section Handlers.
Context {S P : Type}.
Variable env : HEnv.
Variable deps : Dependencies S P.

Definition in_store {A} (c : M S A) : M (HWorld S P) A :=
  fun w => let (r, s) := c (hw_store w) in
           (r, mkHWorld s (hw_ext w) (hw_ticks w) (hw_draws w)).

(** [deps.Clock()], or [time.Now().UTC()] by default. *)
Definition Clock : M (HWorld S P) Time :=
  fun w => (Ok (he_clock env (hw_ticks w)),
            mkHWorld (hw_store w) (hw_ext w) (Datatypes.S (hw_ticks w)) (hw_draws w)).

Definition entropy : M (HWorld S P) (option string) :=
  fun w => (Ok (he_entropy env (hw_draws w)),
            mkHWorld (hw_store w) (hw_ext w) (hw_ticks w) (Datatypes.S (hw_draws w))).

(** [deps.NewID] after [withDefaults]. *)
Definition NewID (prefix : string) : M (HWorld S P) string :=
  match deps_NewID deps with
  | Some f => f prefix
  | None =>
      let! b := entropy in
      match b with
      | Some b => ret (prefix +:+ "_" +:+ hex_encode b)
      | None => let! now := Clock in ret (prefix +:+ "_" +:+ Itoa (UnixNano now))
      end
  end.

(** [if deps.Projector == nil { return ... }]. *)
Definition projector : M (HWorld S P) (Projector S) :=
  match deps_Projector deps with
  | Some p => ret p
  | None => throw (Text "fulfillment projector is required")
  end.

Definition orders : M (HWorld S P) (OrderStatusUpdater S) :=
  match deps_Orders deps with
  | Some o => ret o
  | None => throw (Text "order status updater is required")
  end.

Definition nextEventAt (previous : OutboxEvent) (eventType : string) (now : Time)
    : M (HWorld S P) OutboxEvent :=
  let! id := NewID "msg" in
  ret {| Event_MessageID := id;
         Event_EventType := eventType;
         Event_SchemaVersion := 0;
         Event_OccurredAt := now;
         Event_Producer := "";
         Event_MerchantID := Event_MerchantID previous;
         Event_OrderID := Event_OrderID previous;
         Event_CorrelationID := Event_CorrelationID previous;
         Event_CausationID := Event_MessageID previous;
         Event_Payload := ∅ |}.

Definition recordCompensation (event : OutboxEvent) : M (HWorld S P) unit :=
  let! proj := projector in
  match compensationPlan (Event_EventType event) with
  | Err e => throw e
  | Ok (status, action) =>
      let! _ := require (validateEventIdentity event) in
      let! now := Clock in
      let audit := set_Audit_Detail "target_order_status" status (systemAudit event action now) in
      let audit :=
        if String.eqb (Event_EventType event) "payment.failed"
        then set_Audit_Detail "stock_release" "requested" audit
        else if String.eqb (Event_EventType event) "shipment.failed"
        then set_Audit_Detail "payment_void" "requested"
               (set_Audit_Detail "stock_release" "requested" audit)
        else audit in
      in_store (RecordCompensation proj event status audit)
  end.

Definition queueNotification (event : OutboxEvent) : M (HWorld S P) unit :=
  let! proj := projector in
  if negb (isNotificationEvent (Event_EventType event))
  then throw (Text ("expected notifiable event, got " +:+ Event_EventType event))
  else
    let! _ := require (validateEventIdentity event) in
    let! now := Clock in
    in_store (RecordNotificationQueued proj event
                (systemAudit event "notification.email_queued" now)).

Definition recordInventoryRejected (proj : Projector S) (event : OutboxEvent) (now : Time)
    (cause : error) : M (HWorld S P) unit :=
  let! rejected := nextEventAt event "inventory.rejected" now in
  let audit := set_Audit_Detail "error" (error_text cause)
                 (systemAudit event "inventory.rejected" now) in
  in_store (RecordInventoryRejected proj event rejected audit).

(** [deps.InventoryReserver != nil], and its call. *)
Definition try_reserve (event : OutboxEvent) : M (HWorld S P) (option error) :=
  match deps_InventoryReserver deps with
  | None => ret None
  | Some reserve =>
      let! r := attempt (reserve event) in
      ret (match r with Err e => Some e | Ok _ => None end)
  end.

Definition reserveInventory (event : OutboxEvent) : M (HWorld S P) unit :=
  let! proj := projector in
  let! _ := require (validateEvent event "order.created") in
  let! now := Clock in
  let! refused := try_reserve event in
  match refused with
  | Some e => recordInventoryRejected proj event now e
  | None =>
      let! next := nextEventAt event "inventory.reserved" now in
      let! r := attempt (in_store (RecordInventoryReserved proj event next
                                     (systemAudit event "inventory.reserved" now))) in
      match r with
      | Ok _ => ret tt
      | Err e => if error_is e "insufficient stock"
                 then recordInventoryRejected proj event now e else throw e
      end
  end.

Definition authorizePayment (event : OutboxEvent) : M (HWorld S P) unit :=
  let! proj := projector in
  let! _ := require (validateEvent event "inventory.reserved") in
  let! now := Clock in
  match deps_PaymentAuthorizer deps with
  | Some authorize =>
      let! r := attempt (authorize event) in
      match r with
      | Err e =>
          let! failed := nextEventAt event "payment.failed" now in
          let audit := set_Audit_Detail "error" (error_text e)
                         (systemAudit event "payment.failed" now) in
          in_store (RecordPaymentFailed proj event failed audit)
      | Ok authorized =>
          let payment := normalizedPayment authorized in
          let! payment :=
            if String.eqb (Payment_AuthorizationID payment) ""
            then let! id := NewID "pay" in ret (set_Payment_AuthorizationID id payment)
            else ret payment in
          let! next := nextEventAt event "payment.authorized" now in
          in_store (RecordPaymentAuthorized proj event next payment
                      (systemAudit event "payment.authorized" now))
      end
  | None =>
      let! next := nextEventAt event "payment.authorized" now in
      let! id := NewID "pay" in
      let payment := normalizedPayment (mkPayment "fake-payment" "authorized" id "") in
      in_store (RecordPaymentAuthorized proj event next payment
                  (systemAudit event "payment.authorized" now))
  end.

Definition normalizedShipment (sh : Shipment) (now : Time) : M (HWorld S P) Shipment :=
  let! id := if String.eqb (Shipment_ShipmentID sh) "" then NewID "shp"
             else ret (Shipment_ShipmentID sh) in
  let status := if String.eqb (Shipment_Status sh) "" then "created" else Shipment_Status sh in
  let carrier := if String.eqb (Shipment_Carrier sh) "" then "fake-carrier"
                 else Shipment_Carrier sh in
  let tracking := if String.eqb (Shipment_TrackingNumber sh) "" then "TRACK-" +:+ id
                  else Shipment_TrackingNumber sh in
  let events := match Shipment_Events sh with
                | [] => [mkShipmentEvent now status
                           "Shipment booking created by fulfillment worker."]
                | evs => evs
                end in
  ret (mkShipment id status carrier tracking events).

Definition createShipment (event : OutboxEvent) : M (HWorld S P) unit :=
  let! proj := projector in
  let! _ := require (validateEvent event "payment.authorized") in
  let! now := Clock in
  match deps_ShipmentCreator deps with
  | Some create =>
      let! r := attempt (create event) in
      match r with
      | Err e =>
          let! failed := nextEventAt event "shipment.failed" now in
          let audit := set_Audit_Detail "error" (error_text e)
                         (systemAudit event "shipment.failed" now) in
          in_store (RecordShipmentFailed proj event failed audit)
      | Ok shipment =>
          let! next := nextEventAt event "shipment.created" now in
          let! shipment := normalizedShipment shipment now in
          in_store (RecordShipmentCreated proj event next shipment
                      (systemAudit event "shipment.created" now))
      end
  | None =>
      let! next := nextEventAt event "shipment.created" now in
      let! shipmentID := NewID "shp" in
      let! shipment := normalizedShipment
        (mkShipment shipmentID "created" "fake-carrier" ("TRACK-" +:+ shipmentID)
           [mkShipmentEvent now "created" "Shipment booking created by fulfillment worker."]) now in
      in_store (RecordShipmentCreated proj event next shipment
                  (systemAudit event "shipment.created" now))
  end.

Definition completeOrder (event : OutboxEvent) : M (HWorld S P) unit :=
  let! ord := orders in
  let! _ := require (validateEvent event "shipment.created") in
  let! order := in_store (Orders_GetOrder ord (Event_OrderID event)) in
  if String.eqb (Order_Status order) StatusShipmentCreated then
    let! now := Clock in
    let! completed := nextEventAt event "order.completed" now in
    let! _ := in_store (Orders_UpdateOrderStatus ord (Event_OrderID event) StatusCompleted now
                          completed (systemAudit event "order.completed" now)) in
    ret tt
  else if one_of (Order_Status order)
            [StatusCompleted; StatusCancellationPending; StatusManualReview; StatusCancelled]
  then ret tt
  else throw (Text ("cannot complete order from status " +:+ Order_Status order)).

Definition cancelOrder (event : OutboxEvent) : M (HWorld S P) unit :=
  let! ord := orders in
  let! _ := require (validateEvent event "order.cancel_requested") in
  let! order := in_store (Orders_GetOrder ord (Event_OrderID event)) in
  if String.eqb (Order_Status order) StatusCancelled
     || String.eqb (Order_Status order) StatusManualReview
  then ret tt
  else
    let! now := Clock in
    if requiresManualReview order then
      let! review := nextEventAt event "order.manual_review_required" now in
      let audit := set_Audit_Detail "review_reason" "shipment_already_created"
                     (systemAudit event "order.manual_review_required" now) in
      let audit := match Order_Shipment order with
                   | Some sh => if negb (String.eqb (Shipment_ShipmentID sh) "")
                                then set_Audit_Detail "shipment_id" (Shipment_ShipmentID sh) audit
                                else audit
                   | None => audit
                   end in
      let! _ := in_store (Orders_UpdateOrderStatus ord (Event_OrderID event) StatusManualReview
                            now review audit) in
      ret tt
    else
      let! proj := projector in
      let! cancelled := nextEventAt event "order.cancelled" now in
      let audit := systemAudit event "order.cancelled" now in
      let audit := if hasReservedInventory order
                   then set_Audit_Detail "stock_release" "requested" audit else audit in
      let audit := if hasAuthorizedPayment order
                   then set_Audit_Detail "payment_void" "requested" audit else audit in
      in_store (RecordOrderCancelled proj event cancelled audit).

Definition HandlerForQueue (queue : string) : result (OutboxEvent -> M (HWorld S P) unit) :=
  if String.eqb queue InventoryReserveQueue then Ok reserveInventory
  else if String.eqb queue PaymentsAuthorizeQueue then Ok authorizePayment
  else if String.eqb queue ShipmentsCreateQueue then Ok createShipment
  else if String.eqb queue OrdersFinalizeQueue then Ok completeOrder
  else if String.eqb queue OrdersCancelQueue then Ok cancelOrder
  else if String.eqb queue NotificationsEmailQueue then Ok queueNotification
  else if String.eqb queue OrdersCompensateQueue then Ok recordCompensation
  else Err (Text ("unsupported worker queue " +:+ quote queue)).

End Handlers.
