(* ===== verification/Providers.v ===== *)
(** The payment and shipment providers of [internal/providers] (their
    interfaces and the fakes) and the adapters of
    [internal/fulfillment/provider_adapters.go] that feed them from an order. *)
From S2P Require Import Prelude GoStrings GoTime Model StateMachine Store Topology Handlers.

Record PaymentRequest := mkPaymentRequest {
  PaymentRequest_OrderID : string;
  PaymentRequest_MerchantID : string;
  PaymentRequest_Amount : Z;
  PaymentRequest_Currency : string;
  PaymentRequest_PaymentCredentialRef : string
}.

Record PaymentAuthorization := mkPaymentAuthorization {
  PaymentAuthorization_AuthorizationID : string;
  PaymentAuthorization_Status : string
}.

Record PaymentProvider (P : Type) := mkPaymentProvider {
  Authorize : PaymentRequest -> M P PaymentAuthorization;
  Void : string -> M P unit
}.

Arguments mkPaymentProvider {P}.
Arguments Authorize {P}.
Arguments Void {P}.

Record ShipmentRequest := mkShipmentRequest {
  ShipmentRequest_OrderID : string;
  ShipmentRequest_MerchantID : string;
  ShipmentRequest_AddressID : string
}.

Record ShipmentBooking := mkShipmentBooking {
  ShipmentBooking_ShipmentID : string;
  ShipmentBooking_Carrier : string;
  ShipmentBooking_TrackingNumber : string
}.

Record ShipmentProvider (P : Type) := mkShipmentProvider {
  CreateShipment : ShipmentRequest -> M P ShipmentBooking
}.

Arguments mkShipmentProvider {P}.
Arguments CreateShipment {P}.

(** ** The fakes *)

Definition FakePaymentProvider_Authorize {P} (request : PaymentRequest)
    : M P PaymentAuthorization :=
  if String.eqb (PaymentRequest_PaymentCredentialRef request) ""
  then throw (Text "payment credential reference is required")
  else ret (mkPaymentAuthorization ("pay_fake_" +:+ PaymentRequest_OrderID request) "authorized").

Definition FakePaymentProvider_Void {P} (authorizationID : string) : M P unit :=
  if String.eqb authorizationID "" then throw (Text "authorization id is required") else ret tt.

Definition FakePaymentProvider {P} : PaymentProvider P :=
  mkPaymentProvider FakePaymentProvider_Authorize FakePaymentProvider_Void.

Definition FakeShipmentProvider_CreateShipment {P} (request : ShipmentRequest)
    : M P ShipmentBooking :=
  if String.eqb (ShipmentRequest_AddressID request) ""
  then throw (Text "address id is required")
  else ret (mkShipmentBooking ("shp_fake_" +:+ ShipmentRequest_OrderID request) "fake-carrier"
              ("TRACK-" +:+ ShipmentRequest_OrderID request)).

Definition FakeShipmentProvider {P} : ShipmentProvider P :=
  mkShipmentProvider FakeShipmentProvider_CreateShipment.

(** ** The adapters *)

Section Adapters.
Context {S P : Type}.
Variable env : HEnv.

Definition in_ext {A} (c : M P A) : M (HWorld S P) A :=
  fun w => let (r, p) := c (hw_ext w) in
           (r, mkHWorld (hw_store w) p (hw_ticks w) (hw_draws w)).

(** The order reader and the provider, nil or not. *)
Definition required {A} (field : option A) (what : string) : M (HWorld S P) A :=
  match field with
  | Some a => ret a
  | None => throw (Text (what +:+ " is required"))
  end.

Definition payment_request (order : Order) (credential : string) : PaymentRequest :=
  mkPaymentRequest (Order_OrderID order) (Order_MerchantID order)
    (Money_Amount (Totals_Total (Order_Totals order))) (Order_Currency order) credential.

Definition ProviderPaymentAuthorizer_AuthorizePayment
    (Orders : option (string -> M S Order)) (Provider : option (PaymentProvider P))
    (event : OutboxEvent) : M (HWorld S P) Payment :=
  let! getOrder := required Orders "order reader" in
  let! provider := required Provider "payment provider" in
  let! order := in_store (getOrder (Event_OrderID event)) in
  match Order_Payment order with
  | None => throw (Text "payment credential reference is required")
  | Some p =>
      if String.eqb (Payment_CredentialRef p) ""
      then throw (Text "payment credential reference is required")
      else
        let! authorization := in_ext (Authorize provider
                                        (payment_request order (Payment_CredentialRef p))) in
        ret (mkPayment (Payment_Provider p) (PaymentAuthorization_Status authorization)
               (PaymentAuthorization_AuthorizationID authorization) (Payment_CredentialRef p))
  end.

Definition ProviderShipmentCreator_CreateShipment
    (Orders : option (string -> M S Order)) (Provider : option (ShipmentProvider P))
    (event : OutboxEvent) : M (HWorld S P) Shipment :=
  let! getOrder := required Orders "order reader" in
  let! provider := required Provider "shipment provider" in
  let! order := in_store (getOrder (Event_OrderID event)) in
  if String.eqb (Order_ShippingAddressRef order) ""
  then throw (Text "shipping address reference is required")
  else
    let! booking := in_ext (CreateShipment provider
                              (mkShipmentRequest (Order_OrderID order) (Order_MerchantID order)
                                 (Order_ShippingAddressRef order))) in
    let! now := Clock env in
    ret (mkShipment (ShipmentBooking_ShipmentID booking) "created"
           (ShipmentBooking_Carrier booking) (ShipmentBooking_TrackingNumber booking)
           [mkShipmentEvent now "created" "Shipment booking created by provider adapter."]).

End Adapters.
