(* ===== verification/Workers.v ===== *)
(** What the theory of the workers shares: the chain of events, and the
    interfaces of the handlers over the in-memory store. *)
From S2P Require Import Prelude GoStrings GoTime Model StateMachine Store MemoryStore.
From S2P Require Import MemoryInvariant Topology Handlers Providers.

Definition memory_projector : Projector MemoryStore :=
  mkProjector MemoryStore_RecordInventoryReserved MemoryStore_RecordInventoryRejected
    MemoryStore_RecordPaymentAuthorized MemoryStore_RecordPaymentFailed
    MemoryStore_RecordShipmentCreated MemoryStore_RecordShipmentFailed
    MemoryStore_RecordOrderCancelled MemoryStore_RecordNotificationQueued
    MemoryStore_RecordCompensation.

Definition memory_orders : OrderStatusUpdater MemoryStore :=
  mkOrderStatusUpdater MemoryStore_GetOrder MemoryStore_UpdateOrderStatus.

(** ** The chain of events *)

(** The event continues the causal chain of its source. *)
Definition descends (src next : OutboxEvent) : Prop :=
  Event_CausationID next = Event_MessageID src
  /\ Event_CorrelationID next = Event_CorrelationID src
  /\ Event_OrderID next = Event_OrderID src
  /\ Event_MerchantID next = Event_MerchantID src.

Lemma validate_identity src ty :
  validateEvent src ty = None -> Event_MessageID src <> "".
Proof.
  unfold validateEvent, validateEventIdentity. destruct (negb _); [done|].
  intros H E. by rewrite E in H.
Qed.

Lemma identity_id src : validateEventIdentity src = None -> Event_MessageID src <> "".
Proof. unfold validateEventIdentity. intros H E. by rewrite E in H. Qed.

Lemma descends_envelope src next payload :
  descends src next -> Event_MessageID src <> "" ->
  descends src (WithEnvelopeDefaults (set_Event_Payload payload next)).
Proof.
  intros (H1 & H2 & H3 & H4) Hid.
  destruct (envelope_fields (set_Event_Payload payload next))
    as (_ & _ & _ & Hm & Ho & Hc & Hca & _).
  unfold descends. rewrite Hm, Ho, Hc, Hca. simpl. rewrite H1.
  by apply String.eqb_neq in Hid as ->.
Qed.
