(* ===== verification/Saga.v ===== *)
(** Paths on which the fulfilment saga does not finish, shown on the in-memory
    store, and the match of queues, bindings and handlers. *)
From S2P Require Import Prelude GoStrings GoTime Model StateMachine Store Service MemoryStore.
From S2P Require Import MemoryInvariant MemoryLaws MemoryQueries Topology Handlers Providers Workers.

Section Saga.
Context {P : Type}.
Variable env : HEnv.

Notation W := (HWorld MemoryStore P).

(** The dependencies of the worker process, with the in-memory store in place of
    PostgreSQL. *)
Definition memory_dependencies : Dependencies MemoryStore P :=
  mkDependencies (Some memory_projector) (Some memory_orders) None
    (Some (ProviderPaymentAuthorizer_AuthorizePayment (Some MemoryStore_GetOrder)
             (Some FakePaymentProvider)))
    (Some (ProviderShipmentCreator_CreateShipment env (Some MemoryStore_GetOrder)
             (Some FakeShipmentProvider)))
    None.

Notation deps := memory_dependencies.

(** ** Running the pieces *)

Lemma new_id_run (d : Dependencies MemoryStore P) prefix (w : W) :
  deps_NewID d = None ->
  exists id w', NewID env d prefix w = (Ok (prefix +:+ "_" +:+ id), w')
                /\ hw_store w' = hw_store w /\ hw_ext w' = hw_ext w.
Proof.
  intros Hd. unfold NewID. rewrite Hd. unfold bind, entropy, Clock. simpl.
  destruct (he_entropy env (hw_draws w)); simpl; eauto.
Qed.

Lemma next_run_any (d : Dependencies MemoryStore P) src ty now (w : W) :
  deps_NewID d = None ->
  exists ev w', nextEventAt env d src ty now w = (Ok ev, w') /\ hw_store w' = hw_store w
    /\ hw_ext w' = hw_ext w
    /\ descends src ev /\ Event_EventType ev = ty /\ Event_MessageID ev <> "".
Proof.
  intros Hd. unfold nextEventAt, bind.
  destruct (new_id_run d "msg" w Hd) as (id & w' & -> & Hs & Hx).
  eexists _, w'. split; [reflexivity|]. by repeat split.
Qed.

Lemma next_run src ty now (w : W) :
  exists ev w', nextEventAt env deps src ty now w = (Ok ev, w') /\ hw_store w' = hw_store w
    /\ descends src ev /\ Event_EventType ev = ty /\ Event_MessageID ev <> "".
Proof.
  destruct (next_run_any deps src ty now w eq_refl) as (ev & w' & H1 & H2 & _ & H3). by exists ev, w'.
Qed.

(** The last event of the outbox, its order and what the event says. *)
Record at_event (w : W) (id : string) (o : Order) (e : OutboxEvent) (ty : string) : Prop := {
  ae_order : ms_orders (hw_store w) !! id = Some o;
  ae_last : last (ms_outbox (hw_store w)) = Some e;
  ae_type : Event_EventType e = ty;
  ae_identity : validateEventIdentity e = None;
  ae_id : Event_OrderID e = id
}.

Lemma at_event_validate w id o e ty : at_event w id o e ty -> validateEvent e ty = None.
Proof.
  intros [_ _ Ht Hi _]. unfold validateEvent. rewrite Ht, String.eqb_refl. done.
Qed.

Lemma get_order_store id o (w : W) :
  ms_orders (hw_store w) !! id = Some o ->
  in_store (MemoryStore_GetOrder id) w = (Ok o, w).
Proof.
  intros Ho. unfold in_store. rewrite get_order_run, Ho. by destruct w.
Qed.

(** What the shipment adapter returns for an order with an address. *)
Definition booked (o : Order) (at_ : Time) : Shipment :=
  mkShipment ("shp_fake_" +:+ Order_OrderID o) "created" "fake-carrier"
    ("TRACK-" +:+ Order_OrderID o)
    [mkShipmentEvent at_ "created" "Shipment booking created by provider adapter."].

(** ** Delivering events

    An event goes to the handler of every queue its routing key is bound to. *)
Definition dispatch (e : OutboxEvent) : M W unit :=
  for_each (fun queue => match HandlerForQueue env deps queue with
                         | Ok handler => handler e
                         | Err err => throw err
                         end)
    (routes DomainExchange (RoutingKey (Event_EventType e))).

(** An order whose four steps went through. *)
Record fulfilled (o o' : Order) : Prop := {
  ff_status : Order_Status o' = StatusCompleted;
  ff_snapshot : snapshot o' = snapshot o;
  ff_reserved : Forall (fun i => OrderItem_ReservationStatus i = "reserved") (Order_Items o');
  ff_payment : exists p, Order_Payment o' = Some p /\ Payment_Status p = "authorized"
                         /\ Payment_AuthorizationID p = "pay_fake_" +:+ Order_OrderID o;
  ff_shipment : exists sh, Order_Shipment o' = Some sh
                           /\ Shipment_ShipmentID sh = "shp_fake_" +:+ Order_OrderID o
}.

Lemma compensate_shipment_run w id o e :
  at_event w id o e "shipment.failed" -> Order_Status o = StatusPaymentAuthorized ->
  exists w' o',
    recordCompensation env deps e w = (Ok tt, w')
    /\ ms_orders (hw_store w') !! id = Some o'
    /\ Order_Status o' = StatusCancellationPending
    /\ hasReservedInventory o' = false /\ hasAuthorizedPayment o' = false
    /\ ms_outbox (hw_store w') = ms_outbox (hw_store w).
Proof.
  intros Hat Hst. unfold recordCompensation, projector, bind at 1. simpl.
  rewrite (ae_type _ _ _ _ _ Hat). simpl. unfold bind at 1. rewrite (ae_identity _ _ _ _ _ Hat).
  simpl. unfold bind, Clock, in_store, MemoryStore_RecordCompensation, bind, lookup_order. simpl.
  rewrite (ae_id _ _ _ _ _ Hat), (ae_order _ _ _ _ _ Hat). simpl.
  rewrite Hst, (ae_type _ _ _ _ _ Hat). simpl.
  eexists _, _. split; [reflexivity|]. split; [apply lookup_insert_eq|].
  split; [done|]. split; [apply release_items_free|]. split; [apply void_payment_free|done].
Qed.

Lemma notify_run (w : W) id o e :
  ms_orders (hw_store w) !! id = Some o -> Event_OrderID e = id ->
  validateEventIdentity e = None -> isNotificationEvent (Event_EventType e) = true ->
  exists w', queueNotification env deps e w = (Ok tt, w')
    /\ ms_orders (hw_store w') = ms_orders (hw_store w)
    /\ ms_outbox (hw_store w') = ms_outbox (hw_store w).
Proof.
  intros Ho He Hi Hn. unfold queueNotification, projector, bind at 1. simpl. rewrite Hn, Hi.
  simpl. unfold bind, Clock, in_store, MemoryStore_RecordNotificationQueued, bind, lookup_order.
  simpl. rewrite He, Ho. simpl. eexists. done.
Qed.

(** The compensation of a failed shipment stops half way: delivering
    [shipment.failed] to both of its queues succeeds, frees the stock and the
    payment and moves the order to [cancellation_pending], but emits no event,
    so nothing in the outbox ever asks for the order to be finalized. *)
Theorem shipment_failure_stalls w id o e :
  at_event w id o e "shipment.failed" -> Order_Status o = StatusPaymentAuthorized ->
  exists w' o',
    dispatch e w = (Ok tt, w')
    /\ ms_orders (hw_store w') !! id = Some o'
    /\ Order_Status o' = StatusCancellationPending
    /\ hasReservedInventory o' = false /\ hasAuthorizedPayment o' = false
    /\ ms_outbox (hw_store w') = ms_outbox (hw_store w).
Proof.
  intros Hat Hst. unfold dispatch. rewrite (ae_type _ _ _ _ _ Hat).
  assert (routes DomainExchange (RoutingKey "shipment.failed")
          = [OrdersCompensateQueue; NotificationsEmailQueue]) as -> by (vm_compute; reflexivity).
  destruct (compensate_shipment_run w id o e Hat Hst) as (w1 & o1 & R1 & Ho1 & Hs1 & Hr1 & Hp1 & X1).
  destruct (notify_run w1 id o1 e Ho1 (ae_id _ _ _ _ _ Hat) (ae_identity _ _ _ _ _ Hat))
    as (w2 & R2 & Ho2 & X2); [by rewrite (ae_type _ _ _ _ _ Hat)|].
  exists w2, o1. split.
  - simpl. unfold bind. by rewrite R1, R2.
  - by rewrite Ho2, X2, X1.
Qed.

(** A cancel request that reaches the worker after the order completed is
    never resolved: the worker asks for manual review, which the life cycle does
    not allow from [completed], so the delivery fails and changes nothing. *)
Theorem completed_order_review_refused w id o e :
  at_event w id o e "order.cancel_requested" -> Order_Status o = StatusCompleted ->
  exists err w', cancelOrder env deps e w = (Err err, w')
    /\ error_is err "invalid state transition" = true /\ hw_store w' = hw_store w.
Proof.
  intros Hat Hst. unfold cancelOrder, orders, bind at 1. simpl.
  rewrite (at_event_validate _ _ _ _ _ Hat). unfold bind at 1, require, ret at 1. simpl.
  unfold bind at 1. rewrite (ae_id _ _ _ _ _ Hat), (get_order_store _ _ _ (ae_order _ _ _ _ _ Hat)).
  unfold requiresManualReview. rewrite Hst. simpl. unfold bind at 1, Clock. simpl.
  set (w1 := mkHWorld _ _ _ _).
  destruct (next_run e "order.manual_review_required" (he_clock env (hw_ticks w)) w1)
    as (ev & w2 & Hn & Hs & _).
  unfold bind at 1. rewrite Hn. unfold bind, in_store. rewrite Hs. simpl.
  rewrite update_run, (ae_order _ _ _ _ _ Hat), Hst.
  destruct (ValidateOrderTransition StatusCompleted StatusManualReview) as [err|] eqn:Hv.
  - eexists err, _. split; [reflexivity|]. split; [by eapply validate_error|done].
  - apply validate_ok_allowed in Hv as [[? _]|Hm]; [done|].
    by apply (terminal_no_move StatusCompleted) in Hm.
Qed.

End Saga.

(** ** A provider that remembers its bookings *)

Definition recording_provider : ShipmentProvider (list ShipmentRequest) :=
  mkShipmentProvider (fun r sent =>
    let (b, sent) := FakeShipmentProvider_CreateShipment r sent in (b, sent ++ [r])).

Definition booking_dependencies (env : HEnv)
    : Dependencies MemoryStore (list ShipmentRequest) :=
  mkDependencies (Some memory_projector) (Some memory_orders) None None
    (Some (ProviderShipmentCreator_CreateShipment env (Some MemoryStore_GetOrder)
             (Some recording_provider)))
    None.

(** The shipment worker books before it checks: for an order whose
    cancellation was requested meanwhile, the carrier gets a booking, the handler
    then fails because the order may not ship any more, and the store keeps no
    trace of the booking, so the retry books again. *)
Theorem shipment_booked_before_status_check env (w : HWorld MemoryStore (list ShipmentRequest))
    id o e :
  at_event w id o e "payment.authorized" -> Order_Status o = StatusCancellationPending ->
  Order_ShippingAddressRef o <> "" ->
  exists err w',
    createShipment env (booking_dependencies env) e w = (Err err, w')
    /\ error_is err "invalid state transition" = true
    /\ hw_store w' = hw_store w
    /\ hw_ext w' = hw_ext w ++ [mkShipmentRequest (Order_OrderID o) (Order_MerchantID o)
                                  (Order_ShippingAddressRef o)].
Proof.
  intros Hat Hst Ha. unfold createShipment, projector, bind at 1. simpl.
  rewrite (at_event_validate _ _ _ _ _ Hat). unfold bind at 1, require, ret. simpl.
  unfold bind at 1, Clock at 1. simpl. set (w1 := mkHWorld _ _ _ _). unfold bind at 1, attempt.
  unfold ProviderShipmentCreator_CreateShipment, required, bind at 1 2. simpl. unfold bind at 1.
  rewrite (ae_id _ _ _ _ _ Hat).
  assert (Ho1 : ms_orders (hw_store w1) !! id = Some o) by exact (ae_order _ _ _ _ _ Hat).
  rewrite (get_order_store _ _ _ Ho1). apply String.eqb_neq in Ha. rewrite Ha.
  unfold bind at 1, in_ext. simpl. unfold FakeShipmentProvider_CreateShipment. simpl. rewrite Ha.
  simpl. set (w2 := mkHWorld _ _ _ _).
  destruct (next_run_any env (booking_dependencies env) e "shipment.created"
              (he_clock env (hw_ticks w)) w2 eq_refl) as (ev & w3 & Hn & Hs & Hx & _).
  unfold bind at 1. rewrite Hn. unfold bind at 1. simpl. unfold in_store. rewrite Hs. simpl.
  unfold MemoryStore_RecordShipmentCreated, bind, lookup_order.
  rewrite (ae_id _ _ _ _ _ Hat), (ae_order _ _ _ _ _ Hat), Hst.
  destruct (ValidateOrderTransition StatusCancellationPending StatusShipmentCreated)
    as [err|] eqn:Hv; [|by vm_compute in Hv].
  eexists err, _. split; [reflexivity|]. split; [by eapply validate_error|]. by rewrite Hx.
Qed.

(** ** Queues and handlers *)

(** An event of another type is refused before anything is touched. *)
Lemma validate_other_type e ty : Event_EventType e <> ty -> exists err, validateEvent e ty = Some err.
Proof. intros H. unfold validateEvent. apply String.eqb_neq in H as ->. simpl. eauto. Qed.

Section Guards.
Context {S P : Type}.
Variable env : HEnv.
Variable deps : Dependencies S P.

Definition refuses (handler : OutboxEvent -> M (HWorld S P) unit) (keys : list string) : Prop :=
  forall e w, Event_EventType e ∉ keys -> exists err, handler e w = (Err err, w).

Lemma guarded_refuses {A} (dep : M (HWorld S P) A) ty (k : A -> OutboxEvent -> M (HWorld S P) unit) :
  (forall w, exists r, dep w = (r, w)) ->
  refuses (fun e => let! a := dep in let! _ := require (validateEvent e ty) in k a e) [ty].
Proof.
  intros Hdep e w Hty. unfold bind at 1. destruct (Hdep w) as [[a|err] ->]; [|by eexists].
  destruct (validate_other_type e ty) as [err Hv]; [set_solver|].
  unfold bind. rewrite Hv. by eexists.
Qed.

Lemma projector_pure w : exists r, projector deps w = (r, w).
Proof. unfold projector. destruct (deps_Projector deps); by eexists. Qed.

Lemma orders_pure w : exists r, orders deps w = (r, w).
Proof. unfold orders. destruct (deps_Orders deps); by eexists. Qed.

Lemma notification_refuses :
  refuses (queueNotification env deps)
    ["order.completed"; "order.cancelled"; "order.manual_review_required";
     "inventory.rejected"; "payment.failed"; "shipment.failed"].
Proof.
  intros e w Hty. unfold queueNotification, bind at 1.
  destruct (projector_pure w) as [[p|err] ->]; [|by eexists].
  apply one_of_false in Hty. unfold isNotificationEvent. rewrite Hty. by eexists.
Qed.

Lemma compensation_refuses :
  refuses (recordCompensation env deps) ["inventory.rejected"; "payment.failed"; "shipment.failed"].
Proof.
  intros e w Hty. unfold recordCompensation, bind at 1.
  destruct (projector_pure w) as [[p|err] ->]; [|by eexists].
  rewrite !not_elem_of_cons in Hty. destruct Hty as (H1 & H2 & H3 & _).
  apply String.eqb_neq in H1, H2, H3. unfold compensationPlan. rewrite H1, H2, H3. by eexists.
Qed.

(** Queues, bindings and handlers agree: exactly the queues of the topology
    have a handler, and each handler refuses, without touching anything, every
    event whose type is not one of the routing keys bound to its queue. *)
Theorem handlers_match_bindings queue :
  match HandlerForQueue env deps queue with
  | Ok handler => exists t, t ∈ QueueTopologies /\ Topology_Queue t = queue
                            /\ refuses handler (Topology_RoutingKeys t)
  | Err _ => queue ∉ QueueNames /\ Forall (fun t => Topology_Queue t <> queue) QueueTopologies
  end.
Proof.
  unfold HandlerForQueue.
  repeat (match goal with |- context [if String.eqb queue ?q then _ else _] =>
            destruct (String.eqb_spec queue q); [subst queue|] end).
  - eexists. split; [by apply (list_elem_of_lookup_2 _ 0%nat)|].
    split; [done|]. apply guarded_refuses, projector_pure.
  - eexists. split; [by apply (list_elem_of_lookup_2 _ 1%nat)|].
    split; [done|]. apply guarded_refuses, projector_pure.
  - eexists. split; [by apply (list_elem_of_lookup_2 _ 2%nat)|].
    split; [done|]. apply guarded_refuses, projector_pure.
  - eexists. split; [by apply (list_elem_of_lookup_2 _ 3%nat)|].
    split; [done|]. apply guarded_refuses, orders_pure.
  - eexists. split; [by apply (list_elem_of_lookup_2 _ 4%nat)|].
    split; [done|]. apply guarded_refuses, orders_pure.
  - eexists. split; [by apply (list_elem_of_lookup_2 _ 6%nat)|].
    split; [done|]. apply notification_refuses.
  - eexists. split; [by apply (list_elem_of_lookup_2 _ 5%nat)|].
    split; [done|]. apply compensation_refuses.
  - split.
    + unfold QueueNames. rewrite !not_elem_of_cons. split_and!; try done. apply not_elem_of_nil.
    + unfold QueueTopologies. repeat constructor; simpl; congruence.
Qed.

End Guards.

(** ** Instances *)

Definition sample_henv : HEnv := mkHEnv (fun _ => 0) (fun n => Some (bytes [Z.of_nat n])).

Definition event_of (ty : string) : OutboxEvent :=
  mkOutboxEvent "msg_9" ty 0 0 "" "mer_1" "ord_1" "corr-1" "msg_8" ∅.

(** One order in a given status, and an event about it. *)
Definition world_at {P} (ext : P) (st : OrderStatus) (ty : string) : HWorld MemoryStore P :=
  mkHWorld (appendOutboxEvent (event_of ty)
              (put_order "ord_1" (set_Order_Status st sample_order) NewMemoryStore)) ext 0%nat 0%nat.

Lemma world_at_event {P} (ext : P) st ty :
  at_event (world_at ext st ty) "ord_1" (set_Order_Status st sample_order)
    (WithEnvelopeDefaults (event_of ty)) ty.
Proof.
  destruct (envelope_fields (event_of ty)) as (Hm & Ht & _ & Hme & Ho & Hc & Hca & _).
  split; simpl.
  - apply lookup_insert_eq.
  - done.
  - by rewrite Ht.
  - unfold validateEventIdentity. by rewrite Hm, Hc, Hca, Ho, Hme.
  - by rewrite Ho.
Qed.

Lemma sample_address : Order_ShippingAddressRef sample_order <> "".
Proof. discriminate. Qed.

Lemma shipment_failure_stalls_witness :
  exists w', dispatch sample_henv (WithEnvelopeDefaults (event_of "shipment.failed"))
               (world_at tt StatusPaymentAuthorized "shipment.failed") = (Ok tt, w').
Proof.
  destruct (shipment_failure_stalls sample_henv
              (world_at tt StatusPaymentAuthorized "shipment.failed") "ord_1" _ _
              (world_at_event tt StatusPaymentAuthorized "shipment.failed") eq_refl)
    as (w' & _ & H & _).
  exists w'. exact H.
Defined.

Lemma completed_order_review_refused_witness :
  exists err w', cancelOrder sample_henv (memory_dependencies sample_henv)
    (WithEnvelopeDefaults (event_of "order.cancel_requested"))
    (world_at tt StatusCompleted "order.cancel_requested") = (Err err, w').
Proof.
  destruct (completed_order_review_refused sample_henv
              (world_at tt StatusCompleted "order.cancel_requested") "ord_1" _ _
              (world_at_event tt StatusCompleted "order.cancel_requested") eq_refl)
    as (err & w' & H & _).
  exists err, w'. exact H.
Defined.

Lemma shipment_booked_before_status_check_witness :
  exists err w', createShipment sample_henv (booking_dependencies sample_henv)
      (WithEnvelopeDefaults (event_of "payment.authorized"))
      (world_at [] StatusCancellationPending "payment.authorized") = (Err err, w')
    /\ length (hw_ext w') = 1%nat.
Proof.
  destruct (shipment_booked_before_status_check sample_henv
              (world_at [] StatusCancellationPending "payment.authorized") "ord_1" _ _
              (world_at_event [] StatusCancellationPending "payment.authorized") eq_refl
              sample_address) as (err & w' & H & _ & _ & Hx).
  exists err, w'. split; [exact H|]. rewrite Hx. reflexivity.
Defined.
