(* ===== verification/Database.v ===== *)
(** The PostgreSQL database behind [internal/postgres]: the tables and
    constraints of [internal/postgres/migrations/*.sql], and the connection the
    store speaks to.

    A table is a finite map from its primary key, or a list in insertion order
    where a serial column or the order of rows matters.  A statement is a
    function from the database to its result and the database it leaves, or to
    the constraint violation that refuses it; transactions run one after
    another here, and interleaved in [Interleaving].  What the server and the wire add is the environment's: every call
    to the driver may fail, before or after the server carried it out, the
    order of rows a statement leaves open is a parameter, and so are the JSON
    codec, the server's clock and the wording of its messages. *)
From Stdlib Require Import Sorting.Sorted.
From S2P Require Import Prelude GoStrings GoTime Model StateMachine.

(** ** Rows *)

Record OrderRow := mkOrderRow {
  orders_merchant_id : string;
  orders_external_order_id : string;
  orders_status : string;
  orders_currency : string;
  orders_subtotal_amount : Z;
  orders_shipping_amount : Z;
  orders_total_amount : Z;
  orders_payment_provider : option string;
  orders_payment_status : option string;
  orders_payment_authorization_id : option string;
  orders_payment_credential_ref : option string;
  orders_shipping_address_ref : option string;
  orders_created_at : Time;
  orders_updated_at : Time;
  orders_version : Z
}.

Record ItemRow := mkItemRow {
  item_order_id : string;
  item_sku : string;
  item_quantity : Z;
  item_unit_price_amount : Z;
  item_unit_price_currency : string;
  item_reservation_status : string
}.

(** Keyed by order and SKU. *)
Record ReservationRow := mkReservationRow {
  res_warehouse_id : option string;
  res_quantity : Z;
  res_status : string;
  res_reserved_at : Time;
  res_released_at : option Time
}.

(** Keyed by order, which is unique; the primary key is a column. *)
Record AuthorizationRow := mkAuthorizationRow {
  auth_authorization_id : string;
  auth_merchant_id : string;
  auth_provider : string;
  auth_status : string;
  auth_amount : Z;
  auth_currency : string;
  auth_authorized_at : Time;
  auth_voided_at : option Time
}.

(** Keyed by order, which is unique; the primary key is a column. *)
Record ShipmentRow := mkShipmentRow {
  ship_shipment_id : string;
  ship_merchant_id : string;
  ship_carrier : string;
  ship_tracking_number : string;
  ship_status : string;
  ship_created_at : Time;
  ship_updated_at : Time
}.

Record OutboxRow := mkOutboxRow {
  out_message_id : string;
  out_correlation_id : string;
  out_causation_id : string;
  out_event_type : string;
  out_order_id : string;
  out_merchant_id : string;
  out_payload : string;
  out_occurred_at : Time;
  out_published_at : option Time;
  out_claimed_by : option string;
  out_claimed_until : option Time
}.

Record AuditRow := mkAuditRow {
  aud_merchant_id : string;
  aud_order_id : option string;
  aud_actor_type : string;
  aud_actor_id : string;
  aud_action : string;
  aud_correlation_id : string;
  aud_created_at : Time;
  aud_details : string
}.

(** Keyed by source message. *)
Record NotificationRow := mkNotificationRow {
  ntf_order_id : string;
  ntf_merchant_id : string;
  ntf_source_event_type : string;
  ntf_channel : string;
  ntf_status : string;
  ntf_correlation_id : string;
  ntf_created_at : Time
}.

(** Keyed by source message. *)
Record CompensationRow := mkCompensationRow {
  cmp_order_id : string;
  cmp_merchant_id : string;
  cmp_source_event_type : string;
  cmp_action : string;
  cmp_target_order_status : string;
  cmp_status : string;
  cmp_correlation_id : string;
  cmp_created_at : Time
}.

Record WarehouseRow := mkWarehouseRow {
  wh_merchant_id : string;
  wh_code : string;
  wh_name : string;
  wh_status : string
}.

(** Keyed by the serial [id]. *)
Record InventoryRow := mkInventoryRow {
  inv_warehouse_id : string;
  inv_sku : string;
  inv_available_quantity : Z;
  inv_reserved_quantity : Z;
  inv_updated_at : Time
}.

Record Database := mkDatabase {
  t_merchants : gmap string string;
  t_orders : gmap string OrderRow;
  t_order_items : list ItemRow;
  t_idempotency_keys : gmap (string * string) string;
  t_outbox_events : list OutboxRow;
  t_inbox_messages : gmap (string * string) string;
  t_audit_logs : list AuditRow;
  t_stock_reservations : gmap (string * string) ReservationRow;
  t_payment_authorizations : gmap string AuthorizationRow;
  t_shipments : gmap string ShipmentRow;
  t_notification_events : gmap string NotificationRow;
  t_compensation_events : gmap string CompensationRow;
  t_warehouses : gmap string WarehouseRow;
  t_inventory_items : gmap Z InventoryRow
}.

(** ** A new version of one table *)

Definition set_merchants (v : gmap string string) (db : Database) : Database :=
  mkDatabase v (t_orders db) (t_order_items db) (t_idempotency_keys db) (t_outbox_events db)
    (t_inbox_messages db) (t_audit_logs db) (t_stock_reservations db)
    (t_payment_authorizations db) (t_shipments db) (t_notification_events db)
    (t_compensation_events db) (t_warehouses db) (t_inventory_items db).

Definition set_orders (v : gmap string OrderRow) (db : Database) : Database :=
  mkDatabase (t_merchants db) v (t_order_items db) (t_idempotency_keys db) (t_outbox_events db)
    (t_inbox_messages db) (t_audit_logs db) (t_stock_reservations db)
    (t_payment_authorizations db) (t_shipments db) (t_notification_events db)
    (t_compensation_events db) (t_warehouses db) (t_inventory_items db).

Definition set_order_items (v : list ItemRow) (db : Database) : Database :=
  mkDatabase (t_merchants db) (t_orders db) v (t_idempotency_keys db) (t_outbox_events db)
    (t_inbox_messages db) (t_audit_logs db) (t_stock_reservations db)
    (t_payment_authorizations db) (t_shipments db) (t_notification_events db)
    (t_compensation_events db) (t_warehouses db) (t_inventory_items db).

Definition set_idempotency_keys (v : gmap (string * string) string) (db : Database) : Database :=
  mkDatabase (t_merchants db) (t_orders db) (t_order_items db) v (t_outbox_events db)
    (t_inbox_messages db) (t_audit_logs db) (t_stock_reservations db)
    (t_payment_authorizations db) (t_shipments db) (t_notification_events db)
    (t_compensation_events db) (t_warehouses db) (t_inventory_items db).

Definition set_outbox_events (v : list OutboxRow) (db : Database) : Database :=
  mkDatabase (t_merchants db) (t_orders db) (t_order_items db) (t_idempotency_keys db) v
    (t_inbox_messages db) (t_audit_logs db) (t_stock_reservations db)
    (t_payment_authorizations db) (t_shipments db) (t_notification_events db)
    (t_compensation_events db) (t_warehouses db) (t_inventory_items db).

Definition set_inbox_messages (v : gmap (string * string) string) (db : Database) : Database :=
  mkDatabase (t_merchants db) (t_orders db) (t_order_items db) (t_idempotency_keys db)
    (t_outbox_events db) v (t_audit_logs db) (t_stock_reservations db)
    (t_payment_authorizations db) (t_shipments db) (t_notification_events db)
    (t_compensation_events db) (t_warehouses db) (t_inventory_items db).

Definition set_audit_logs (v : list AuditRow) (db : Database) : Database :=
  mkDatabase (t_merchants db) (t_orders db) (t_order_items db) (t_idempotency_keys db)
    (t_outbox_events db) (t_inbox_messages db) v (t_stock_reservations db)
    (t_payment_authorizations db) (t_shipments db) (t_notification_events db)
    (t_compensation_events db) (t_warehouses db) (t_inventory_items db).

Definition set_stock_reservations (v : gmap (string * string) ReservationRow) (db : Database) : Database :=
  mkDatabase (t_merchants db) (t_orders db) (t_order_items db) (t_idempotency_keys db)
    (t_outbox_events db) (t_inbox_messages db) (t_audit_logs db) v (t_payment_authorizations db)
    (t_shipments db) (t_notification_events db) (t_compensation_events db) (t_warehouses db)
    (t_inventory_items db).

Definition set_payment_authorizations (v : gmap string AuthorizationRow) (db : Database) : Database :=
  mkDatabase (t_merchants db) (t_orders db) (t_order_items db) (t_idempotency_keys db)
    (t_outbox_events db) (t_inbox_messages db) (t_audit_logs db) (t_stock_reservations db) v
    (t_shipments db) (t_notification_events db) (t_compensation_events db) (t_warehouses db)
    (t_inventory_items db).

Definition set_shipments (v : gmap string ShipmentRow) (db : Database) : Database :=
  mkDatabase (t_merchants db) (t_orders db) (t_order_items db) (t_idempotency_keys db)
    (t_outbox_events db) (t_inbox_messages db) (t_audit_logs db) (t_stock_reservations db)
    (t_payment_authorizations db) v (t_notification_events db) (t_compensation_events db)
    (t_warehouses db) (t_inventory_items db).

Definition set_notification_events (v : gmap string NotificationRow) (db : Database) : Database :=
  mkDatabase (t_merchants db) (t_orders db) (t_order_items db) (t_idempotency_keys db)
    (t_outbox_events db) (t_inbox_messages db) (t_audit_logs db) (t_stock_reservations db)
    (t_payment_authorizations db) (t_shipments db) v (t_compensation_events db)
    (t_warehouses db) (t_inventory_items db).

Definition set_compensation_events (v : gmap string CompensationRow) (db : Database) : Database :=
  mkDatabase (t_merchants db) (t_orders db) (t_order_items db) (t_idempotency_keys db)
    (t_outbox_events db) (t_inbox_messages db) (t_audit_logs db) (t_stock_reservations db)
    (t_payment_authorizations db) (t_shipments db) (t_notification_events db) v
    (t_warehouses db) (t_inventory_items db).

Definition set_inventory_items (v : gmap Z InventoryRow) (db : Database) : Database :=
  mkDatabase (t_merchants db) (t_orders db) (t_order_items db) (t_idempotency_keys db)
    (t_outbox_events db) (t_inbox_messages db) (t_audit_logs db) (t_stock_reservations db)
    (t_payment_authorizations db) (t_shipments db) (t_notification_events db)
    (t_compensation_events db) (t_warehouses db) v.

(** ** Column types and constraints *)

(** [TIMESTAMPTZ] keeps microseconds; the driver cuts the rest off. *)
Definition timestamptz (t : Time) : Time := t - t mod 1000.

(** The value of an [INTEGER] column, or the server's refusal. *)
Definition int4 (z : Z) : bool := (- 2 ^ 31 <=? z) && (z <=? 2 ^ 31 - 1).

Fixpoint blanks (s : string) : bool :=
  match s with
  | EmptyString => true
  | String c s => Ascii.eqb c " "%char && blanks s
  end.

(** [CHAR(3)] on one-byte characters: shorter text is padded with blanks, and
    only blanks may be cut off. *)
Definition char3 (s : string) : option string :=
  match s with
  | String a (String b (String c rest)) =>
      if blanks rest then Some (String a (String b (String c ""))) else None
  | String a (String b "") => Some (String a (String b " "))
  | String a "" => Some (String a "  ")
  | _ => Some "   "
  end.

(** The [CHECK] constraints of migrations 011 and 013. *)
Definition chk_orders_status (status : string) : bool := IsValidOrderStatus status.

Definition chk_orders_payment_status (status : option string) : bool :=
  match status with
  | None => true
  | Some s => one_of s ["pending_authorization"; "authorized"; "failed"; "voided"]
  end.

Definition chk_order_items_reservation_status (status : string) : bool :=
  one_of status ["pending"; "reserved"; "rejected"; "released"].

Definition chk_payment_authorizations_status (status : string) : bool :=
  one_of status ["authorized"; "voided"].

Definition chk_shipments_status (status : string) : bool :=
  one_of status ["created"; "failed"].

(** ** The environment *)

Record PgEnv := mkPgEnv {
  (** the n-th call to the driver fails; the flag tells whether the server had
      carried the call out *)
  pg_fault : nat -> option (bool * error);
  (** the server's [now()] at the n-th call *)
  pg_now : nat -> Time;
  (** the text of a server error, from its code and constraint *)
  pg_message : string -> string -> string;
  (** the rows of an [ORDER BY occurred_at], ties included *)
  pg_by_occurred_at : list OutboxRow -> list OutboxRow;
  (** the rows of an [UPDATE .. RETURNING] in the order the server sends them *)
  pg_returning : list OutboxRow -> list OutboxRow;
  (** [json.Marshal] and [json.Unmarshal] of an event and of audit details *)
  pg_marshal : OutboxEvent -> result string;
  pg_unmarshal : string -> result OutboxEvent;
  pg_marshal_details : gmap string string -> result string;
  pg_unmarshal_details : string -> result (gmap string string);
  (** a text stored in a [JSONB] column, as it is read back *)
  pg_jsonb : string -> result string
}.

(** The same environment without failing calls. *)
Definition without_faults (env : PgEnv) : PgEnv :=
  mkPgEnv (fun _ => None) (pg_now env) (pg_message env) (pg_by_occurred_at env)
    (pg_returning env) (pg_marshal env) (pg_unmarshal env) (pg_marshal_details env)
    (pg_unmarshal_details env) (pg_jsonb env).

(** What the server promises on the order of rows. *)
Class PgOrdering (env : PgEnv) : Prop := {
  pg_sorted_rows rows :
    Permutation (pg_by_occurred_at env rows) rows
    /\ StronglySorted (fun r r' => out_occurred_at r <= out_occurred_at r')
         (pg_by_occurred_at env rows);
  pg_returned_rows rows : Permutation (pg_returning env rows) rows
}.

(** ** The connection *)

Record Conn := mkConn {
  conn_db : Database;
  (** how many calls were made *)
  conn_calls : nat
}.

Section Connection.
Variable env : PgEnv.

Definition pg_error (code constraint : string) : error :=
  PgError code (pg_message env code constraint).

Definition unique_violation (constraint : string) : error := pg_error "23505" constraint.

Definition foreign_key_violation (constraint : string) : error := pg_error "23503" constraint.

Definition check_violation (constraint : string) : error := pg_error "23514" constraint.

Definition out_of_range (column : string) : error := pg_error "22003" column.

Definition too_long (column : string) : error := pg_error "22001" column.

(** One call to the driver that runs one statement. *)
Definition call {A} (statement : Database -> result (A * Database)) : M Conn A :=
  fun c =>
    let n := Datatypes.S (conn_calls c) in
    match pg_fault env (conn_calls c), statement (conn_db c) with
    | None, Ok (a, db) => (Ok a, mkConn db n)
    | None, Err e => (Err e, mkConn (conn_db c) n)
    | Some (true, e), Ok (_, db) => (Err e, mkConn db n)
    | Some (_, e), _ => (Err e, mkConn (conn_db c) n)
    end.

Definition query {A} (f : Database -> A) : M Conn A := call (fun db => Ok (f db, db)).

(** A write that no constraint can refuse. *)
Definition exec (f : Database -> Database) : M Conn unit := call (fun db => Ok (tt, f db)).

(** [rows.Err()] after the loop over the rows. *)
Definition iterate : M Conn unit := query (fun _ => tt).

(** [BeginTx], the body with its deferred [Rollback], and [Commit], whose error
    the body labels.  A body that fails leaves the database as it was; a commit
    that fails may or may not have taken place. *)
Definition transaction {A} (begin_label : string) (body : M Conn (string * A)) : M Conn A :=
  fun c =>
    match pg_fault env (conn_calls c) with
    | Some (_, e) => (Err (Wrap begin_label e ""), mkConn (conn_db c) (Datatypes.S (conn_calls c)))
    | None =>
        match body (mkConn (conn_db c) (Datatypes.S (conn_calls c))) with
        | (Err e, c') => (Err e, mkConn (conn_db c) (Datatypes.S (conn_calls c')))
        | (Ok (commit_label, a), c') =>
            let n := Datatypes.S (conn_calls c') in
            match pg_fault env (conn_calls c') with
            | None => (Ok a, mkConn (conn_db c') n)
            | Some (committed, e) =>
                (Err (Wrap commit_label e ""),
                 mkConn (if committed then conn_db c' else conn_db c) n)
            end
        end
    end.

End Connection.
