(* ===== verification/PgStore.v ===== *)
(** The PostgreSQL store, [internal/postgres/store.go]: every query and
    transaction of the store on the database of [Database].

    A method that runs statements directly on the pool is a sequence of calls;
    a method that opens a transaction is [transaction] around its body.  The
    spans around the methods are in [PgSpans]. *)
From S2P Require Import Prelude GoStrings GoTime Model StateMachine MemoryStore Database.

Section PgStore.
Variable env : PgEnv.

(** ** Helpers *)

Definition nullableString (value : string) : option string :=
  if String.eqb value "" then None else Some value.

(** The columns [nullablePaymentProvider] and its siblings read off an order. *)
Definition nullable_payment (field : Payment -> string) (order : Order) : option string :=
  match Order_Payment order with
  | None => None
  | Some p => nullableString (field p)
  end.

Definition isUniqueViolation (e : error) : bool :=
  match error_as_pg e with
  | Some code => String.eqb code "23505"
  | None => false
  end.

Definition upsertMerchant (merchantID : string) : M Conn unit :=
  annotate "upsert merchant: " (exec env (fun db =>
    match t_merchants db !! merchantID with
    | Some _ => db
    | None => set_merchants (<[merchantID := merchantID]> (t_merchants db)) db
    end)).

Definition orderByIdempotency (merchantID idempotencyKey : string) : M Conn (option string) :=
  annotate "lookup idempotency key: "
    (query env (fun db => t_idempotency_keys db !! (merchantID, idempotencyKey))).

(** *** Outbox and audit rows *)

Definition outbox_row (event : OutboxEvent) (payload : string) : OutboxRow :=
  mkOutboxRow (Event_MessageID event) (Event_CorrelationID event) (Event_CausationID event)
    (Event_EventType event) (Event_OrderID event) (Event_MerchantID event) payload
    (timestamptz (Event_OccurredAt event)) None None None.

Definition insert_outbox_row (event : OutboxEvent) (payload : string) (db : Database)
    : result (unit * Database) :=
  match pg_jsonb env payload with
  | Err e => Err e
  | Ok payload =>
      if existsb (fun r => String.eqb (out_message_id r) (Event_MessageID event))
           (t_outbox_events db)
      then Err (unique_violation env "outbox_events_pkey")
      else match t_orders db !! Event_OrderID event with
           | None => Err (foreign_key_violation env "outbox_events_order_id_fkey")
           | Some _ =>
               Ok (tt, set_outbox_events (t_outbox_events db ++ [outbox_row event payload]) db)
           end
  end.

Definition insertOutboxEvent (event : OutboxEvent) : M Conn unit :=
  let event := WithEnvelopeDefaults event in
  match pg_marshal env event with
  | Err e => throw (Wrap "marshal outbox event: " e "")
  | Ok payload => annotate "insert outbox event: " (call env (insert_outbox_row event payload))
  end.

Definition audit_row (audit : AuditLog) (details : string) : AuditRow :=
  mkAuditRow (Audit_MerchantID audit) (nullableString (Audit_OrderID audit))
    (Audit_ActorType audit) (Audit_ActorID audit) (Audit_Action audit)
    (Audit_CorrelationID audit) (timestamptz (Audit_CreatedAt audit)) details.

Definition insert_audit_row (audit : AuditLog) (details : string) (db : Database)
    : result (unit * Database) :=
  match pg_jsonb env details with
  | Err e => Err e
  | Ok details => Ok (tt, set_audit_logs (t_audit_logs db ++ [audit_row audit details]) db)
  end.

Definition insertAuditLog (audit : AuditLog) : M Conn unit :=
  match pg_marshal_details env (Audit_Details audit) with
  | Err e => throw (Wrap "marshal audit details: " e "")
  | Ok details => annotate "insert audit log: " (call env (insert_audit_row audit details))
  end.

(** [if envelope.F == "" { envelope.F = event.F }]. *)
Definition or_else (value fallback : string) : string :=
  if String.eqb value "" then fallback else value.

Definition scanOutboxEvent (row : OutboxRow) : result OutboxEvent :=
  if String.eqb (out_payload row) "" then
    Ok (WithEnvelopeDefaults
          (mkOutboxEvent (out_message_id row) (out_event_type row) 0 (out_occurred_at row) ""
             (out_merchant_id row) (out_order_id row) (out_correlation_id row)
             (out_causation_id row) ∅))
  else
    match pg_unmarshal env (out_payload row) with
    | Err e => Err e
    | Ok envelope =>
        Ok (WithEnvelopeDefaults
              (mkOutboxEvent (or_else (Event_MessageID envelope) (out_message_id row))
                 (or_else (Event_EventType envelope) (out_event_type row))
                 (Event_SchemaVersion envelope)
                 (if IsZero (Event_OccurredAt envelope) then out_occurred_at row
                  else Event_OccurredAt envelope)
                 (Event_Producer envelope)
                 (or_else (Event_MerchantID envelope) (out_merchant_id row))
                 (or_else (Event_OrderID envelope) (out_order_id row))
                 (or_else (Event_CorrelationID envelope) (out_correlation_id row))
                 (or_else (Event_CausationID envelope) (out_causation_id row))
                 (Event_Payload envelope)))
    end.

(** *** Reading an order *)

Definition items_of (orderID : string) (db : Database) : list ItemRow :=
  filter (fun r => item_order_id r = orderID) (t_order_items db).

Definition scan_item (r : ItemRow) : OrderItem :=
  mkOrderItem (item_sku r) (item_quantity r)
    (mkMoney (item_unit_price_amount r) (item_unit_price_currency r))
    (item_reservation_status r).

Definition scan_payment (r : OrderRow) : option Payment :=
  match orders_payment_provider r, orders_payment_status r, orders_payment_authorization_id r with
  | None, None, None => None
  | provider, status, authorization =>
      Some (mkPayment (default "" provider) (default "" status) (default "" authorization)
              (default "" (orders_payment_credential_ref r)))
  end.

Definition projection_event (r : ShipmentRow) : ShipmentEvent :=
  mkShipmentEvent (ship_created_at r) (ship_status r) "Shipment projection created.".

Definition scan_shipment (r : ShipmentRow) : Shipment :=
  mkShipment (ship_shipment_id r) (ship_status r) (ship_carrier r) (ship_tracking_number r)
    [projection_event r].

Definition scan_order (orderID : string) (r : OrderRow) (items : list ItemRow)
    (shipment : option ShipmentRow) : Order :=
  let money amount := mkMoney amount (orders_currency r) in
  mkOrder orderID (orders_merchant_id r) (orders_external_order_id r) (orders_status r)
    (orders_currency r)
    (mkOrderTotals (money (orders_subtotal_amount r)) (money (orders_shipping_amount r))
       (money (orders_total_amount r)))
    (map scan_item items) (scan_payment r) (scan_shipment <$> shipment)
    (default "" (orders_shipping_address_ref r)) (orders_created_at r) (orders_updated_at r).

Definition getOrderTx (orderID : string) : M Conn Order :=
  let! row := annotate "get order: " (query env (fun db => t_orders db !! orderID)) in
  match row with
  | None => throw ErrNotFound
  | Some r =>
      let! items := annotate "get order items: " (query env (items_of orderID)) in
      let! _ := annotate "iterate order items: " (iterate env) in
      let! shipment := annotate "get shipment: "
                         (query env (fun db => t_shipments db !! orderID)) in
      ret (scan_order orderID r items shipment)
  end.

Definition find_shipment (shipmentID : string) (db : Database) : option (string * ShipmentRow) :=
  head (filter (fun kv => ship_shipment_id (snd kv) = shipmentID) (map_to_list (t_shipments db))).

Definition getShipmentTx (shipmentID : string) : M Conn ShipmentRecord :=
  let! row := annotate "get shipment: " (query env (find_shipment shipmentID)) in
  match row with
  | None => throw ErrNotFound
  | Some (orderID, r) =>
      ret (mkShipmentRecord (ship_shipment_id r) orderID (ship_merchant_id r) (ship_carrier r)
             (ship_tracking_number r) (ship_status r) [projection_event r])
  end.

Definition lockOrderStatusForUpdate (orderID : string) : M Conn OrderStatus :=
  let! row := annotate "lock order status: " (query env (fun db => t_orders db !! orderID)) in
  match row with
  | None => throw ErrNotFound
  | Some r => ret (orders_status r)
  end.

(** *** Stock *)

Record reservationItem := mkReservationItem {
  reservation_sku : string;
  reservation_quantity : Z
}.

Definition orderItemsForReservation (orderID : string) : M Conn (list reservationItem) :=
  let! rows := annotate "load order items for reservation: " (query env (items_of orderID)) in
  let! _ := annotate "iterate order items for reservation: " (iterate env) in
  match map (fun r => mkReservationItem (item_sku r) (item_quantity r)) rows with
  | [] => throw ErrNotFound
  | items => ret items
  end.

(** The [WHERE] of the candidate query: stock of an active warehouse of the
    merchant that covers the quantity. *)
Definition candidate (merchantID sku : string) (quantity : Z) (db : Database)
    (row : InventoryRow) : bool :=
  match t_warehouses db !! inv_warehouse_id row with
  | None => false
  | Some w =>
      String.eqb (wh_merchant_id w) merchantID && String.eqb (wh_status w) "active"
      && String.eqb (inv_sku row) sku && (quantity <=? inv_available_quantity row)
  end.

(** [ORDER BY available_quantity DESC, id ASC]. *)
Definition preferred (a b : Z * InventoryRow) : bool :=
  let qa := inv_available_quantity (snd a) in
  let qb := inv_available_quantity (snd b) in
  (qb <? qa) || ((qa =? qb) && (fst a <? fst b)).

Definition best_of (best : option (Z * InventoryRow)) (row : Z * InventoryRow)
    : option (Z * InventoryRow) :=
  match best with
  | None => Some row
  | Some b => if preferred row b then Some row else Some b
  end.

Definition pick_stock (merchantID sku : string) (quantity : Z) (db : Database)
    : option (Z * InventoryRow) :=
  fold_left best_of
    (filter (fun kv => candidate merchantID sku quantity db (snd kv) = true)
       (map_to_list (t_inventory_items db))) None.

Definition take_stock (quantity : Z) (at_ : Time) (row : InventoryRow) : InventoryRow :=
  mkInventoryRow (inv_warehouse_id row) (inv_sku row)
    (inv_available_quantity row - quantity) (inv_reserved_quantity row + quantity)
    (timestamptz at_).

(** The [UPDATE .. FROM candidate .. RETURNING] of [reserveInventoryItem]. *)
Definition reserve_candidate (merchantID sku : string) (quantity : Z) (at_ : Time)
    (db : Database) : result (option string * Database) :=
  match pick_stock merchantID sku quantity db with
  | None => Ok (None, db)
  | Some (id, row) =>
      let row := take_stock quantity at_ row in
      if negb (int4 (inv_reserved_quantity row)) then Err (out_of_range env "reserved_quantity")
      else if inv_reserved_quantity row <? 0
      then Err (check_violation env "inventory_items_reserved_quantity_check")
      else Ok (Some (inv_warehouse_id row),
               set_inventory_items (<[id := row]> (t_inventory_items db)) db)
  end.

(** The second half of [reserveInventoryItem]: take stock of the best row. *)
Definition reserve_from_stock (merchantID : string) (item : reservationItem) (at_ : Time)
    : M Conn string :=
  let! picked := annotate "reserve inventory item: "
                   (call env (reserve_candidate merchantID (reservation_sku item)
                                (reservation_quantity item) at_)) in
  match picked with
  | None => throw (Wrap "" ErrInsufficientStock (" for sku " +:+ reservation_sku item))
  | Some warehouseID => ret warehouseID
  end.

Definition reserveInventoryItem (merchantID orderID : string) (item : reservationItem)
    (at_ : Time) : M Conn string :=
  let! existing := annotate "lock existing stock reservation: "
                     (query env (fun db =>
                        t_stock_reservations db !! (orderID, reservation_sku item))) in
  match existing with
  | None => reserve_from_stock merchantID item at_
  | Some r =>
      if String.eqb (res_status r) "reserved" then
        if negb (res_quantity r =? reservation_quantity item)
        then throw (Text ("reservation quantity mismatch for sku " +:+ reservation_sku item))
        else ret (default "" (res_warehouse_id r))
      else reserve_from_stock merchantID item at_
  end.

(** The upsert of a reservation, with its foreign keys. *)
Definition upsert_reservation (orderID : string) (warehouseID : option string) (sku : string)
    (quantity : Z) (at_ : Time) (db : Database) : result (unit * Database) :=
  let old := t_stock_reservations db !! (orderID, sku) in
  let warehouse := match warehouseID, old with
                   | Some w, _ => Some w
                   | None, Some r => res_warehouse_id r
                   | None, None => None
                   end in
  if negb (0 <? quantity) then Err (check_violation env "stock_reservations_quantity_check")
  else if negb (existsb (fun r => String.eqb (item_sku r) sku) (items_of orderID db))
  then Err (foreign_key_violation env "stock_reservations_order_id_sku_fkey")
  else if match warehouse with
          | Some w => negb (bool_decide (is_Some (t_warehouses db !! w)))
          | None => false
          end
  then Err (foreign_key_violation env "fk_stock_reservations_warehouse")
  else Ok (tt, set_stock_reservations
                 (<[(orderID, sku) := mkReservationRow warehouse quantity "reserved"
                                        (timestamptz at_) None]> (t_stock_reservations db)) db).

(** The reservation of the order that holds stock of an inventory row. *)
Definition holding (orderID : string) (db : Database) (row : InventoryRow) : option Z :=
  match t_stock_reservations db !! (orderID, inv_sku row) with
  | None => None
  | Some r =>
      if String.eqb (res_status r) "reserved"
         && bool_decide (res_warehouse_id r = Some (inv_warehouse_id row))
      then Some (res_quantity r) else None
  end.

Definition give_back (orderID : string) (at_ : Time) (db : Database) (row : InventoryRow)
    : InventoryRow :=
  match holding orderID db row with
  | None => row
  | Some q => mkInventoryRow (inv_warehouse_id row) (inv_sku row)
                (inv_available_quantity row + q) (Z.max (inv_reserved_quantity row - q) 0)
                (timestamptz at_)
  end.

Definition overflows (orderID : string) (at_ : Time) (db : Database) (row : InventoryRow) : bool :=
  match holding orderID db row with
  | None => false
  | Some _ => negb (int4 (inv_available_quantity (give_back orderID at_ db row)))
  end.

Definition release_inventory (orderID : string) (at_ : Time) (db : Database)
    : result (unit * Database) :=
  if existsb (fun kv => overflows orderID at_ db (snd kv)) (map_to_list (t_inventory_items db))
  then Err (out_of_range env "available_quantity")
  else Ok (tt, set_inventory_items (give_back orderID at_ db <$> t_inventory_items db) db).

Definition releaseInventoryItems (orderID : string) (at_ : Time) : M Conn unit :=
  annotate "release inventory items: " (call env (release_inventory orderID at_)).

Definition release_reservation (orderID : string) (at_ : Time) (k : string * string)
    (r : ReservationRow) : ReservationRow :=
  if String.eqb (fst k) orderID && negb (String.eqb (res_status r) "released")
  then mkReservationRow (res_warehouse_id r) (res_quantity r) "released" (res_reserved_at r)
         (Some (timestamptz at_))
  else r.

Definition set_item_status (status : string) (r : ItemRow) : ItemRow :=
  mkItemRow (item_order_id r) (item_sku r) (item_quantity r) (item_unit_price_amount r)
    (item_unit_price_currency r) status.

(** [UPDATE order_items SET reservation_status = .. WHERE order_id = .. AND ..]. *)
Definition update_items (orderID status : string) (where_ : ItemRow -> bool) (db : Database)
    : Database :=
  set_order_items
    (map (fun r => if String.eqb (item_order_id r) orderID && where_ r
                   then set_item_status status r else r) (t_order_items db)) db.

Definition releaseReservedStock (orderID : string) (at_ : Time) : M Conn unit :=
  let! _ := releaseInventoryItems orderID at_ in
  let! _ := annotate "release stock reservations: " (exec env (fun db =>
              set_stock_reservations
                (map_imap (fun k r => Some (release_reservation orderID at_ k r))
                   (t_stock_reservations db)) db)) in
  annotate "release order items: "
    (exec env (update_items orderID "released"
                 (fun r => String.eqb (item_reservation_status r) "reserved"))).

(** *** Updates of an order row *)

Definition set_row_status (status : string) (at_ : Time) (r : OrderRow) : OrderRow :=
  mkOrderRow (orders_merchant_id r) (orders_external_order_id r) status (orders_currency r)
    (orders_subtotal_amount r) (orders_shipping_amount r) (orders_total_amount r)
    (orders_payment_provider r) (orders_payment_status r) (orders_payment_authorization_id r)
    (orders_payment_credential_ref r) (orders_shipping_address_ref r) (orders_created_at r)
    (timestamptz at_) (orders_version r + 1).

(** [updated_at] and [version] only. *)
Definition touch_row (at_ : Time) (r : OrderRow) : OrderRow :=
  set_row_status (orders_status r) at_ r.

Definition set_row_payment (provider status authorization : option string) (r : OrderRow)
    : OrderRow :=
  mkOrderRow (orders_merchant_id r) (orders_external_order_id r) (orders_status r)
    (orders_currency r) (orders_subtotal_amount r) (orders_shipping_amount r)
    (orders_total_amount r) provider status authorization
    (orders_payment_credential_ref r) (orders_shipping_address_ref r) (orders_created_at r)
    (orders_updated_at r) (orders_version r).

(** [UPDATE orders SET .. WHERE order_id = ..]: the number of rows it reports,
    unless a [CHECK] refuses the new row. *)
Definition update_order (orderID : string) (f : OrderRow -> OrderRow) (db : Database)
    : result (Z * Database) :=
  match t_orders db !! orderID with
  | None => Ok (0, db)
  | Some r =>
      if negb (chk_orders_status (orders_status (f r)))
      then Err (check_violation env "chk_orders_status")
      else if negb (chk_orders_payment_status (orders_payment_status (f r)))
      then Err (check_violation env "chk_orders_payment_status")
      else Ok (1, set_orders (<[orderID := f r]> (t_orders db)) db)
  end.

Definition void_authorization (at_ : Time) (r : AuthorizationRow) : AuthorizationRow :=
  if String.eqb (auth_status r) "authorized"
  then mkAuthorizationRow (auth_authorization_id r) (auth_merchant_id r) (auth_provider r)
         "voided" (auth_amount r) (auth_currency r) (auth_authorized_at r)
         (Some (timestamptz at_))
  else r.

Definition void_row (r : OrderRow) : OrderRow :=
  if bool_decide (orders_payment_status r = Some "authorized")
  then set_row_payment (orders_payment_provider r) (Some "voided")
         (orders_payment_authorization_id r) r
  else r.

Definition voidAuthorizedPayment (orderID : string) (at_ : Time) : M Conn unit :=
  let! _ := annotate "void payment authorization: " (exec env (fun db =>
              set_payment_authorizations
                (alter (void_authorization at_) orderID (t_payment_authorizations db)) db)) in
  let! _ := annotate "void order payment: " (call env (update_order orderID void_row)) in
  ret tt.

Definition applyCompensationEffects (source : OutboxEvent) (at_ : Time) : M Conn unit :=
  let! _ := if one_of (Event_EventType source) ["payment.failed"; "shipment.failed"]
            then releaseReservedStock (Event_OrderID source) at_ else ret tt in
  if String.eqb (Event_EventType source) "shipment.failed"
  then voidAuthorizedPayment (Event_OrderID source) at_ else ret tt.

(** ** The store's operations *)

Definition order_row (merchantID currency : string) (order : Order) : OrderRow :=
  mkOrderRow merchantID (Order_ExternalOrderID order) (Order_Status order) currency
    (Money_Amount (Totals_Subtotal (Order_Totals order)))
    (Money_Amount (Totals_Shipping (Order_Totals order)))
    (Money_Amount (Totals_Total (Order_Totals order)))
    (nullable_payment Payment_Provider order) (nullable_payment Payment_Status order)
    (nullable_payment Payment_AuthorizationID order)
    (nullable_payment Payment_CredentialRef order)
    (nullableString (Order_ShippingAddressRef order))
    (timestamptz (Order_CreatedAt order)) (timestamptz (Order_UpdatedAt order)) 1.

(** [UNIQUE (merchant_id, external_order_id)]. *)
Definition external_exists (merchantID externalOrderID : string) (db : Database) : bool :=
  existsb (fun kv => String.eqb (orders_merchant_id (snd kv)) merchantID
                     && String.eqb (orders_external_order_id (snd kv)) externalOrderID)
    (map_to_list (t_orders db)).

Definition insert_order_row (merchantID : string) (order : Order) (db : Database)
    : result (unit * Database) :=
  match char3 (Order_Currency order) with
  | None => Err (too_long env "currency")
  | Some currency =>
      let row := order_row merchantID currency order in
      if negb (chk_orders_status (orders_status row))
      then Err (check_violation env "chk_orders_status")
      else if negb (chk_orders_payment_status (orders_payment_status row))
      then Err (check_violation env "chk_orders_payment_status")
      else if bool_decide (is_Some (t_orders db !! Order_OrderID order))
      then Err (unique_violation env "orders_pkey")
      else if external_exists merchantID (Order_ExternalOrderID order) db
      then Err (unique_violation env "orders_merchant_id_external_order_id_key")
      else if negb (bool_decide (is_Some (t_merchants db !! merchantID)))
      then Err (foreign_key_violation env "fk_orders_merchant")
      else Ok (tt, set_orders (<[Order_OrderID order := row]> (t_orders db)) db)
  end.

Definition insert_item_row (orderID : string) (item : OrderItem) (db : Database)
    : result (unit * Database) :=
  match char3 (Money_Currency (OrderItem_UnitPrice item)) with
  | None => Err (too_long env "unit_price_currency")
  | Some currency =>
      if negb (int4 (OrderItem_Quantity item)) then Err (out_of_range env "quantity")
      else if negb (0 <? OrderItem_Quantity item)
      then Err (check_violation env "order_items_quantity_check")
      else if Money_Amount (OrderItem_UnitPrice item) <? 0
      then Err (check_violation env "order_items_unit_price_amount_check")
      else if negb (chk_order_items_reservation_status (OrderItem_ReservationStatus item))
      then Err (check_violation env "chk_order_items_reservation_status")
      else if existsb (fun r => String.eqb (item_sku r) (OrderItem_SKU item)) (items_of orderID db)
      then Err (unique_violation env "order_items_order_id_sku_key")
      else if negb (bool_decide (is_Some (t_orders db !! orderID)))
      then Err (foreign_key_violation env "order_items_order_id_fkey")
      else Ok (tt, set_order_items
                     (t_order_items db
                      ++ [mkItemRow orderID (OrderItem_SKU item) (OrderItem_Quantity item)
                            (Money_Amount (OrderItem_UnitPrice item)) currency
                            (OrderItem_ReservationStatus item)]) db)
  end.

Definition insert_idempotency_row (merchantID idempotencyKey orderID : string) (db : Database)
    : result (unit * Database) :=
  if bool_decide (is_Some (t_idempotency_keys db !! (merchantID, idempotencyKey)))
  then Err (unique_violation env "idempotency_keys_pkey")
  else if negb (bool_decide (is_Some (t_orders db !! orderID)))
  then Err (foreign_key_violation env "idempotency_keys_order_id_fkey")
  else Ok (tt, set_idempotency_keys
                 (<[(merchantID, idempotencyKey) := orderID]> (t_idempotency_keys db)) db).

(** The insert whose unique violations are reported as [ErrDuplicateOrder]. *)
Definition insert_order_checked (merchantID : string) (order : Order) : M Conn unit :=
  let! inserted := attempt (call env (insert_order_row merchantID order)) in
  match inserted with
  | Ok _ => ret tt
  | Err e => if isUniqueViolation e then throw ErrDuplicateOrder
             else throw (Wrap "insert order: " e "")
  end.

Definition PgStore_InsertOrder (merchantID idempotencyKey : string) (order : Order)
    (event : OutboxEvent) (audit : AuditLog) : M Conn (option Order * bool) :=
  transaction env "begin insert order: " (
    let! existing := orderByIdempotency merchantID idempotencyKey in
    match existing with
    | Some id =>
        let! found := getOrderTx id in
        ret ("commit idempotent order lookup: ", (Some found, true))
    | None =>
        let! _ := upsertMerchant merchantID in
        let! _ := insert_order_checked merchantID order in
        let! _ := for_each (fun item =>
                    annotate "insert order item: "
                      (call env (insert_item_row (Order_OrderID order) item)))
                    (Order_Items order) in
        let! _ := annotate "insert idempotency key: "
                    (call env (insert_idempotency_row merchantID idempotencyKey
                                 (Order_OrderID order))) in
        let! _ := insertOutboxEvent event in
        let! _ := insertAuditLog audit in
        ret ("commit insert order: ", (Some (cloneOrder order), false))
    end).

Definition PgStore_GetOrder (orderID : string) : M Conn Order := getOrderTx orderID.

Definition PgStore_GetShipment (shipmentID : string) : M Conn ShipmentRecord :=
  getShipmentTx shipmentID.

(** The guard of the status writes: the row is locked, then the move checked. *)
Definition lock_and_validate (orderID : string) (status : OrderStatus) : M Conn unit :=
  let! current := lockOrderStatusForUpdate orderID in
  require (ValidateOrderTransition current status).

(** The status update whose affected rows are inspected. *)
Definition update_status_checked (label orderID : string) (status : OrderStatus) (at_ : Time)
    : M Conn unit :=
  let! rows := annotate label (call env (update_order orderID (set_row_status status at_))) in
  if rows =? 0 then throw ErrNotFound else ret tt.

Definition PgStore_UpdateOrderStatus (orderID : string) (status : OrderStatus) (now : Time)
    (event : OutboxEvent) (audit : AuditLog) : M Conn Order :=
  transaction env "begin update order status: " (
    let! _ := lock_and_validate orderID status in
    let! _ := update_status_checked "update order status: " orderID status now in
    let event := set_Event_Payload
                   (OrderStatusEventPayload status now audit (Event_Payload event)) event in
    let! _ := insertOutboxEvent event in
    let! _ := insertAuditLog audit in
    let! order := getOrderTx orderID in
    ret ("commit update order status: ", order)).

(** One round of the reservation loop, with the payload entry it adds. *)
Definition reserve_line (source next : OutboxEvent) (item : reservationItem) : M Conn any :=
  let! warehouseID := reserveInventoryItem (Event_MerchantID source) (Event_OrderID source) item
                        (Event_OccurredAt next) in
  let! _ := annotate "upsert stock reservation: "
              (call env (upsert_reservation (Event_OrderID source) (nullableString warehouseID)
                           (reservation_sku item) (reservation_quantity item)
                           (Event_OccurredAt next))) in
  ret (AMap [("quantity", AInt (reservation_quantity item));
             ("sku", AStr (reservation_sku item)); ("warehouse_id", AStr warehouseID)]).

Definition PgStore_RecordInventoryReserved (source next : OutboxEvent) (audit : AuditLog)
    : M Conn unit :=
  transaction env "begin record inventory reservation: " (
    let! _ := lock_and_validate (Event_OrderID source) StatusInventoryReserved in
    let! items := orderItemsForReservation (Event_OrderID source) in
    let! reservations := for_collect (reserve_line source next) items in
    let! _ := annotate "mark order items reserved: "
                (exec env (update_items (Event_OrderID source) "reserved" (fun _ => true))) in
    let! _ := annotate "touch order after inventory reservation: "
                (call env (update_order (Event_OrderID source)
                             (set_row_status StatusInventoryReserved (Event_OccurredAt next)))) in
    let next := set_Event_Payload
                  (<["order_status" := AStr StatusInventoryReserved]>
                   {["reservations" := AList reservations]}) next in
    let! _ := insertOutboxEvent next in
    let! _ := insertAuditLog audit in
    ret ("commit record inventory reservation: ", tt)).

Definition PgStore_RecordInventoryRejected (source next : OutboxEvent) (audit : AuditLog)
    : M Conn unit :=
  transaction env "begin record inventory rejection: " (
    let! _ := getOrderTx (Event_OrderID source) in
    let! _ := annotate "mark order items rejected: "
                (exec env (update_items (Event_OrderID source) "rejected" (fun _ => true))) in
    let! _ := annotate "touch order after inventory rejection: "
                (call env (update_order (Event_OrderID source)
                             (touch_row (Event_OccurredAt next)))) in
    let next := set_Event_Payload
                  (failurePayload "inventory" (detail (Audit_Details audit) "error")) next in
    let! _ := insertOutboxEvent next in
    let! _ := insertAuditLog audit in
    ret ("commit record inventory rejection: ", tt)).

(** The upsert of an authorization: the conflict target is the order only. *)
Definition upsert_authorization (orderID : string) (row : AuthorizationRow) (db : Database)
    : result (unit * Database) :=
  let table := t_payment_authorizations db in
  let row := match table !! orderID with
             | None => row
             | Some old => mkAuthorizationRow (auth_authorization_id row) (auth_merchant_id old)
                             (auth_provider row) (auth_status row) (auth_amount row)
                             (auth_currency row) (auth_authorized_at row) None
             end in
  if negb (chk_payment_authorizations_status (auth_status row))
  then Err (check_violation env "chk_payment_authorizations_status")
  else if auth_amount row <? 0 then Err (check_violation env "payment_authorizations_amount_check")
  else if existsb (fun kv => String.eqb (auth_authorization_id (snd kv))
                               (auth_authorization_id row))
            (map_to_list (delete orderID table))
  then Err (unique_violation env "payment_authorizations_pkey")
  else if negb (bool_decide (is_Some (t_orders db !! orderID)))
  then Err (foreign_key_violation env "payment_authorizations_order_id_fkey")
  else Ok (tt, set_payment_authorizations (<[orderID := row]> table) db).

(** [COALESCE(NULLIF($2, ''), payment_provider, 'fake-payment')]. *)
Definition payment_provider_of (given : string) (r : OrderRow) : string :=
  match nullableString given, orders_payment_provider r with
  | Some p, _ => p
  | None, Some p => p
  | None, None => "fake-payment"
  end.

Definition PgStore_RecordPaymentAuthorized (source next : OutboxEvent) (payment : Payment)
    (audit : AuditLog) : M Conn unit :=
  let orderID := Event_OrderID source in
  transaction env "begin record payment authorization: " (
    let! _ := lock_and_validate orderID StatusPaymentAuthorized in
    let! row := annotate "load order for payment authorization: "
                  (query env (fun db => t_orders db !! orderID)) in
    match row with
    | None => throw ErrNotFound
    | Some r =>
        let provider := payment_provider_of (Payment_Provider payment) r in
        let! _ := annotate "upsert payment authorization: "
                    (call env (upsert_authorization orderID
                       (mkAuthorizationRow (Payment_AuthorizationID payment)
                          (Event_MerchantID source) provider (Payment_Status payment)
                          (orders_total_amount r) (orders_currency r)
                          (timestamptz (Event_OccurredAt next)) None))) in
        let! _ := annotate "update order payment authorization: "
                    (call env (update_order orderID (fun r =>
                       set_row_status StatusPaymentAuthorized (Event_OccurredAt next)
                         (set_row_payment (Some provider) (Some (Payment_Status payment))
                            (Some (Payment_AuthorizationID payment)) r)))) in
        let next := set_Event_Payload
                      (<["order_status" := AStr StatusPaymentAuthorized]>
                       {["payment" := AMap
                          [("amount", AInt (orders_total_amount r));
                           ("authorization_id", AStr (Payment_AuthorizationID payment));
                           ("currency", AStr (orders_currency r));
                           ("provider", AStr provider)]]}) next in
        let! _ := insertOutboxEvent next in
        let! _ := insertAuditLog audit in
        ret ("commit record payment authorization: ", tt)
    end).

Definition PgStore_RecordPaymentFailed (source next : OutboxEvent) (audit : AuditLog)
    : M Conn unit :=
  let orderID := Event_OrderID source in
  transaction env "begin record payment failure: " (
    let! row := annotate "load order for payment failure: "
                  (query env (fun db => t_orders db !! orderID)) in
    match row with
    | None => throw ErrNotFound
    | Some r =>
        let provider := payment_provider_of "" r in
        let! _ := annotate "update order payment failure: "
                    (call env (update_order orderID (fun r =>
                       touch_row (Event_OccurredAt next)
                         (set_row_payment (Some provider) (Some "failed") None r)))) in
        let next := set_Event_Payload
                      (failurePayload "payment" (detail (Audit_Details audit) "error")) next in
        let! _ := insertOutboxEvent next in
        let! _ := insertAuditLog audit in
        ret ("commit record payment failure: ", tt)
    end).

(** The upsert of a shipment: the conflict target is the order only. *)
Definition upsert_shipment (orderID : string) (row : ShipmentRow) (db : Database)
    : result (unit * Database) :=
  let table := t_shipments db in
  let row := match table !! orderID with
             | None => row
             | Some old => mkShipmentRow (ship_shipment_id row) (ship_merchant_id old)
                             (ship_carrier row) (ship_tracking_number row) (ship_status row)
                             (ship_created_at old) (ship_updated_at row)
             end in
  let others := map_to_list (delete orderID table) in
  if negb (chk_shipments_status (ship_status row))
  then Err (check_violation env "chk_shipments_status")
  else if existsb (fun kv => String.eqb (ship_shipment_id (snd kv)) (ship_shipment_id row)) others
  then Err (unique_violation env "shipments_pkey")
  else if existsb (fun kv => String.eqb (ship_tracking_number (snd kv))
                               (ship_tracking_number row)) others
  then Err (unique_violation env "shipments_tracking_number_key")
  else if negb (bool_decide (is_Some (t_orders db !! orderID)))
  then Err (foreign_key_violation env "shipments_order_id_fkey")
  else Ok (tt, set_shipments (<[orderID := row]> table) db).

Definition PgStore_RecordShipmentCreated (source next : OutboxEvent) (shipment : Shipment)
    (audit : AuditLog) : M Conn unit :=
  let orderID := Event_OrderID source in
  let at_ := timestamptz (Event_OccurredAt next) in
  transaction env "begin record shipment: " (
    let! _ := lock_and_validate orderID StatusShipmentCreated in
    let! _ := getOrderTx orderID in
    let! _ := annotate "upsert shipment: "
                (call env (upsert_shipment orderID
                   (mkShipmentRow (Shipment_ShipmentID shipment) (Event_MerchantID source)
                      (Shipment_Carrier shipment) (Shipment_TrackingNumber shipment)
                      (Shipment_Status shipment) at_ at_))) in
    let! _ := annotate "touch order after shipment: "
                (call env (update_order orderID
                             (set_row_status StatusShipmentCreated (Event_OccurredAt next)))) in
    let next := set_Event_Payload
                  (<["order_status" := AStr StatusShipmentCreated]>
                   {["shipment" := AMap
                      [("carrier", AStr (Shipment_Carrier shipment));
                       ("shipment_id", AStr (Shipment_ShipmentID shipment));
                       ("tracking_number", AStr (Shipment_TrackingNumber shipment))]]}) next in
    let! _ := insertOutboxEvent next in
    let! _ := insertAuditLog audit in
    ret ("commit record shipment: ", tt)).

Definition PgStore_RecordShipmentFailed (source next : OutboxEvent) (audit : AuditLog)
    : M Conn unit :=
  transaction env "begin record shipment failure: " (
    let! _ := getOrderTx (Event_OrderID source) in
    let! _ := annotate "touch order after shipment failure: "
                (call env (update_order (Event_OrderID source)
                             (touch_row (Event_OccurredAt next)))) in
    let next := set_Event_Payload
                  (failurePayload "shipment" (detail (Audit_Details audit) "error")) next in
    let! _ := insertOutboxEvent next in
    let! _ := insertAuditLog audit in
    ret ("commit record shipment failure: ", tt)).

Definition PgStore_RecordOrderCancelled (source next : OutboxEvent) (audit : AuditLog)
    : M Conn unit :=
  let orderID := Event_OrderID source in
  let at_ := Event_OccurredAt next in
  transaction env "begin record order cancellation: " (
    let! _ := lock_and_validate orderID StatusCancelled in
    let! _ := update_status_checked "update cancelled order status: " orderID StatusCancelled at_ in
    let! _ := releaseReservedStock orderID at_ in
    let! _ := voidAuthorizedPayment orderID at_ in
    let next := set_Event_Payload
                  (OrderStatusEventPayload StatusCancelled at_ audit (Event_Payload next)) next in
    let! _ := insertOutboxEvent next in
    let! _ := insertAuditLog audit in
    ret ("commit record order cancellation: ", tt)).

Definition upsert_notification (source : OutboxEvent) (at_ : Time) (db : Database)
    : result (unit * Database) :=
  let table := t_notification_events db in
  let row :=
    match table !! Event_MessageID source with
    | None => mkNotificationRow (Event_OrderID source) (Event_MerchantID source)
                (Event_EventType source) "email" "queued" (Event_CorrelationID source)
                (timestamptz at_)
    | Some old => mkNotificationRow (ntf_order_id old) (ntf_merchant_id old)
                    (ntf_source_event_type old) (ntf_channel old) "queued"
                    (Event_CorrelationID source) (timestamptz at_)
    end in
  if negb (bool_decide (is_Some (t_orders db !! Event_OrderID source)))
  then Err (foreign_key_violation env "notification_events_order_id_fkey")
  else Ok (tt, set_notification_events (<[Event_MessageID source := row]> table) db).

Definition PgStore_RecordNotificationQueued (source : OutboxEvent) (audit : AuditLog)
    : M Conn unit :=
  transaction env "begin record notification: " (
    let! _ := getOrderTx (Event_OrderID source) in
    let! _ := annotate "upsert notification event: "
                (call env (upsert_notification source (Audit_CreatedAt audit))) in
    let! _ := insertAuditLog audit in
    ret ("commit record notification: ", tt)).

Definition upsert_compensation (source : OutboxEvent) (status : OrderStatus) (audit : AuditLog)
    (db : Database) : result (unit * Database) :=
  let table := t_compensation_events db in
  let at_ := timestamptz (Audit_CreatedAt audit) in
  let row :=
    match table !! Event_MessageID source with
    | None => mkCompensationRow (Event_OrderID source) (Event_MerchantID source)
                (Event_EventType source) (Audit_Action audit) status "recorded"
                (Event_CorrelationID source) at_
    | Some old => mkCompensationRow (cmp_order_id old) (cmp_merchant_id old)
                    (cmp_source_event_type old) (cmp_action old) status "recorded"
                    (Event_CorrelationID source) at_
    end in
  if negb (IsValidOrderStatus status)
  then Err (check_violation env "chk_compensation_events_target_order_status")
  else if negb (bool_decide (is_Some (t_orders db !! Event_OrderID source)))
  then Err (foreign_key_violation env "compensation_events_order_id_fkey")
  else Ok (tt, set_compensation_events (<[Event_MessageID source := row]> table) db).

Definition PgStore_RecordCompensation (source : OutboxEvent) (status : OrderStatus)
    (audit : AuditLog) : M Conn unit :=
  transaction env "begin record compensation: " (
    let! _ := lock_and_validate (Event_OrderID source) status in
    let! _ := update_status_checked "update compensated order status: " (Event_OrderID source)
                status (Audit_CreatedAt audit) in
    let! _ := applyCompensationEffects source (Audit_CreatedAt audit) in
    let! _ := annotate "upsert compensation event: "
                (call env (upsert_compensation source status audit)) in
    let! _ := insertAuditLog audit in
    ret ("commit record compensation: ", tt)).

(** ** Outbox, audit log, inbox *)

(** The rows up to the first that does not scan, and whether there was one. *)
Fixpoint scan_events (rows : list OutboxRow) : result (list OutboxEvent) :=
  match rows with
  | [] => Ok []
  | r :: rows =>
      match scanOutboxEvent r, scan_events rows with
      | Ok e, Ok es => Ok (WithEnvelopeDefaults e :: es)
      | Err e, _ => Err e
      | Ok _, Err e => Err e
      end
  end.

(** Any failure gives no events. *)
Definition PgStore_OutboxEvents : M Conn (list OutboxEvent) :=
  let! rows := attempt (query env (fun db => pg_by_occurred_at env (t_outbox_events db))) in
  match rows with
  | Err _ => ret []
  | Ok rows => match scan_events rows with Ok events => ret events | Err _ => ret [] end
  end.

(** [ORDER BY created_at ASC, id ASC] on a list in [id] order. *)
Fixpoint insert_by_created (r : AuditRow) (rows : list AuditRow) : list AuditRow :=
  match rows with
  | [] => [r]
  | x :: rest => if aud_created_at r <=? aud_created_at x then r :: x :: rest
                 else x :: insert_by_created r rest
  end.

Definition scan_audit (r : AuditRow) : result AuditLog :=
  let log details :=
    mkAuditLog (aud_merchant_id r) (default "" (aud_order_id r)) (aud_actor_type r)
      (aud_actor_id r) (aud_action r) (aud_correlation_id r) (aud_created_at r) details in
  if String.eqb (aud_details r) "" then Ok (log ∅)
  else match pg_unmarshal_details env (aud_details r) with
       | Ok details => Ok (log details)
       | Err e => Err e
       end.

Fixpoint scan_audits (rows : list AuditRow) : result (list AuditLog) :=
  match rows with
  | [] => Ok []
  | r :: rows =>
      match scan_audit r, scan_audits rows with
      | Ok a, Ok aus => Ok (a :: aus)
      | Err e, _ => Err e
      | Ok _, Err e => Err e
      end
  end.

Definition PgStore_AuditLogs : M Conn (list AuditLog) :=
  let! rows := attempt (query env (fun db => foldr insert_by_created [] (t_audit_logs db))) in
  match rows with
  | Err _ => ret []
  | Ok rows => match scan_audits rows with Ok logs => ret logs | Err _ => ret [] end
  end.

Definition PgStore_RecordAuditLog (audit : AuditLog) : M Conn unit :=
  transaction env "begin record audit log: " (
    let! _ := insertAuditLog audit in
    ret ("commit record audit log: ", tt)).

Definition set_claim (now : Time) (r : OutboxRow) : OutboxRow :=
  mkOutboxRow (out_message_id r) (out_correlation_id r) (out_causation_id r) (out_event_type r)
    (out_order_id r) (out_merchant_id r) (out_payload r) (out_occurred_at r)
    (out_published_at r) (Some "fulfillhub-outbox-relay") (Some (AddD now (30 * second))).

Definition row_claimable (now : Time) (r : OutboxRow) : bool :=
  match out_published_at r, out_claimed_until r with
  | Some _, _ => false
  | None, None => true
  | None, Some until => until <=? now
  end.

Definition picked_rows (limit : Z) (now : Time) (db : Database) : list OutboxRow :=
  take (Z.to_nat limit)
    (pg_by_occurred_at env (filter (fun r => row_claimable now r = true) (t_outbox_events db))).

Definition is_picked (limit : Z) (now : Time) (db : Database) (r : OutboxRow) : bool :=
  existsb (fun p => String.eqb (out_message_id p) (out_message_id r)) (picked_rows limit now db).

(** The claiming [WITH picked AS (..) UPDATE .. RETURNING]. *)
Definition claim_rows (limit : Z) (now : Time) (db : Database)
    : result (list OutboxRow * Database) :=
  let rows := map (fun r => if is_picked limit now db r then set_claim now r else r)
                (t_outbox_events db) in
  Ok (pg_returning env (map (set_claim now) (filter (fun r => is_picked limit now db r = true)
                                               (t_outbox_events db))),
      set_outbox_events rows db).

Definition PgStore_PendingOutboxEvents (limit : Z) : M Conn (list OutboxEvent) :=
  fun c =>
    let limit := if limit <=? 0 then 100 else limit in
    let now := timestamptz (pg_now env (conn_calls c)) in
    (let! rows := annotate "claim pending outbox events: " (call env (claim_rows limit now)) in
     match scan_events rows with
     | Err e => throw (Wrap "scan pending outbox event: " e "")
     | Ok events =>
         let! _ := annotate "iterate pending outbox events: " (iterate env) in
         ret events
     end) c.

Definition row_pending (r : OutboxRow) : bool :=
  match out_published_at r with None => true | Some _ => false end.

Definition PgStore_PendingOutboxCount : M Conn Z :=
  annotate "count pending outbox events: "
    (query env (fun db => Z.of_nat (length (filter (fun r => row_pending r = true)
                                              (t_outbox_events db))))).

(** The age is kept in nanoseconds; the query divides it to seconds. *)
Definition PgStore_OldestPendingOutboxAge : M Conn Duration :=
  fun c =>
    annotate "measure oldest pending outbox age: " (query env (fun db =>
      match map out_occurred_at (filter (fun r => row_pending r = true) (t_outbox_events db)) with
      | [] => 0
      | t :: ts => timestamptz (pg_now env (conn_calls c)) - fold_left Z.min ts t
      end)) c.

(** [SELECT status, COUNT( * ) .. GROUP BY status]. *)
Definition group_by_status (db : Database) : gmap string Z :=
  fold_left (fun m r => <[orders_status r := default 0 (m !! orders_status r) + 1]> m)
    (map snd (map_to_list (t_orders db))) ∅.

Definition PgStore_OrderStatusCounts : M Conn (gmap string Z) :=
  let! rows := annotate "count orders by status: " (query env group_by_status) in
  let counts := rows ∪ zero_counts in
  let! _ := annotate "iterate order status counts: " (iterate env) in
  ret counts.

Definition mark_row (messageID : string) (at_ : Time) (r : OutboxRow) : OutboxRow :=
  if String.eqb (out_message_id r) messageID && row_pending r
  then mkOutboxRow (out_message_id r) (out_correlation_id r) (out_causation_id r)
         (out_event_type r) (out_order_id r) (out_merchant_id r) (out_payload r)
         (out_occurred_at r) (Some (timestamptz at_)) None None
  else r.

Definition mark_published (messageID : string) (at_ : Time) (db : Database)
    : result (Z * Database) :=
  let marked := filter (fun r => String.eqb (out_message_id r) messageID && row_pending r = true)
                  (t_outbox_events db) in
  Ok (Z.of_nat (length marked),
      set_outbox_events (map (mark_row messageID at_) (t_outbox_events db)) db).

Definition PgStore_MarkOutboxPublished (messageID : string) (publishedAt : Time) : M Conn unit :=
  let! rows := annotate "mark outbox event published: "
                 (call env (mark_published messageID publishedAt)) in
  if rows =? 0 then throw ErrNotFound else ret tt.

(** [INSERT .. ON CONFLICT DO NOTHING] reports one row or none. *)
Definition insert_inbox_row (consumerName : string) (event : OutboxEvent) (db : Database)
    : result (Z * Database) :=
  match t_inbox_messages db !! (consumerName, Event_MessageID event) with
  | Some _ => Ok (0, db)
  | None => Ok (1, set_inbox_messages
                     (<[(consumerName, Event_MessageID event) := Event_CorrelationID event]>
                        (t_inbox_messages db)) db)
  end.

Definition PgStore_RecordInboxMessage (consumerName : string) (event : OutboxEvent)
    : M Conn bool :=
  let! rows := annotate "record inbox message: " (call env (insert_inbox_row consumerName event)) in
  ret (rows =? 1).

Definition PgStore_ReleaseInboxMessage (consumerName : string) (event : OutboxEvent)
    : M Conn unit :=
  annotate "release inbox message: " (exec env (fun db =>
    set_inbox_messages (delete (consumerName, Event_MessageID event) (t_inbox_messages db)) db)).

End PgStore.
