(* ===== verification/PgAtomic.v ===== *)
(** Failures of the PostgreSQL store: with any schedule of failing calls, an
    operation either does what it does when every call succeeds, or reports an
    error and leaves the database as it was before or as it is after the
    complete operation, never in between. *)
From S2P Require Import Prelude GoStrings GoTime Model StateMachine MemoryInvariant Database PgStore.

(** ** Operations as data *)

Inductive PgOp : Type :=
| PgInsert (m k : string) (o : Order) (ev : OutboxEvent) (au : AuditLog)
| PgUpdate (id : string) (st : OrderStatus) (now : Time) (ev : OutboxEvent) (au : AuditLog)
| PgReserved (src next : OutboxEvent) (au : AuditLog)
| PgRejected (src next : OutboxEvent) (au : AuditLog)
| PgAuthorized (src next : OutboxEvent) (p : Payment) (au : AuditLog)
| PgPaymentFailed (src next : OutboxEvent) (au : AuditLog)
| PgShipped (src next : OutboxEvent) (sh : Shipment) (au : AuditLog)
| PgShipmentFailed (src next : OutboxEvent) (au : AuditLog)
| PgCancelled (src next : OutboxEvent) (au : AuditLog)
| PgNotified (src : OutboxEvent) (au : AuditLog)
| PgCompensated (src : OutboxEvent) (st : OrderStatus) (au : AuditLog)
| PgAudited (au : AuditLog)
| PgClaim (limit : Z)
| PgPublished (id : string) (at_ : Time)
| PgReceived (consumer : string) (ev : OutboxEvent)
| PgReleased (consumer : string) (ev : OutboxEvent).

Definition pg_run (env : PgEnv) (op : PgOp) : M Conn unit :=
  match op with
  | PgInsert m k o ev au => discard (PgStore_InsertOrder env m k o ev au)
  | PgUpdate id st now ev au => discard (PgStore_UpdateOrderStatus env id st now ev au)
  | PgReserved src next au => PgStore_RecordInventoryReserved env src next au
  | PgRejected src next au => PgStore_RecordInventoryRejected env src next au
  | PgAuthorized src next p au => PgStore_RecordPaymentAuthorized env src next p au
  | PgPaymentFailed src next au => PgStore_RecordPaymentFailed env src next au
  | PgShipped src next sh au => PgStore_RecordShipmentCreated env src next sh au
  | PgShipmentFailed src next au => PgStore_RecordShipmentFailed env src next au
  | PgCancelled src next au => PgStore_RecordOrderCancelled env src next au
  | PgNotified src au => PgStore_RecordNotificationQueued env src au
  | PgCompensated src st au => PgStore_RecordCompensation env src st au
  | PgAudited au => PgStore_RecordAuditLog env au
  | PgClaim limit => discard (PgStore_PendingOutboxEvents env limit)
  | PgPublished id at_ => PgStore_MarkOutboxPublished env id at_
  | PgReceived consumer ev => discard (PgStore_RecordInboxMessage env consumer ev)
  | PgReleased consumer ev => PgStore_ReleaseInboxMessage env consumer ev
  end.

(** ** Computations that may fail where another succeeds *)

(** [c] does what [c0] does, or fails. *)
Definition sim {A} (c c0 : M Conn A) : Prop :=
  forall s, (exists e s', c s = (Err e, s')) \/ c s = c0 s.

Lemma sim_refl {A} (c : M Conn A) : sim c c.
Proof. intros s. by right. Qed.

Lemma sim_call env {A} (f f0 : Database -> result (A * Database)) :
  (forall db, f db = f0 db) -> sim (call env f) (call (without_faults env) f0).
Proof.
  intros E s. unfold call. rewrite E. simpl.
  destruct (pg_fault env (conn_calls s)) as [[[] e]|]; [left|left|by right];
    destruct (f0 (conn_db s)) as [[]|]; eauto.
Qed.

Lemma sim_query env {A} (f f0 : Database -> A) :
  (forall db, f db = f0 db) -> sim (query env f) (query (without_faults env) f0).
Proof. intros E. apply sim_call. intros db. by rewrite E. Qed.

Lemma sim_exec env f f0 :
  (forall db, f db = f0 db) -> sim (exec env f) (exec (without_faults env) f0).
Proof. intros E. apply sim_call. intros db. by rewrite E. Qed.

Lemma sim_iterate env : sim (iterate env) (iterate (without_faults env)).
Proof. by apply sim_query. Qed.

Lemma sim_bind {A B} (c c0 : M Conn A) (k k0 : A -> M Conn B) :
  sim c c0 -> (forall a, sim (k a) (k0 a)) -> sim (bind c k) (bind c0 k0).
Proof.
  intros Hc Hk s. unfold bind. destruct (Hc s) as [(e & s' & ->)| ->]; [eauto|].
  destruct (c0 s) as [[a|e] s']; [apply Hk|by right].
Qed.

Lemma sim_annotate {A} pre (c c0 : M Conn A) : sim c c0 -> sim (annotate pre c) (annotate pre c0).
Proof.
  intros Hc s. unfold annotate. destruct (Hc s) as [(e & s' & ->)| ->]; [eauto|by right].
Qed.

Lemma sim_for_each {A} (f f0 : A -> M Conn unit) l :
  (forall a, sim (f a) (f0 a)) -> sim (for_each f l) (for_each f0 l).
Proof. intros H. induction l; simpl; [apply sim_refl|]. by apply sim_bind. Qed.

Lemma sim_for_collect {A B} (f f0 : A -> M Conn B) l :
  (forall a, sim (f a) (f0 a)) -> sim (for_collect f l) (for_collect f0 l).
Proof.
  intros H. induction l; simpl; [apply sim_refl|].
  apply sim_bind; [done|]. intros b. apply sim_bind; [done|]. intros bs. apply sim_refl.
Qed.

Create HintDb pg discriminated.
#[export] Hint Resolve sim_refl sim_call sim_query sim_exec sim_iterate sim_bind sim_annotate
  sim_for_each sim_for_collect : pg.

(** Follow the structure of two equal programs. *)
Ltac sim_step :=
  lazymatch goal with
  | |- sim (bind _ _) _ => apply sim_bind; [|intros ?]
  | |- sim (annotate _ _) _ => apply sim_annotate
  | |- sim (call _ _) _ => apply sim_call; intros; reflexivity
  | |- sim (query _ _) _ => apply sim_query; intros; reflexivity
  | |- sim (exec _ _) _ => apply sim_exec; intros; reflexivity
  | |- sim (iterate _) _ => apply sim_iterate
  | |- sim (for_each _ _) _ => apply sim_for_each; intros ?
  | |- sim (for_collect _ _) _ => apply sim_for_collect; intros ?
  | |- sim (match ?x with _ => _ end) _ => destruct x
  | |- sim (if ?x then _ else _) _ => destruct x
  | |- sim _ _ => apply sim_refl
  end.

Ltac sim_solve := repeat sim_step.

Section Helpers.
Variable env : PgEnv.
Notation env0 := (without_faults env).

Lemma sim_get_order id : sim (getOrderTx env id) (getOrderTx env0 id).
Proof. unfold getOrderTx. sim_solve. Qed.

Lemma sim_lock id : sim (lockOrderStatusForUpdate env id) (lockOrderStatusForUpdate env0 id).
Proof. unfold lockOrderStatusForUpdate. sim_solve. Qed.

Lemma sim_validate id st : sim (lock_and_validate env id st) (lock_and_validate env0 id st).
Proof. unfold lock_and_validate. apply sim_bind; [apply sim_lock|]. intros. apply sim_refl. Qed.

Lemma sim_update_status label id st at_ :
  sim (update_status_checked env label id st at_) (update_status_checked env0 label id st at_).
Proof. unfold update_status_checked. sim_solve. Qed.

Lemma sim_outbox ev : sim (insertOutboxEvent env ev) (insertOutboxEvent env0 ev).
Proof. unfold insertOutboxEvent. simpl. sim_solve. Qed.

Lemma sim_audit au : sim (insertAuditLog env au) (insertAuditLog env0 au).
Proof. unfold insertAuditLog. simpl. sim_solve. Qed.

Lemma sim_insert_checked m o :
  sim (insert_order_checked env m o) (insert_order_checked env0 m o).
Proof.
  intros s. unfold insert_order_checked, bind, attempt.
  destruct (sim_call env (insert_order_row env m o) (insert_order_row env0 m o)
              ltac:(reflexivity) s) as [(e & s' & ->)| ->].
  - left. destruct (isUniqueViolation e); unfold throw; eauto.
  - by right.
Qed.

Lemma sim_release id at_ : sim (releaseReservedStock env id at_) (releaseReservedStock env0 id at_).
Proof. unfold releaseReservedStock, releaseInventoryItems. sim_solve. Qed.

Lemma sim_void id at_ : sim (voidAuthorizedPayment env id at_) (voidAuthorizedPayment env0 id at_).
Proof. unfold voidAuthorizedPayment. sim_solve. Qed.

Lemma sim_effects src at_ :
  sim (applyCompensationEffects env src at_) (applyCompensationEffects env0 src at_).
Proof.
  unfold applyCompensationEffects. apply sim_bind; [|intros _].
  - destruct (one_of _ _); [apply sim_release|apply sim_refl].
  - destruct (String.eqb _ _); [apply sim_void|apply sim_refl].
Qed.

Lemma sim_reserve_line src next item :
  sim (reserve_line env src next item) (reserve_line env0 src next item).
Proof. unfold reserve_line, reserveInventoryItem, reserve_from_stock. sim_solve. Qed.

Lemma sim_items id : sim (orderItemsForReservation env id) (orderItemsForReservation env0 id).
Proof. unfold orderItemsForReservation. sim_solve. Qed.

Lemma sim_idempotency m k : sim (orderByIdempotency env m k) (orderByIdempotency env0 m k).
Proof. unfold orderByIdempotency. sim_solve. Qed.

Lemma sim_merchant m : sim (upsertMerchant env m) (upsertMerchant env0 m).
Proof. unfold upsertMerchant. sim_solve. Qed.

End Helpers.

#[export] Hint Resolve sim_get_order sim_validate sim_update_status sim_outbox sim_audit
  sim_insert_checked sim_release sim_void sim_effects sim_reserve_line sim_items sim_idempotency
  sim_merchant : pg.

(** ** Transactions and single statements *)

(** What a fault may make of an operation. *)
Definition faulty {A} (c : Conn) (run run0 : result A * Conn) : Prop :=
  (fst run = fst run0 /\ conn_db (snd run) = conn_db (snd run0))
  \/ (is_ok (fst run) = false
      /\ (conn_db (snd run) = conn_db c \/ conn_db (snd run) = conn_db (snd run0))).

Lemma faulty_transaction env {A} label (body body0 : M Conn (string * A)) c :
  sim body body0 ->
  faulty c (transaction env label body c) (transaction (without_faults env) label body0 c).
Proof.
  intros Hsim. unfold transaction, faulty. simpl.
  destruct (pg_fault env (conn_calls c)) as [[b e]|]; [right; simpl; auto|].
  destruct (Hsim (mkConn (conn_db c) (Datatypes.S (conn_calls c)))) as [(e & s' & ->)| ->];
    [right; simpl; auto|].
  destruct (body0 _) as [[[l a]|e] s']; simpl; [|by left].
  destruct (pg_fault env (conn_calls s')) as [[[] e]|]; simpl; [right|right|left]; auto.
Qed.

Lemma faulty_discard {A} c (m m0 : M Conn A) :
  faulty c (m c) (m0 c) -> faulty c (discard m c) (discard m0 c).
Proof.
  unfold faulty, discard, bind, ret. destruct (m c) as [[] ?], (m0 c) as [[] ?]; naive_solver.
Qed.

(** A statement on the pool, followed by calls that only read. *)
Definition reads {A} (m : M Conn A) : Prop := forall s, conn_db (snd (m s)) = conn_db s.

Lemma faulty_statement env {A B} label (f f0 : Database -> result (A * Database))
    (k k0 : A -> M Conn B) c :
  (forall db, f db = f0 db) -> (forall a, sim (k a) (k0 a)) ->
  (forall a, reads (k a)) -> (forall a, reads (k0 a)) ->
  faulty c (bind (annotate label (call env f)) k c)
    (bind (annotate label (call (without_faults env) f0)) k0 c).
Proof.
  intros Ef Hsim Hk Hk0. unfold faulty, bind, annotate, call. rewrite Ef. simpl.
  destruct (pg_fault env (conn_calls c)) as [[b e]|].
  - right. destruct (f0 (conn_db c)) as [[a db]|e']; destruct b; simpl; rewrite ?Hk0; auto.
  - destruct (f0 (conn_db c)) as [[a db]|e']; [|by left].
    set (s := mkConn db _). destruct (Hsim a s) as [(e & s' & E)|E].
    + right. pose proof (Hk a s) as Hr. rewrite E in *. simpl in *. rewrite Hr, Hk0. auto.
    + left. by rewrite E.
Qed.

Lemma reads_ret {A} (a : A) : reads (ret a).
Proof. done. Qed.

Lemma reads_throw {A} e : reads (@throw Conn A e).
Proof. done. Qed.

Lemma reads_query env {A} (f : Database -> A) : reads (query env f).
Proof.
  intros s. unfold query, call. by destruct (pg_fault env (conn_calls s)) as [[[] ?]|].
Qed.

Lemma reads_annotate {A} l (m : M Conn A) : reads m -> reads (annotate l m).
Proof. intros H s. specialize (H s). unfold annotate. by destruct (m s) as [[] ?]. Qed.

Lemma reads_bind {A B} (m : M Conn A) (k : A -> M Conn B) :
  reads m -> (forall a, reads (k a)) -> reads (bind m k).
Proof.
  intros H Hk s. specialize (H s). unfold bind. destruct (m s) as [[a|] s']; [|done].
  simpl in H. by rewrite Hk, H.
Qed.

#[export] Hint Resolve reads_ret reads_throw reads_query reads_annotate reads_bind : pg.

Lemma faulty_claim env limit c :
  faulty c (PgStore_PendingOutboxEvents env limit c)
    (PgStore_PendingOutboxEvents (without_faults env) limit c).
Proof.
  unfold PgStore_PendingOutboxEvents. apply faulty_statement; [done|..]; intros rows.
  - assert (scan_events (without_faults env) rows = scan_events env rows) as -> by done.
    destruct (scan_events env rows); sim_solve.
  - destruct (scan_events env rows); unfold iterate; eauto with pg.
  - destruct (scan_events _ rows); unfold iterate; eauto with pg.
Qed.

Lemma faulty_run env op c :
  faulty c (pg_run env op c) (pg_run (without_faults env) op c).
Proof.
  destruct op; simpl; try apply faulty_discard; try apply faulty_claim;
    try (apply faulty_transaction;
         repeat first [solve [auto with pg] | sim_step]).
  - apply faulty_statement; intros; [done|sim_solve|destruct (_ =? 0)..]; auto with pg.
  - unfold PgStore_RecordInboxMessage. apply faulty_statement; intros; auto with pg.
  - unfold PgStore_ReleaseInboxMessage, exec.
    pose proof (faulty_statement env "release inbox message: "
      (fun db => Ok (tt, set_inbox_messages
         (delete (consumer, Event_MessageID ev) (t_inbox_messages db)) db)) _ ret ret c
      ltac:(done) (fun a => sim_refl _) ltac:(auto with pg) ltac:(auto with pg)) as H.
    unfold bind, ret in H. by destruct (annotate _ (call env _) c) as [[[]|] ?],
      (annotate _ (call (without_faults env) _) c) as [[[]|] ?].
Qed.

(** The operations that open a transaction. *)
Definition transactional (op : PgOp) : bool :=
  match op with
  | PgClaim _ | PgPublished _ _ | PgReceived _ _ | PgReleased _ _ => false
  | _ => true
  end.

Lemma transaction_error env {A} label (body : M Conn (string * A)) c :
  (forall n, pg_fault env n = None) ->
  is_ok (fst (transaction env label body c)) = false ->
  conn_db (snd (transaction env label body c)) = conn_db c.
Proof.
  intros Hf. unfold transaction. rewrite !Hf. destruct (body _) as [[[l a]|e] s']; [|done].
  by rewrite Hf.
Qed.

Lemma discard_error {A} (m : M Conn A) c :
  (is_ok (fst (m c)) = false -> conn_db (snd (m c)) = conn_db c) ->
  is_ok (fst (discard m c)) = false -> conn_db (snd (discard m c)) = conn_db c.
Proof. unfold discard, bind, ret. by destruct (m c) as [[] ?]. Qed.

Lemma pg_atomic_run env op c :
  faulty c (pg_run env op c) (pg_run (without_faults env) op c)
  /\ (transactional op = true ->
      is_ok (fst (pg_run (without_faults env) op c)) = false ->
      conn_db (snd (pg_run (without_faults env) op c)) = conn_db c).
Proof.
  split; [apply faulty_run|]. destruct op; simpl; intros Ht; try done;
    try (by apply transaction_error); apply discard_error; by apply transaction_error.
Qed.

(** C29: every operation of the PostgreSQL store is all or nothing under
    failures.  For any schedule of failing driver calls, including a commit whose
    confirmation is lost, the operation either returns what the run without
    failures returns and leaves the database that run leaves, or it reports an
    error and the database is as it was before or as that whole run leaves it,
    never in between; and a transaction the store refuses without any failing call
    leaves the database as it was. *)
Theorem pg_operations_atomic env op c :
  faulty c (pg_run env op c) (pg_run (without_faults env) op c)
  /\ (transactional op = true ->
      is_ok (fst (pg_run (without_faults env) op c)) = false ->
      conn_db (snd (pg_run (without_faults env) op c)) = conn_db c).
Proof. apply pg_atomic_run. Qed.

(** ** Relations kept by successful runs *)

Definition keeps {A} (R : relation Database) (m : M Conn A) : Prop :=
  forall s a s', m s = (Ok a, s') -> R (conn_db s) (conn_db s').

Section Keeps.
Context (R : relation Database) `{!PreOrder R}.

Lemma keeps_ret {A} (a : A) : keeps R (ret a).
Proof. intros s b s' [= <- <-]. reflexivity. Qed.

Lemma keeps_throw {A} e : keeps R (@throw Conn A e).
Proof. by intros s b s'. Qed.

Lemma keeps_require check : keeps R (require check).
Proof. destruct check; [apply keeps_throw|apply keeps_ret]. Qed.

Lemma keeps_bind {A B} (m : M Conn A) (k : A -> M Conn B) :
  keeps R m -> (forall a, keeps R (k a)) -> keeps R (bind m k).
Proof.
  intros Hm Hk s b s' (a & s1 & E1 & E2)%bind_ok_inv. etrans; [by eapply Hm|by eapply Hk].
Qed.

Lemma keeps_annotate {A} l (m : M Conn A) : keeps R m -> keeps R (annotate l m).
Proof.
  intros Hm s a s'. unfold annotate. destruct (m s) as [[]] eqn:E; intros [= <- <-]. by eapply Hm.
Qed.

Lemma call_ok_inv env {A} (f : Database -> result (A * Database)) s a s' :
  call env f s = (Ok a, s') -> f (conn_db s) = Ok (a, conn_db s').
Proof.
  unfold call. destruct (pg_fault env _) as [[[] ?]|], (f (conn_db s)) as [[]|]; naive_solver.
Qed.

Lemma keeps_call env {A} (f : Database -> result (A * Database)) :
  (forall db a db', f db = Ok (a, db') -> R db db') -> keeps R (call env f).
Proof. intros Hf s a s' H%call_ok_inv. by eapply Hf. Qed.

Lemma keeps_exec env f : (forall db, R db (f db)) -> keeps R (exec env f).
Proof. intros Hf. apply keeps_call. intros db [] db' [= <-]. apply Hf. Qed.

Lemma keeps_query env {A} (f : Database -> A) : keeps R (query env f).
Proof. apply keeps_call. intros db a db' [= _ <-]. reflexivity. Qed.

Lemma keeps_for_each {A} (f : A -> M Conn unit) l :
  (forall a, keeps R (f a)) -> keeps R (for_each f l).
Proof. intros Hf. induction l; simpl; [apply keeps_ret|]. by apply keeps_bind. Qed.

Lemma keeps_for_collect {A B} (f : A -> M Conn B) l :
  (forall a, keeps R (f a)) -> keeps R (for_collect f l).
Proof.
  intros Hf. induction l; simpl; [apply keeps_ret|].
  apply keeps_bind; [done|]. intros b. apply keeps_bind; [done|]. intros. apply keeps_ret.
Qed.

Lemma keeps_transaction env {A} l (body : M Conn (string * A)) :
  keeps R body -> keeps R (transaction env l body).
Proof.
  intros Hb s a s'. unfold transaction.
  destruct (pg_fault env (conn_calls s)) as [[]|]; [done|].
  destruct (body _) as [[[l' a']|e] s1] eqn:E; [|done].
  destruct (pg_fault env (conn_calls s1)) as [[]|]; [done|].
  intros [= <- <-]. exact (Hb _ _ _ E).
Qed.

Lemma keeps_discard {A} (m : M Conn A) : keeps R m -> keeps R (discard m).
Proof. intros H. apply keeps_bind; [done|]. intros. apply keeps_ret. Qed.

(** A relation that successful runs keep when nothing fails is kept by every
    run, whatever fails. *)
Lemma pg_run_keeps env op c :
  (transactional op = true -> keeps R (pg_run (without_faults env) op)) ->
  (transactional op = false ->
   R (conn_db c) (conn_db (snd (pg_run (without_faults env) op c)))) ->
  R (conn_db c) (conn_db (snd (pg_run env op c))).
Proof.
  intros Ht Hs.
  assert (R (conn_db c) (conn_db (snd (pg_run (without_faults env) op c)))) as H0.
  { destruct (transactional op) eqn:E; [|auto].
    destruct (pg_run (without_faults env) op c) as [[a|e] c'] eqn:Er; [by eapply Ht|].
    pose proof (proj2 (pg_atomic_run env op c) E) as H. rewrite Er in H. simpl in *.
    rewrite H by done. reflexivity. }
  destruct (faulty_run env op c) as [[_ ->]|[_ [->| ->]]]; [done|reflexivity|done].
Qed.

End Keeps.

(** Follow the structure of a program, leaving the statements that write. *)
Ltac keeps_step :=
  lazymatch goal with
  | |- keeps _ (bind _ _) => apply keeps_bind; [apply _| |intros ?]
  | |- keeps _ (annotate _ _) => apply keeps_annotate
  | |- keeps _ (transaction _ _ _) => apply keeps_transaction
  | |- keeps _ (discard _) => apply keeps_discard; [apply _|]
  | |- keeps _ (query _ _) => apply keeps_query; apply _
  | |- keeps _ (iterate _) => apply keeps_query; apply _
  | |- keeps _ (ret _) => apply keeps_ret; apply _
  | |- keeps _ (throw _) => apply keeps_throw
  | |- keeps _ (require _) => apply keeps_require; apply _
  | |- keeps _ (for_each _ _) => apply keeps_for_each; [apply _|intros ?]
  | |- keeps _ (for_collect _ _) => apply keeps_for_collect; [apply _|intros ?]
  | |- keeps _ (match ?x with _ => _ end) => destruct x
  | |- keeps _ (if ?x then _ else _) => destruct x
  | |- keeps _ (let _ := _ in _) => cbv zeta
  end.
