(* ===== verification/PgStock.v ===== *)
(** Stock in the PostgreSQL store: the reserved quantity of every inventory row
    is the sum of the reservations that hold it, nothing is reserved that was
    not available, and no operation creates or loses stock. *)
From S2P Require Import Prelude GoStrings GoTime Model StateMachine MemoryInvariant.
From S2P Require Import Database PgStore PgAtomic.

(** ** The ledger *)

(** The stock of a warehouse and SKU a reservation holds. *)
Definition held (warehouse sku : string) (k : string * string) (r : ReservationRow) : Z :=
  if String.eqb (snd k) sku && String.eqb (res_status r) "reserved"
     && bool_decide (res_warehouse_id r = Some warehouse)
  then res_quantity r else 0.

Definition ledger (db : Database) (warehouse sku : string) : Z :=
  map_sum (held warehouse sku) (t_stock_reservations db).

Record stock_ok (db : Database) : Prop := {
  so_ledger id row : t_inventory_items db !! id = Some row ->
    inv_reserved_quantity row = ledger db (inv_warehouse_id row) (inv_sku row);
  so_available id row : t_inventory_items db !! id = Some row -> 0 <= inv_available_quantity row;
  so_named id row : t_inventory_items db !! id = Some row -> inv_warehouse_id row <> "";
  so_unique id id' row row' :
    t_inventory_items db !! id = Some row -> t_inventory_items db !! id' = Some row' ->
    inv_warehouse_id row = inv_warehouse_id row' -> inv_sku row = inv_sku row' -> id = id';
  so_positive k r : t_stock_reservations db !! k = Some r -> 0 < res_quantity r;
  so_located k r : t_stock_reservations db !! k = Some r -> res_status r = "reserved" ->
    exists id row, t_inventory_items db !! id = Some row
      /\ res_warehouse_id r = Some (inv_warehouse_id row) /\ inv_sku row = snd k
}.

(** A row of the same shelf with the same stock in all. *)
Definition same_shelf (row row' : InventoryRow) : Prop :=
  inv_warehouse_id row' = inv_warehouse_id row /\ inv_sku row' = inv_sku row
  /\ inv_available_quantity row' + inv_reserved_quantity row'
     = inv_available_quantity row + inv_reserved_quantity row.

Definition shelves_kept (db db' : Database) : Prop :=
  forall id, option_Forall2 same_shelf (t_inventory_items db !! id) (t_inventory_items db' !! id).

Definition stock_step (db db' : Database) : Prop :=
  stock_ok db -> stock_ok db' /\ shelves_kept db db'.

#[export] Instance same_shelf_preorder : PreOrder same_shelf.
Proof.
  split; [by intros x|]. intros x y z (? & ? & ?) (? & ? & ?). split_and!; congruence.
Qed.

#[export] Instance stock_step_preorder : PreOrder stock_step.
Proof.
  split.
  - intros db Hok. split; [done|]. intros id. by destruct (_ !! id); constructor.
  - intros a b c Hab Hbc Ha. destruct (Hab Ha) as [Hb Kab]. destruct (Hbc Hb) as [Hc Kbc].
    split; [done|]. intros id. specialize (Kab id). specialize (Kbc id).
    destruct Kab as [x y Hxy|]; inversion Kbc as [? z Hyz|]; subst; constructor. by etrans.
Qed.

(** Statements that leave both stock tables alone. *)
Lemma stock_frame db db' :
  t_inventory_items db' = t_inventory_items db ->
  t_stock_reservations db' = t_stock_reservations db -> stock_step db db'.
Proof.
  intros Ei Er Hok. split.
  - destruct Hok as [H1 H2 H3 H4 H5 H6].
    split; unfold ledger in *; rewrite ?Ei, ?Er; done.
  - intros id. rewrite Ei. by destruct (_ !! id); constructor.
Qed.

(** Close the goal that one statement keeps the stock tables. *)
Ltac stock_frame :=
  lazymatch goal with
  | |- keeps stock_step (exec _ _) => apply keeps_exec; intros ?
  | |- keeps stock_step (call _ _) => apply keeps_call; intros ? ? ? ?
  end;
  repeat match goal with
         | H : _ = Ok _ |- _ => progress unfold update_order, insert_outbox_row, insert_audit_row,
             upsert_authorization, upsert_shipment, upsert_notification, upsert_compensation,
             insert_order_row, insert_item_row, insert_idempotency_row in H
         end;
  repeat match goal with
         | H : context [match ?x with _ => _ end] |- _ => destruct x eqn:?; try discriminate H
         end;
  simplify_eq/=; by apply stock_frame.

Ltac keeps_stock := repeat (first [keeps_step | stock_frame]).

Section Frames.
Variable env : PgEnv.

Lemma stock_get_order id : keeps stock_step (getOrderTx env id).
Proof. unfold getOrderTx. keeps_stock. Qed.

Lemma stock_validate id st : keeps stock_step (lock_and_validate env id st).
Proof. unfold lock_and_validate, lockOrderStatusForUpdate. keeps_stock. Qed.

Lemma stock_update_status l id st at_ : keeps stock_step (update_status_checked env l id st at_).
Proof. unfold update_status_checked. keeps_stock. Qed.

Lemma stock_outbox ev : keeps stock_step (insertOutboxEvent env ev).
Proof. unfold insertOutboxEvent. keeps_stock. Qed.

Lemma stock_audit au : keeps stock_step (insertAuditLog env au).
Proof. unfold insertAuditLog. keeps_stock. Qed.

Lemma stock_void id at_ : keeps stock_step (voidAuthorizedPayment env id at_).
Proof. unfold voidAuthorizedPayment. keeps_stock. Qed.

Lemma stock_items id : keeps stock_step (orderItemsForReservation env id).
Proof. unfold orderItemsForReservation. keeps_stock. Qed.

Lemma stock_merchant m : keeps stock_step (upsertMerchant env m).
Proof.
  apply keeps_annotate, keeps_exec. intros db.
  destruct (t_merchants db !! m); [reflexivity|by apply stock_frame].
Qed.

Lemma stock_idempotency m k : keeps stock_step (orderByIdempotency env m k).
Proof. unfold orderByIdempotency. keeps_stock. Qed.

Lemma stock_insert_checked m o : keeps stock_step (insert_order_checked env m o).
Proof.
  intros s a s'. unfold insert_order_checked, bind, attempt.
  destruct (call env (insert_order_row env m o) s) as [[[]|e] s1] eqn:E.
  - intros [= <- <-]. assert (keeps stock_step (call env (insert_order_row env m o))) as H
      by stock_frame. by eapply H.
  - by destruct (isUniqueViolation e).
Qed.

End Frames.

(** ** Reserving *)

Lemma best_of_member l acc x :
  fold_left best_of l acc = Some x -> x ∈ l \/ acc = Some x.
Proof.
  revert acc. induction l as [|y l IH]; intros acc; simpl; [auto|].
  intros [H|H]%IH; [left; by apply list_elem_of_further|].
  unfold best_of in H. destruct acc as [b|]; [|simplify_eq; left; apply list_elem_of_here].
  destruct (preferred y b); simplify_eq; [left; apply list_elem_of_here|by right].
Qed.

Lemma pick_stock_spec m sku q db id row :
  pick_stock m sku q db = Some (id, row) ->
  t_inventory_items db !! id = Some row /\ inv_sku row = sku /\ q <= inv_available_quantity row.
Proof.
  intros [[Hc Hin]%list_elem_of_filter|]%best_of_member; [|done]. simpl in Hc.
  apply elem_of_map_to_list in Hin. split; [done|]. unfold candidate in Hc.
  destruct (t_warehouses db !! _); [|done]. string_tests. split; [done|lia].
Qed.

(** Every contribution to a ledger is a quantity. *)
Lemma held_nonneg db w s : stock_ok db ->
  forall k r, t_stock_reservations db !! k = Some r -> 0 <= held w s k r.
Proof.
  intros Hok k r Hr. pose proof (so_positive _ Hok _ _ Hr). unfold held. case_match; lia.
Qed.

Lemma held_other_sku w s k r : snd k <> s -> held w s k r = 0.
Proof. intros H. unfold held. by rewrite (proj2 (String.eqb_neq _ _) H). Qed.

Lemma held_reserved w s order q t :
  held w s (order, s) (mkReservationRow (Some w) q "reserved" t None) = q.
Proof. unfold held. simpl. by rewrite String.eqb_refl, bool_decide_true. Qed.

Lemma held_elsewhere w w' s k q t u : w <> w' ->
  held w s k (mkReservationRow (Some w') q "reserved" t u) = 0.
Proof. intros H. unfold held. simpl. rewrite bool_decide_false by congruence. by rewrite andb_false_r. Qed.

Lemma held_idle w s k r : res_status r <> "reserved" -> held w s k r = 0.
Proof.
  intros H. unfold held. rewrite (proj2 (String.eqb_neq _ _) H). by rewrite andb_false_r.
Qed.

Definition put_reservation (k : string * string) (r : ReservationRow) (db : Database) : Database :=
  set_stock_reservations (<[k := r]> (t_stock_reservations db)) db.

(** One new entry changes the ledgers by its contribution. *)
Lemma ledger_put db k r w s :
  ledger (put_reservation k r db) w s
  = ledger db w s - weight (held w s) (t_stock_reservations db) k + held w s k r.
Proof.
  unfold ledger, put_reservation. simpl. rewrite (map_sum_change _ (t_stock_reservations db) _ k).
  - f_equal. unfold weight. by rewrite lookup_insert_eq.
  - intros k' Hne. unfold weight. by rewrite lookup_insert_ne.
Qed.

(** The inventory table after stock was taken from one row. *)
Lemma taken_shelf db id row q at_ i r :
  t_inventory_items db !! id = Some row ->
  <[id := take_stock q at_ row]> (t_inventory_items db) !! i = Some r ->
  exists r', t_inventory_items db !! i = Some r'
    /\ inv_warehouse_id r' = inv_warehouse_id r /\ inv_sku r' = inv_sku r.
Proof. intros Hid [[-> <-]|[_ Hl]]%lookup_insert_Some; eauto. Qed.

Lemma taken_kept db id row q at_ i r :
  t_inventory_items db !! id = Some row -> t_inventory_items db !! i = Some r ->
  exists r', <[id := take_stock q at_ row]> (t_inventory_items db) !! i = Some r'
    /\ inv_warehouse_id r' = inv_warehouse_id r /\ inv_sku r' = inv_sku r.
Proof.
  intros Hid Hi. destruct (decide (i = id)) as [->|Hne].
  - rewrite lookup_insert_eq. simplify_eq. eauto.
  - rewrite lookup_insert_ne by done. eauto.
Qed.

(** The ledger of a shelf after a reservation that was idle became active. *)
Lemma ledger_reserve db k r w s :
  weight (held w s) (t_stock_reservations db) k = 0 ->
  ledger (put_reservation k r db) w s = ledger db w s + held w s k r.
Proof. intros H. rewrite ledger_put. lia. Qed.

Lemma idle_weight db order sku w s :
  (forall r, t_stock_reservations db !! (order, sku) = Some r -> res_status r <> "reserved") ->
  weight (held w s) (t_stock_reservations db) (order, sku) = 0.
Proof.
  intros H. unfold weight. destruct (_ !! _) as [r|] eqn:E; [|done]. by apply held_idle, H.
Qed.

(** What a new reservation of a row's stock adds to the ledgers. *)
Lemma held_new db id row id' row' order q t :
  stock_ok db -> t_inventory_items db !! id = Some row ->
  t_inventory_items db !! id' = Some row' ->
  held (inv_warehouse_id row') (inv_sku row') (order, inv_sku row)
    (mkReservationRow (Some (inv_warehouse_id row)) q "reserved" t None)
  = if decide (id' = id) then q else 0.
Proof.
  intros Hok Hid Hid'. case_decide as Hd; [subst; simplify_eq; apply held_reserved|].
  destruct (decide (inv_sku row = inv_sku row')) as [Es|]; [|by apply held_other_sku].
  apply held_elsewhere. intros Ew. apply Hd. by eapply (so_unique _ Hok).
Qed.

Lemma stock_reserve db id row order q at_ t :
  t_inventory_items db !! id = Some row -> q <= inv_available_quantity row -> 0 < q ->
  (forall r, t_stock_reservations db !! (order, inv_sku row) = Some r ->
             res_status r <> "reserved") ->
  stock_step db
    (put_reservation (order, inv_sku row)
       (mkReservationRow (Some (inv_warehouse_id row)) q "reserved" t None)
       (set_inventory_items (<[id := take_stock q at_ row]> (t_inventory_items db)) db)).
Proof.
  intros Hid Hq Hpos Hidle Hok. split; [split; simpl|].
  - intros i r Hl. rewrite ledger_reserve by (by apply (idle_weight db)).
    change (ledger (set_inventory_items _ db) ?w ?s) with (ledger db w s).
    destruct (taken_shelf _ _ _ _ _ _ _ Hid Hl) as (r' & Hr' & <- & <-).
    rewrite (held_new db id row i r') by done. rewrite <- (so_ledger _ Hok _ _ Hr').
    apply lookup_insert_Some in Hl as [[-> <-]|[Hne Hl]]; simplify_eq; simpl.
    + by rewrite decide_True.
    + rewrite decide_False by done. lia.
  - intros i r [[-> <-]|[_ Hl]]%lookup_insert_Some; simpl; [lia|]. by eapply so_available.
  - intros i r Hl. destruct (taken_shelf _ _ _ _ _ _ _ Hid Hl) as (r' & Hr' & <- & _).
    by eapply so_named.
  - intros i i' r r' Hl Hl' Hw Hs.
    destruct (taken_shelf _ _ _ _ _ _ _ Hid Hl) as (x & Hx & Wx & Sx).
    destruct (taken_shelf _ _ _ _ _ _ _ Hid Hl') as (y & Hy & Wy & Sy).
    eapply (so_unique _ Hok); [done..|congruence|congruence].
  - intros k r [[<- <-]|[_ Hl]]%lookup_insert_Some; [done|]. by eapply so_positive.
  - intros k r [[<- <-]|[_ Hl]]%lookup_insert_Some Hst.
    + exists id, (take_stock q at_ row). by rewrite lookup_insert_eq.
    + destruct (so_located _ Hok _ _ Hl Hst) as (i & x & Hx & Hw & Hs).
      destruct (taken_kept _ _ _ q at_ _ _ Hid Hx) as (x' & Hx' & W & S).
      exists i, x'. rewrite W, S. done.
  - intros i. simpl. destruct (decide (i = id)) as [->|Hne].
    + rewrite lookup_insert_eq, Hid. constructor. split_and!; simpl; [done..|lia].
    + rewrite lookup_insert_ne by done. by destruct (_ !! i); constructor.
Qed.

(** Writing an active reservation again with its own values. *)
Lemma stock_rereserve db order sku r t :
  t_stock_reservations db !! (order, sku) = Some r -> res_status r = "reserved" ->
  stock_step db
    (put_reservation (order, sku)
       (mkReservationRow (res_warehouse_id r) (res_quantity r) "reserved" t None) db).
Proof.
  intros Hr Hst Hok. split; [split; simpl|].
  - intros i x Hx. rewrite ledger_put. unfold weight. rewrite Hr, (so_ledger _ Hok _ _ Hx).
    assert (held (inv_warehouse_id x) (inv_sku x) (order, sku)
              (mkReservationRow (res_warehouse_id r) (res_quantity r) "reserved" t None)
            = held (inv_warehouse_id x) (inv_sku x) (order, sku) r) as ->
      by (unfold held; by rewrite Hst). lia.
  - apply (so_available _ Hok).
  - apply (so_named _ Hok).
  - apply (so_unique _ Hok).
  - intros k x [[<- <-]|[_ Hl]]%lookup_insert_Some; simpl; by eapply so_positive.
  - intros k x [[<- <-]|[_ Hl]]%lookup_insert_Some Hx; simpl; [|by eapply so_located].
    exact (so_located _ Hok _ _ Hr Hst).
  - intros i. simpl. by destruct (_ !! i); constructor.
Qed.

Lemma annotate_ok_inv {S A} l (m : M S A) s a s' :
  annotate l m s = (Ok a, s') -> m s = (Ok a, s').
Proof. unfold annotate. destruct (m s) as [[]]; naive_solver. Qed.

Lemma query_ok_inv env {A} (f : Database -> A) s a s' :
  query env f s = (Ok a, s') -> a = f (conn_db s) /\ conn_db s' = conn_db s.
Proof. intros H%call_ok_inv. by simplify_eq. Qed.

Lemma nullable_named s : s <> "" -> nullableString s = Some s.
Proof. intros H. unfold nullableString. by rewrite (proj2 (String.eqb_neq _ _) H). Qed.

(** A successful upsert of a reservation. *)
Lemma upsert_reservation_ok env order wh sku q at_ db u db' :
  upsert_reservation env order (Some wh) sku q at_ db = Ok (u, db') ->
  0 < q /\ db' = put_reservation (order, sku)
                   (mkReservationRow (Some wh) q "reserved" (timestamptz at_) None) db.
Proof.
  unfold upsert_reservation. simpl. destruct (negb (0 <? q)) eqn:E; [done|].
  destruct (negb (existsb _ _)); [done|]. destruct (negb (bool_decide _)); [done|].
  intros [= _ <-]. split; [lia|done].
Qed.

Lemma reserve_from_stock_inv env m item at_ s w s' :
  reserve_from_stock env m item at_ s = (Ok w, s') ->
  exists id row,
    t_inventory_items (conn_db s) !! id = Some row
    /\ inv_sku row = reservation_sku item /\ w = inv_warehouse_id row
    /\ reservation_quantity item <= inv_available_quantity row
    /\ conn_db s' = set_inventory_items
         (<[id := take_stock (reservation_quantity item) at_ row]>
            (t_inventory_items (conn_db s))) (conn_db s).
Proof.
  intros (p & s2 & H%annotate_ok_inv%call_ok_inv & Hk)%bind_ok_inv. unfold reserve_candidate in H.
  destruct (pick_stock _ _ _ _) as [[id row]|] eqn:Ep; [|by simplify_eq].
  apply pick_stock_spec in Ep as (Hid & Hsku & Hq).
  destruct (negb (int4 _)); [done|]. destruct (_ <? 0); [done|]. simplify_eq/=.
  injection Hk as <- <-. exists id, row. split_and!; done.
Qed.

(** What a successful [reserveInventoryItem] found or took. *)
Lemma reserve_item_inv env m order item at_ s w s' :
  reserveInventoryItem env m order item at_ s = (Ok w, s') ->
  (exists r, t_stock_reservations (conn_db s) !! (order, reservation_sku item) = Some r
     /\ res_status r = "reserved" /\ res_quantity r = reservation_quantity item
     /\ w = default "" (res_warehouse_id r) /\ conn_db s' = conn_db s)
  \/ ((forall r, t_stock_reservations (conn_db s) !! (order, reservation_sku item) = Some r ->
                 res_status r <> "reserved")
      /\ exists s1, conn_db s1 = conn_db s /\ reserve_from_stock env m item at_ s1 = (Ok w, s')).
Proof.
  intros (old & s1 & H1%annotate_ok_inv & H2)%bind_ok_inv.
  apply query_ok_inv in H1 as [-> Es].
  destruct (t_stock_reservations (conn_db s) !! _) as [r|]; [|right; split; [done|eauto]].
  destruct (String.eqb (res_status r) "reserved") eqn:Est; string_tests.
  - left. exists r. destruct (res_quantity r =? _) eqn:Eq; [|done]. simpl in H2.
    injection H2 as <- <-. split_and!; try done. lia.
  - right. split; [|eauto]. intros r' ?. by simplify_eq.
Qed.

Lemma stock_reserve_line env src next item : keeps stock_step (reserve_line env src next item).
Proof.
  intros s a s' (w & s1 & H1 & H2)%bind_ok_inv Hok.
  apply bind_ok_inv in H2 as (u & s2 & H2%annotate_ok_inv%call_ok_inv & [= _ <-]).
  apply reserve_item_inv in H1 as [(r & Hr & Hst & Hq & -> & E1)|(Hidle & s0 & E0 & H0)].
  - destruct (so_located _ Hok _ _ Hr Hst) as (id & row & Hrow & Hw & _).
    rewrite Hw in H2. simpl in H2. rewrite nullable_named in H2 by (by eapply so_named).
    apply upsert_reservation_ok in H2 as [_ ->]. rewrite E1, <- Hq, <- Hw.
    by apply (stock_rereserve _ _ _ r).
  - apply reserve_from_stock_inv in H0 as (id & row & Hid & Hsku & -> & Hq & E1).
    rewrite E0 in *. rewrite nullable_named in H2 by (by eapply so_named).
    apply upsert_reservation_ok in H2 as [Hpos ->]. rewrite E1, <- Hsku in *.
    by apply (stock_reserve _ id).
Qed.

(** ** Releasing *)

Lemma holding_weight order db row :
  default 0 (holding order db row)
  = weight (held (inv_warehouse_id row) (inv_sku row)) (t_stock_reservations db)
      (order, inv_sku row).
Proof.
  unfold holding, weight, held. destruct (_ !! _) as [r|]; [|done]. simpl.
  rewrite String.eqb_refl. simpl. by destruct (_ && _).
Qed.

(** Both stock tables after [releaseReservedStock]. *)
Definition released (order : string) (at_ : Time) (db : Database) : Database :=
  set_stock_reservations
    (map_imap (fun k r => Some (release_reservation order at_ k r)) (t_stock_reservations db))
    (set_inventory_items (give_back order at_ db <$> t_inventory_items db) db).

Lemma released_lookup order at_ db k :
  t_stock_reservations (released order at_ db) !! k
  = release_reservation order at_ k <$> t_stock_reservations db !! k.
Proof. simpl. rewrite map_lookup_imap. by destruct (_ !! k). Qed.

Lemma released_idle order at_ sku r :
  res_status (release_reservation order at_ (order, sku) r) <> "reserved".
Proof.
  unfold release_reservation. simpl. rewrite String.eqb_refl. simpl.
  destruct (String.eqb (res_status r) "released") eqn:E; simpl; [|done].
  apply String.eqb_eq in E. by rewrite E.
Qed.

Lemma released_other order at_ k r : fst k <> order -> release_reservation order at_ k r = r.
Proof. intros H. unfold release_reservation. by rewrite (proj2 (String.eqb_neq _ _) H). Qed.

Lemma ledger_released order at_ db w s :
  ledger (released order at_ db) w s
  = ledger db w s - weight (held w s) (t_stock_reservations db) (order, s).
Proof.
  unfold ledger. rewrite (map_sum_change _ (t_stock_reservations db) _ (order, s)).
  - assert (weight (held w s) (t_stock_reservations (released order at_ db)) (order, s) = 0); [|lia].
    unfold weight. rewrite released_lookup. destruct (_ !! _); [|done].
    apply held_idle, released_idle.
  - intros [o s'] Hne. unfold weight. rewrite released_lookup. destruct (_ !! _) as [r|]; [|done].
    simpl. destruct (decide (s' = s)) as [->|].
    + rewrite released_other; [done|]. simpl. congruence.
    + by rewrite !held_other_sku.
Qed.

Lemma give_back_shelf order at_ db row :
  inv_warehouse_id (give_back order at_ db row) = inv_warehouse_id row
  /\ inv_sku (give_back order at_ db row) = inv_sku row.
Proof. unfold give_back. by destruct (holding _ _ _). Qed.

(** The quantities given back: never more than is reserved. *)
Lemma give_back_amounts order at_ db id row :
  stock_ok db -> t_inventory_items db !! id = Some row ->
  let q := default 0 (holding order db row) in
  0 <= q
  /\ inv_available_quantity (give_back order at_ db row) = inv_available_quantity row + q
  /\ inv_reserved_quantity (give_back order at_ db row) = inv_reserved_quantity row - q.
Proof.
  intros Hok Hid q. subst q.
  pose proof (weight_le (held (inv_warehouse_id row) (inv_sku row)) (t_stock_reservations db)
                (order, inv_sku row) (held_nonneg _ _ _ Hok)) as Hle.
  pose proof (so_ledger _ Hok _ _ Hid) as Hr. unfold ledger in Hr.
  pose proof (holding_weight order db row) as Hw.
  assert (0 <= default 0 (holding order db row)).
  { rewrite Hw. unfold weight.
    destruct (t_stock_reservations db !! _) eqn:E; [|done]. by eapply held_nonneg. }
  unfold give_back. destruct (holding order db row) as [q|]; simpl in *; split_and!; lia.
Qed.

Lemma stock_release order at_ db : stock_step db (released order at_ db).
Proof.
  intros Hok. split; [split|].
  - intros id row'. change (t_inventory_items (released order at_ db))
      with (give_back order at_ db <$> t_inventory_items db).
    intros (row & <- & Hid)%lookup_fmap_Some.
    destruct (give_back_shelf order at_ db row) as [-> ->].
    destruct (give_back_amounts order at_ db id row Hok Hid) as (_ & _ & ->).
    by rewrite ledger_released, holding_weight, (so_ledger _ Hok _ _ Hid).
  - intros id row' (row & <- & Hid)%lookup_fmap_Some.
    destruct (give_back_amounts order at_ db id row Hok Hid) as (? & -> & _).
    pose proof (so_available _ Hok _ _ Hid). lia.
  - intros id row' (row & <- & Hid)%lookup_fmap_Some.
    destruct (give_back_shelf order at_ db row) as [-> _]. by eapply so_named.
  - intros i i' r r' (x & <- & Hx)%lookup_fmap_Some (y & <- & Hy)%lookup_fmap_Some.
    destruct (give_back_shelf order at_ db x) as [-> ->].
    destruct (give_back_shelf order at_ db y) as [-> ->]. by apply (so_unique _ Hok).
  - intros k r. rewrite released_lookup. intros (r0 & Hr & ->)%fmap_Some.
    unfold release_reservation. case_match; simpl; by eapply so_positive.
  - intros [o s] r. rewrite released_lookup. intros (r0 & Hr & ->)%fmap_Some Hst.
    destruct (decide (o = order)) as [->|Hne]; [by apply released_idle in Hst|].
    rewrite released_other in * by done.
    destruct (so_located _ Hok _ _ Hr Hst) as (id & row & Hid & Hw & Hs).
    exists id, (give_back order at_ db row). simpl. rewrite lookup_fmap, Hid.
    by destruct (give_back_shelf order at_ db row) as [-> ->].
  - intros id. simpl. rewrite lookup_fmap. destruct (t_inventory_items db !! id) as [row|] eqn:Hid;
      simpl; constructor.
    destruct (give_back_amounts order at_ db id row Hok Hid) as (_ & Ha & Hr).
    destruct (give_back_shelf order at_ db row). split_and!; [done..|]. lia.
Qed.

(** The whole of [releaseReservedStock], on the stock tables. *)
Lemma release_run env order at_ s u s' :
  releaseReservedStock env order at_ s = (Ok u, s') ->
  t_inventory_items (conn_db s') = t_inventory_items (released order at_ (conn_db s))
  /\ t_stock_reservations (conn_db s') = t_stock_reservations (released order at_ (conn_db s))
  /\ t_orders (conn_db s') = t_orders (conn_db s)
  /\ t_shipments (conn_db s') = t_shipments (conn_db s)
  /\ t_order_items (conn_db s')
     = t_order_items (update_items order "released"
                        (fun r => String.eqb (item_reservation_status r) "reserved") (conn_db s)).
Proof.
  intros ([] & s1 & H1%annotate_ok_inv%call_ok_inv & H2)%bind_ok_inv.
  apply bind_ok_inv in H2 as ([] & s2 & H2%annotate_ok_inv%call_ok_inv & H3%annotate_ok_inv%call_ok_inv).
  unfold release_inventory in H1. destruct (existsb _ _); [done|].
  injection H1 as E1. injection H2 as E2. injection H3 as _ E3. rewrite <- E3, <- E2, <- E1. done.
Qed.

Lemma stock_release_run env order at_ : keeps stock_step (releaseReservedStock env order at_).
Proof.
  intros s u s' (Hi & Hr & _)%release_run.
  transitivity (released order at_ (conn_db s)); [apply stock_release|]. by apply stock_frame.
Qed.

#[export] Hint Resolve stock_get_order stock_validate stock_update_status stock_outbox stock_audit
  stock_void stock_items stock_merchant stock_insert_checked stock_reserve_line
  stock_release_run stock_idempotency : pg.

(** ** Whole operations *)

Definition pg_runs (env : PgEnv) (ops : list PgOp) (c : Conn) : Conn :=
  fold_left (fun c op => snd (pg_run env op c)) ops c.

Lemma stock_effects env src at_ : keeps stock_step (applyCompensationEffects env src at_).
Proof.
  apply keeps_bind; [apply _| |intros _]; case_match; auto with pg; apply keeps_ret; apply _.
Qed.

#[export] Hint Resolve stock_effects : pg.

Lemma stock_transaction env op :
  transactional op = true -> keeps stock_step (pg_run (without_faults env) op).
Proof.
  destruct op; intros Ht; try done; simpl; try (apply keeps_discard; [apply _|]);
    apply keeps_transaction; repeat first [solve [auto with pg] | keeps_step | stock_frame].
Qed.

(** The operations outside transactions write the outbox and the inbox only. *)
Lemma statement_frame env op c :
  transactional op = false ->
  let db' := conn_db (snd (pg_run (without_faults env) op c)) in
  t_inventory_items db' = t_inventory_items (conn_db c)
  /\ t_stock_reservations db' = t_stock_reservations (conn_db c)
  /\ t_orders db' = t_orders (conn_db c).
Proof.
  destruct op; intros Ht; try done; simpl;
    unfold discard, PgStore_PendingOutboxEvents, PgStore_MarkOutboxPublished,
      PgStore_RecordInboxMessage, PgStore_ReleaseInboxMessage, exec, iterate, query,
      insert_inbox_row, bind, annotate, call, claim_rows, ret, throw; simpl;
    repeat case_match; simplify_eq/=; done.
Qed.

Lemma stock_run env op c : stock_step (conn_db c) (conn_db (snd (pg_run env op c))).
Proof.
  apply pg_run_keeps; [apply _|apply stock_transaction|].
  intros (? & ? & _)%(statement_frame env op c). by apply stock_frame.
Qed.

Lemma stock_runs env ops c : stock_step (conn_db c) (conn_db (pg_runs env ops c)).
Proof.
  revert c. induction ops as [|op ops IH]; intros c; [reflexivity|].
  etrans; [apply (stock_run env op)|apply IH].
Qed.

(** C31: stock is conserved: over any sequence of store operations, with any
    failing calls, every inventory row keeps its warehouse, its SKU and its
    total stock; what is available never becomes negative, and what is reserved
    is always exactly the sum of the active reservations of that stock, so no
    order is promised stock twice and a cancelled one gives back what it held. *)
Theorem pg_stock_conserved env ops c id row :
  stock_ok (conn_db c) -> t_inventory_items (conn_db c) !! id = Some row ->
  let db' := conn_db (pg_runs env ops c) in
  stock_ok db'
  /\ exists row', t_inventory_items db' !! id = Some row'
       /\ inv_warehouse_id row' = inv_warehouse_id row /\ inv_sku row' = inv_sku row
       /\ 0 <= inv_available_quantity row'
       /\ inv_reserved_quantity row' = ledger db' (inv_warehouse_id row) (inv_sku row)
       /\ inv_available_quantity row' + inv_reserved_quantity row'
          = inv_available_quantity row + inv_reserved_quantity row.
Proof.
  intros Hok Hid db'. destruct (stock_runs env ops c Hok) as [Hok' Hkept]. split; [done|].
  specialize (Hkept id). rewrite Hid in Hkept. fold db' in Hkept.
  destruct (t_inventory_items db' !! id) as [row'|] eqn:E; [|inversion Hkept].
  inversion Hkept as [? ? (Hw & Hs & Ht)|]; subst.
  exists row'. split_and!; try done; [by eapply so_available|].
  rewrite <- Hw, <- Hs. by eapply so_ledger.
Qed.
