(* ===== verification/PgOrders.v ===== *)
(** Orders in the PostgreSQL store: every order row follows the life cycle, and
    an inserted order is read back as it was written. *)
From S2P Require Import Prelude GoStrings GoTime Model StateMachine MemoryStore.
From S2P Require Import MemoryInvariant Database PgStore PgAtomic PgStock.

(** ** Histories of order rows *)

(** The columns no statement updates. *)
Definition row_snapshot (r : OrderRow) :=
  (orders_merchant_id r, orders_external_order_id r, orders_currency r,
   orders_subtotal_amount r, orders_shipping_amount r, orders_total_amount r,
   orders_payment_credential_ref r, orders_shipping_address_ref r, orders_created_at r).

Record row_evolves (r r' : OrderRow) : Prop := {
  re_snapshot : row_snapshot r' = row_snapshot r;
  re_status : rtc Moves (orders_status r) (orders_status r');
  re_version : orders_version r <= orders_version r'
}.

Definition orders_step (db db' : Database) : Prop :=
  forall id r, t_orders db !! id = Some r ->
    exists r', t_orders db' !! id = Some r' /\ row_evolves r r'.

Definition same_orders (db db' : Database) : Prop := t_orders db' = t_orders db.

#[export] Instance row_evolves_preorder : PreOrder row_evolves.
Proof.
  split.
  - intros r. by split.
  - intros a b c [? ? ?] [? ? ?]. split; [congruence|by etrans|lia].
Qed.

#[export] Instance orders_step_preorder : PreOrder orders_step.
Proof.
  split.
  - intros db id r H. exists r. split; [done|reflexivity].
  - intros a b c Hab Hbc id r H. destruct (Hab _ _ H) as (r1 & H1 & E1).
    destruct (Hbc _ _ H1) as (r2 & H2 & E2). exists r2. split; [done|by etrans].
Qed.

#[export] Instance same_orders_preorder : PreOrder same_orders.
Proof. split; [by intros db|]. intros a b c. unfold same_orders. congruence. Qed.

Lemma same_orders_step db db' : same_orders db db' -> orders_step db db'.
Proof. intros E id r H. exists r. rewrite E. split; [done|reflexivity]. Qed.

Lemma keeps_same {A} (m : M Conn A) : keeps same_orders m -> keeps orders_step m.
Proof. intros H s a s' E. by eapply same_orders_step, H. Qed.

(** Close the goal that one statement leaves the orders table alone. *)
Ltac orders_frame :=
  lazymatch goal with
  | |- keeps same_orders (exec _ _) => apply keeps_exec; intros ?; try done
  | |- keeps same_orders (call _ _) => apply keeps_call; intros ? ? ? ?
  end;
  repeat match goal with
         | H : _ = Ok _ |- _ => progress unfold insert_outbox_row, insert_audit_row,
             upsert_authorization, upsert_shipment, upsert_notification, upsert_compensation,
             insert_item_row, insert_idempotency_row, release_inventory, reserve_candidate,
             upsert_reservation in H
         end;
  repeat match goal with
         | H : context [match ?x with _ => _ end] |- _ => destruct x eqn:?; try discriminate H
         end;
  simplify_eq/=; done.

Ltac keeps_orders := repeat (first [keeps_step | orders_frame]).

Section Frames.
Variable env : PgEnv.

Lemma orders_get id : keeps same_orders (getOrderTx env id).
Proof. unfold getOrderTx. keeps_orders. Qed.

Lemma orders_outbox ev : keeps same_orders (insertOutboxEvent env ev).
Proof. unfold insertOutboxEvent. keeps_orders. Qed.

Lemma orders_audit au : keeps same_orders (insertAuditLog env au).
Proof. unfold insertAuditLog. keeps_orders. Qed.

Lemma orders_items id : keeps same_orders (orderItemsForReservation env id).
Proof. unfold orderItemsForReservation. keeps_orders. Qed.

Lemma orders_idempotency m k : keeps same_orders (orderByIdempotency env m k).
Proof. unfold orderByIdempotency. keeps_orders. Qed.

Lemma orders_merchant m : keeps same_orders (upsertMerchant env m).
Proof. apply keeps_annotate, keeps_exec. intros db. by destruct (t_merchants db !! m). Qed.

Lemma orders_reserve_line src next item : keeps same_orders (reserve_line env src next item).
Proof. unfold reserve_line, reserveInventoryItem, reserve_from_stock. keeps_orders. Qed.

Lemma orders_release id at_ : keeps same_orders (releaseReservedStock env id at_).
Proof. intros s u s' (_ & _ & H & _)%release_run. done. Qed.

End Frames.

#[export] Hint Resolve orders_get orders_outbox orders_audit orders_items orders_idempotency
  orders_merchant orders_reserve_line orders_release : pg.

(** ** Guarded updates *)

(** An update of an order row that keeps its identity and sets the status. *)
Lemma update_order_step env id f db n db' :
  update_order env id f db = Ok (n, db') ->
  (forall r, t_orders db !! id = Some r -> row_evolves r (f r)) -> orders_step db db'.
Proof.
  unfold update_order. destruct (t_orders db !! id) as [r|] eqn:E; intros H Hf.
  - destruct (negb (chk_orders_status _)); [done|].
    destruct (negb (chk_orders_payment_status _)); [done|]. simplify_eq.
    intros id' r' Hr'. simpl. destruct (decide (id' = id)) as [->|Hne].
    + rewrite lookup_insert_eq. simplify_eq. eauto.
    + rewrite lookup_insert_ne by done. exists r'. split; [done|reflexivity].
  - simplify_eq. reflexivity.
Qed.

(** A program that runs after the transition of an order was checked. *)
Definition guarded (id : string) (st : OrderStatus) {A} (m : M Conn A) : Prop :=
  forall s a s',
    (forall r, t_orders (conn_db s) !! id = Some r ->
               ValidateOrderTransition (orders_status r) st = None) ->
    m s = (Ok a, s') -> orders_step (conn_db s) (conn_db s').

Lemma guarded_lock env id st {A} (k : M Conn A) :
  guarded id st k -> keeps orders_step (let! _ := lock_and_validate env id st in k).
Proof.
  intros Hk s a s' ([] & s1 & H1 & H2)%bind_ok_inv.
  apply bind_ok_inv in H1 as (cur & s2 & H1 & Hreq).
  apply bind_ok_inv in H1 as (row & s3 & H1%annotate_ok_inv%query_ok_inv & Hrow).
  destruct H1 as [-> E3]. destruct (t_orders (conn_db s) !! id) as [r|] eqn:Er; [|done].
  injection Hrow as <- <-.
  destruct (ValidateOrderTransition (orders_status r) st) eqn:Ev; [done|]. injection Hreq as <-.
  rewrite <- E3. eapply Hk; [|done]. intros r' Hr'. rewrite E3 in Hr'. by simplify_eq.
Qed.

Lemma guarded_frame id st {A B} (m : M Conn A) (k : A -> M Conn B) :
  keeps same_orders m -> (forall a, guarded id st (k a)) -> guarded id st (bind m k).
Proof.
  intros Hm Hk s b s' Hg (a & s1 & H1 & H2)%bind_ok_inv. pose proof (Hm _ _ _ H1) as E.
  etrans; [by apply same_orders_step|]. eapply Hk; [|done]. rewrite E. done.
Qed.

(** The update itself, and anything that keeps histories after it. *)
Lemma guarded_update env id st l f {B} (k : Z -> M Conn B) :
  (forall r, rtc Moves (orders_status r) st -> row_evolves r (f r)) ->
  (forall n, keeps orders_step (k n)) ->
  guarded id st (bind (annotate l (call env (update_order env id f))) k).
Proof.
  intros Hf Hk s b s' Hg (n & s1 & H1%annotate_ok_inv%call_ok_inv & H2)%bind_ok_inv.
  transitivity (conn_db s1); [|by eapply Hk]. eapply update_order_step; [done|].
  intros r Hr. apply Hf, allowed_moves, (Hg _ Hr).
Qed.

Lemma guarded_status env l id st at_ {B} (k : unit -> M Conn B) :
  (forall u, keeps orders_step (k u)) ->
  guarded id st (let! u := update_status_checked env l id st at_ in k u).
Proof.
  intros Hk s b s' Hg ([] & s1 & H1 & H2)%bind_ok_inv. transitivity (conn_db s1); [|by eapply Hk].
  refine (guarded_update env id st l (set_row_status st at_)
            (fun rows => if rows =? 0 then throw ErrNotFound else ret tt) _ _ s tt s1 Hg H1).
  - intros r Hm. split; simpl; [done|done|lia].
  - intros n. destruct (n =? 0); [apply keeps_throw|apply keeps_ret; apply _].
Qed.

(** ** Whole operations *)

Lemma orders_void env id at_ : keeps orders_step (voidAuthorizedPayment env id at_).
Proof.
  apply keeps_bind; [apply _|apply keeps_same; keeps_orders|intros _].
  apply keeps_bind; [apply _| |intros ?; apply keeps_ret; apply _].
  apply keeps_annotate, keeps_call. intros db n db' H. eapply update_order_step; [done|].
  intros r _. unfold void_row. case_bool_decide; [|reflexivity]. by split.
Qed.

Lemma orders_effects env src at_ : keeps orders_step (applyCompensationEffects env src at_).
Proof.
  apply keeps_bind; [apply _| |intros _]; case_match;
    auto using keeps_same, orders_void with pg; apply keeps_ret; apply _.
Qed.

Lemma orders_touch env l id f :
  (forall r, row_evolves r (f r)) ->
  keeps orders_step (annotate l (call env (update_order env id f))).
Proof.
  intros Hf. apply keeps_annotate, keeps_call. intros db n db' H.
  by eapply update_order_step.
Qed.

Lemma insert_order_row_ok env m o db u db' :
  insert_order_row env m o db = Ok (u, db') ->
  exists currency, char3 (Order_Currency o) = Some currency
    /\ t_orders db !! Order_OrderID o = None
    /\ external_exists m (Order_ExternalOrderID o) db = false
    /\ db' = set_orders (<[Order_OrderID o := order_row m currency o]> (t_orders db)) db.
Proof.
  unfold insert_order_row. destruct (char3 _) as [currency|]; [|done].
  destruct (negb (chk_orders_status _)); [done|].
  destruct (negb (chk_orders_payment_status _)); [done|].
  case_bool_decide as Hnew; [done|]. destruct (external_exists _ _ _) eqn:Ex; [done|].
  destruct (negb (bool_decide _)); [done|]. intros [= _ <-]. exists currency.
  split_and!; try done. by apply eq_None_not_Some.
Qed.

Lemma insert_checked_inv env m o s u s' :
  insert_order_checked env m o s = (Ok u, s') ->
  insert_order_row env m o (conn_db s) = Ok (tt, conn_db s').
Proof.
  unfold insert_order_checked, bind, attempt.
  destruct (call env (insert_order_row env m o) s) as [[[]|e] s1] eqn:E;
    [|by destruct (isUniqueViolation e)].
  intros [= _ <-]. by apply call_ok_inv in E.
Qed.

Lemma orders_insert_checked env m o : keeps orders_step (insert_order_checked env m o).
Proof.
  intros s u s' (cur & _ & Hnew & _ & ->)%insert_checked_inv%insert_order_row_ok id r Hr.
  exists r. simpl. rewrite lookup_insert_ne by congruence. split; [done|reflexivity].
Qed.

Ltac orders_op :=
  repeat first
    [ solve [auto using keeps_same, orders_void, orders_effects, orders_insert_checked with pg]
    | lazymatch goal with
      | |- keeps orders_step (bind (lock_and_validate _ _ _) _) => apply guarded_lock
      | |- guarded _ _ (bind (update_status_checked _ _ _ _ _) _) => apply guarded_status; intros ?
      | |- guarded _ _ (bind (annotate _ (call _ (update_order _ _ _))) _) =>
          apply guarded_update; [intros ? ?; split; simpl; [done|done|lia]|intros ?]
      | |- guarded _ _ (bind _ _) => apply guarded_frame; [|intros ?]
      | |- guarded _ _ (match ?x with _ => _ end) => destruct x
      | |- guarded _ _ (let _ := _ in _) => cbv zeta
      | |- guarded _ _ (throw _) => by intros ? ? ? ?
      | |- keeps orders_step (annotate _ (call _ (update_order _ _ _))) =>
          apply orders_touch; intros ?; split; simpl; [done|done|lia]
      | |- keeps orders_step (annotate _ _) => apply keeps_same
      end
    | keeps_step | orders_frame ].

Lemma orders_transaction env op :
  transactional op = true -> keeps orders_step (pg_run (without_faults env) op).
Proof.
  destruct op; intros Ht; try done; simpl; try (apply keeps_discard; [apply _|]);
    apply keeps_transaction; orders_op.
Qed.

Lemma orders_run env op c : orders_step (conn_db c) (conn_db (snd (pg_run env op c))).
Proof.
  apply pg_run_keeps; [apply _|apply orders_transaction|].
  intros (_ & _ & ?)%(statement_frame env op c). by apply same_orders_step.
Qed.

Lemma orders_runs env ops c : orders_step (conn_db c) (conn_db (pg_runs env ops c)).
Proof.
  revert c. induction ops as [|op ops IH]; intros c; [reflexivity|].
  etrans; [apply (orders_run env op)|apply IH].
Qed.

(** The orders table respects the life cycle: over any sequence of store
    operations, with any failing calls, an order row is never lost, keeps its
    merchant, external id, currency, amounts, references and creation time, its
    version never decreases and its status moves only along the edges of the
    life cycle. *)
Theorem pg_order_history env ops c id r :
  t_orders (conn_db c) !! id = Some r ->
  exists r', t_orders (conn_db (pg_runs env ops c)) !! id = Some r'
    /\ row_snapshot r' = row_snapshot r
    /\ orders_version r <= orders_version r'
    /\ rtc Moves (orders_status r) (orders_status r').
Proof.
  intros Hr. destruct (orders_runs env ops c _ _ Hr) as (r' & Hr' & [? ? ?]). exists r'. done.
Qed.

(** ** Reading back what was written *)

(** The foreign keys of the schema that point to an order. *)
Record refs_ok (db : Database) : Prop := {
  refs_items r : r ∈ t_order_items db -> is_Some (t_orders db !! item_order_id r);
  refs_shipments id : is_Some (t_shipments db !! id) -> is_Some (t_orders db !! id)
}.

Lemma no_items db id : refs_ok db -> t_orders db !! id = None -> items_of id db = [].
Proof.
  intros Hok Hnone. unfold items_of. destruct (filter _ _) as [|r l] eqn:E; [done|].
  assert (r ∈ filter (fun r => item_order_id r = id) (t_order_items db)) as [Hid Hin]%list_elem_of_filter
    by (rewrite E; apply list_elem_of_here).
  apply (refs_items _ Hok) in Hin as [x Hx]. congruence.
Qed.

Lemma transaction_ok_inv env {A} l (body : M Conn (string * A)) c a c' :
  transaction env l body c = (Ok a, c') ->
  exists lab c2, body (mkConn (conn_db c) (Datatypes.S (conn_calls c))) = (Ok (lab, a), c2)
    /\ conn_db c' = conn_db c2.
Proof.
  unfold transaction. destruct (pg_fault env (conn_calls c)) as [[]|]; [done|].
  destruct (body _) as [[[lab a']|e] c2]; [|done].
  destruct (pg_fault env (conn_calls c2)) as [[]|]; [done|]. intros [= <- <-]. eauto.
Qed.

(** The row one item is written to. *)
Definition item_row (id : string) (i : OrderItem) : ItemRow :=
  mkItemRow id (OrderItem_SKU i) (OrderItem_Quantity i) (Money_Amount (OrderItem_UnitPrice i))
    (default "" (char3 (Money_Currency (OrderItem_UnitPrice i)))) (OrderItem_ReservationStatus i).

Lemma insert_item_row_ok env id i db u db' :
  insert_item_row env id i db = Ok (u, db') ->
  db' = set_order_items (t_order_items db ++ [item_row id i]) db.
Proof.
  unfold insert_item_row, item_row. destruct (char3 _); [|done].
  repeat (case_match; try done). by intros [= _ <-].
Qed.

Lemma insert_items_run env l id items s u s' :
  for_each (fun i => annotate l (call env (insert_item_row env id i))) items s = (Ok u, s') ->
  conn_db s' = set_order_items (t_order_items (conn_db s) ++ map (item_row id) items) (conn_db s).
Proof.
  revert s. induction items as [|i items IH]; intros s; simpl.
  - intros [= _ <-]. rewrite app_nil_r. by destruct (conn_db s).
  - intros ([] & s1 & H1%annotate_ok_inv%call_ok_inv%insert_item_row_ok & H2%IH)%bind_ok_inv.
    rewrite H2, H1. simpl. by rewrite <- app_assoc.
Qed.

(** What the three statements around an order write. *)
Lemma merchant_run env m s u s' :
  upsertMerchant env m s = (Ok u, s') -> exists v, conn_db s' = set_merchants v (conn_db s).
Proof.
  intros H%annotate_ok_inv%call_ok_inv. injection H as _ <-.
  destruct (t_merchants (conn_db s) !! m); [|eauto]. exists (t_merchants (conn_db s)).
  by destruct (conn_db s).
Qed.

Lemma outbox_run env ev s u s' :
  insertOutboxEvent env ev s = (Ok u, s') ->
  exists payload,
    conn_db s' = set_outbox_events
      (t_outbox_events (conn_db s) ++ [outbox_row (WithEnvelopeDefaults ev) payload]) (conn_db s)
    /\ Forall (fun r => out_message_id r <> Event_MessageID ev) (t_outbox_events (conn_db s)).
Proof.
  unfold insertOutboxEvent. destruct (pg_marshal env _) as [p|]; [|done].
  intros H%annotate_ok_inv%call_ok_inv. unfold insert_outbox_row in H.
  destruct (pg_jsonb env p) as [p'|]; [|done]. destruct (existsb _ _) eqn:Ex; [done|].
  destruct (t_orders _ !! _); [|done]. injection H as _ <-. exists p'. split; [done|].
  apply Forall_forall. intros r Hin E. apply not_true_iff_false in Ex. apply Ex.
  apply existsb_exists. exists r. rewrite list_elem_of_In in Hin. split; [done|].
  apply String.eqb_eq. rewrite E. symmetry. apply envelope_fields.
Qed.

Lemma audit_run env au s u s' :
  insertAuditLog env au s = (Ok u, s') ->
  exists details, conn_db s'
    = set_audit_logs (t_audit_logs (conn_db s) ++ [audit_row au details]) (conn_db s).
Proof.
  unfold insertAuditLog. destruct (pg_marshal_details env _) as [d|]; [|done].
  intros H%annotate_ok_inv%call_ok_inv. unfold insert_audit_row in H.
  destruct (pg_jsonb env d) as [d'|]; [|done]. injection H as _ <-. by exists d'.
Qed.

(** Everything an accepted, new submission writes. *)
Lemma insert_order_run env m k o ev au c o' c' :
  PgStore_InsertOrder env m k o ev au c = (Ok (Some o', false), c') ->
  t_idempotency_keys (conn_db c) !! (m, k) = None
  /\ t_orders (conn_db c) !! Order_OrderID o = None
  /\ o' = cloneOrder o
  /\ (exists cur, char3 (Order_Currency o) = Some cur
        /\ t_orders (conn_db c')
           = <[Order_OrderID o := order_row m cur o]> (t_orders (conn_db c)))
  /\ t_order_items (conn_db c')
     = t_order_items (conn_db c) ++ map (item_row (Order_OrderID o)) (Order_Items o)
  /\ t_shipments (conn_db c') = t_shipments (conn_db c)
  /\ t_idempotency_keys (conn_db c')
     = <[(m, k) := Order_OrderID o]> (t_idempotency_keys (conn_db c)).
Proof.
  intros (lab & c2 & H & ->)%transaction_ok_inv.
  apply bind_ok_inv in H as (old & s1 & Hq%annotate_ok_inv%query_ok_inv & H).
  destruct Hq as [-> E1]. simpl in *. destruct (t_idempotency_keys (conn_db c) !! (m, k)) as [id|].
  { by apply bind_ok_inv in H as (? & ? & _ & H). }
  apply bind_ok_inv in H as ([] & s2 & [v E2]%merchant_run & H).
  apply bind_ok_inv in H as ([] & s3 & H3%insert_checked_inv%insert_order_row_ok & H).
  destruct H3 as (cur & Hcur & Hnew & _ & E3).
  apply bind_ok_inv in H as ([] & s4 & E4%insert_items_run & H).
  apply bind_ok_inv in H as ([] & s5 & H5%annotate_ok_inv%call_ok_inv & H).
  unfold insert_idempotency_row in H5. case_bool_decide; [done|].
  destruct (negb (bool_decide _)); [done|]. injection H5 as E5.
  apply bind_ok_inv in H as ([] & s6 & (p & E6 & _)%outbox_run & H).
  apply bind_ok_inv in H as ([] & s7 & [d E7]%audit_run & H). injection H as _ <- <-.
  rewrite E7, E6, <- E5, E4, E3, E2, E1 in *. simpl in *. split_and!; eauto.
Qed.

(** The order a database holds under an identifier. *)
Definition stored_order (db : Database) (id : string) : option Order :=
  (fun r => scan_order id r (items_of id db) (t_shipments db !! id)) <$> t_orders db !! id.

(** Calls that all succeed. *)
Definition reliable (env : PgEnv) : Prop := forall n, pg_fault env n = None.

Lemma call_reliable env {A} (f : Database -> result (A * Database)) s a db :
  reliable env -> f (conn_db s) = Ok (a, db) ->
  call env f s = (Ok a, mkConn db (Datatypes.S (conn_calls s))).
Proof. intros Hr E. unfold call. by rewrite Hr, E. Qed.

Lemma query_reliable env {A} (f : Database -> A) s :
  reliable env -> query env f s = (Ok (f (conn_db s)), mkConn (conn_db s) (Datatypes.S (conn_calls s))).
Proof. intros Hr. by apply call_reliable. Qed.

Lemma get_order_reliable env id c :
  reliable env ->
  exists n, getOrderTx env id c
    = (match stored_order (conn_db c) id with Some o => Ok o | None => Err ErrNotFound end,
       mkConn (conn_db c) n).
Proof.
  intros Hr. unfold getOrderTx, stored_order, bind, annotate, iterate.
  rewrite query_reliable by done. simpl. destruct (t_orders (conn_db c) !! id) as [r|]; simpl.
  - repeat (rewrite query_reliable by done; simpl). by eexists.
  - by eexists.
Qed.

(** The orders the columns hold without loss: what the service builds when its
    clock gives microseconds. *)
Record storable (m : string) (o : Order) : Prop := {
  st_merchant : Order_MerchantID o = m;
  st_currency : String.length (Order_Currency o) = 3%nat;
  st_totals : Forall (fun mo => Money_Currency mo = Order_Currency o)
                [Totals_Subtotal (Order_Totals o); Totals_Shipping (Order_Totals o);
                 Totals_Total (Order_Totals o)];
  st_lines : Forall (fun i => String.length (Money_Currency (OrderItem_UnitPrice i)) = 3%nat)
               (Order_Items o);
  st_payment : forall p, Order_Payment o = Some p ->
    Payment_Provider p <> "" \/ Payment_Status p <> "" \/ Payment_AuthorizationID p <> "";
  st_shipment : Order_Shipment o = None;
  st_times : Order_CreatedAt o mod 1000 = 0 /\ Order_UpdatedAt o mod 1000 = 0
}.

Lemma char3_exact s : String.length s = 3%nat -> char3 s = Some s.
Proof. by destruct s as [|a [|b [|c [|d s]]]]. Qed.

Lemma nullable_default s : default "" (nullableString s) = s.
Proof. unfold nullableString. destruct (String.eqb s "") eqn:E; [|done]. by apply String.eqb_eq in E. Qed.

Lemma scan_item_row id i :
  String.length (Money_Currency (OrderItem_UnitPrice i)) = 3%nat -> scan_item (item_row id i) = i.
Proof.
  intros H. destruct i as [sku q [a c] st]. unfold scan_item, item_row. simpl in *.
  by rewrite char3_exact.
Qed.

Lemma scan_payment_row m cur o :
  (forall p, Order_Payment o = Some p ->
     Payment_Provider p <> "" \/ Payment_Status p <> "" \/ Payment_AuthorizationID p <> "") ->
  scan_payment (order_row m cur o) = Order_Payment o.
Proof.
  intros Hp. unfold scan_payment, order_row, nullable_payment. simpl.
  destruct (Order_Payment o) as [[pr st au cr]|]; [|done]. simpl.
  specialize (Hp _ eq_refl). simpl in Hp.
  assert (nullableString pr <> None \/ nullableString st <> None \/ nullableString au <> None).
  { destruct Hp as [H|[H|H]]; rewrite (nullable_named _ H); auto. }
  pose proof (nullable_default pr). pose proof (nullable_default st).
  pose proof (nullable_default au). pose proof (nullable_default cr).
  destruct (nullableString pr), (nullableString st), (nullableString au);
    simpl in *; subst; rewrite ?nullable_default; by destruct_or?.
Qed.

Lemma scan_stored m o :
  storable m o ->
  scan_order (Order_OrderID o) (order_row m (Order_Currency o) o)
    (map (item_row (Order_OrderID o)) (Order_Items o)) None = o.
Proof.
  intros [Hm Hc Ht Hl Hp Hs [Hca Hua]]. unfold scan_order.
  rewrite (scan_payment_row m (Order_Currency o) o Hp). destruct o; simpl in *. subst.
  f_equal.
  - apply Forall_cons in Ht as [H1 Ht]. apply Forall_cons in Ht as [H2 Ht].
    apply Forall_cons in Ht as [H3 _].
    destruct Order_Totals as [[? ?] [? ?] [? ?]]. simpl in *. by subst.
  - rewrite map_map. clear -Hl. induction Hl as [|i l Hi _ IH]; [done|]. simpl.
    by rewrite scan_item_row, IH.
  - apply nullable_default.
  - unfold timestamptz. lia.
  - unfold timestamptz. lia.
Qed.

Lemma item_rows_of id items :
  filter (fun r => item_order_id r = id) (map (item_row id) items) = map (item_row id) items.
Proof.
  induction items as [|i items IH]; [done|]. simpl. rewrite filter_cons_True by done. by f_equal.
Qed.

Lemma stored_after_insert m cur o db db' :
  refs_ok db -> storable m o -> char3 (Order_Currency o) = Some cur ->
  t_orders db !! Order_OrderID o = None ->
  t_orders db' = <[Order_OrderID o := order_row m cur o]> (t_orders db) ->
  t_order_items db' = t_order_items db ++ map (item_row (Order_OrderID o)) (Order_Items o) ->
  t_shipments db' = t_shipments db ->
  stored_order db' (Order_OrderID o) = Some o.
Proof.
  intros Hrefs Hst Hcur Hnew Eo Ei Es. rewrite char3_exact in Hcur by apply Hst.
  injection Hcur as <-. unfold stored_order, items_of.
  rewrite Eo, lookup_insert_eq, Ei, Es, filter_app, item_rows_of.
  fold (items_of (Order_OrderID o) db). rewrite (no_items _ _ Hrefs Hnew). simpl.
  destruct (t_shipments db !! Order_OrderID o) eqn:E; [|by rewrite scan_stored].
  destruct (refs_shipments _ Hrefs (Order_OrderID o)) as [? ?]; [by eexists|congruence].
Qed.


(** ** Cancellation *)

Lemma update_order_ok env id f db n db' :
  update_order env id f db = Ok (n, db') ->
  match t_orders db !! id with
  | None => n = 0 /\ db' = db
  | Some r => n = 1 /\ db' = set_orders (<[id := f r]> (t_orders db)) db
  end.
Proof.
  unfold update_order. destruct (t_orders db !! id); [|by intros [= <- <-]].
  destruct (negb (chk_orders_status _)); [done|].
  destruct (negb (chk_orders_payment_status _)); [done|]. by intros [= <- <-].
Qed.

(** A status update that reported its row. *)
Lemma status_run env l id st at_ s u s' :
  update_status_checked env l id st at_ s = (Ok u, s') ->
  exists r, t_orders (conn_db s) !! id = Some r
    /\ conn_db s' = set_orders (<[id := set_row_status st at_ r]> (t_orders (conn_db s))) (conn_db s).
Proof.
  intros (n & s1 & H1%annotate_ok_inv%call_ok_inv%update_order_ok & H2)%bind_ok_inv.
  destruct (t_orders (conn_db s) !! id) as [r|]; destruct H1 as [-> E]; [|done].
  injection H2 as _ <-. eauto.
Qed.

Lemma void_run env id at_ s u s' r :
  voidAuthorizedPayment env id at_ s = (Ok u, s') -> t_orders (conn_db s) !! id = Some r ->
  t_orders (conn_db s') = <[id := void_row r]> (t_orders (conn_db s))
  /\ t_payment_authorizations (conn_db s')
     = alter (void_authorization at_) id (t_payment_authorizations (conn_db s))
  /\ t_stock_reservations (conn_db s') = t_stock_reservations (conn_db s)
  /\ t_order_items (conn_db s') = t_order_items (conn_db s).
Proof.
  intros ([] & s1 & H1%annotate_ok_inv%call_ok_inv & H2)%bind_ok_inv Hr.
  apply bind_ok_inv in H2 as (n & s2 & H2%annotate_ok_inv%call_ok_inv%update_order_ok & H3).
  injection H3 as _ <-. injection H1 as E1. rewrite <- E1 in H2. simpl in H2. rewrite Hr in H2.
  destruct H2 as [_ ->]. done.
Qed.

Lemma void_row_released r :
  orders_status (void_row r) = orders_status r
  /\ orders_payment_status (void_row r) <> Some "authorized".
Proof. unfold void_row. by case_bool_decide. Qed.

Lemma lock_and_validate_ok env id st s u s' :
  lock_and_validate env id st s = (Ok u, s') ->
  conn_db s' = conn_db s
  /\ exists r, t_orders (conn_db s) !! id = Some r
       /\ ValidateOrderTransition (orders_status r) st = None.
Proof.
  intros (cur & s2 & H1 & Hreq)%bind_ok_inv.
  apply bind_ok_inv in H1 as (row & s3 & H1%annotate_ok_inv%query_ok_inv & Hrow).
  destruct H1 as [-> E3]. destruct (t_orders (conn_db s) !! id) as [r|]; [|done].
  injection Hrow as <- <-.
  destruct (ValidateOrderTransition (orders_status r) st) eqn:Ev; [done|]. injection Hreq as _ <-.
  eauto.
Qed.

(** A cancellation the PostgreSQL store recorded has moved the order to
    [cancelled] by an allowed transition and holds nothing any more: none of
    the order's reservations is active, none of its lines is marked reserved,
    and neither the order nor its authorization row carries an authorized
    payment. *)
Theorem pg_cancellation_releases env src next au c c' :
  PgStore_RecordOrderCancelled env src next au c = (Ok tt, c') ->
  let id := Event_OrderID src in
  (exists r r', t_orders (conn_db c) !! id = Some r
     /\ ValidateOrderTransition (orders_status r) StatusCancelled = None
     /\ t_orders (conn_db c') !! id = Some r'
     /\ orders_status r' = StatusCancelled /\ orders_payment_status r' <> Some "authorized")
  /\ (forall sku res, t_stock_reservations (conn_db c') !! (id, sku) = Some res ->
                      res_status res <> "reserved")
  /\ (forall i, i ∈ items_of id (conn_db c') -> item_reservation_status i <> "reserved")
  /\ (forall a, t_payment_authorizations (conn_db c') !! id = Some a ->
                auth_status a <> "authorized").
Proof.
  intros (lab & c2 & H & ->)%transaction_ok_inv id.
  apply bind_ok_inv in H as (u1 & s1 & [E1 (r & Hr & Hv)]%lock_and_validate_ok & H). simpl in *.
  apply bind_ok_inv in H as (u2 & s2 & (r2 & Hr2 & E2)%status_run & H).
  apply bind_ok_inv in H as (u3 & s3 & (_ & R3 & O3 & _ & I3)%release_run & H).
  apply bind_ok_inv in H as (u4 & s4 & H4 & H).
  assert (Hr3 : t_orders (conn_db s3) !! id = Some (set_row_status StatusCancelled (Event_OccurredAt next) r2))
    by (rewrite O3, E2; simpl; apply lookup_insert_eq).
  apply (void_run _ _ _ _ _ _ _ H4) in Hr3 as (O4 & A4 & R4 & I4).
  apply bind_ok_inv in H as (u5 & s5 & (p & E5 & _)%outbox_run & H).
  apply bind_ok_inv in H as (u6 & s6 & [d E6]%audit_run & H). injection H as _ <-.
  rewrite E6, E5. simpl. rewrite O4, R4, A4. split_and!.
  - exists r. eexists. rewrite lookup_insert_eq. split_and!; try done; apply void_row_released.
  - intros sku res. rewrite R3, released_lookup. intros (r0 & _ & ->)%fmap_Some. apply released_idle.
  - intros i [Hid Hin]%list_elem_of_filter. simpl in Hin. rewrite I4, I3 in Hin. simpl in Hin.
    apply list_elem_of_fmap in Hin as (i0 & -> & _).
    destruct (String.eqb (item_order_id i0) _) eqn:Eo; simpl in *.
    + destruct (String.eqb (item_reservation_status i0) "reserved") eqn:Es; [done|].
      by apply String.eqb_neq in Es.
    + apply String.eqb_neq in Eo. done.
  - intros a. rewrite lookup_alter_eq. intros (a0 & _ & ->)%fmap_Some.
    unfold void_authorization. destruct (String.eqb (auth_status a0) "authorized") eqn:E; [done|].
    by apply String.eqb_neq in E.
Qed.
