(* ===== verification/PgOutbox.v ===== *)
(** The outbox and the inbox of the PostgreSQL store: which events a claim
    hands out, that a running lease excludes a second claim, and that a message
    is recorded once. *)
From stdpp Require Import sorting.
From S2P Require Import Prelude GoStrings GoTime Model StateMachine MemoryStore.
From S2P Require Import MemoryInvariant Database PgStore PgAtomic PgStock PgOrders.

(** ** Rows and the events they carry *)

(** What the store relies on in the codec: a stored event is read back with its
    message id. *)
Definition codec_keeps_id (env : PgEnv) : Prop :=
  forall e p p' e', pg_marshal env e = Ok p -> pg_jsonb env p = Ok p' ->
    pg_unmarshal env p' = Ok e' -> Event_MessageID e' = Event_MessageID e.

(** A row that reads as an event of its own message id. *)
Definition row_named (env : PgEnv) (r : OutboxRow) : Prop :=
  forall e, scanOutboxEvent env r = Ok e -> Event_MessageID e = out_message_id r.

Record outbox_ok (env : PgEnv) (db : Database) : Prop := {
  oo_unique : NoDup (map out_message_id (t_outbox_events db));
  oo_named : Forall (row_named env) (t_outbox_events db)
}.

(** A row no claim at time [t] may take. *)
Definition row_blocked (t : Time) (r : OutboxRow) : bool :=
  match out_published_at r, out_claimed_until r with
  | Some _, _ => true
  | None, Some until => t <? until
  | None, None => false
  end.

Lemma blocked_not_claimable t r : row_blocked t r = negb (row_claimable t r).
Proof.
  unfold row_blocked, row_claimable. destruct (out_published_at r), (out_claimed_until r); try done.
  by rewrite Z.leb_antisym, negb_involutive.
Qed.

(** The row of a message is there and blocked at [t]. *)
Definition message_blocked (id : string) (t : Time) (db : Database) : Prop :=
  (exists r, r ∈ t_outbox_events db /\ out_message_id r = id)
  /\ forall r, r ∈ t_outbox_events db -> out_message_id r = id -> row_blocked t r = true.

(** ** What the statements do to the outbox *)

Inductive outbox_step (env : PgEnv) : Database -> Database -> Prop :=
| outbox_same db db' : t_outbox_events db' = t_outbox_events db -> outbox_step env db db'
| outbox_add db db' row :
    t_outbox_events db' = t_outbox_events db ++ [row] ->
    Forall (fun r => out_message_id r <> out_message_id row) (t_outbox_events db) ->
    (codec_keeps_id env -> row_named env row) -> outbox_step env db db'
| outbox_map db db' f :
    t_outbox_events db' = map f (t_outbox_events db) ->
    (forall r, r ∈ t_outbox_events db ->
       out_message_id (f r) = out_message_id r
       /\ scanOutboxEvent env (f r) = scanOutboxEvent env r
       /\ forall t, row_blocked t r = true -> row_blocked t (f r) = true) ->
    outbox_step env db db'.

(** What every operation keeps. *)
Definition outbox_steps (env : PgEnv) (db db' : Database) : Prop :=
  codec_keeps_id env -> outbox_ok env db ->
  outbox_ok env db' /\ forall id t, message_blocked id t db -> message_blocked id t db'.

Lemma outbox_ok_step env db db' :
  codec_keeps_id env -> outbox_step env db db' -> outbox_ok env db -> outbox_ok env db'.
Proof.
  intros Hc Hs [Hu Hn]. destruct Hs as [? ? E|? ? row E Hnew Hrow|? ? f E Hf]; split; rewrite E.
  - done.
  - done.
  - rewrite map_app. apply NoDup_app. split_and!; [done| |apply NoDup_singleton].
    intros x (r & -> & Hr)%list_elem_of_fmap Heq%list_elem_of_singleton.
    rewrite Forall_forall in Hnew. by apply (Hnew r).
  - apply Forall_app. split; [done|]. constructor; [by apply Hrow|constructor].
  - rewrite map_map. erewrite map_ext_in; [done|].
    intros r Hr%list_elem_of_In. by apply Hf.
  - apply Forall_forall. intros r (r0 & -> & Hr)%list_elem_of_fmap e He.
    destruct (Hf r0 Hr) as (-> & Hs & _). rewrite Hs in He. rewrite Forall_forall in Hn. by apply (Hn r0).
Qed.

Lemma blocked_step env id t db db' :
  outbox_step env db db' -> message_blocked id t db -> message_blocked id t db'.
Proof.
  intros Hs [(x & Hx & Ex) Hb].
  destruct Hs as [? ? E|? ? row E Hnew _|? ? f E Hf]; unfold message_blocked; rewrite E.
  - eauto.
  - rewrite Forall_forall in Hnew. split; [exists x; by rewrite elem_of_app; auto|].
    intros r [Hr| ->%list_elem_of_singleton]%elem_of_app Er; [by apply Hb|].
    destruct (Hnew _ Hx). congruence.
  - split.
    + exists (f x). split; [by apply list_elem_of_fmap_2|]. by destruct (Hf x Hx) as [-> _].
    + intros r (r0 & -> & Hr)%list_elem_of_fmap Er. destruct (Hf r0 Hr) as (Ei & _ & Hk).
      apply Hk, Hb; [done|congruence].
Qed.

Lemma outbox_step_once env db db' : outbox_step env db db' -> outbox_steps env db db'.
Proof. intros Hs Hc Hok. eauto using outbox_ok_step, blocked_step. Qed.

(** ** Operations *)

Definition same_outbox (db db' : Database) : Prop := t_outbox_events db' = t_outbox_events db.

#[export] Instance same_outbox_preorder : PreOrder same_outbox.
Proof. split; [by intros db|]. intros a b c. unfold same_outbox. congruence. Qed.

#[export] Instance outbox_steps_preorder env : PreOrder (outbox_steps env).
Proof.
  split.
  - intros db Hc Hok. done.
  - intros a b c Hab Hbc Hc Ha. destruct (Hab Hc Ha) as [Hb Kab].
    destruct (Hbc Hc Hb) as [? Kbc]. eauto.
Qed.

Lemma keeps_same_outbox env {A} (m : M Conn A) : keeps same_outbox m -> keeps (outbox_steps env) m.
Proof. intros H s a s' E. apply outbox_step_once, outbox_same. by eapply H. Qed.

Ltac outbox_frame :=
  lazymatch goal with
  | |- keeps same_outbox (exec _ _) => apply keeps_exec; intros ?; try done
  | |- keeps same_outbox (call _ _) => apply keeps_call; intros ? ? ? ?
  end;
  repeat match goal with
         | H : _ = Ok _ |- _ => progress unfold insert_audit_row, update_order,
             upsert_authorization, upsert_shipment, upsert_notification, upsert_compensation,
             insert_item_row, insert_idempotency_row, release_inventory, reserve_candidate,
             upsert_reservation in H
         end;
  repeat match goal with
         | H : context [match ?x with _ => _ end] |- _ => destruct x eqn:?; try discriminate H
         end;
  simplify_eq/=; done.

Ltac keeps_outbox := repeat (first [keeps_step | outbox_frame]).

Section Frames.
Variable env : PgEnv.

Lemma outbox_get id : keeps same_outbox (getOrderTx env id).
Proof. unfold getOrderTx. keeps_outbox. Qed.

Lemma outbox_audit au : keeps same_outbox (insertAuditLog env au).
Proof. unfold insertAuditLog. keeps_outbox. Qed.

Lemma outbox_items id : keeps same_outbox (orderItemsForReservation env id).
Proof. unfold orderItemsForReservation. keeps_outbox. Qed.

Lemma outbox_idempotency m k : keeps same_outbox (orderByIdempotency env m k).
Proof. unfold orderByIdempotency. keeps_outbox. Qed.

Lemma outbox_merchant m : keeps same_outbox (upsertMerchant env m).
Proof. intros s u s' [v E]%merchant_run. unfold same_outbox. by rewrite E. Qed.

Lemma outbox_reserve_line src next item : keeps same_outbox (reserve_line env src next item).
Proof. unfold reserve_line, reserveInventoryItem, reserve_from_stock. keeps_outbox. Qed.

Lemma outbox_release id at_ : keeps same_outbox (releaseReservedStock env id at_).
Proof. unfold releaseReservedStock, releaseInventoryItems. keeps_outbox. Qed.

Lemma outbox_void id at_ : keeps same_outbox (voidAuthorizedPayment env id at_).
Proof. unfold voidAuthorizedPayment. keeps_outbox. Qed.

Lemma outbox_effects src at_ : keeps same_outbox (applyCompensationEffects env src at_).
Proof.
  apply keeps_bind; [apply _| |intros _]; case_match;
    auto using outbox_release, outbox_void; apply keeps_ret; apply _.
Qed.

Lemma outbox_validate id st : keeps same_outbox (lock_and_validate env id st).
Proof. unfold lock_and_validate, lockOrderStatusForUpdate. keeps_outbox. Qed.

Lemma outbox_update_status l id st at_ : keeps same_outbox (update_status_checked env l id st at_).
Proof. unfold update_status_checked. keeps_outbox. Qed.

Lemma outbox_insert_checked m o : keeps same_outbox (insert_order_checked env m o).
Proof.
  intros s u s' (cur & _ & _ & _ & E)%insert_checked_inv%insert_order_row_ok.
  unfold same_outbox. by rewrite E.
Qed.

End Frames.

(** An event of its row's message id, whichever column it was read from. *)
Lemma scan_named env r e' :
  pg_unmarshal env (out_payload r) = Ok e' -> Event_MessageID e' = out_message_id r ->
  row_named env r.
Proof.
  intros Hu Hid e. unfold scanOutboxEvent. destruct (String.eqb (out_payload r) "").
  - intros [= <-]. apply envelope_fields.
  - rewrite Hu. intros [= <-]. rewrite (proj1 (envelope_fields _)). simpl. rewrite Hid.
    unfold or_else. by destruct (String.eqb (out_message_id r) "").
Qed.

(** The event inserted has a new id. *)
Lemma outbox_added env ev p db u d :
  pg_marshal env ev = Ok p -> insert_outbox_row env ev p db = Ok (u, d) -> outbox_step env db d.
Proof.
  intros Em H. unfold insert_outbox_row in H.
  destruct (pg_jsonb env p) as [p'|] eqn:Ej; [|done]. destruct (existsb _ _) eqn:Ex; [done|].
  destruct (t_orders _ !! _); [|done]. injection H as _ <-. eapply outbox_add; [done| |].
  - apply Forall_forall. intros r Hin E. apply not_true_iff_false in Ex. apply Ex.
    apply existsb_exists. exists r. rewrite list_elem_of_In in Hin. split; [done|].
    by apply String.eqb_eq.
  - intros Hc. destruct (pg_unmarshal env p') as [e'|e0] eqn:Eu.
    + by apply (scan_named env _ e'); [|apply (Hc _ _ _ _ Em Ej Eu)].
    + intros e. unfold scanOutboxEvent. simpl. destruct (String.eqb p' "").
      * intros [= <-]. by rewrite (proj1 (envelope_fields _)).
      * by rewrite Eu.
Qed.

Lemma outbox_insert env ev : keeps (outbox_steps env) (insertOutboxEvent (without_faults env) ev).
Proof.
  intros s u s'. unfold insertOutboxEvent. simpl.
  destruct (pg_marshal env (WithEnvelopeDefaults ev)) as [p|] eqn:Em; [|done].
  intros H%annotate_ok_inv%call_ok_inv. apply outbox_step_once.
  exact (outbox_added env _ _ _ _ _ Em H).
Qed.

Lemma outbox_transaction env op :
  transactional op = true -> keeps (outbox_steps env) (pg_run (without_faults env) op).
Proof.
  destruct op; intros Ht; try done; simpl; try (apply keeps_discard; [apply _|]);
    apply keeps_transaction;
    repeat first
      [ apply outbox_insert
      | apply keeps_same_outbox; solve
          [ auto using outbox_get, outbox_audit, outbox_items, outbox_idempotency, outbox_merchant,
              outbox_release, outbox_void, outbox_effects, outbox_validate, outbox_update_status,
              outbox_insert_checked
          | apply keeps_for_collect; [apply _|]; intros; apply outbox_reserve_line
          | keeps_outbox ]
      | keeps_step ].
Qed.

(** ** Claims *)

Lemma unique_key {A B} (f : A -> B) l x y :
  NoDup (map f l) -> x ∈ l -> y ∈ l -> f x = f y -> x = y.
Proof.
  induction l as [|a l IH]; simpl; [by intros _ ?%elem_of_nil|]. intros [Ha Hl]%NoDup_cons Hx Hy E.
  apply elem_of_cons in Hx as [->|Hx]; apply elem_of_cons in Hy as [->|Hy]; [done| | |auto].
  - destruct Ha. rewrite E. by apply list_elem_of_fmap_2.
  - destruct Ha. rewrite <- E. by apply list_elem_of_fmap_2.
Qed.

Section Claims.
Variable env : PgEnv.
Context {Hord : PgOrdering env}.

Lemma picked_claimable limit now db r :
  r ∈ picked_rows env limit now db -> r ∈ t_outbox_events db /\ row_claimable now r = true.
Proof.
  intros Hr. unfold picked_rows in Hr. apply elem_of_take in Hr as (i & Hr & _).
  apply list_elem_of_lookup_2 in Hr. rewrite (proj1 (pg_sorted_rows _)) in Hr.
  apply list_elem_of_filter in Hr as [? ?]. done.
Qed.

(** With unique message ids, the rows an id picks are the picked rows. *)
Lemma is_picked_spec limit now db r :
  NoDup (map out_message_id (t_outbox_events db)) -> r ∈ t_outbox_events db ->
  is_picked env limit now db r = true <-> r ∈ picked_rows env limit now db.
Proof.
  intros Hu Hr. unfold is_picked. rewrite existsb_exists. split.
  - intros (p & Hp%list_elem_of_In & E%String.eqb_eq).
    destruct (picked_claimable _ _ _ _ Hp) as [Hin _].
    by rewrite <- (unique_key out_message_id _ p r Hu Hin Hr E).
  - intros Hp. exists r. rewrite <- list_elem_of_In, String.eqb_eq. done.
Qed.

Lemma claim_keeps limit now db rows db' :
  claim_rows env limit now db = Ok (rows, db') -> outbox_steps env db db'.
Proof.
  intros [= _ <-] Hc Hok. apply outbox_step_once; [|done..].
  eapply outbox_map; [done|]. intros r Hr. simpl.
  destruct (is_picked env limit now db r) eqn:Ep; [|done].
  apply is_picked_spec in Ep; [|apply Hok|done]. apply picked_claimable in Ep as [_ Hcl].
  split_and!; [done..|]. intros t. unfold row_blocked, row_claimable, set_claim, AddD, second in *. simpl.
  destruct (out_published_at r); [done|]. destruct (out_claimed_until r); [|done]. lia.
Qed.

Lemma mark_keeps id at_ db n db' :
  mark_published id at_ db = Ok (n, db') -> outbox_steps env db db'.
Proof.
  intros [= _ <-]. apply outbox_step_once. eapply outbox_map; [done|]. intros r _.
  unfold mark_row. destruct (_ && _); done.
Qed.

Lemma claim_always limit c :
  outbox_steps env (conn_db c) (conn_db (snd (PgStore_PendingOutboxEvents (without_faults env) limit c))).
Proof.
  unfold PgStore_PendingOutboxEvents, bind, annotate, call. simpl.
  set (now := timestamptz _). set (l := if _ <=? _ then _ else _).
  pose proof (claim_keeps l now (conn_db c) _ _ eq_refl) as H.
  destruct (scan_events _ _); exact H.
Qed.

Lemma outbox_run_steps op c :
  outbox_steps env (conn_db c) (conn_db (snd (pg_run env op c))).
Proof.
  apply pg_run_keeps; [apply _|apply outbox_transaction|].
  destruct op; intros Ht; try done; simpl.
  - pose proof (claim_always limit c) as H. unfold discard, bind, ret.
    by destruct (PgStore_PendingOutboxEvents _ limit c) as [[] ?].
  - unfold PgStore_MarkOutboxPublished, bind, annotate, call. simpl.
    pose proof (mark_keeps id at_ (conn_db c) _ _ eq_refl) as H.
    destruct (_ =? 0); exact H.
  - apply outbox_step_once, outbox_same.
    unfold PgStore_RecordInboxMessage, discard, bind, annotate, call, insert_inbox_row. simpl.
    by destruct (t_inbox_messages (conn_db c) !! _).
  - by apply outbox_step_once, outbox_same.
Qed.

Lemma outbox_runs_steps ops c : outbox_steps env (conn_db c) (conn_db (pg_runs env ops c)).
Proof.
  revert c. induction ops as [|op ops IH]; intros c; [reflexivity|].
  etrans; [apply (outbox_run_steps op)|apply IH].
Qed.

Definition claim_limit (limit : Z) : Z := if limit <=? 0 then 100 else limit.

Definition claim_time (c : Conn) : Time := timestamptz (pg_now env (conn_calls c)).

Lemma scan_events_ids rows es :
  Forall (row_named env) rows -> scan_events env rows = Ok es ->
  map Event_MessageID es = map out_message_id rows.
Proof.
  intros Hn. revert es. induction Hn as [|r rows Hr _ IH]; intros es; simpl; [by intros [= <-]|].
  destruct (scanOutboxEvent env r) as [e|] eqn:Es; [|done].
  destruct (scan_events env rows) as [es'|]; [|done]. intros [= <-]. simpl.
  by rewrite (proj1 (envelope_fields e)), (Hr _ Es), (IH es').
Qed.

(** The rows of a successful claim. *)
Lemma claim_run limit c es c' :
  PgStore_PendingOutboxEvents env limit c = (Ok es, c') ->
  exists rows,
    claim_rows env (claim_limit limit) (claim_time c) (conn_db c) = Ok (rows, conn_db c')
    /\ scan_events env rows = Ok es.
Proof.
  intros (rows & s1 & H1%annotate_ok_inv%call_ok_inv & H2)%bind_ok_inv.
  exists rows. destruct (scan_events env rows) as [es'|] eqn:E; [|done].
  apply bind_ok_inv in H2 as ([] & s2 & [_ E2]%annotate_ok_inv%query_ok_inv & [= <- <-]).
  by rewrite E2.
Qed.

Lemma nodup_outbox db : outbox_ok env db -> NoDup (t_outbox_events db).
Proof. intros [Hu _]. by eapply NoDup_fmap_1. Qed.

Lemma picked_nodup limit now db : outbox_ok env db -> NoDup (picked_rows env limit now db).
Proof.
  intros Hok. unfold picked_rows.
  apply (sublist_NoDup _ (pg_by_occurred_at env
           (filter (fun r => row_claimable now r = true) (t_outbox_events db)))); [|apply sublist_take].
  rewrite (proj1 (pg_sorted_rows _)). by apply NoDup_filter, nodup_outbox.
Qed.

Lemma filter_picked limit now db :
  outbox_ok env db ->
  filter (fun r => is_picked env limit now db r = true) (t_outbox_events db)
  ≡ₚ picked_rows env limit now db.
Proof.
  intros Hok. apply NoDup_Permutation.
  - by apply NoDup_filter, nodup_outbox.
  - by apply picked_nodup.
  - intros r. rewrite list_elem_of_filter. split.
    + intros [Hp Hr]. by apply is_picked_spec in Hp; [|apply Hok|].
    + intros Hp. destruct (picked_claimable _ _ _ _ Hp) as [Hr _]. split; [|done].
      by apply is_picked_spec; [apply Hok|..].
Qed.

(** The message ids a successful claim hands out are those of the picked rows. *)
Lemma claim_ids limit c es c' :
  outbox_ok env (conn_db c) -> PgStore_PendingOutboxEvents env limit c = (Ok es, c') ->
  map Event_MessageID es
  ≡ₚ map out_message_id (picked_rows env (claim_limit limit) (claim_time c) (conn_db c)).
Proof.
  intros Hok (rows & Hc & Hs)%claim_run. injection Hc as <- _.
  assert (Hperm : pg_returning env
     (map (set_claim (claim_time c))
        (filter (fun r => is_picked env (claim_limit limit) (claim_time c) (conn_db c) r = true)
           (t_outbox_events (conn_db c))))
     ≡ₚ map (set_claim (claim_time c))
          (picked_rows env (claim_limit limit) (claim_time c) (conn_db c))).
  { rewrite pg_returned_rows. by apply Permutation_map, filter_picked. }
  apply scan_events_ids in Hs as ->; [by rewrite Hperm, map_map|].
  apply Forall_forall. intros r Hr. rewrite Hperm in Hr.
  apply list_elem_of_fmap in Hr as (r0 & -> & Hr0).
  destruct (picked_claimable _ _ _ _ Hr0) as [Hin _].
  exact (proj1 (Forall_forall _ _) (oo_named _ _ Hok) r0 Hin).
Qed.

(** A claimed message is blocked until its lease ends. *)
Lemma claimed_blocked limit c es c' e t :
  outbox_ok env (conn_db c) -> PgStore_PendingOutboxEvents env limit c = (Ok es, c') ->
  e ∈ es -> t < claim_time c + 30 * second -> message_blocked (Event_MessageID e) t (conn_db c').
Proof.
  intros Hok Hrun He Ht. pose proof (claim_ids _ _ _ _ Hok Hrun) as Hids.
  apply (list_elem_of_fmap_2 Event_MessageID) in He. rewrite Hids in He.
  apply list_elem_of_fmap in He as (p & -> & Hp).
  destruct (picked_claimable _ _ _ _ Hp) as [Hin _].
  apply claim_run in Hrun as (rows & Hc & _). injection Hc as _ <-. simpl.
  set (f := fun r => if is_picked _ _ _ _ r then _ else r).
  assert (Hf : forall r, r ∈ t_outbox_events (conn_db c) -> out_message_id r = out_message_id p ->
                 f r = set_claim (claim_time c) p).
  { intros r Hr E. rewrite (unique_key out_message_id _ r p (oo_unique _ _ Hok) Hr Hin E).
    unfold f. by rewrite (proj2 (is_picked_spec _ _ _ _ (oo_unique _ _ Hok) Hin) Hp). }
  split.
  - exists (f p). split; [by apply list_elem_of_fmap_2|]. by rewrite Hf.
  - intros r (r0 & -> & Hr0)%list_elem_of_fmap E.
    assert (out_message_id (f r0) = out_message_id r0) as E0
      by (unfold f; by destruct (is_picked _ _ _ _ r0)).
    rewrite Hf by (done || congruence). unfold row_blocked, set_claim, AddD. simpl.
    destruct (out_published_at p); [done|]. lia.
Qed.

Lemma blocked_not_claimed limit c es c' e id :
  outbox_ok env (conn_db c) -> message_blocked id (claim_time c) (conn_db c) ->
  PgStore_PendingOutboxEvents env limit c = (Ok es, c') -> e ∈ es -> Event_MessageID e <> id.
Proof.
  intros Hok [_ Hb] Hrun He E. pose proof (claim_ids _ _ _ _ Hok Hrun) as Hids.
  apply (list_elem_of_fmap_2 Event_MessageID) in He. rewrite Hids in He.
  apply list_elem_of_fmap in He as (p & Ep & Hp).
  destruct (picked_claimable _ _ _ _ Hp) as [Hin Hcl].
  specialize (Hb p Hin ltac:(congruence)). by rewrite blocked_not_claimable, Hcl in Hb.
Qed.

(** A running lease excludes a second claim: an event that one relay claimed
    from the PostgreSQL outbox is not handed out again before its thirty
    seconds are over, whatever operations run in between and whichever of their
    calls fail. *)
Theorem pg_no_double_claim limit limit2 ops c es c1 es2 c2 e e2 :
  codec_keeps_id env -> outbox_ok env (conn_db c) ->
  PgStore_PendingOutboxEvents env limit c = (Ok es, c1) ->
  PgStore_PendingOutboxEvents env limit2 (pg_runs env ops c1) = (Ok es2, c2) ->
  claim_time (pg_runs env ops c1) < claim_time c + 30 * second ->
  e ∈ es -> e2 ∈ es2 -> Event_MessageID e2 <> Event_MessageID e.
Proof.
  intros Hc Hok H1 H2 Ht He He2.
  destruct (claim_run _ _ _ _ H1) as (rows & Hrows & _).
  destruct (claim_keeps _ _ _ _ _ Hrows Hc Hok) as [Hok1 _].
  destruct (outbox_runs_steps ops c1 Hc Hok1) as [Hok' Hkeep].
  eapply blocked_not_claimed; [done| |done|done].
  apply Hkeep, (claimed_blocked limit c es); done.
Qed.

(** The rows a claim may take. *)
Definition claimable_rows (c : Conn) : list OutboxRow :=
  filter (fun r => row_claimable (claim_time c) r = true) (t_outbox_events (conn_db c)).

(** A claim takes the oldest events: the message ids it hands out are those
    of distinct rows that are neither published nor leased, at most as many as
    the limit, no row left behind is older than a row taken, and rows are left
    behind only when the limit is used up. *)
Theorem pg_claim_oldest_first limit c es c' :
  outbox_ok env (conn_db c) -> PgStore_PendingOutboxEvents env limit c = (Ok es, c') ->
  exists taken left_,
    claimable_rows c ≡ₚ taken ++ left_
    /\ map Event_MessageID es ≡ₚ map out_message_id taken
    /\ NoDup (map Event_MessageID es)
    /\ (forall r r', r ∈ taken -> r' ∈ left_ -> out_occurred_at r <= out_occurred_at r')
    /\ Z.of_nat (length es) <= claim_limit limit
    /\ (left_ <> [] -> Z.of_nat (length es) = claim_limit limit).
Proof.
  intros Hok Hrun. pose proof (claim_ids _ _ _ _ Hok Hrun) as Hids.
  destruct (pg_sorted_rows (env := env) (claimable_rows c)) as [Hp Hsort].
  set (n := Z.to_nat (claim_limit limit)).
  set (sorted := pg_by_occurred_at env (claimable_rows c)) in *.
  change (picked_rows _ _ _ _) with (take n sorted) in Hids.
  assert (Hlen : length es = length (take n sorted))
    by (rewrite <- (length_map Event_MessageID), Hids; by rewrite length_map).
  assert (Hlim : 0 < claim_limit limit) by (unfold claim_limit; case_match; lia).
  exists (take n sorted), (drop n sorted). split_and!.
  - by rewrite take_drop.
  - done.
  - rewrite Hids. apply NoDup_fmap_2_strong; [|by apply (picked_nodup (claim_limit limit) (claim_time c))].
    intros x y Hx Hy. apply unique_key with (t_outbox_events (conn_db c)); [apply Hok|..];
      by eapply (picked_claimable (claim_limit limit) (claim_time c)).
  - intros r r' Hr Hr'. rewrite <- (take_drop n sorted) in Hsort.
    by eapply StronglySorted_app_1_elem_of in Hsort.
  - rewrite Hlen, length_take. lia.
  - intros Hleft. rewrite Hlen, length_take.
    destruct (decide (n < length sorted)%nat) as [|Hge]; [lia|].
    destruct Hleft. apply drop_ge. lia.
Qed.

End Claims.

(** ** The inbox *)

(** The operations that may remove a message from a consumer's inbox. *)
Definition releases (consumer id : string) (op : PgOp) : bool :=
  match op with
  | PgReleased c ev => String.eqb c consumer && String.eqb (Event_MessageID ev) id
  | _ => false
  end.

Definition same_inbox (db db' : Database) : Prop := t_inbox_messages db' = t_inbox_messages db.

#[export] Instance same_inbox_preorder : PreOrder same_inbox.
Proof. split; [done|]. intros a b c. unfold same_inbox. congruence. Qed.

Ltac inbox_frame :=
  lazymatch goal with
  | |- keeps same_inbox (exec _ _) => apply keeps_exec; intros ?; try done
  | |- keeps same_inbox (call _ _) => apply keeps_call; intros ? ? ? ?
  end;
  repeat match goal with
         | H : _ = Ok _ |- _ => progress unfold insert_audit_row, update_order, insert_outbox_row,
             upsert_authorization, upsert_shipment, upsert_notification, upsert_compensation,
             insert_item_row, insert_idempotency_row, release_inventory, reserve_candidate,
             upsert_reservation in H
         end;
  repeat match goal with
         | H : context [match ?x with _ => _ end] |- _ => destruct x eqn:?; try discriminate H
         end;
  simplify_eq/=; done.

Lemma inbox_transaction env op :
  transactional op = true -> keeps same_inbox (pg_run (without_faults env) op).
Proof.
  destruct op; intros Ht; try done; simpl; try (apply keeps_discard; [apply _|]);
    apply keeps_transaction;
    unfold applyCompensationEffects, getOrderTx, lock_and_validate, lockOrderStatusForUpdate,
      update_status_checked, insertOutboxEvent, insertAuditLog, releaseReservedStock,
      releaseInventoryItems, voidAuthorizedPayment, orderItemsForReservation, orderByIdempotency;
    repeat first
      [ lazymatch goal with
        | |- keeps _ (upsertMerchant _ _) =>
            intros ? ? ? [? E]%merchant_run; unfold same_inbox; by rewrite E
        | |- keeps _ (insert_order_checked _ _ _) =>
            intros ? ? ? (? & _ & _ & _ & E)%insert_checked_inv%insert_order_row_ok;
            unfold same_inbox; by rewrite E
        | |- keeps _ (for_collect _ _) =>
            apply keeps_for_collect; [apply _|]; intros ?;
            unfold reserve_line, reserveInventoryItem, reserve_from_stock
        end
      | inbox_frame | keeps_step ].
Qed.

(** A message stays recorded until the consumer's own release of it. *)
Lemma inbox_run env op c consumer id :
  releases consumer id op = false ->
  is_Some (t_inbox_messages (conn_db c) !! (consumer, id)) ->
  is_Some (t_inbox_messages (conn_db (snd (pg_run env op c))) !! (consumer, id)).
Proof.
  intros Hrel. revert c.
  enough (forall c, is_Some (t_inbox_messages (conn_db c) !! (consumer, id)) ->
    is_Some (t_inbox_messages (conn_db (snd (pg_run (without_faults env) op c))) !! (consumer, id)))
    as H.
  { intros c Hc. destruct (faulty_run env op c) as [[_ ->]|[_ [->| ->]]]; auto. }
  intros c Hc. destruct (transactional op) eqn:Et.
  { destruct (pg_run (without_faults env) op c) as [[[]|e] c'] eqn:Er.
    - simpl. by rewrite (inbox_transaction env op Et _ _ _ Er).
    - pose proof (proj2 (pg_atomic_run env op c) Et) as Ha. rewrite Er in Ha. simpl in *.
      by rewrite Ha. }
  destruct op; try done; simpl.
  - unfold discard, PgStore_PendingOutboxEvents, bind, annotate, call, claim_rows. simpl.
    by destruct (scan_events _ _).
  - unfold PgStore_MarkOutboxPublished, bind, annotate, call. simpl. by destruct (_ =? 0).
  - unfold discard, PgStore_RecordInboxMessage, bind, annotate, call, insert_inbox_row. simpl.
    destruct (t_inbox_messages (conn_db c) !! (consumer0, _)); [done|]. simpl.
    destruct (decide ((consumer0, Event_MessageID ev) = (consumer, id))) as [->|Hne].
    + rewrite lookup_insert_eq. by eexists.
    + by rewrite lookup_insert_ne.
  - rewrite lookup_delete_ne; [done|]. intros [= E1 E2]. simpl in Hrel.
    by rewrite E1, E2, !String.eqb_refl in Hrel.
Qed.

Lemma inbox_runs env ops c consumer id :
  Forall (fun op => releases consumer id op = false) ops ->
  is_Some (t_inbox_messages (conn_db c) !! (consumer, id)) ->
  is_Some (t_inbox_messages (conn_db (pg_runs env ops c)) !! (consumer, id)).
Proof.
  intros Hf. revert c. induction Hf as [|op ops Hop _ IH]; intros c H; [done|].
  by apply IH, inbox_run.
Qed.

(** The inbox table admits a message once: after the store recorded a
    message for a consumer, every later attempt that succeeds reports it as
    already recorded, until that consumer releases it; operations in between
    and their failing calls do not matter, and neither does the message's
    correlation id. *)
Theorem pg_inbox_records_once env ops c consumer ev ev' c1 b c2 :
  PgStore_RecordInboxMessage env consumer ev c = (Ok true, c1) ->
  Forall (fun op => releases consumer (Event_MessageID ev) op = false) ops ->
  Event_MessageID ev' = Event_MessageID ev ->
  PgStore_RecordInboxMessage env consumer ev' (pg_runs env ops c1) = (Ok b, c2) ->
  b = false.
Proof.
  intros (n & s1 & H1%annotate_ok_inv%call_ok_inv & [= Hn <-])%bind_ok_inv Hops Hid
    (n2 & s2 & H2%annotate_ok_inv%call_ok_inv & [= <- <-])%bind_ok_inv.
  unfold insert_inbox_row in H1, H2. rewrite Hid in H2.
  assert (is_Some (t_inbox_messages (conn_db s1) !! (consumer, Event_MessageID ev))) as Hs.
  { destruct (t_inbox_messages (conn_db c) !! _); injection H1 as <- E; [done|].
    rewrite <- E. simpl. rewrite lookup_insert_eq. by eexists. }
  destruct (inbox_runs env ops s1 _ _ Hops Hs) as [x Hx]. rewrite Hx in H2. by simplify_eq.
Qed.
