(* ===== verification/PgSamples.v ===== *)
(** One concrete database and server on which the theorems of the PostgreSQL
    store are exercised: a merchant with one warehouse and ten chairs, an order
    for two of them, its reservation and its cancellation. *)
From stdpp Require Import sorting.
From S2P Require Import Prelude GoStrings GoTime Model StateMachine MemoryStore Service.
From S2P Require Import MemoryInvariant MemoryQueries.
From S2P Require Import Database PgStore PgAtomic PgStock PgOrders PgOutbox.

(** ** A server *)

Definition older (r r' : OutboxRow) : Prop := out_occurred_at r <= out_occurred_at r'.

#[export] Instance older_dec : RelDecision older.
Proof. intros r r'. unfold older. apply _. Defined.

#[export] Instance older_total : Total older.
Proof. intros r r'. unfold older. lia. Qed.

#[export] Instance older_trans : Transitive older.
Proof. intros a b c. unfold older. lia. Qed.

(** A codec that writes the message id and leaves the rest to the columns. *)
Definition id_event (id : string) : OutboxEvent :=
  mkOutboxEvent id "" 0 0 "" "" "" "" "" ∅.

Definition pg_sample : PgEnv :=
  mkPgEnv (fun _ => None) (fun n => time_Unix 1780056000 + Z.of_nat n * second)
    (fun code constraint => code +:+ " " +:+ constraint)
    (merge_sort older) reverse
    (fun e => Ok (Event_MessageID e)) (fun p => Ok (id_event p))
    (fun _ => Ok "{}") (fun _ => Ok ∅) (fun p => Ok p).

#[export] Instance pg_sample_ordering : PgOrdering pg_sample.
Proof.
  split.
  - intros rows. split; [apply merge_sort_Permutation|]. apply (StronglySorted_merge_sort older).
  - intros rows. apply reverse_Permutation.
Qed.

Lemma pg_sample_reliable : reliable pg_sample.
Proof. done. Qed.

Lemma pg_sample_codec : codec_keeps_id pg_sample.
Proof. intros e p p' e' [= <-] [= <-] [= <-]. done. Qed.

(** ** A database *)

Definition chairs : InventoryRow := mkInventoryRow "wh_1" "SKU-CHAIR-BLK" 10 0 0.

Definition catalogue : Database :=
  mkDatabase {["mer_1" := "mer_1"]} ∅ [] ∅ [] ∅ [] ∅ ∅ ∅ ∅ ∅
    {["wh_1" := mkWarehouseRow "mer_1" "primary" "Primary" "active"]} {[1 := chairs]}.

Definition pg_start : Conn := mkConn catalogue 0.

Definition pg_event (id ty : string) : OutboxEvent :=
  mkOutboxEvent id ty 1 1000 "" "mer_1" "ord_1" "cor_1" id ∅.

Definition pg_audit : AuditLog := mkAuditLog "mer_1" "ord_1" "system" "test" "sample" "cor_1" 1000 ∅.

Definition pg_insert : PgOp :=
  PgInsert "mer_1" "idem-key-0001" sample_order (pg_event "msg_1" "order.created") pg_audit.

Definition pg_reserve : PgOp :=
  PgReserved (pg_event "msg_1" "order.created") (pg_event "msg_2" "inventory.reserved") pg_audit.

Definition pg_cancel : PgOp :=
  PgCancelled (pg_event "msg_3" "order.cancel_requested") (pg_event "msg_4" "order.cancelled") pg_audit.

Definition pg_inserted : Conn := pg_runs pg_sample [pg_insert] pg_start.

Definition pg_reserved : Conn := pg_runs pg_sample [pg_insert; pg_reserve] pg_start.

Definition shelf (c : Conn) : option (Z * Z) :=
  (fun r => (inv_available_quantity r, inv_reserved_quantity r))
    <$> t_inventory_items (conn_db c) !! 1.

(** Two chairs move from available to reserved and back. *)
Example sample_shelf :
  map shelf [pg_start; pg_inserted; pg_reserved; pg_runs pg_sample [pg_cancel] pg_reserved]
  = [Some (10, 0); Some (10, 0); Some (8, 2); Some (10, 0)].
Proof. vm_compute. reflexivity. Qed.

Example sample_statuses :
  map (fun c => orders_status <$> t_orders (conn_db c) !! "ord_1")
    [pg_inserted; pg_reserved; pg_runs pg_sample [pg_cancel] pg_reserved]
  = [Some StatusPendingFulfillment; Some StatusInventoryReserved; Some StatusCancelled].
Proof. vm_compute. reflexivity. Qed.

(** ** The theorems at work *)

Lemma catalogue_stock : stock_ok catalogue.
Proof.
  split; simpl.
  - intros id row [<- <-]%lookup_singleton_Some. reflexivity.
  - by intros id row [<- <-]%lookup_singleton_Some.
  - by intros id row [<- <-]%lookup_singleton_Some.
  - intros id id' row row' [<- _]%lookup_singleton_Some [<- _]%lookup_singleton_Some. done.
  - by intros k r H%lookup_empty_Some.
  - by intros k r H%lookup_empty_Some.
Qed.

Lemma pg_stock_conserved_witness :
  exists row', t_inventory_items (conn_db pg_reserved) !! 1 = Some row'
    /\ inv_reserved_quantity row' = ledger (conn_db pg_reserved) "wh_1" "SKU-CHAIR-BLK"
    /\ inv_available_quantity row' + inv_reserved_quantity row' = 10.
Proof.
  destruct (pg_stock_conserved pg_sample [pg_insert; pg_reserve] pg_start 1 chairs catalogue_stock
              (lookup_singleton_eq 1 chairs)) as (_ & row' & H & _ & _ & _ & Hr & Ht).
  exists row'. exact (conj H (conj Hr Ht)).
Defined.

(** The order row as inserted. *)
Definition sample_row : OrderRow := order_row "mer_1" "USD" sample_order.

Lemma inserted_row : t_orders (conn_db pg_inserted) !! "ord_1" = Some sample_row.
Proof. vm_compute. reflexivity. Qed.

Lemma pg_order_history_witness :
  exists r', t_orders (conn_db (pg_runs pg_sample [pg_reserve; pg_cancel] pg_inserted)) !! "ord_1"
             = Some r'
    /\ row_snapshot r' = row_snapshot sample_row
    /\ rtc Moves (orders_status sample_row) (orders_status r').
Proof.
  destruct (pg_order_history pg_sample [pg_reserve; pg_cancel] pg_inserted "ord_1" sample_row
              inserted_row) as (r' & H & Hs & _ & Hm).
  exists r'. exact (conj H (conj Hs Hm)).
Defined.

Lemma catalogue_refs : refs_ok catalogue.
Proof.
  split; simpl; [by intros r H%elem_of_nil|]. intros id [x H]. by apply lookup_empty_Some in H.
Qed.

Lemma sample_storable : storable "mer_1" sample_order.
Proof.
  split; try reflexivity.
  - repeat constructor.
  - repeat constructor.
  - intros p [= <-]. left. done.
  - split; reflexivity.
Qed.

Lemma sample_accepted :
  match fst (PgStore_InsertOrder pg_sample "mer_1" "idem-key-0001" sample_order
               (pg_event "msg_1" "order.created") pg_audit pg_start) with
  | Ok (Some _, false) => true
  | _ => false
  end = true.
Proof. vm_compute. reflexivity. Qed.


Lemma sample_cancelled :
  is_ok (fst (PgStore_RecordOrderCancelled pg_sample (pg_event "msg_3" "order.cancel_requested")
                (pg_event "msg_4" "order.cancelled") pg_audit pg_reserved)) = true.
Proof. vm_compute. reflexivity. Qed.

Lemma pg_cancellation_releases_witness :
  exists c', PgStore_RecordOrderCancelled pg_sample (pg_event "msg_3" "order.cancel_requested")
               (pg_event "msg_4" "order.cancelled") pg_audit pg_reserved = (Ok tt, c')
    /\ forall sku res, t_stock_reservations (conn_db c') !! ("ord_1", sku) = Some res ->
                       res_status res <> "reserved".
Proof.
  pose proof sample_cancelled as Hf.
  destruct (PgStore_RecordOrderCancelled pg_sample _ _ pg_audit pg_reserved) as [[[]|] c'] eqn:H;
    try discriminate Hf.
  exists c'. split; [done|]. apply (pg_cancellation_releases _ _ _ _ _ _ H).
Defined.

(** *** Claims and inbox *)

Lemma reserved_outbox : outbox_ok pg_sample (conn_db pg_reserved).
Proof.
  apply (outbox_runs_steps pg_sample [pg_insert; pg_reserve] pg_start pg_sample_codec).
  split; constructor.
Qed.

Definition claim_of (limit : Z) (c : Conn) := PgStore_PendingOutboxEvents pg_sample limit c.

(** Claiming one event at a time gives the two events in turn. *)
Lemma claimed_in_turn :
  (let (r, c) := claim_of 1 pg_reserved in
   (map Event_MessageID <$> match r with Ok es => Some es | Err _ => None end,
    map Event_MessageID <$> match fst (claim_of 1 c) with Ok es => Some es | Err _ => None end))
  = (Some ["msg_1"], Some ["msg_2"]).
Proof. vm_compute. reflexivity. Qed.

Lemma claim_times :
  (claim_time pg_sample (pg_runs pg_sample [] (snd (claim_of 1 pg_reserved)))
   <? claim_time pg_sample pg_reserved + 30 * second) = true.
Proof. vm_compute. reflexivity. Qed.

Lemma pg_no_double_claim_witness :
  exists e e2 c1, fst (claim_of 1 pg_reserved) = Ok [e] /\ snd (claim_of 1 pg_reserved) = c1
    /\ fst (claim_of 1 c1) = Ok [e2] /\ Event_MessageID e2 <> Event_MessageID e.
Proof.
  pose proof claimed_in_turn as Ht. pose proof claim_times as Hc. apply Z.ltb_lt in Hc.
  destruct (claim_of 1 pg_reserved) as [[es|] c1] eqn:H1; [|discriminate Ht]. simpl in Hc.
  destruct (claim_of 1 c1) as [[es2|] c2] eqn:H2; [|discriminate Ht].
  destruct es as [|e [|? ?]]; try discriminate Ht. destruct es2 as [|e2 [|? ?]]; try discriminate Ht.
  exists e, e2, c1. split; [done|]. split; [done|]. rewrite H2. split; [done|].
  apply (pg_no_double_claim pg_sample 1 1 [] pg_reserved [e] c1 [e2] c2 e e2 pg_sample_codec
           reserved_outbox H1 H2 Hc); apply list_elem_of_here.
Defined.

Lemma pg_claim_oldest_first_witness :
  exists es c', claim_of 1 pg_reserved = (Ok es, c') /\ Z.of_nat (length es) <= 1.
Proof.
  pose proof claimed_in_turn as Ht.
  destruct (claim_of 1 pg_reserved) as [[es|] c1] eqn:H1; [|discriminate Ht].
  exists es, c1. split; [done|].
  destruct (pg_claim_oldest_first pg_sample 1 pg_reserved es c1 reserved_outbox H1)
    as (? & ? & _ & _ & _ & _ & Hl & _). exact Hl.
Defined.

Lemma pg_inbox_records_once_witness :
  fst (PgStore_RecordInboxMessage pg_sample "inventory.reserve" (pg_event "msg_1" "order.created")
         pg_inserted) = Ok true
  /\ fst (PgStore_RecordInboxMessage pg_sample "inventory.reserve"
            (pg_event "msg_1" "order.created")
            (pg_runs pg_sample [pg_reserve]
               (snd (PgStore_RecordInboxMessage pg_sample "inventory.reserve"
                       (pg_event "msg_1" "order.created") pg_inserted)))) = Ok false.
Proof.
  split; [reflexivity|].
  destruct (PgStore_RecordInboxMessage pg_sample "inventory.reserve"
              (pg_event "msg_1" "order.created") pg_inserted) as [r c1] eqn:H1.
  assert (r = Ok true) as -> by (change r with (fst (r, c1)); rewrite <- H1; reflexivity).
  unfold snd.
  destruct (PgStore_RecordInboxMessage pg_sample "inventory.reserve"
              (pg_event "msg_1" "order.created") (pg_runs pg_sample [pg_reserve] c1))
    as [[b|e] c2] eqn:H2.
  - simpl. f_equal.
    apply (pg_inbox_records_once pg_sample [pg_reserve] pg_inserted "inventory.reserve"
             (pg_event "msg_1" "order.created") (pg_event "msg_1" "order.created") c1 b c2 H1);
      [repeat constructor|done|done].
  - unfold PgStore_RecordInboxMessage, bind, annotate, call, insert_inbox_row in H2. simpl in H2.
    by destruct (t_inbox_messages _ !! _).
Defined.
