(* ===== verification/PgSchema.v ===== *)
(** What the server guarantees about the rows the operations write: the
    constraints of the migrations on the orders, their lines, keys and events, on
    reservations, authorizations, bookings, notifications and compensations, and
    the ranges of the stock columns.  Other theorems assume a database in which
    they hold; here it is shown that every operation leads from such a database to
    such a database.  Left out are the constraints on what the program never
    writes: the unique pair of warehouse and SKU of [inventory_items] (it is
    [so_unique] of [PgStock]), the references from [inventory_items] to
    [warehouses] and from [warehouses] to [merchants], and the checks and the
    unique code of [warehouses]. *)
From S2P Require Import Prelude GoStrings GoTime Model StateMachine MemoryStore.
From S2P Require Import MemoryInvariant Database PgStore PgAtomic PgStock PgOrders PgOutbox PgSamples.

(** ** The constraints *)

Definition chk_stock_reservations_status (status : string) : bool :=
  one_of status ["reserved"; "released"].

Definition chk_notification_events_status (status : string) : bool :=
  one_of status ["queued"; "sent"; "failed"].

Definition chk_compensation_events_status (status : string) : bool :=
  one_of status ["recorded"; "succeeded"; "failed"].

Definition item_key (r : ItemRow) : string * string := (item_order_id r, item_sku r).

Definition order_exists (orders : gmap string OrderRow) (id : string) : Prop := is_Some (orders !! id).

(** A [UNIQUE] constraint on a table keyed by something else. *)
Definition unique_by {A B} (f : A -> B) (m : gmap string A) : Prop :=
  forall k k' r r', m !! k = Some r -> m !! k' = Some r' -> f r = f r' -> k = k'.

Definition external_key (r : OrderRow) : string * string :=
  (orders_merchant_id r, orders_external_order_id r).

Record order_row_ok (merchants : gmap string string) (r : OrderRow) : Prop := {
  or_status : chk_orders_status (orders_status r) = true;
  or_payment : chk_orders_payment_status (orders_payment_status r) = true;
  or_merchant : is_Some (merchants !! orders_merchant_id r)
}.

Record item_row_ok (orders : gmap string OrderRow) (r : ItemRow) : Prop := {
  ir_quantity : 0 < item_quantity r;
  ir_price : 0 <= item_unit_price_amount r;
  ir_status : chk_order_items_reservation_status (item_reservation_status r) = true;
  ir_order : order_exists orders (item_order_id r)
}.

Record reservation_row_ok (items : list ItemRow) (warehouses : gmap string WarehouseRow)
    (k : string * string) (r : ReservationRow) : Prop := {
  rr_quantity : 0 < res_quantity r;
  rr_status : chk_stock_reservations_status (res_status r) = true;
  rr_item : k ∈ map item_key items;
  rr_warehouse w : res_warehouse_id r = Some w -> is_Some (warehouses !! w)
}.

Record authorization_row_ok (orders : gmap string OrderRow) (id : string) (r : AuthorizationRow) : Prop := {
  ar_status : chk_payment_authorizations_status (auth_status r) = true;
  ar_amount : 0 <= auth_amount r;
  ar_order : order_exists orders id
}.

Record shipment_row_ok (orders : gmap string OrderRow) (id : string) (r : ShipmentRow) : Prop := {
  sr_status : chk_shipments_status (ship_status r) = true;
  sr_order : order_exists orders id
}.

Record notification_row_ok (orders : gmap string OrderRow) (r : NotificationRow) : Prop := {
  nr_status : chk_notification_events_status (ntf_status r) = true;
  nr_order : order_exists orders (ntf_order_id r)
}.

Record compensation_row_ok (orders : gmap string OrderRow) (r : CompensationRow) : Prop := {
  cr_status : chk_compensation_events_status (cmp_status r) = true;
  cr_target : IsValidOrderStatus (cmp_target_order_status r) = true;
  cr_order : order_exists orders (cmp_order_id r)
}.

Record inventory_row_ok (r : InventoryRow) : Prop := {
  vr_available : 0 <= inv_available_quantity r;
  vr_reserved : 0 <= inv_reserved_quantity r
}.

(** All constraints of the schema at once. *)
Record schema_ok (db : Database) : Prop := {
  so_orders : map_Forall (fun _ => order_row_ok (t_merchants db)) (t_orders db);
  so_external : unique_by external_key (t_orders db);
  so_items : Forall (item_row_ok (t_orders db)) (t_order_items db);
  so_item_keys : NoDup (map item_key (t_order_items db));
  so_idempotency : map_Forall (fun _ => order_exists (t_orders db)) (t_idempotency_keys db);
  so_outbox : Forall (fun r => order_exists (t_orders db) (out_order_id r)) (t_outbox_events db);
  so_outbox_keys : NoDup (map out_message_id (t_outbox_events db));
  so_reservations : map_Forall (reservation_row_ok (t_order_items db) (t_warehouses db)) (t_stock_reservations db);
  so_authorizations : map_Forall (authorization_row_ok (t_orders db)) (t_payment_authorizations db);
  so_authorization_ids : unique_by auth_authorization_id (t_payment_authorizations db);
  so_shipments : map_Forall (shipment_row_ok (t_orders db)) (t_shipments db);
  so_shipment_ids : unique_by ship_shipment_id (t_shipments db);
  so_tracking : unique_by ship_tracking_number (t_shipments db);
  so_notifications : map_Forall (fun _ => notification_row_ok (t_orders db)) (t_notification_events db);
  so_compensations : map_Forall (fun _ => compensation_row_ok (t_orders db)) (t_compensation_events db);
  so_inventory : map_Forall (fun _ => inventory_row_ok) (t_inventory_items db)
}.

(** What every successful statement keeps. *)
Definition keeps_schema (db db' : Database) : Prop := schema_ok db -> schema_ok db'.

#[export] Instance keeps_schema_preorder : PreOrder keeps_schema.
Proof. split; [by intros db Hok|]. intros a b c Hab Hbc Ha. auto. Qed.

(** ** Statements *)

(** A change of the orders that only adds keys. *)
Lemma schema_orders db orders :
  (forall id, is_Some (t_orders db !! id) -> is_Some (orders !! id)) ->
  map_Forall (fun _ => order_row_ok (t_merchants db)) orders -> unique_by external_key orders ->
  keeps_schema db (set_orders orders db).
Proof.
  intros Hgrow Horders Hext Hok.
  assert (Hmono : forall id, order_exists (t_orders db) id -> order_exists orders id) by done.
  destruct Hok. split; try done; simpl.
  - eapply Forall_impl; [done|]. intros r []. split; auto.
  - eapply map_Forall_impl; [done|]. auto.
  - eapply Forall_impl; [done|]. auto.
  - eapply map_Forall_impl; [done|]. intros k r []. split; auto.
  - eapply map_Forall_impl; [done|]. intros k r []. split; auto.
  - eapply map_Forall_impl; [done|]. intros k r []. split; auto.
  - eapply map_Forall_impl; [done|]. intros k r []. split; auto.
Qed.

Lemma unique_insert {A B} (f : A -> B) (m : gmap string A) k r :
  unique_by f m -> (forall k' r', m !! k' = Some r' -> f r' = f r -> k' = k) ->
  unique_by f (<[k := r]> m).
Proof.
  intros Hu Hnew k1 k2 r1 r2. rewrite !lookup_insert_Some.
  intros [[<- <-]|[H1 L1]] [[<- <-]|[H2 L2]] E; [done| | |by eapply Hu].
  - symmetry. by eapply Hnew.
  - by eapply Hnew.
Qed.

Lemma schema_update_order env id f db n db' :
  (forall r, external_key (f r) = external_key r) ->
  update_order env id f db = Ok (n, db') -> keeps_schema db db'.
Proof.
  intros Hf. unfold update_order. destruct (t_orders db !! id) as [r|] eqn:Hr; [|by intros [= _ <-]].
  destruct (chk_orders_status _) eqn:Hs; [|done].
  destruct (chk_orders_payment_status _) eqn:Hp; [|done]. intros [= _ <-] Hok.
  pose proof (Hf r) as Ef. unfold external_key in Ef. apply schema_orders; [..|done].
  - intros k Hk. destruct (decide (k = id)) as [->|]; [by rewrite lookup_insert_eq|].
    by rewrite lookup_insert_ne.
  - apply map_Forall_insert_2; [|apply Hok]. split; [done..|]. simplify_eq.
    assert (orders_merchant_id (f r) = orders_merchant_id r) as -> by congruence.
    by apply (so_orders _ Hok id r).
  - apply unique_insert; [apply Hok|]. intros k' r' Hk' E. rewrite Hf in E.
    by eapply (so_external _ Hok).
Qed.

Lemma schema_insert_order env m o db u db' :
  insert_order_row env m o db = Ok (u, db') -> keeps_schema db db'.
Proof.
  unfold insert_order_row. destruct (char3 _) as [cur|]; [|done].
  destruct (chk_orders_status _) eqn:Hs; [|done].
  destruct (chk_orders_payment_status _) eqn:Hp; [|done]. simpl.
  destruct (bool_decide_reflect (is_Some (t_orders db !! Order_OrderID o))) as [|Hnew]; [done|].
  destruct (external_exists _ _ db) eqn:Hx; [done|].
  destruct (bool_decide_reflect (is_Some (t_merchants db !! m))) as [Hm|]; [|done]. simpl.
  intros [= _ <-] Hok. apply schema_orders; [..|done].
  - intros k Hk. rewrite lookup_insert_ne; [done|]. intros <-. done.
  - by apply map_Forall_insert_2; [|apply Hok].
  - apply unique_insert; [apply Hok|]. intros k' r' Hk' [= E1 E2]. exfalso.
    apply not_true_iff_false in Hx. apply Hx. apply existsb_exists. exists (k', r').
    rewrite <- list_elem_of_In, elem_of_map_to_list. split; [done|]. simpl.
    by rewrite E1, E2, !String.eqb_refl.
Qed.

Lemma schema_merchant env m : keeps keeps_schema (upsertMerchant env m).
Proof.
  apply keeps_annotate, keeps_exec. intros db Hok.
  destruct (t_merchants db !! m) eqn:Hm; [done|]. destruct Hok. split; try done.
  eapply map_Forall_impl; [done|]. intros k r [? ? Hr]. split; [done..|]. simpl.
  destruct (decide (orders_merchant_id r = m)) as [->|]; [by rewrite lookup_insert_eq|].
  by rewrite lookup_insert_ne.
Qed.

(** A change of the items that keeps their keys, or adds to them. *)
Lemma schema_items db items :
  (forall k, k ∈ map item_key (t_order_items db) -> k ∈ map item_key items) ->
  (schema_ok db -> Forall (item_row_ok (t_orders db)) items /\ NoDup (map item_key items)) ->
  keeps_schema db (set_order_items items db).
Proof.
  intros Hgrow Hitems Hok. destruct (Hitems Hok) as [Hf Hnd]. destruct Hok. split; try done.
  eapply map_Forall_impl; [done|]. intros k r []. split; auto.
Qed.

Lemma schema_insert_item env id item db u db' :
  insert_item_row env id item db = Ok (u, db') -> keeps_schema db db'.
Proof.
  unfold insert_item_row. destruct (char3 _) as [cur|]; [|done].
  destruct (int4 _); [|done]. destruct (Z.ltb_spec 0 (OrderItem_Quantity item)) as [Hq|]; [|done].
  destruct (Z.ltb_spec (Money_Amount (OrderItem_UnitPrice item)) 0) as [|Hp]; [done|].
  destruct (chk_order_items_reservation_status _) eqn:Hs; [|done]. simpl.
  destruct (existsb _ _) eqn:Hx; [done|].
  destruct (bool_decide_reflect (is_Some (t_orders db !! id))) as [Ho|]; [|done]. simpl.
  intros [= _ <-]. apply schema_items.
  - intros k Hk. rewrite map_app. apply elem_of_app. by left.
  - intros Hok. split.
    + apply Forall_app. split; [apply Hok|]. by repeat constructor.
    + rewrite map_app. apply NoDup_app. split_and!; [apply Hok| |apply NoDup_singleton].
      intros x (r & -> & Hr)%list_elem_of_fmap [= E1 E2]%list_elem_of_singleton.
      apply not_true_iff_false in Hx. apply Hx. apply existsb_exists. exists r.
      rewrite <- list_elem_of_In. unfold items_of. rewrite list_elem_of_filter, E2.
      by rewrite String.eqb_refl.
Qed.

Lemma schema_update_items id status where_ db :
  chk_order_items_reservation_status status = true ->
  keeps_schema db (update_items id status where_ db).
Proof.
  intros Hs. unfold update_items.
  set (f := fun r => if _ && where_ r then _ else r).
  assert (Hkey : map item_key (map f (t_order_items db)) = map item_key (t_order_items db)).
  { rewrite map_map. apply map_ext. intros r. unfold f. by destruct (_ && _). }
  apply schema_items; rewrite Hkey; [done|]. intros Hok. split; [|apply Hok].
  apply Forall_fmap. eapply Forall_impl; [apply Hok|]. intros r [H1 H2 H3 H4]. unfold f, compose.
  destruct (_ && _); by split.
Qed.

Lemma schema_idempotency env m k id db u db' :
  insert_idempotency_row env m k id db = Ok (u, db') -> keeps_schema db db'.
Proof.
  unfold insert_idempotency_row. destruct (bool_decide _); [done|].
  destruct (bool_decide_reflect (is_Some (t_orders db !! id))) as [Ho|]; [|done].
  intros [= _ <-] Hok. destruct Hok. split; try done. by apply map_Forall_insert_2.
Qed.

(** A change of the outbox. *)
Lemma schema_outbox db rows :
  (schema_ok db -> Forall (fun r => order_exists (t_orders db) (out_order_id r)) rows
                   /\ NoDup (map out_message_id rows)) ->
  keeps_schema db (set_outbox_events rows db).
Proof. intros Hrows Hok. destruct (Hrows Hok). destruct Hok. by split. Qed.

Lemma schema_outbox_map db f :
  (forall r, out_order_id (f r) = out_order_id r /\ out_message_id (f r) = out_message_id r) ->
  keeps_schema db (set_outbox_events (map f (t_outbox_events db)) db).
Proof.
  intros Hf. apply schema_outbox. intros Hok. split.
  - apply Forall_fmap. eapply Forall_impl; [apply Hok|]. intros r. simpl. by destruct (Hf r) as [-> _].
  - rewrite map_map. erewrite map_ext; [apply Hok|]. intros r. apply Hf.
Qed.

Lemma schema_insert_outbox env ev payload db u db' :
  insert_outbox_row env ev payload db = Ok (u, db') -> keeps_schema db db'.
Proof.
  unfold insert_outbox_row. destruct (pg_jsonb env payload); [|done].
  destruct (existsb _ _) eqn:Hx; [done|]. destruct (t_orders db !! Event_OrderID ev) eqn:Ho; [|done].
  intros [= _ <-]. apply schema_outbox. intros Hok. split.
  - apply Forall_app. split; [apply Hok|]. repeat constructor. unfold order_exists. simpl. by rewrite Ho.
  - rewrite map_app. apply NoDup_app. split_and!; [apply Hok| |apply NoDup_singleton].
    intros x (r & -> & Hr)%list_elem_of_fmap E%list_elem_of_singleton.
    apply not_true_iff_false in Hx. apply Hx. apply existsb_exists. exists r.
    rewrite <- list_elem_of_In. split; [done|]. by apply String.eqb_eq.
Qed.

(** *** Stock *)

Lemma schema_inventory db table :
  (schema_ok db -> map_Forall (fun _ => inventory_row_ok) table) ->
  keeps_schema db (set_inventory_items table db).
Proof. intros Ht Hok. specialize (Ht Hok). destruct Hok. by split. Qed.

Lemma schema_reservations db table :
  (schema_ok db -> map_Forall (reservation_row_ok (t_order_items db) (t_warehouses db)) table) ->
  keeps_schema db (set_stock_reservations table db).
Proof.
  intros Ht Hok. specialize (Ht Hok). destruct Hok. by split.
Qed.

Lemma schema_reserve_candidate env m sku q at_ db w db' :
  reserve_candidate env m sku q at_ db = Ok (w, db') -> keeps_schema db db'.
Proof.
  unfold reserve_candidate.
  destruct (pick_stock m sku q db) as [[id row]|] eqn:Hp; [|by intros [= _ <-]].
  apply pick_stock_spec in Hp as (Hid & _ & Hle). destruct (int4 _); [|done]. simpl.
  destruct (Z.ltb_spec (inv_reserved_quantity row + q) 0); [done|].
  intros [= _ <-]. apply schema_inventory. intros Hok.
  apply map_Forall_insert_2; [|apply Hok]. split; simpl; lia.
Qed.

Lemma schema_upsert_reservation env id w sku q at_ db u db' :
  upsert_reservation env id w sku q at_ db = Ok (u, db') -> keeps_schema db db'.
Proof.
  unfold upsert_reservation. set (warehouse := match w with Some _ => _ | None => _ end).
  destruct (Z.ltb_spec 0 q) as [Hq|]; [|done]. simpl.
  destruct (existsb _ _) eqn:Hx; [|done]. simpl.
  destruct (match warehouse with Some _ => _ | None => _ end) eqn:Hw; [done|].
  intros [= _ <-]. apply schema_reservations. intros Hok.
  apply map_Forall_insert_2; [|apply Hok]. split; simpl; [done..| |].
  - apply existsb_exists in Hx as (r & Hr%list_elem_of_In & E%String.eqb_eq).
    apply list_elem_of_filter in Hr as [Hid Hr]. apply list_elem_of_fmap. exists r.
    unfold item_key. by rewrite Hid, E.
  - intros x ->. by apply negb_false_iff, bool_decide_eq_true in Hw.
Qed.

Lemma schema_release_inventory env id at_ db u db' :
  release_inventory env id at_ db = Ok (u, db') -> keeps_schema db db'.
Proof.
  unfold release_inventory. destruct (existsb _ _); [done|]. intros [= _ <-].
  apply schema_inventory. intros Hok k r. rewrite lookup_fmap, fmap_Some.
  intros (row & Hrow & ->). destruct (so_inventory _ Hok k row Hrow) as [Ha Hr].
  unfold give_back, holding.
  destruct (t_stock_reservations db !! (id, inv_sku row)) as [res|] eqn:Hres; [|done].
  destruct (_ && _); [|done]. destruct (so_reservations _ Hok _ _ Hres). split; simpl; lia.
Qed.

Lemma schema_release_reservations id at_ db :
  keeps_schema db (set_stock_reservations
                     (map_imap (fun k r => Some (release_reservation id at_ k r))
                        (t_stock_reservations db)) db).
Proof.
  apply schema_reservations. intros Hok k r. rewrite map_lookup_imap.
  destruct (t_stock_reservations db !! k) as [r0|] eqn:Hr; [|done]. simpl. intros [= <-].
  destruct (so_reservations _ Hok k r0 Hr). unfold release_reservation. destruct (_ && _); by split.
Qed.

(** *** Payments, shipments and the rest *)

Lemma unique_alter {A B} (f : A -> B) (g : A -> A) (m : gmap string A) k :
  (forall a, f (g a) = f a) -> unique_by f m -> unique_by f (alter g k m).
Proof.
  intros Hg Hu k1 k2 r1 r2 H1 H2 E.
  apply lookup_alter_Some in H1 as [(-> & a1 & L1 & ->)|[_ L1]];
    apply lookup_alter_Some in H2 as [(-> & a2 & L2 & ->)|[_ L2]];
    rewrite ?Hg in E; by eapply Hu.
Qed.

Lemma schema_void id at_ db :
  keeps_schema db (set_payment_authorizations
                     (alter (void_authorization at_) id (t_payment_authorizations db)) db).
Proof.
  intros Hok. assert (Hk := so_authorizations _ Hok). assert (Hu := so_authorization_ids _ Hok).
  destruct Hok. split; try done; simpl.
  - intros k r H. apply lookup_alter_Some in H as [(-> & a & L & ->)|[_ L]]; [|by apply Hk].
    destruct (Hk _ _ L). unfold void_authorization. destruct (String.eqb _ _); by split.
  - apply unique_alter; [|done]. intros a. unfold void_authorization. by destruct (String.eqb _ _).
Qed.

(** No other row has the value. *)
Lemma others_differ {A} (f : A -> string) (m : gmap string A) k r :
  existsb (fun kv => String.eqb (f (snd kv)) (f r)) (map_to_list (delete k m)) = false ->
  forall k' r', m !! k' = Some r' -> f r' = f r -> k' = k.
Proof.
  intros Hx k' r' Hk E. destruct (decide (k' = k)) as [|Hne]; [done|]. exfalso.
  apply not_true_iff_false in Hx. apply Hx. apply existsb_exists. exists (k', r').
  rewrite <- list_elem_of_In, elem_of_map_to_list. rewrite lookup_delete_ne by done. split; [done|].
  by apply String.eqb_eq.
Qed.

Lemma schema_authorization env id row db u db' :
  upsert_authorization env id row db = Ok (u, db') -> keeps_schema db db'.
Proof.
  unfold upsert_authorization. cbv zeta. set (row' := match _ !! id with Some _ => _ | None => _ end).
  destruct (chk_payment_authorizations_status _) eqn:Hs; [|done].
  destruct (Z.ltb_spec (auth_amount row') 0) as [|Ha]; [done|]. destruct (existsb _ _) eqn:Hx; [done|].
  destruct (bool_decide_reflect (is_Some (t_orders db !! id))) as [Ho|]; [|done].
  intros [= _ <-] Hok. destruct Hok. split; try done; simpl.
  - by apply map_Forall_insert_2.
  - apply unique_insert; [done|]. by apply (others_differ auth_authorization_id).
Qed.

Lemma schema_shipment env id row db u db' :
  upsert_shipment env id row db = Ok (u, db') -> keeps_schema db db'.
Proof.
  unfold upsert_shipment. cbv zeta. set (row' := match _ !! id with Some _ => _ | None => _ end).
  destruct (chk_shipments_status _) eqn:Hs; [|done]. destruct (existsb _ _) eqn:Hx; [done|].
  destruct (existsb _ _) eqn:Ht in |- *; [done|].
  destruct (bool_decide_reflect (is_Some (t_orders db !! id))) as [Ho|]; [|done].
  intros [= _ <-] Hok. destruct Hok. split; try done; simpl.
  - by apply map_Forall_insert_2.
  - apply unique_insert; [done|]. by apply (others_differ ship_shipment_id).
  - apply unique_insert; [done|]. by apply (others_differ ship_tracking_number).
Qed.

Lemma schema_notification env src at_ db u db' :
  upsert_notification env src at_ db = Ok (u, db') -> keeps_schema db db'.
Proof.
  unfold upsert_notification. cbv zeta.
  destruct (bool_decide_reflect (is_Some (t_orders db !! Event_OrderID src))) as [Ho|]; [|done].
  intros [= _ <-] Hok. assert (Hn := so_notifications _ Hok). destruct Hok. split; try done; simpl.
  apply map_Forall_insert_2; [|done].
  destruct (t_notification_events db !! _) as [old|] eqn:E; split; try done. by apply (Hn _ _ E).
Qed.

Lemma schema_compensation env src st au db u db' :
  upsert_compensation env src st au db = Ok (u, db') -> keeps_schema db db'.
Proof.
  unfold upsert_compensation. cbv zeta. destruct (IsValidOrderStatus st) eqn:Hv; [|done].
  destruct (bool_decide_reflect (is_Some (t_orders db !! Event_OrderID src))) as [Ho|]; [|done].
  intros [= _ <-] Hok. assert (Hc := so_compensations _ Hok). destruct Hok. split; try done; simpl.
  apply map_Forall_insert_2; [|done].
  destruct (t_compensation_events db !! _) as [old|] eqn:E; split; try done. by apply (Hc _ _ E).
Qed.

(** ** Operations *)

#[local] Hint Resolve schema_insert_order schema_insert_item schema_idempotency
  schema_insert_outbox schema_reserve_candidate schema_upsert_reservation
  schema_release_inventory schema_authorization schema_shipment schema_notification
  schema_compensation schema_update_items schema_release_reservations schema_void : schema.

Lemma schema_audit_row env au details db u db' :
  insert_audit_row env au details db = Ok (u, db') -> keeps_schema db db'.
Proof.
  unfold insert_audit_row. destruct (pg_jsonb env details); [|done]. intros [= _ <-] [].
  by split.
Qed.

#[local] Hint Resolve schema_audit_row : schema.

Lemma void_row_key r : external_key (void_row r) = external_key r.
Proof. unfold void_row. by destruct (bool_decide _). Qed.

(** A statement: one of the above, or an update of an order row. *)
Ltac schema_statement :=
  lazymatch goal with
  | |- keeps keeps_schema (upsertMerchant _ _) => apply schema_merchant
  | |- keeps keeps_schema (exec _ _) => apply keeps_exec; intros ?; auto with schema
  | |- keeps keeps_schema (call _ (update_order _ _ _)) =>
      apply keeps_call; intros ? ? ? ?; eapply schema_update_order; [|eassumption];
      intros ?; first [reflexivity | apply void_row_key]
  | |- keeps keeps_schema (call _ _) => apply keeps_call; intros ? ? ? ?; eauto with schema
  end.

Ltac keeps_schema_tac :=
  unfold insertOutboxEvent, insertAuditLog, getOrderTx, orderByIdempotency, lock_and_validate,
    lockOrderStatusForUpdate, update_status_checked, orderItemsForReservation, reserve_line,
    reserveInventoryItem, reserve_from_stock, releaseReservedStock, releaseInventoryItems,
    voidAuthorizedPayment, applyCompensationEffects;
  repeat first [keeps_step | schema_statement].

Lemma schema_insert_checked env m o : keeps keeps_schema (insert_order_checked env m o).
Proof.
  intros s u s' H%insert_checked_inv. by eapply schema_insert_order.
Qed.

Lemma schema_transaction env op :
  transactional op = true -> keeps keeps_schema (pg_run (without_faults env) op).
Proof.
  destruct op; intros Ht; try done; simpl; try (apply keeps_discard; [apply _|]);
    apply keeps_transaction;
    repeat first [apply schema_insert_checked | keeps_step | progress keeps_schema_tac].
Qed.

Lemma schema_inbox db table : keeps_schema db (set_inbox_messages table db).
Proof. intros []. by split. Qed.

Lemma schema_claim env limit now db rows db' :
  claim_rows env limit now db = Ok (rows, db') -> keeps_schema db db'.
Proof.
  intros [= _ <-]. apply schema_outbox_map. intros r. by destruct (is_picked _ _ _ _ r).
Qed.

Lemma schema_mark id at_ db n db' :
  mark_published id at_ db = Ok (n, db') -> keeps_schema db db'.
Proof.
  intros [= _ <-]. apply schema_outbox_map. intros r. unfold mark_row. by destruct (_ && _).
Qed.

Lemma schema_run env op c : keeps_schema (conn_db c) (conn_db (snd (pg_run env op c))).
Proof.
  apply pg_run_keeps; [apply _|apply schema_transaction|].
  destruct op; intros Ht; try done; simpl.
  - unfold PgStore_PendingOutboxEvents, discard, bind, annotate, call. simpl.
    pose proof (schema_claim env (if limit <=? 0 then 100 else limit)
                  (timestamptz (pg_now env (conn_calls c))) (conn_db c) _ _ eq_refl) as H.
    destruct (scan_events _ _); exact H.
  - unfold PgStore_MarkOutboxPublished, bind, annotate, call. simpl.
    pose proof (schema_mark id at_ (conn_db c) _ _ eq_refl) as H. destruct (_ =? 0); exact H.
  - unfold PgStore_RecordInboxMessage, discard, bind, annotate, call, insert_inbox_row. simpl.
    destruct (t_inbox_messages (conn_db c) !! _); [done|apply schema_inbox].
  - apply schema_inbox.
Qed.

(** Whatever operations run, and whichever of their calls fail, the constraints
    hold afterwards if they held before. *)
Lemma schema_runs env ops c : schema_ok (conn_db c) -> schema_ok (conn_db (pg_runs env ops c)).
Proof.
  revert c. induction ops as [|op ops IH]; intros c Hok; [done|].
  apply IH. by apply (schema_run env op).
Qed.

Lemma catalogue_schema : schema_ok catalogue.
Proof.
  split; try done; try (by intros ? ? ? ? []%lookup_empty_Some); simpl; try apply NoDup_nil_2.
  apply map_Forall_singleton. by split.
Qed.
