(* ===== verification/PgReplay.v ===== *)
(** Idempotent submission on the PostgreSQL store: the key of a merchant, once
    bound to an order, stays bound, and every later submission under it gives the
    order back and writes nothing. *)
From S2P Require Import Prelude GoStrings GoTime Model StateMachine MemoryStore.
From S2P Require Import MemoryInvariant MemoryQueries.
From S2P Require Import Database PgStore PgAtomic PgStock PgOrders PgOutbox PgSamples.

(** ** Keys stay bound *)

Definition keys_grow (db db' : Database) : Prop :=
  forall k id, t_idempotency_keys db !! k = Some id -> t_idempotency_keys db' !! k = Some id.

#[export] Instance keys_grow_preorder : PreOrder keys_grow.
Proof. split; [by intros db k id|]. intros a b c Hab Hbc k id H. auto. Qed.

Lemma same_keys_grow db db' : t_idempotency_keys db' = t_idempotency_keys db -> keys_grow db db'.
Proof. intros E k id. by rewrite E. Qed.

Lemma grow_insert_key env m k id db u db' :
  insert_idempotency_row env m k id db = Ok (u, db') -> keys_grow db db'.
Proof.
  unfold insert_idempotency_row. case_bool_decide as Hnew; [done|].
  destruct (negb _); [done|]. intros [= _ <-] k' id' Hk. simpl.
  rewrite lookup_insert_ne; [done|]. intros <-. destruct Hnew. by rewrite Hk.
Qed.

(** Close the goal that one statement keeps the keys. *)
Ltac keys_frame :=
  lazymatch goal with
  | |- keeps keys_grow (exec _ _) =>
      apply keeps_exec; intros ?; apply same_keys_grow; repeat case_match; done
  | |- keeps keys_grow (call _ _) => apply keeps_call; intros ? ? ? ?
  end;
  try (by eapply grow_insert_key);
  apply same_keys_grow;
  repeat match goal with
         | H : _ = Ok _ |- _ => progress unfold insert_outbox_row, insert_audit_row, update_order,
             upsert_authorization, upsert_shipment, upsert_notification, upsert_compensation,
             insert_item_row, release_inventory, reserve_candidate, upsert_reservation in H
         end;
  repeat match goal with
         | H : context [match ?x with _ => _ end] |- _ => destruct x eqn:?; try discriminate H
         end;
  simplify_eq/=; done.

Lemma keys_insert_checked env m o : keeps keys_grow (insert_order_checked env m o).
Proof.
  intros s u s' (cur & _ & _ & _ & E)%insert_checked_inv%insert_order_row_ok.
  apply same_keys_grow. by rewrite E.
Qed.

Ltac keys_op :=
  unfold insertOutboxEvent, insertAuditLog, upsertMerchant, getOrderTx, orderByIdempotency,
    lock_and_validate, lockOrderStatusForUpdate, update_status_checked, orderItemsForReservation,
    reserve_line, reserveInventoryItem, reserve_from_stock, releaseReservedStock,
    releaseInventoryItems, voidAuthorizedPayment, applyCompensationEffects;
  repeat first [apply keys_insert_checked | keeps_step | keys_frame].

Lemma keys_transaction env op :
  transactional op = true -> keeps keys_grow (pg_run (without_faults env) op).
Proof.
  destruct op; intros Ht; try done; simpl; try (apply keeps_discard; [apply _|]);
    apply keeps_transaction;
    repeat first [apply keys_insert_checked | keeps_step | progress keys_op].
Qed.

Lemma keys_run env op c : keys_grow (conn_db c) (conn_db (snd (pg_run env op c))).
Proof.
  apply pg_run_keeps; [apply _|apply keys_transaction|].
  destruct op; intros Ht; try done; simpl; apply same_keys_grow.
  - unfold PgStore_PendingOutboxEvents, discard, bind, annotate, call. simpl.
    by destruct (scan_events _ _).
  - unfold PgStore_MarkOutboxPublished, bind, annotate, call. simpl. by destruct (_ =? 0).
  - unfold PgStore_RecordInboxMessage, discard, bind, annotate, call, insert_inbox_row. simpl.
    by destruct (t_inbox_messages (conn_db c) !! _).
  - done.
Qed.

Lemma keys_runs env ops c : keys_grow (conn_db c) (conn_db (pg_runs env ops c)).
Proof.
  revert c. induction ops as [|op ops IH]; intros c; [reflexivity|].
  etrans; [apply (keys_run env op)|apply IH].
Qed.

(** ** Submissions *)

(** What a row says of an order. *)
Definition row_of (o : Order) (r : OrderRow) : Prop :=
  orders_external_order_id r = Order_ExternalOrderID o
  /\ orders_total_amount r = Money_Amount (Totals_Total (Order_Totals o))
  /\ orders_status r = Order_Status o.

Lemma get_order_ok env id s o s' :
  getOrderTx env id s = (Ok o, s') ->
  conn_db s' = conn_db s /\ stored_order (conn_db s) id = Some o.
Proof.
  intros (row & s1 & [-> E1]%annotate_ok_inv%query_ok_inv & H)%bind_ok_inv.
  unfold stored_order. destruct (t_orders (conn_db s) !! id) as [r|]; [|done].
  apply bind_ok_inv in H as (items & s2 & [-> E2]%annotate_ok_inv%query_ok_inv & H).
  apply bind_ok_inv in H as ([] & s3 & [_ E3]%annotate_ok_inv%query_ok_inv & H).
  apply bind_ok_inv in H as (ship & s4 & [-> E4]%annotate_ok_inv%query_ok_inv & [= <- <-]).
  rewrite E4, E3, E2, E1. done.
Qed.

(** An accepted submission, new or not, leaves its key bound to the order it
    returned. *)
Lemma accepted_bound env m k o ev au c o1 b c1 :
  PgStore_InsertOrder env m k o ev au c = (Ok (Some o1, b), c1) ->
  t_idempotency_keys (conn_db c1) !! (m, k) = Some (Order_OrderID o1)
  /\ exists r, t_orders (conn_db c1) !! Order_OrderID o1 = Some r /\ row_of o1 r.
Proof.
  intros Hins. destruct b.
  - apply transaction_ok_inv in Hins as (lab & c2 & H & ->).
    apply bind_ok_inv in H as (old & s1 & [-> E1]%annotate_ok_inv%query_ok_inv & H). simpl in *.
    destruct (t_idempotency_keys (conn_db c) !! (m, k)) as [id|] eqn:Hk.
    + apply bind_ok_inv in H as (found & s2 & [E2 Hs]%get_order_ok & [= _ <- <-]).
      rewrite E2, E1 in *. unfold stored_order in Hs.
      destruct (t_orders (conn_db c) !! id) as [r|] eqn:Hr; [|done]. injection Hs as <-.
      simpl. split; [done|]. exists r. by repeat split.
    + repeat (apply bind_ok_inv in H as (? & ? & _ & H)). done.
  - apply insert_order_run in Hins as (_ & _ & -> & (cur & _ & Eo) & _ & _ & Ek). simpl.
    rewrite Ek, Eo, !lookup_insert_eq. split; [done|]. eexists. by repeat split.
Qed.

(** A submission under a bound key, when no call fails. *)
Lemma replay_run env m k o ev au c id r :
  reliable env -> t_idempotency_keys (conn_db c) !! (m, k) = Some id ->
  t_orders (conn_db c) !! id = Some r ->
  exists n, PgStore_InsertOrder env m k o ev au c
    = (Ok (Some (scan_order id r (items_of id (conn_db c)) (t_shipments (conn_db c) !! id)), true),
       mkConn (conn_db c) n).
Proof.
  intros Hrel Hk Hr. unfold PgStore_InsertOrder, transaction. rewrite Hrel.
  unfold bind at 1, orderByIdempotency, annotate at 1. rewrite query_reliable by done. simpl.
  rewrite Hk. unfold bind.
  destruct (get_order_reliable env id
              (mkConn (conn_db c) (Datatypes.S (Datatypes.S (conn_calls c)))) Hrel) as [n Hget].
  rewrite Hget. unfold stored_order. simpl. rewrite Hr. simpl. rewrite Hrel. by eexists.
Qed.

(** C30: submitting again under the same key is harmless on the PostgreSQL store.
    Once a submission was accepted, then after any operations with any failures a
    submission of the same merchant under the same key, whatever it asks for,
    returns the order first stored, marked as a replay, and leaves every table as
    it was; that order may meanwhile have moved along its life cycle. *)
Theorem pg_resubmission_replayed env0 env' env ops m k o ev au c o1 b c1 o2 ev2 au2 :
  PgStore_InsertOrder env0 m k o ev au c = (Ok (Some o1, b), c1) -> reliable env ->
  let c2 := pg_runs env' ops c1 in
  exists o' n,
    PgStore_InsertOrder env m k o2 ev2 au2 c2 = (Ok (Some o', true), mkConn (conn_db c2) n)
    /\ Order_OrderID o' = Order_OrderID o1
    /\ Order_ExternalOrderID o' = Order_ExternalOrderID o1
    /\ Money_Amount (Totals_Total (Order_Totals o')) = Money_Amount (Totals_Total (Order_Totals o1))
    /\ rtc Moves (Order_Status o1) (Order_Status o').
Proof.
  intros Hins Hrel c2. destruct (accepted_bound _ _ _ _ _ _ _ _ _ _ Hins) as (Hk & r & Hr & Hof).
  apply (keys_runs env' ops c1) in Hk.
  destruct (orders_runs env' ops c1 _ _ Hr) as (r' & Hr' & [Hsnap Hmoves _]).
  destruct (replay_run env m k o2 ev2 au2 c2 _ _ Hrel Hk Hr') as [n Hrun].
  eexists _, n. split; [exact Hrun|]. simpl. destruct Hof as (E1 & E2 & E3).
  unfold row_snapshot in Hsnap. split_and!; [done|congruence|congruence|by rewrite <- E3].
Qed.

(** ** An instance: submitted, reserved, cancelled, and submitted again *)
Lemma pg_resubmission_replayed_witness :
  exists o' c2 n,
    PgStore_InsertOrder pg_sample "mer_1" "idem-key-0001" sample_order
      (pg_event "msg_9" "order.created") pg_audit c2 = (Ok (Some o', true), mkConn (conn_db c2) n)
    /\ Order_OrderID o' = "ord_1" /\ rtc Moves (Order_Status sample_order) (Order_Status o').
Proof.
  pose proof sample_accepted as Hf.
  destruct (PgStore_InsertOrder pg_sample "mer_1" "idem-key-0001" sample_order
              (pg_event "msg_1" "order.created") pg_audit pg_start) as [[[[o|] []]|] c1] eqn:H;
    try discriminate Hf.
  assert (o = sample_order) as ->.
  { destruct (insert_order_run _ _ _ _ _ _ _ _ _ H) as (_ & _ & E & _). rewrite E. reflexivity. }
  destruct (pg_resubmission_replayed pg_sample pg_sample pg_sample [pg_reserve; pg_cancel] "mer_1"
              "idem-key-0001" sample_order _ _ pg_start sample_order false c1 sample_order
              (pg_event "msg_9" "order.created") pg_audit H pg_sample_reliable)
    as (o' & n & Hrun & Hid & _ & _ & Hm).
  exists o', (pg_runs pg_sample [pg_reserve; pg_cancel] c1), n. exact (conj Hrun (conj Hid Hm)).
Defined.
