(* ===== verification/Metrics.v ===== *)
(** The metrics page of the API, [internal/api/server.go]: its text in the
    Prometheus exposition format, written line by line.

    What the providers of the outbox, saga and queue figures answer is given by
    [MetricsSources]; the theory reads the page back with a scraper. *)
From Stdlib Require Import SpecFloat.
From S2P Require Import Prelude GoStrings GoStringsFacts GoTime GoDuration Model StateMachine.

Record QueueDepth := mkQueueDepth {
  QueueDepth_Queue : string;
  QueueDepth_MessagesReady : Z;
  QueueDepth_Consumers : Z
}.

(** The answers of the providers, [None] for a provider that is nil. *)
Record MetricsSources := mkMetricsSources {
  (** [PendingOutboxCount] and [OldestPendingOutboxAgeSeconds] *)
  src_outbox : option (result Z * result spec_float);
  (** [OrderStatusCounts] *)
  src_saga : option (result (gmap string Z));
  (** [QueueDepths] *)
  src_queues : option (result (list QueueDepth))
}.

Definition dquote : Ascii.ascii := Ascii.ascii_of_nat 34.

Definition backslash : Ascii.ascii := Ascii.ascii_of_nat 92.

Definition line_feed : Ascii.ascii := Ascii.ascii_of_nat 10.

(** ** Text *)

(** The replacer has one-byte patterns, so it works byte by byte. *)
Definition label_byte (c : Ascii.ascii) : string :=
  if Ascii.eqb c backslash then String backslash (String backslash "")
  else if Ascii.eqb c line_feed then String backslash (String "n"%char "")
  else if Ascii.eqb c dquote then String backslash (String dquote "")
  else String c "".

Fixpoint prometheusLabelValue (value : string) : string :=
  match value with
  | EmptyString => ""
  | String c value => label_byte c +:+ prometheusLabelValue value
  end.

(** [math.RoundToEven] of [n / d]. *)
Definition round_half_even (n d : Z) : Z :=
  let q := n / d in
  match Z.compare (2 * (n mod d)) d with
  | Lt => q
  | Gt => q + 1
  | Eq => if Z.even q then q else q + 1
  end.

Definition pad3 (z : Z) : string := let d := Itoa z in zeros (3 - String.length d) +:+ d.

(** [%.3f]: the exact value, rounded to three decimals. *)
Definition format_3f (x : spec_float) : string :=
  let sign (s : bool) := if s then "-" else "" in
  match x with
  | S754_zero s => sign s +:+ "0.000"
  | S754_infinity s => (if s then "-" else "+") +:+ "Inf"
  | S754_nan => "NaN"
  | S754_finite s m e =>
      let thousandths := if 0 <=? e then Zpos m * 2 ^ e * 1000
                         else round_half_even (Zpos m * 1000) (2 ^ (- e)) in
      sign s +:+ Itoa (thousandths / 1000) +:+ "." +:+ pad3 (thousandths mod 1000)
  end.

(** [Duration.Seconds]. *)
Definition Seconds (d : Duration) : spec_float :=
  SFadd 53 1024 (float64 (Z.quot d second))
    (SFdiv 53 1024 (float64 (Z.rem d second)) (float64 1000000000)).

(** ** The page *)

(** One [Fprintf] is one line. *)
Definition help_line (name help : string) : string := "# HELP " +:+ name +:+ " " +:+ help.

Definition type_line (name kind : string) : string := "# TYPE " +:+ name +:+ " " +:+ kind.

Definition sample_line (name value : string) : string := name +:+ " " +:+ value.

Definition labelled_line (name key label value : string) : string :=
  name +:+ "{" +:+ key +:+ "=" +:+ String dquote (prometheusLabelValue label)
  +:+ String dquote "} " +:+ value.

Definition writeOutboxMetrics (src : MetricsSources) : list string :=
  match src_outbox src with
  | None => []
  | Some (count, ageSeconds) =>
      [help_line "fulfillhub_outbox_metrics_up"
         "Whether outbox metrics were collected successfully.";
       type_line "fulfillhub_outbox_metrics_up" "gauge"]
      ++ match count with
         | Err _ => [sample_line "fulfillhub_outbox_metrics_up" "0"]
         | Ok count =>
             [sample_line "fulfillhub_outbox_metrics_up" "1";
              help_line "fulfillhub_outbox_unpublished_total"
                "Unpublished outbox events waiting for relay.";
              type_line "fulfillhub_outbox_unpublished_total" "gauge";
              sample_line "fulfillhub_outbox_unpublished_total" (Itoa count)]
             ++ match ageSeconds with
                | Err _ => []
                | Ok ageSeconds =>
                    [help_line "fulfillhub_outbox_oldest_unpublished_age_seconds"
                       "Age in seconds of the oldest unpublished outbox event.";
                     type_line "fulfillhub_outbox_oldest_unpublished_age_seconds" "gauge";
                     sample_line "fulfillhub_outbox_oldest_unpublished_age_seconds"
                       (format_3f ageSeconds)]
                end
         end
  end.

Definition writeSagaMetrics (src : MetricsSources) : list string :=
  match src_saga src with
  | None => []
  | Some counts =>
      [help_line "fulfillhub_order_status_metrics_up"
         "Whether order status metrics were collected successfully.";
       type_line "fulfillhub_order_status_metrics_up" "gauge"]
      ++ match counts with
         | Err _ => [sample_line "fulfillhub_order_status_metrics_up" "0"]
         | Ok counts =>
             [sample_line "fulfillhub_order_status_metrics_up" "1";
              help_line "fulfillhub_orders_total" "Orders grouped by lifecycle status.";
              type_line "fulfillhub_orders_total" "gauge"]
             ++ map (fun status => labelled_line "fulfillhub_orders_total" "status" status
                                     (Itoa (default 0 (counts !! status))))
                  ValidOrderStatuses
         end
  end.

(** The part of [writeMetrics] after the two calls. *)
Definition queue_lines (src : MetricsSources) : list string :=
  match src_queues src with
  | None => []
  | Some depths =>
      [help_line "fulfillhub_rabbitmq_queue_metrics_up"
         "Whether RabbitMQ queue metrics were collected successfully.";
       type_line "fulfillhub_rabbitmq_queue_metrics_up" "gauge"]
      ++ match depths with
         | Err _ => [sample_line "fulfillhub_rabbitmq_queue_metrics_up" "0"]
         | Ok depths =>
             [sample_line "fulfillhub_rabbitmq_queue_metrics_up" "1";
              help_line "fulfillhub_rabbitmq_queue_messages_ready"
                "Ready messages reported by RabbitMQ queue inspection.";
              type_line "fulfillhub_rabbitmq_queue_messages_ready" "gauge"]
             ++ map (fun depth => labelled_line "fulfillhub_rabbitmq_queue_messages_ready" "queue"
                                    (QueueDepth_Queue depth) (Itoa (QueueDepth_MessagesReady depth)))
                  depths
             ++ [help_line "fulfillhub_rabbitmq_queue_consumers"
                   "Consumers reported by RabbitMQ queue inspection.";
                 type_line "fulfillhub_rabbitmq_queue_consumers" "gauge"]
             ++ map (fun depth => labelled_line "fulfillhub_rabbitmq_queue_consumers" "queue"
                                    (QueueDepth_Queue depth) (Itoa (QueueDepth_Consumers depth)))
                  depths
         end
  end.

Definition metrics_lines (requests errors : Z) (src : MetricsSources) : list string :=
  [help_line "fulfillhub_http_requests_total" "Total HTTP requests handled.";
   type_line "fulfillhub_http_requests_total" "counter";
   sample_line "fulfillhub_http_requests_total" (Itoa requests);
   help_line "fulfillhub_http_errors_total" "Total HTTP error responses returned.";
   type_line "fulfillhub_http_errors_total" "counter";
   sample_line "fulfillhub_http_errors_total" (Itoa errors)]
  ++ writeOutboxMetrics src ++ writeSagaMetrics src ++ queue_lines src.

Fixpoint unlines (lines : list string) : string :=
  match lines with
  | [] => ""
  | line :: lines => line +:+ String line_feed (unlines lines)
  end.

Definition metrics_page (requests errors : Z) (src : MetricsSources) : string :=
  unlines (metrics_lines requests errors src).

(** ** A scraper *)

Record Sample := mkSample {
  sample_name : string;
  sample_label : option (string * string);
  sample_value : string
}.

Inductive PageLine : Type :=
| LComment
| LType (name : string)
| LSample (s : Sample).

(** A name ends at a space or at an opening brace. *)
Fixpoint read_name (s : string) : string * string :=
  match s with
  | EmptyString => ("", "")
  | String c rest =>
      if Ascii.eqb c " "%char || Ascii.eqb c "{"%char then ("", s)
      else let (name, rest) := read_name rest in (String c name, rest)
  end.

(** A label value up to its closing quote, unescaped. *)
Fixpoint read_label (s : string) : option (string * string) :=
  match s with
  | EmptyString => None
  | String c rest =>
      if Ascii.eqb c dquote then Some ("", rest)
      else if Ascii.eqb c backslash then
        match rest with
        | EmptyString => None
        | String d rest =>
            let plain := if Ascii.eqb d "n"%char then Some line_feed
                         else if Ascii.eqb d backslash || Ascii.eqb d dquote then Some d else None in
            match plain, read_label rest with
            | Some p, Some (label, rest) => Some (String p label, rest)
            | _, _ => None
            end
        end
      else match read_label rest with
           | Some (label, rest) => Some (String c label, rest)
           | None => None
           end
  end.

(** What follows a name: a value, or a label and a value. *)
Definition read_sample (name rest : string) : option Sample :=
  match rest with
  | EmptyString => None
  | String c rest =>
      if Ascii.eqb c " "%char then Some (mkSample name None rest) else
      match Cut rest "="%char with
      | (key, String q rest, true) =>
          if negb (Ascii.eqb q dquote) then None else
          match read_label rest with
          | Some (label, rest) =>
              (fun value => mkSample name (Some (key, label)) value) <$> CutPrefix rest "} "
          | None => None
          end
      | _ => None
      end
  end.

Definition read_line (line : string) : option PageLine :=
  match line with
  | EmptyString => Some LComment
  | String c rest =>
      if Ascii.eqb c "#"%char then
        match CutPrefix rest " TYPE " with
        | Some rest => Some (LType (fst (read_name rest)))
        | None => Some LComment
        end
      else let (name, rest) := read_name line in LSample <$> read_sample name rest
  end.

(** The samples of a page; a name is declared once, before its samples. *)
Fixpoint read_lines (declared : list string) (lines : list string) : option (list Sample) :=
  match lines with
  | [] => Some []
  | line :: lines =>
      match read_line line with
      | None => None
      | Some LComment => read_lines declared lines
      | Some (LType name) => if one_of name declared then None else read_lines (name :: declared) lines
      | Some (LSample s) =>
          if one_of (sample_name s) declared then cons s <$> read_lines declared lines else None
      end
  end.

Definition scrape (page : string) : option (list Sample) := read_lines [] (Split page line_feed).

(** ** What the page has to say *)

Definition gauge (name value : string) : Sample := mkSample name None value.

(** Whether a source answered, as its own sample, and then its figures. *)
Definition up_gauge {A} (name : string) (r : result A) (figures : A -> list Sample) : list Sample :=
  match r with
  | Err _ => [gauge name "0"]
  | Ok a => gauge name "1" :: figures a
  end.

Definition outbox_samples (src : MetricsSources) : list Sample :=
  match src_outbox src with
  | None => []
  | Some (count, age) =>
      up_gauge "fulfillhub_outbox_metrics_up" count (fun count =>
        gauge "fulfillhub_outbox_unpublished_total" (Itoa count)
        :: match age with
           | Ok age => [gauge "fulfillhub_outbox_oldest_unpublished_age_seconds" (format_3f age)]
           | Err _ => []
           end)
  end.

Definition saga_samples (src : MetricsSources) : list Sample :=
  match src_saga src with
  | None => []
  | Some counts =>
      up_gauge "fulfillhub_order_status_metrics_up" counts (fun counts =>
        map (fun status => mkSample "fulfillhub_orders_total" (Some ("status", status))
                             (Itoa (default 0 (counts !! status)))) ValidOrderStatuses)
  end.

Definition queue_samples (src : MetricsSources) : list Sample :=
  match src_queues src with
  | None => []
  | Some depths =>
      up_gauge "fulfillhub_rabbitmq_queue_metrics_up" depths (fun depths =>
        let of_queue name figure depth :=
          mkSample name (Some ("queue", QueueDepth_Queue depth)) (Itoa (figure depth)) in
        map (of_queue "fulfillhub_rabbitmq_queue_messages_ready" QueueDepth_MessagesReady) depths
        ++ map (of_queue "fulfillhub_rabbitmq_queue_consumers" QueueDepth_Consumers) depths)
  end.

Definition page_samples (requests errors : Z) (src : MetricsSources) : list Sample :=
  gauge "fulfillhub_http_requests_total" (Itoa requests)
  :: gauge "fulfillhub_http_errors_total" (Itoa errors)
  :: outbox_samples src ++ saga_samples src ++ queue_samples src.

(** ** Facts *)

(** *** Lines *)

Definition one_line (s : string) : Prop := has_char line_feed s = false.

Lemma one_line_app a b : one_line a -> one_line b -> one_line (a +:+ b).
Proof. unfold one_line. rewrite has_char_app. by intros -> ->. Qed.

Lemma one_line_cons c s : c <> line_feed -> one_line s -> one_line (String c s).
Proof.
  unfold one_line. cbn [has_char]. intros Hc ->. apply orb_false_iff. split; [|done].
  apply Ascii.eqb_neq. congruence.
Qed.

Lemma one_line_graphic s : all_chars graphic s = true -> one_line s.
Proof. intros Hs. unfold one_line. by apply (all_chars_absent graphic). Qed.

Lemma one_line_itoa z : one_line (Itoa z).
Proof.
  apply one_line_graphic. eapply all_chars_impl; [|apply itoa_numeric]. apply numeric_graphic.
Qed.

Lemma one_line_label v : one_line (prometheusLabelValue v).
Proof.
  induction v as [|c v IH]; [done|]. simpl. apply one_line_app; [|done]. unfold label_byte.
  destruct (Ascii.eqb_spec c backslash); [done|].
  destruct (Ascii.eqb_spec c line_feed); [done|].
  destruct (Ascii.eqb_spec c dquote); [done|]. by apply one_line_cons.
Qed.

Lemma one_line_zeros n : one_line (zeros n).
Proof. induction n; [done|]. by apply one_line_cons. Qed.

Lemma one_line_format x : one_line (format_3f x).
Proof.
  destruct x as [[]|[]| |s m e]; [done..|]. unfold format_3f, pad3.
  repeat apply one_line_app; try apply one_line_itoa; try apply one_line_zeros; by destruct s.
Qed.

Lemma split_unlines lines :
  Forall one_line lines -> Split (unlines lines) line_feed = lines ++ [""].
Proof.
  induction 1 as [|line lines Hl _ IH]; [done|]. simpl. by rewrite split_app, IH.
Qed.

(** *** Reading back *)

Lemma read_label_escaped v rest :
  read_label (prometheusLabelValue v +:+ String dquote rest) = Some (v, rest).
Proof.
  induction v as [|c v IH]; [done|]. cbn [prometheusLabelValue]. rewrite string_app_assoc.
  unfold label_byte. destruct (Ascii.eqb_spec c backslash) as [->|Hb].
  { unfold String.append at 1. cbn [read_label]. by rewrite IH. }
  destruct (Ascii.eqb_spec c line_feed) as [->|Hl].
  { unfold String.append at 1. cbn [read_label]. by rewrite IH. }
  destruct (Ascii.eqb_spec c dquote) as [->|Hq].
  { unfold String.append at 1. cbn [read_label]. by rewrite IH. }
  change (String c "" +:+ ?x) with (String c x). cbn [read_label].
  apply Ascii.eqb_neq in Hb, Hq. by rewrite Hb, Hq, IH.
Qed.

(** A metric name: none of the characters that end it or start a comment. *)
Definition plain_name (name : string) : bool :=
  negb (String.eqb name "") && lacks " "%char name && lacks "{"%char name && lacks "#"%char name.

Lemma read_name_app name rest c :
  lacks " "%char name = true -> lacks "{"%char name = true ->
  c = " "%char \/ c = "{"%char ->
  read_name (name +:+ String c rest) = (name, String c rest).
Proof.
  intros H1 H2 Hc. unfold lacks in *. induction name as [|d name IH].
  { by destruct Hc as [->| ->]. }
  cbn [has_char] in H1, H2. rewrite negb_orb, andb_true_iff, negb_true_iff in H1, H2.
  destruct H1 as [H1 H1'], H2 as [H2 H2'].
  change (String d name +:+ ?x) with (String d (name +:+ x)). cbn [read_name].
  rewrite (Ascii.eqb_sym d), H1, (Ascii.eqb_sym d), H2. simpl. by rewrite IH.
Qed.

Lemma read_line_named name rest c :
  plain_name name = true -> c = " "%char \/ c = "{"%char ->
  read_line (name +:+ String c rest) = LSample <$> read_sample name (String c rest).
Proof.
  unfold plain_name. rewrite !andb_true_iff. intros [[[Hne H1] H2] H3] Hc.
  pose proof (read_name_app name rest c H1 H2 Hc) as Hn.
  destruct name as [|d name]; [done|].
  unfold lacks in H3. cbn [has_char] in H3. rewrite negb_orb, andb_true_iff, negb_true_iff in H3.
  destruct H3 as [H3 _].
  change (String d name +:+ ?x) with (String d (name +:+ x)) in *. cbn [read_line].
  by rewrite Ascii.eqb_sym, H3, Hn.
Qed.

Lemma read_sample_line name value :
  plain_name name = true ->
  read_line (sample_line name value) = Some (LSample (gauge name value)).
Proof. intros Hn. unfold sample_line. change (" " +:+ value) with (String " "%char value).
  by rewrite read_line_named by auto. Qed.

Lemma read_labelled_line name key label value :
  plain_name name = true -> has_char "="%char key = false ->
  read_line (labelled_line name key label value)
  = Some (LSample (mkSample name (Some (key, label)) value)).
Proof.
  intros Hn Hk. unfold labelled_line.
  change ("{" +:+ ?x) with (String "{"%char x). rewrite read_line_named by auto.
  unfold read_sample. change (Ascii.eqb "{" " ") with false. cbv iota.
  change ("=" +:+ ?x) with (String "="%char x).
  rewrite cut_at_separator by done. change (String dquote ?x +:+ ?y) with (String dquote (x +:+ y)).
  cbv beta iota. rewrite Ascii.eqb_refl. cbv beta iota delta [negb].
  change (String dquote "} " +:+ value) with (String dquote ("} " +:+ value)).
  rewrite read_label_escaped, (proj2 (cut_prefix_app _ _ _) eq_refl). done.
Qed.


Lemma read_help_line name help : read_line (help_line name help) = Some LComment.
Proof. done. Qed.

Lemma read_type_line name kind :
  plain_name name = true -> read_line (type_line name kind) = Some (LType name).
Proof.
  unfold plain_name. rewrite !andb_true_iff. intros [[[_ H1] H2] _]. unfold type_line.
  change ("# TYPE " +:+ ?x) with (String "#"%char (" TYPE " +:+ x)). cbn [read_line].
  change (Ascii.eqb "#" "#") with true. cbv iota.
  rewrite (proj2 (cut_prefix_app _ _ _) eq_refl). change (" " +:+ kind) with (String " "%char kind).
  by rewrite read_name_app by auto.
Qed.

(** A family: its comments, then its samples. *)
Lemma read_family declared name help kind lines rest :
  plain_name name = true -> one_of name declared = false ->
  Forall (fun ls => read_line (fst ls) = Some (LSample (snd ls)) /\ sample_name (snd ls) = name) lines ->
  read_lines declared
    (help_line name help :: type_line name kind :: map fst lines ++ rest)
  = (fun more => map snd lines ++ more) <$> read_lines (name :: declared) rest.
Proof.
  intros Hn Hd Hl. cbn [read_lines]. rewrite read_help_line, (read_type_line name kind Hn), Hd.
  induction Hl as [|[line s] lines [Hr Hs] _ IH]; simpl in *.
  { by destruct (read_lines _ rest). }
  rewrite Hr, Hs, IH. unfold one_of. simpl. rewrite String.eqb_refl. simpl.
  by destruct (read_lines (name :: declared) rest).
Qed.

(** A part of the page that declares some of [names] and reads as [samples],
    whatever follows it. *)
Definition segment (names lines : list string) (samples : list Sample) : Prop :=
  Forall one_line lines
  /\ forall declared rest,
       Forall (fun n => n ∉ declared) names ->
       exists declared', declared' ⊆ names ++ declared
         /\ read_lines declared (lines ++ rest) = app samples <$> read_lines declared' rest.

Lemma segment_nil names : segment names [] [].
Proof.
  split; [done|]. intros declared rest _. exists declared. split; [set_solver|].
  simpl. by destruct (read_lines declared rest).
Qed.

Lemma segment_app names1 names2 l1 l2 s1 s2 :
  segment names1 l1 s1 -> segment names2 l2 s2 -> Forall (fun n => n ∉ names1) names2 ->
  segment (names1 ++ names2) (l1 ++ l2) (s1 ++ s2).
Proof.
  intros [Hl1 H1] [Hl2 H2] Hdis. split; [by apply Forall_app|].
  intros declared rest [Hn1 Hn2]%Forall_app. rewrite <- (app_assoc l1).
  destruct (H1 declared (l2 ++ rest) Hn1) as (d1 & Hd1 & ->).
  destruct (H2 d1 rest) as (d2 & Hd2 & ->).
  { rewrite Forall_forall in *. set_solver. }
  exists d2. split; [set_solver|]. destruct (read_lines d2 rest); simpl; [by rewrite app_assoc|done].
Qed.

Lemma segment_family name help kind lines :
  plain_name name = true -> one_line (help_line name help) -> one_line (type_line name kind) ->
  Forall (fun ls => read_line (fst ls) = Some (LSample (snd ls)) /\ sample_name (snd ls) = name
                    /\ one_line (fst ls)) lines ->
  segment [name] (help_line name help :: type_line name kind :: map fst lines) (map snd lines).
Proof.
  intros Hn Hh Ht Hl. split.
  { constructor; [done|]. constructor; [done|]. apply Forall_fmap. eapply Forall_impl; [exact Hl|].
    naive_solver. }
  intros declared rest Hd. exists (name :: declared). split; [set_solver|].
  apply (read_family declared name help kind lines rest); [done| |].
  - apply one_of_false. by apply Forall_inv in Hd.
  - eapply Forall_impl; [exact Hl|]. naive_solver.
Qed.

(** A family of one unlabelled sample. *)
Lemma segment_gauge name help kind value :
  plain_name name = true -> one_line (help_line name help) -> one_line (type_line name kind) ->
  one_line (sample_line name "") -> one_line value ->
  segment [name] [help_line name help; type_line name kind; sample_line name value] [gauge name value].
Proof.
  intros Hn Hh Ht Hs Hv.
  apply (segment_family name help kind [(sample_line name value, gauge name value)]); [done..|].
  repeat constructor; [by apply read_sample_line|]. simpl. unfold sample_line in *.
  unfold one_line in *. rewrite !has_char_app in *. simpl in Hs. rewrite Hv. done.
Qed.

(** A family with one labelled sample per element. *)
Lemma segment_labelled {A} name help kind key (label value : A -> string) (l : list A) :
  plain_name name = true -> one_line (help_line name help) -> one_line (type_line name kind) ->
  one_line name -> one_line key -> has_char "="%char key = false -> (forall a, one_line (value a)) ->
  segment [name]
    (help_line name help :: type_line name kind
     :: map (fun a => labelled_line name key (label a) (value a)) l)
    (map (fun a => mkSample name (Some (key, label a)) (value a)) l).
Proof.
  intros Hn Hh Ht Hname Hkey Heq Hv.
  set (lines := map (fun a => (labelled_line name key (label a) (value a),
                               mkSample name (Some (key, label a)) (value a))) l).
  assert (map fst lines = map (fun a => labelled_line name key (label a) (value a)) l) as <-.
  { unfold lines. rewrite map_map. done. }
  assert (map snd lines = map (fun a => mkSample name (Some (key, label a)) (value a)) l) as <-.
  { unfold lines. rewrite map_map. done. }
  apply segment_family; [done..|]. apply Forall_fmap, Forall_true. intros a. simpl.
  split; [by apply read_labelled_line|]. split; [done|]. unfold labelled_line.
  repeat first [apply one_line_app | done | apply one_line_label | apply one_line_cons | apply Hv].
Qed.

Ltac gauge_segment := apply segment_gauge; (done || apply one_line_itoa || apply one_line_format).

Definition outbox_names : list string :=
  ["fulfillhub_outbox_metrics_up"; "fulfillhub_outbox_unpublished_total";
   "fulfillhub_outbox_oldest_unpublished_age_seconds"].

Definition saga_names : list string :=
  ["fulfillhub_order_status_metrics_up"; "fulfillhub_orders_total"].

Definition queue_names : list string :=
  ["fulfillhub_rabbitmq_queue_metrics_up"; "fulfillhub_rabbitmq_queue_messages_ready";
   "fulfillhub_rabbitmq_queue_consumers"].

(** Concrete names are told apart by computation. *)
Ltac distinct_names := apply (bool_decide_unpack _); vm_compute; exact I.

Ltac next_segment := apply (segment_app [_] _ [_; _; _] _ [_] _); [gauge_segment| |distinct_names].

Lemma outbox_segment src : segment outbox_names (writeOutboxMetrics src) (outbox_samples src).
Proof.
  unfold writeOutboxMetrics, outbox_samples, outbox_names.
  destruct (src_outbox src) as [[[count|e] age]|]; [| |apply segment_nil].
  - next_segment. next_segment. destruct age; [gauge_segment|apply segment_nil].
  - next_segment. apply segment_nil.
Qed.

Lemma saga_segment src : segment saga_names (writeSagaMetrics src) (saga_samples src).
Proof.
  unfold writeSagaMetrics, saga_samples, saga_names.
  destruct (src_saga src) as [[counts|e]|]; [| |apply segment_nil].
  - next_segment. apply (segment_labelled _ _ _ "status" (fun s => s)); [done..|].
    intros. apply one_line_itoa.
  - next_segment. apply segment_nil.
Qed.

Lemma queue_segment src : segment queue_names (queue_lines src) (queue_samples src).
Proof.
  unfold queue_lines, queue_samples, queue_names.
  destruct (src_queues src) as [[depths|e]|]; [| |apply segment_nil].
  - next_segment. apply (segment_app [_] [_] (_ :: _ :: _) (_ :: _ :: _)); [| |distinct_names];
      apply segment_labelled; try done; intros; apply one_line_itoa.
  - next_segment. apply segment_nil.
Qed.

(** C36: the metrics page can be scraped.  Whatever the counters and the
    providers' answers, the page is well formed: every metric is declared once and
    before its samples, and a scraper reads back exactly the counters, the gauge
    that says whether a provider answered and that provider's figures; a queue name
    comes back unchanged whatever characters it holds. *)
Theorem metrics_page_scraped requests errors src :
  scrape (metrics_page requests errors src) = Some (page_samples requests errors src).
Proof.
  assert (segment (["fulfillhub_http_requests_total"] ++ ["fulfillhub_http_errors_total"]
                   ++ outbox_names ++ saga_names ++ queue_names)
            (metrics_lines requests errors src) (page_samples requests errors src)) as [Hl H].
  { next_segment. next_segment. apply segment_app; [apply outbox_segment| |distinct_names].
    apply segment_app; [apply saga_segment|apply queue_segment|distinct_names]. }
  unfold scrape, metrics_page. rewrite split_unlines by done.
  destruct (H [] [""]) as (d & _ & ->); [distinct_names|]. simpl. by rewrite app_nil_r.
Qed.

(** A queue name with a quote, a backslash and a line break. *)
Example odd_queue_name :
  let name := String dquote (String backslash (String line_feed "q")) in
  nth_error (metrics_lines 7 1 (mkMetricsSources None None (Some (Ok [mkQueueDepth name 3 0])))) 11
  = Some ("fulfillhub_rabbitmq_queue_messages_ready{queue=" +:+ String dquote "\"
          +:+ String dquote "\\\nq" +:+ String dquote "} 3").
Proof. reflexivity. Qed.

Example age_text :
  map (fun d => format_3f (Seconds d)) [0; 1500 * millisecond; 61 * second + 2500 * microsecond; -1]
  = ["0.000"; "1.500"; "61.002"; "-0.000"].
Proof. vm_compute. reflexivity. Qed.
