(* ===== verification/Telemetry.v ===== *)
(** What the API server records of a request, [internal/api/server.go]: the
    status recorder around the response writer, the caller in the request's
    state, the request log and the span of the request.

    The logger and the tracer are libraries; what the server hands to them is
    the list of log entries and of ended spans. *)
From S2P Require Import Prelude GoStrings.

(** ** HTTP statuses *)

Definition StatusOK : Z := 200.

Definition StatusAccepted : Z := 202.

Definition StatusBadRequest : Z := 400.

Definition StatusUnauthorized : Z := 401.

Definition StatusForbidden : Z := 403.

Definition StatusNotFound : Z := 404.

Definition StatusConflict : Z := 409.

Definition StatusRequestEntityTooLarge : Z := 413.

Definition StatusUnprocessableEntity : Z := 422.

Definition StatusTooManyRequests : Z := 429.

Definition StatusInternalServerError : Z := 500.

Definition StatusServiceUnavailable : Z := 503.

(** [http.StatusText] of the server errors the API answers with. *)
Definition StatusText (status : Z) : string :=
  if status =? StatusInternalServerError then "Internal Server Error"
  else if status =? StatusServiceUnavailable then "Service Unavailable" else "".

(** ** The status recorder *)

(** The connection's [http.ResponseWriter]: the status line that was sent and
    the bodies written after it. *)
Record ResponseWriter := mkResponseWriter {
  rw_status : option Z;
  rw_bodies : list string
}.

(** [net/http] sends the first status it is given and ignores later ones. *)
Definition rw_WriteHeader (status : Z) (w : ResponseWriter) : ResponseWriter :=
  match rw_status w with
  | Some _ => w
  | None => mkResponseWriter (Some status) (rw_bodies w)
  end.

(** A body written before any status sends 200 first. *)
Definition rw_Write (body : string) (w : ResponseWriter) : ResponseWriter :=
  mkResponseWriter (Some (default StatusOK (rw_status w))) (rw_bodies w ++ [body]).

Record statusRecorder := mkStatusRecorder {
  rec_ResponseWriter : ResponseWriter;
  rec_status : Z;
  rec_bytes : Z
}.

Definition statusRecorder_WriteHeader (status : Z) (r : statusRecorder) : statusRecorder :=
  if negb (rec_status r =? 0) then r
  else mkStatusRecorder (rw_WriteHeader status (rec_ResponseWriter r)) status (rec_bytes r).

(** [taken] is the number of bytes the connection takes of a body; the error
    that goes with a short write is handed through. *)
Definition statusRecorder_Write (taken : string -> Z) (body : string) (r : statusRecorder)
    : statusRecorder :=
  mkStatusRecorder (rw_Write body (rec_ResponseWriter r))
    (if rec_status r =? 0 then StatusOK else rec_status r)
    (wrap64 (rec_bytes r + taken body)).

(** The calls a handler makes on its writer. *)
Inductive WriterCall : Type :=
| CallWriteHeader (status : Z)
| CallWrite (body : string).

Definition direct_call (w : ResponseWriter) (c : WriterCall) : ResponseWriter :=
  match c with
  | CallWriteHeader status => rw_WriteHeader status w
  | CallWrite body => rw_Write body w
  end.

Definition recorded_call (taken : string -> Z) (r : statusRecorder) (c : WriterCall)
    : statusRecorder :=
  match c with
  | CallWriteHeader status => statusRecorder_WriteHeader status r
  | CallWrite body => statusRecorder_Write taken body r
  end.

(** [rec := &statusRecorder{ResponseWriter: w}] and the calls made on it. *)
Definition record_calls (taken : string -> Z) (cs : list WriterCall) : statusRecorder :=
  fold_left (recorded_call taken) cs (mkStatusRecorder (mkResponseWriter None []) 0 0).

(** ** The caller *)

Record actor := mkActor {
  actor_MerchantID : string;
  actor_ActorID : string;
  actor_Ops : bool
}.

Record requestState := mkRequestState {
  state_ActorType : string;
  state_ActorID : string;
  state_MerchantID : string
}.

Definition new_requestState : requestState := mkRequestState "" "" "".

Definition record_actor (act : actor) (st : requestState) : requestState :=
  if actor_Ops act then mkRequestState "ops" (actor_ActorID act) (state_MerchantID st)
  else mkRequestState "merchant" (actor_MerchantID act) (actor_MerchantID act).

(** The state [authorizeMetrics] leaves for a valid metrics token. *)
Definition record_scraper (st : requestState) : requestState :=
  mkRequestState "metrics" "prometheus" (state_MerchantID st).

(** ** Logs and spans *)

Inductive AttrValue : Type :=
| AttrString (s : string)
| AttrInt (n : Z)
| AttrBool (b : bool)
(** [float64(n) / 1000] *)
| AttrMillis (n : Z)
(** a number of seconds as a [float64], given in nanoseconds *)
| AttrSeconds (n : Z).

Definition Attr : Type := (string * AttrValue)%type.

Inductive Level : Type := LevelInfo | LevelWarn | LevelError.

Record LogEntry := mkLogEntry {
  log_level : Level;
  log_message : string;
  log_attrs : list Attr
}.

Record Span := mkSpan {
  span_name : string;
  span_attributes : list Attr;
  (** the description of an error status *)
  span_error : option string
}.

(** The identifiers of the span's context, where the tracer gave it some. *)
Record SpanContext := mkSpanContext {
  sc_TraceID : option string;
  sc_SpanID : option string
}.

(** [if value != "" { append(name, value) }]. *)
Definition attr_unless_empty (name value : string) : list Attr :=
  if String.eqb value "" then [] else [(name, AttrString value)].

Definition attr_if_some (name : string) (value : option string) : list Attr :=
  match value with None => [] | Some v => [(name, AttrString v)] end.

(** The caller's attributes, in the log and, prefixed, on the span. *)
Definition state_attrs (prefix : string) (st : requestState) : list Attr :=
  attr_unless_empty (prefix +:+ "actor_type") (state_ActorType st)
  ++ attr_unless_empty (prefix +:+ "actor_id") (state_ActorID st)
  ++ attr_unless_empty (prefix +:+ "merchant_id") (state_MerchantID st).

Definition request_level (status : Z) : Level :=
  if StatusInternalServerError <=? status then LevelError
  else if StatusBadRequest <=? status then LevelWarn else LevelInfo.

(** [duration] is in nanoseconds. *)
Definition logRequest (logger : bool) (sc : SpanContext) (st : requestState)
    (method path : string) (status bytes duration : Z) (requestID correlationID : string)
    : list LogEntry :=
  if negb logger then [] else
  [mkLogEntry (request_level status) "http_request"
     ([("method", AttrString method); ("path", AttrString path); ("status", AttrInt status);
       ("response_bytes", AttrInt bytes); ("duration_ms", AttrMillis (Z.quot duration 1000));
       ("request_id", AttrString requestID); ("correlation_id", AttrString correlationID)]
      ++ state_attrs "" st
      ++ attr_if_some "trace_id" (sc_TraceID sc) ++ attr_if_some "span_id" (sc_SpanID sc))].

(** The attributes the deferred function sets on the span. *)
Definition request_attrs (st : requestState) (method path : string) (status : Z)
    (requestID correlationID : string) : list Attr :=
  [("http.request.method", AttrString method); ("url.path", AttrString path);
   ("http.response.status_code", AttrInt status);
   ("fulfillhub.request_id", AttrString requestID);
   ("fulfillhub.correlation_id", AttrString correlationID)]
  ++ state_attrs "fulfillhub." st.

(** What is recorded: the state and the span attributes of the request under
    way, and all log entries and ended spans. *)
Record Telemetry := mkTelemetry {
  tel_state : requestState;
  tel_attributes : list Attr;
  tel_log : list LogEntry;
  tel_spans : list Span
}.

(** A new request has its own state and its own span. *)
Definition begin_telemetry (t : Telemetry) : Telemetry :=
  mkTelemetry new_requestState [] (tel_log t) (tel_spans t).

Definition with_state (f : requestState -> requestState) (t : Telemetry) : Telemetry :=
  mkTelemetry (f (tel_state t)) (tel_attributes t) (tel_log t) (tel_spans t).

Definition with_attributes (attrs : list Attr) (t : Telemetry) : Telemetry :=
  mkTelemetry (tel_state t) (tel_attributes t ++ attrs) (tel_log t) (tel_spans t).

(** The function deferred by [ServeHTTP]. *)
Definition end_telemetry (logger : bool) (sc : SpanContext) (name method path : string)
    (r : statusRecorder) (duration : Z) (requestID correlationID : string) (t : Telemetry)
    : Telemetry :=
  let status := if rec_status r =? 0 then StatusOK else rec_status r in
  let attrs := tel_attributes t
               ++ request_attrs (tel_state t) method path status requestID correlationID in
  mkTelemetry (tel_state t) attrs
    (tel_log t ++ logRequest logger sc (tel_state t) method path status (rec_bytes r) duration
                    requestID correlationID)
    (tel_spans t
     ++ [mkSpan name attrs (if StatusInternalServerError <=? status then Some (StatusText status)
                            else None)]).

(** ** Facts *)

Definition sends_status (c : WriterCall) : Prop :=
  match c with CallWriteHeader status => status <> 0 | CallWrite _ => True end.

Definition bytes_taken (taken : string -> Z) (c : WriterCall) : Z :=
  match c with CallWriteHeader _ => 0 | CallWrite body => taken body end.

(** One call keeps the recorder in step with the connection. *)
Lemma recorded_step taken r c :
  sends_status c -> rec_status r = default 0 (rw_status (rec_ResponseWriter r)) ->
  rw_status (rec_ResponseWriter r) <> Some 0 ->
  let r' := recorded_call taken r c in
  rec_ResponseWriter r' = direct_call (rec_ResponseWriter r) c
  /\ rec_status r' = default 0 (rw_status (rec_ResponseWriter r'))
  /\ rw_status (rec_ResponseWriter r') <> Some 0.
Proof.
  destruct r as [[sent bodies] status bytes], c as [st|body]; simpl; intros Hc -> Hne;
    unfold statusRecorder_WriteHeader, statusRecorder_Write, rw_WriteHeader, rw_Write; simpl.
  - destruct sent as [n|]; simpl; [|naive_solver].
    destruct (Z.eqb_spec n 0) as [->|]; simpl; naive_solver.
  - destruct sent as [n|]; simpl; [|naive_solver]. destruct (Z.eqb_spec n 0); naive_solver.
Qed.

(** The recorder is transparent and sees what the client sees: through it the
    connection gets what it would get without it, its status is the one the
    client was sent, and its byte count the sum of what the connection took. *)
Theorem recorder_transparent taken cs :
  Forall sends_status cs ->
  let r := record_calls taken cs in
  rec_ResponseWriter r = fold_left direct_call cs (mkResponseWriter None [])
  /\ rec_status r = default 0 (rw_status (rec_ResponseWriter r))
  /\ rec_bytes r = wrap64 (foldr Z.add 0 (map (bytes_taken taken) cs)).
Proof.
  intros Hcs. unfold record_calls.
  enough (forall r, rec_status r = default 0 (rw_status (rec_ResponseWriter r)) ->
            rw_status (rec_ResponseWriter r) <> Some 0 ->
            let r' := fold_left (recorded_call taken) cs r in
            rec_ResponseWriter r' = fold_left direct_call cs (rec_ResponseWriter r)
            /\ rec_status r' = default 0 (rw_status (rec_ResponseWriter r'))
            /\ (rec_bytes r = wrap64 (rec_bytes r) ->
                rec_bytes r' = wrap64 (rec_bytes r + foldr Z.add 0 (map (bytes_taken taken) cs)))) as H.
  { destruct (H (mkStatusRecorder (mkResponseWriter None []) 0 0)) as (? & ? & Hb); [done..|].
    split_and!; [done|done|]. by apply Hb. }
  induction Hcs as [|c cs Hc Hcs IH]; intros r Hs Hne; simpl.
  - split_and!; [done..|]. intros Hb. by rewrite Z.add_0_r.
  - destruct (recorded_step taken r c Hc Hs Hne) as (Hw & Hs' & Hne').
    destruct (IH _ Hs' Hne') as (H1 & H2 & H3). rewrite <- Hw. split_and!; [done|done|].
    intros Hb. destruct c as [st|body]; simpl in *.
    + unfold statusRecorder_WriteHeader in *. destruct (negb _); simpl in *; by rewrite H3.
    + rewrite H3; simpl; [rewrite wrap64_add_l; f_equal; lia|].
      symmetry. apply wrap64_idem.
Qed.
