(* ===== verification/Api.v ===== *)
(** The HTTP API, [internal/api/server.go]: routing, authentication of
    merchants and operators, rate limiting, tenant checks, and the mapping of
    errors to responses.

    A handler either has written its response, which ends it, or continues; the
    server's counters, the service and the limiter are its state.  The JSON
    decoder, the readiness checks and the metrics providers are the
    environment's.  What is logged and traced is kept in [srv_telemetry]; the
    functions that record it are in [Telemetry]. *)
From stdpp Require Import sorting.
From S2P Require Import Prelude GoStrings GoStringsFacts GoTime Sha256 Model StateMachine Store.
From S2P Require Import Service Metrics Telemetry.

(** ** Requests and responses *)

Record HttpRequest := mkHttpRequest {
  req_method : string;
  req_path : string;
  (** [r.Header.Get] *)
  req_header : string -> string;
  req_body : string
}.

Record customerRequest := mkCustomerRequest {
  customerRequest_ID : string;
  customerRequest_Email : string;
  customerRequest_FullName : string
}.

Record addressRequest := mkAddressRequest {
  addressRequest_Line1 : string;
  addressRequest_Line2 : string;
  addressRequest_City : string;
  addressRequest_State : string;
  addressRequest_PostalCode : string;
  addressRequest_Country : string
}.

Record moneyRequest := mkMoneyRequest {
  moneyRequest_Amount : Z;
  moneyRequest_Currency : string
}.

Record orderItemRequest := mkOrderItemRequest {
  orderItemRequest_SKU : string;
  orderItemRequest_Quantity : Z;
  orderItemRequest_UnitPrice : moneyRequest
}.

Record paymentMethodRequest := mkPaymentMethodRequest {
  paymentMethodRequest_Provider : string;
  paymentMethodRequest_PaymentToken : string
}.

Record createOrderRequest := mkCreateOrderRequest {
  createOrderRequest_ExternalOrderID : string;
  createOrderRequest_Currency : string;
  createOrderRequest_Customer : customerRequest;
  createOrderRequest_ShippingAddress : addressRequest;
  createOrderRequest_Items : list orderItemRequest;
  createOrderRequest_PaymentMethod : paymentMethodRequest
}.

Record cancelOrderRequest := mkCancelOrderRequest {
  cancelOrderRequest_Reason : string;
  cancelOrderRequest_Type : string;
  cancelOrderRequest_ID : string
}.

Definition toCommand (r : createOrderRequest) : CreateOrderCommand :=
  let item i :=
    mkOrderItemInput (orderItemRequest_SKU i) (orderItemRequest_Quantity i)
      (mkMoney (moneyRequest_Amount (orderItemRequest_UnitPrice i))
         (moneyRequest_Currency (orderItemRequest_UnitPrice i))) in
  let c := createOrderRequest_Customer r in
  let a := createOrderRequest_ShippingAddress r in
  let p := createOrderRequest_PaymentMethod r in
  mkCreateOrderCommand (createOrderRequest_ExternalOrderID r) (createOrderRequest_Currency r)
    (mkCustomerInput (customerRequest_ID c) (customerRequest_Email c) (customerRequest_FullName c))
    (mkAddressInput (addressRequest_Line1 a) (addressRequest_Line2 a) (addressRequest_City a)
       (addressRequest_State a) (addressRequest_PostalCode a) (addressRequest_Country a))
    (map item (createOrderRequest_Items r))
    (mkPaymentMethodInput (paymentMethodRequest_Provider p) (paymentMethodRequest_PaymentToken p)).

(** The bodies the handlers encode. *)
Inductive Payload : Type :=
| PError (code message : string) (retryable : bool) (details : list (string * string))
         (timestamp : Time)
| PAccepted (orderID merchantID status : string) (acceptedAt : Time)
| POrder (order : Order)
| PShipment (shipment : ShipmentRecord)
| PHealth (timestamp : Time)
| PReady (checks : list (string * string)) (timestamp : Time)
| PMetrics (lines : list string)
| PAborted.

(** [resp_meta] is the pair of identifiers an enveloped body carries.  The
    content type is that of the body: text for [PMetrics], JSON for the others. *)
Record Response := mkResponse {
  resp_status : Z;
  resp_headers : list (string * string);
  resp_meta : option (string * string);
  resp_payload : Payload
}.

(** [envelope] and [errorEnvelope] carry the metadata, the probes do not. *)
Definition enveloped (p : Payload) : bool :=
  match p with
  | PError _ _ _ _ _ | PAccepted _ _ _ _ | POrder _ | PShipment _ => true
  | _ => false
  end.

(** ** Tokens *)

Record opsJWTClaims := mkOpsJWTClaims {
  claims_Subject : string;
  claims_Issuer : string;
  claims_Audience : list string;
  claims_ExpiresAt : Z;
  claims_Role : string;
  claims_Roles : list string
}.

Definition bearerToken (header : string) : string :=
  let '(authType, token, ok) := Cut (TrimSpace header) " "%char in
  if negb ok || negb (EqualFold authType "Bearer") then "" else TrimSpace token.

(** *** [base64.RawURLEncoding.DecodeString] *)

Definition base64_value (c : Ascii.ascii) : option Z :=
  let b := byte_of c in
  if (65 <=? b) && (b <=? 90) then Some (b - 65)
  else if (97 <=? b) && (b <=? 122) then Some (b - 71)
  else if (48 <=? b) && (b <=? 57) then Some (b + 4)
  else if b =? 45 then Some 62
  else if b =? 95 then Some 63
  else None.

(** Line breaks are skipped. *)
Fixpoint base64_values (s : string) : option (list Z) :=
  match s with
  | EmptyString => Some []
  | String c s =>
      if (byte_of c =? 10) || (byte_of c =? 13) then base64_values s
      else match base64_value c, base64_values s with
           | Some v, Some vs => Some (v :: vs)
           | _, _ => None
           end
  end.

(** Groups of four digits give three bytes; a last group of two or three digits
    gives one or two, its spare bits ignored. *)
Fixpoint base64_groups (vs : list Z) : option (list Z) :=
  match vs with
  | [] => Some []
  | [_] => None
  | [a; b] => Some [a * 4 + b / 16]
  | [a; b; c] => Some [a * 4 + b / 16; b mod 16 * 16 + c / 4]
  | a :: b :: c :: d :: vs =>
      match base64_groups vs with
      | Some l => Some (a * 4 + b / 16 :: b mod 16 * 16 + c / 4 :: c mod 4 * 64 + d :: l)
      | None => None
      end
  end.

Definition base64_decode (s : string) : option string :=
  match base64_values s with
  | None => None
  | Some vs => bytes <$> base64_groups vs
  end.

(** What [encoding/json] makes of a request: a value, a failure because the
    body limit was hit, or another failure. *)
Inductive Decoded (A : Type) : Type :=
| DecodedValue (a : A)
| DecodedTooLarge
| DecodedInvalid.

Arguments DecodedValue {A} a.
Arguments DecodedTooLarge {A}.
Arguments DecodedInvalid {A}.

(** A value of a decoded JWT header: only strings are looked at. *)
Inductive jsonValue : Type :=
| JString (s : string)
| JOther.

Class Json := {
  (** the first value of a body, unknown fields refused, under a byte limit *)
  decode_create : Z -> string -> Decoded createOrderRequest;
  decode_cancel : Z -> string -> Decoded cancelOrderRequest;
  (** a second read after the first value reports the end of the body *)
  decode_at_end : Z -> string -> bool;
  decode_jwt_header : string -> result (gmap string jsonValue);
  (** the claims, and the text of [aud] where the object has it *)
  decode_jwt_fields : string -> result (opsJWTClaims * option string);
  decode_string : string -> result string;
  decode_strings : string -> result (list string);
  (** the body of a response, unless it cannot be encoded *)
  encode_body : Response -> option string
}.

Section Tokens.
Context {J : Json}.

(** [decodeJWTPart] with the decoder of its type argument. *)
Definition decodeJWTPart {T} (unmarshal : string -> result T) (part : string) : option T :=
  match base64_decode part with
  | None => None
  | Some raw => match unmarshal raw with Ok v => Some v | Err _ => None end
  end.

(** [aud] is one string or a list of strings. *)
Definition jwtAudience_UnmarshalJSON (raw : string) : result (list string) :=
  match decode_string raw with
  | Ok single => Ok [single]
  | Err _ => decode_strings raw
  end.

(** [json.Unmarshal] into [opsJWTClaims], which decodes [aud] as above. *)
Definition decode_jwt_claims (raw : string) : result opsJWTClaims :=
  match decode_jwt_fields raw with
  | Err e => Err e
  | Ok (c, aud) =>
      match match aud with None => Ok [] | Some text => jwtAudience_UnmarshalJSON text end with
      | Err e => Err e
      | Ok audience => Ok (mkOpsJWTClaims (claims_Subject c) (claims_Issuer c) audience
                             (claims_ExpiresAt c) (claims_Role c) (claims_Roles c))
      end
  end.

Definition hasOperationsRole (c : opsJWTClaims) : bool :=
  existsb (fun role => one_of (TrimSpace role) ["operations"; "ops"])
    (claims_Roles c ++ [claims_Role c]).

Definition jwtAudience_Contains (a : list string) (want : string) : bool :=
  existsb (fun got => String.eqb got want) a.

Definition matchesAnyOpsJWTSecret (signingInput got : string) (secrets : list string) : bool :=
  existsb (fun secret => String.eqb got (hmac_sha256 secret signingInput)) secrets.

Definition validateOpsJWT (token : string) (secrets : list string) (issuer audience : string)
    (now : Time) : option string :=
  if Nat.eqb (length secrets) 0 then None else
  match Split token "."%char with
  | [p0; p1; p2] =>
      match decodeJWTPart decode_jwt_header p0 with
      | None => None
      | Some header =>
          if negb match header !! "alg" with
                  | Some (JString alg) => String.eqb alg "HS256"
                  | _ => false
                  end
          then None else
          let signingInput := p0 +:+ "." +:+ p1 in
          match base64_decode p2 with
          | None => None
          | Some got =>
              if negb (matchesAnyOpsJWTSecret signingInput got secrets) then None else
              match decodeJWTPart decode_jwt_claims p1 with
              | None => None
              | Some claims =>
                  if blank (claims_Subject claims) || (claims_ExpiresAt claims <=? Unix now)
                     || negb (hasOperationsRole claims) then None
                  else if negb (String.eqb issuer "") && negb (String.eqb (claims_Issuer claims) issuer)
                  then None
                  else if negb (String.eqb audience "")
                          && negb (jwtAudience_Contains (claims_Audience claims) audience)
                  then None
                  else Some (claims_Subject claims)
              end
          end
      end
  | _ => None
  end.

End Tokens.

Definition opsJWTSecrets (current : string) (previous : list string) : list string :=
  filter (fun v => v <> "") (map TrimSpace (current :: previous)).

(** ** Routes *)

Definition orderRouteMatch (path : string) : option (string * string) :=
  match CutPrefix path "/api/v1/orders/" with
  | None => None
  | Some rest =>
      if String.eqb rest "" then None else
      match Split rest "/"%char with
      | [id] => if String.eqb id "" then None else Some (id, "")
      | [id; action] =>
          if String.eqb id "" || negb (String.eqb action "cancel") then None
          else Some (id, "cancel")
      | _ => None
      end
  end.

Definition shipmentRouteMatch (path : string) : option string :=
  match CutPrefix path "/api/v1/shipments/" with
  | None => None
  | Some rest => if String.eqb rest "" || has_char "/"%char rest then None else Some rest
  end.

(** The name of a request's span: its method and the pattern of its route. *)
Definition routeSpanName (r : HttpRequest) : string :=
  let exactly method path := String.eqb (req_method r) method && String.eqb (req_path r) path in
  if exactly "GET" "/healthz" then "GET /healthz"
  else if exactly "GET" "/readyz" then "GET /readyz"
  else if exactly "GET" "/metrics" then "GET /metrics"
  else if exactly "POST" "/api/v1/orders" then "POST /api/v1/orders"
  else if HasPrefix (req_path r) "/api/v1/orders/" then
    match orderRouteMatch (req_path r) with
    | None => req_method r +:+ " /api/v1/orders/{invalid}"
    | Some (_, action) =>
        if String.eqb action "cancel" then req_method r +:+ " /api/v1/orders/{orderId}/cancel"
        else req_method r +:+ " /api/v1/orders/{orderId}"
    end
  else if HasPrefix (req_path r) "/api/v1/shipments/" then
    match shipmentRouteMatch (req_path r) with
    | None => req_method r +:+ " /api/v1/shipments/{invalid}"
    | Some _ => req_method r +:+ " /api/v1/shipments/{shipmentId}"
    end
  else req_method r +:+ " " +:+ req_path r.

(** [sort.Strings]: byte-wise order. *)
Definition string_le (a b : string) : Prop := String.leb a b = true.

#[export] Instance string_le_dec : RelDecision string_le.
Proof. intros a b. unfold string_le. apply _. Defined.

Definition sort_strings (l : list string) : list string := merge_sort string_le l.

Definition headerOrNew (value prefix : string) (n : Z) : string :=
  if negb (blank value) then value else prefix +:+ "_" +:+ pad12 n.

Definition headerOrDefault (value fallback : string) : string :=
  if negb (blank value) then value else fallback.

(** ** The server *)

Record Options := mkOptions {
  opt_APIKeys : gmap string string;
  opt_OpsJWTSecret : string;
  opt_OpsJWTPreviousSecrets : list string;
  opt_OpsJWTIssuer : string;
  opt_OpsJWTAudience : string;
  opt_MetricsBearerToken : string;
  (** the entries in the order the loop meets them, [false] for a nil check *)
  opt_ReadinessChecks : list (string * bool);
  opt_AllowLocalOpsToken : bool;
  opt_MaxRequestBodyBytes : Z;
  (** not nil *)
  opt_Logger : bool
}.

Record Config := mkConfig {
  cfg_apiKeys : gmap string string;
  cfg_opsSecrets : list string;
  cfg_opsIssuer : string;
  cfg_opsAudience : string;
  cfg_metricsToken : string;
  (** [None] is the built-in check of the store, which always passes; [Some n]
      the check the options name [n] *)
  cfg_readiness : gmap string (option string);
  cfg_localOpsToken : bool;
  cfg_maxBodyBytes : Z;
  cfg_logger : bool
}.

(** [readiness[name] = check] for the entries with a name and a check. *)
Definition add_readiness (m : gmap string (option string)) (entry : string * bool)
    : gmap string (option string) :=
  let name := TrimSpace (fst entry) in
  if String.eqb name "" || negb (snd entry) then m else <[name := Some (fst entry)]> m.

Definition NewServerWithOptions (o : Options) : Config :=
  mkConfig (opt_APIKeys o) (opsJWTSecrets (opt_OpsJWTSecret o) (opt_OpsJWTPreviousSecrets o))
    (TrimSpace (opt_OpsJWTIssuer o)) (TrimSpace (opt_OpsJWTAudience o))
    (TrimSpace (opt_MetricsBearerToken o))
    (fold_left add_readiness (opt_ReadinessChecks o) {["store" := None]})
    (opt_AllowLocalOpsToken o)
    (if opt_MaxRequestBodyBytes o <=? 0 then 2 ^ 20 else opt_MaxRequestBodyBytes o)
    (opt_Logger o).

Definition LocalDemoAPIKeys : gmap string string :=
  <["fh_live_merchant_demo" := "mer_01hzy6v4egscg4r7kb3m7jq2dk"]>
  {["fh_live_second_demo" := "mer_01hzy8v4egscg4r7kb3m7jq9qx"]}.

(** [NewServer]: the options of a local run. *)
Definition NewServer : Config :=
  NewServerWithOptions (mkOptions LocalDemoAPIKeys "" [] "" "" "" [] true 0 false).

Record Server (St L : Type) := mkServer {
  srv_service : Service St;
  srv_limiter : L;
  srv_counter : Z;
  srv_requests : Z;
  srv_errors : Z;
  srv_telemetry : Telemetry
}.

Arguments mkServer {St L}.
Arguments srv_service {St L}.
Arguments srv_limiter {St L}.
Arguments srv_counter {St L}.
Arguments srv_requests {St L}.
Arguments srv_errors {St L}.
Arguments srv_telemetry {St L}.

(** One request sees one environment: the clock when its token is checked and
    when its answer is built (the code reads it at most once for each), the outcome
    of every configured readiness check, the answers of the metrics providers, the bytes
    its connection takes of a body, its duration in nanoseconds and the context
    of its span. *)
Record RequestEnv := mkRequestEnv {
  renv_now : Time;
  renv_sent : Time;
  renv_check : string -> option error;
  renv_metrics : MetricsSources;
  renv_taken : string -> Z;
  renv_duration : Z;
  renv_span : SpanContext
}.

Section Server.
Context {St L : Type} `{Store St} {J : Json}.
Variable env : Env.
Variable cfg : Config.
(** the limiter of the options, nil or not *)
Variable limiter : option (string -> M L bool).

Notation Srv := (Server St L).

(** A handler has written its response, or goes on. *)
Definition Handler (A : Type) : Type := Srv -> (Response + A) * Srv.

Definition goes {A} (a : A) : Handler A := fun s => (inr a, s).

Definition replies {A} (r : Response) : Handler A := fun s => (inl r, s).

Definition then_ {A B} (h : Handler A) (k : A -> Handler B) : Handler B :=
  fun s => match h s with
           | (inl r, s') => (inl r, s')
           | (inr a, s') => k a s'
           end.

Notation "'do!' x := h 'in' k" := (then_ h (fun x => k))
  (at level 10, x binder, h at level 100, k at level 200).

Variable renv : RequestEnv.

Definition writeError {A} (status : Z) (code message : string) (retryable : bool)
    (details : list (string * string)) : Handler A :=
  fun s =>
    (inl (mkResponse status [] None (PError code message retryable details (renv_sent renv))),
     mkServer (srv_service s) (srv_limiter s) (srv_counter s) (srv_requests s)
       ((srv_errors s + 1) mod 2 ^ 64) (srv_telemetry s)).

Definition observe (f : Telemetry -> Telemetry) : Handler unit :=
  fun s => (inr tt, mkServer (srv_service s) (srv_limiter s) (srv_counter s) (srv_requests s)
                      (srv_errors s) (f (srv_telemetry s))).

Definition recordActor (act : actor) : Handler unit := observe (with_state (record_actor act)).

(** [span.SetAttributes]. *)
Definition set_attributes (attrs : list Attr) : Handler unit := observe (with_attributes attrs).

(** A call of the service, its error as a value. *)
Definition call_service {A} (c : M (Service St) A) : Handler (result A) :=
  fun s => let (r, sv) := c (srv_service s) in
           (inr r, mkServer sv (srv_limiter s) (srv_counter s) (srv_requests s) (srv_errors s)
                      (srv_telemetry s)).

Definition call_limiter (c : M L bool) : Handler (result bool) :=
  fun s => let (r, l) := c (srv_limiter s) in
           (inr r, mkServer (srv_service s) l (srv_counter s) (srv_requests s) (srv_errors s)
                      (srv_telemetry s)).

Definition handleCommerceError {A} (e : error) : Handler A :=
  match error_as_validation e with
  | Some fields =>
      writeError StatusUnprocessableEntity "validation_failed"
        "Request body contains invalid fields." false fields
  | None =>
      if error_is e "duplicate order" then
        writeError StatusConflict "duplicate_order"
          "The external order ID has already been accepted for this merchant." false []
      else if error_is e "invalid state transition" then
        writeError StatusConflict "invalid_state_transition"
          "The requested state transition is not allowed." false []
      else if error_is e "not found" then
        writeError StatusNotFound "not_found" "Resource not found." false []
      else writeError StatusInternalServerError "internal_error" "Unexpected server error." true []
  end.

(** [x, err := service(..); if err != nil { s.handleCommerceError(..); return }]. *)
Definition service_or_error {A} (c : M (Service St) A) : Handler A :=
  do! r := call_service c in
  match r with
  | Ok a => goes a
  | Err e => handleCommerceError e
  end.

Definition bad_key {A} : Handler A :=
  writeError StatusUnauthorized "unauthorized" "Merchant API key is missing or invalid." false [].

Definition authenticateMerchant (r : HttpRequest) : Handler actor :=
  match cfg_apiKeys cfg !! req_header r "X-API-Key" with
  | None => bad_key
  | Some merchantID =>
      let act := mkActor merchantID "" false in
      do! _ := recordActor act in goes act
  end.

Definition authenticate (r : HttpRequest) : Handler actor :=
  let apiKey := req_header r "X-API-Key" in
  if negb (String.eqb apiKey "") then
    match cfg_apiKeys cfg !! apiKey with
    | None => bad_key
    | Some merchantID =>
        let act := mkActor merchantID "" false in
        do! _ := recordActor act in goes act
    end
  else
    let token := bearerToken (req_header r "Authorization") in
    if negb (String.eqb token "") then
      if cfg_localOpsToken cfg && Nat.eqb (length (cfg_opsSecrets cfg)) 0
         && String.eqb token "ops-token"
      then let act := mkActor "" "local-ops" true in
           do! _ := recordActor act in goes act
      else match validateOpsJWT token (cfg_opsSecrets cfg) (cfg_opsIssuer cfg)
                   (cfg_opsAudience cfg) (renv_now renv) with
           | Some subject =>
               let act := mkActor "" subject true in
               do! _ := recordActor act in goes act
           | None => writeError StatusUnauthorized "unauthorized"
                       "Operations token is missing or invalid." false []
           end
    else writeError StatusUnauthorized "unauthorized" "Authentication is required." false [].

Definition decodeJSON {A} (decode : Z -> string -> Decoded A) (r : HttpRequest) : Handler A :=
  let invalid := writeError StatusBadRequest "invalid_json" "Request body is not valid JSON."
                   false [] in
  match decode (cfg_maxBodyBytes cfg) (req_body r) with
  | DecodedTooLarge => writeError StatusRequestEntityTooLarge "payload_too_large"
                         "Request body exceeds the maximum allowed size." false []
  | DecodedInvalid => invalid
  | DecodedValue a => if decode_at_end (cfg_maxBodyBytes cfg) (req_body r) then goes a else invalid
  end.

Definition allowWrite (merchantID : string) : Handler unit :=
  match limiter with
  | None => goes tt
  | Some allow =>
      do! allowed := call_limiter (allow ("merchant:" +:+ merchantID +:+ ":write")) in
      match allowed with
      | Err _ => writeError StatusServiceUnavailable "dependency_unavailable"
                   "Rate limiter is unavailable." true []
      | Ok false => writeError StatusTooManyRequests "rate_limited"
                      "Too many order creation requests for this merchant." true []
      | Ok true => goes tt
      end
  end.

Definition writeJSON {A} (status : Z) (headers : list (string * string)) (p : Payload) : Handler A :=
  replies (mkResponse status headers None p).

(** A nil order without an error makes the handler panic, and the HTTP server
    aborts the connection. *)
Definition Server_createOrder (r : HttpRequest) (correlationID : string) : Handler unit :=
  do! act := authenticateMerchant r in
  do! _ := set_attributes [("fulfillhub.merchant_id", AttrString (actor_MerchantID act));
                           ("fulfillhub.operation", AttrString "create_order")] in
  do! _ := allowWrite (actor_MerchantID act) in
  do! req := decodeJSON decode_create r in
  do! created := service_or_error
                   (CreateOrderContext env (actor_MerchantID act) (req_header r "Idempotency-Key")
                      correlationID (toCommand req)) in
  match created with
  | (None, _) => replies (mkResponse 0 [] None PAborted)
  | (Some order, replayed) =>
      do! _ := set_attributes [("fulfillhub.order_id", AttrString (Order_OrderID order));
                               ("fulfillhub.idempotent_replay", AttrBool replayed)] in
      writeJSON StatusAccepted (if replayed then [("X-Idempotent-Replay", "true")] else [])
        (PAccepted (Order_OrderID order) (Order_MerchantID order) (Order_Status order)
           (Order_CreatedAt order))
  end.

(** [if !act.Ops && act.MerchantID != merchantID { 403 }]. *)
Definition check_tenant (act : actor) (merchantID message : string) : Handler unit :=
  if negb (actor_Ops act) && negb (String.eqb (actor_MerchantID act) merchantID)
  then writeError StatusForbidden "forbidden" message false []
  else goes tt.

Definition Server_getOrder (r : HttpRequest) (orderID : string) : Handler unit :=
  do! act := authenticate r in
  do! _ := set_attributes [("fulfillhub.order_id", AttrString orderID);
                           ("fulfillhub.operation", AttrString "get_order")] in
  do! order := service_or_error (GetOrderContext orderID) in
  do! _ := check_tenant act (Order_MerchantID order) "The caller cannot access this order." in
  writeJSON StatusOK [] (POrder order).

Definition Server_getShipment (r : HttpRequest) (shipmentID : string) : Handler unit :=
  do! act := authenticate r in
  do! _ := set_attributes [("fulfillhub.shipment_id", AttrString shipmentID);
                           ("fulfillhub.operation", AttrString "get_shipment")] in
  do! shipment := service_or_error (GetShipmentContext shipmentID) in
  do! _ := set_attributes
             [("fulfillhub.order_id", AttrString (ShipmentRecord_OrderID shipment));
              ("fulfillhub.merchant_id", AttrString (ShipmentRecord_MerchantID shipment))] in
  do! _ := check_tenant act (ShipmentRecord_MerchantID shipment)
             "The caller cannot access this shipment." in
  writeJSON StatusOK [] (PShipment shipment).

Definition Server_cancelOrder (r : HttpRequest) (orderID correlationID : string) : Handler unit :=
  do! act := authenticate r in
  do! _ := set_attributes [("fulfillhub.order_id", AttrString orderID);
                           ("fulfillhub.operation", AttrString "cancel_order")] in
  do! cancelReq := decodeJSON decode_cancel r in
  if blank (cancelOrderRequest_Reason cancelReq) || blank (cancelOrderRequest_Type cancelReq)
     || blank (cancelOrderRequest_ID cancelReq)
  then writeError StatusUnprocessableEntity "validation_failed"
         "Request body contains invalid fields." false
         [("reason", "is required"); ("requested_by.type", "is required");
          ("requested_by.id", "is required")]
  else
    do! order := service_or_error (GetOrderContext orderID) in
    do! _ := check_tenant act (Order_MerchantID order) "The caller cannot access this order." in
    do! order := service_or_error
                   (CancelOrderContext env orderID correlationID
                      (mkAuditActor (cancelOrderRequest_Type cancelReq)
                         (cancelOrderRequest_ID cancelReq) (cancelOrderRequest_Reason cancelReq))) in
    writeJSON StatusAccepted []
      (PAccepted (Order_OrderID order) (Order_MerchantID order) (Order_Status order)
         (Order_UpdatedAt order)).

Definition route_not_found {A} : Handler A :=
  writeError StatusNotFound "not_found" "Route not found." false [].

Definition orderRoute (r : HttpRequest) (orderID action correlationID : string) : Handler unit :=
  if String.eqb action "cancel" && String.eqb (req_method r) "POST"
  then Server_cancelOrder r orderID correlationID
  else if String.eqb action "" && String.eqb (req_method r) "GET"
  then Server_getOrder r orderID
  else route_not_found.

Definition authorizeMetrics (r : HttpRequest) : Handler unit :=
  if String.eqb (cfg_metricsToken cfg) "" then goes tt
  else if String.eqb (bearerToken (req_header r "Authorization")) (cfg_metricsToken cfg)
  then observe (with_state record_scraper)
  else writeError StatusUnauthorized "unauthorized"
         "Metrics bearer token is missing or invalid." false [].

(** [s.readiness[name].CheckReadiness(ctx)]. *)
Definition check_readiness (name : string) : option error :=
  match cfg_readiness cfg !! name with
  | Some (Some check) => renv_check renv check
  | _ => None
  end.

(** The checks in the order of their names, each up or down with its error. *)
Definition writeReadiness : Handler unit :=
  let outcomes := map (fun name => (name, check_readiness name))
                    (sort_strings (map fst (map_to_list (cfg_readiness cfg)))) in
  let checks := map (fun c => (fst c, match snd c with None => "up" | Some _ => "down" end))
                  outcomes in
  let details := omap (fun c => (fun e => (fst c, error_text e)) <$> snd c) outcomes in
  match details with
  | [] => writeJSON StatusOK [] (PReady checks (renv_sent renv))
  | _ => writeError StatusServiceUnavailable "dependency_unavailable"
           "One or more readiness checks failed." true details
  end.

Definition writeMetrics : Handler unit :=
  fun s => (inl (mkResponse StatusOK [] None
                   (PMetrics (metrics_lines (srv_requests s) (srv_errors s) (renv_metrics renv)))),
            s).

(** The counters and identifiers set before the switch. *)
Definition begin_request (r : HttpRequest) : Handler (string * string) :=
  fun s =>
    let n := (srv_counter s + 1) mod 2 ^ 64 in
    let requestID := headerOrNew (req_header r "X-Request-Id") "req" n in
    let correlationID := headerOrDefault (req_header r "X-Correlation-Id") requestID in
    (inr (requestID, correlationID),
     mkServer (srv_service s) (srv_limiter s) n ((srv_requests s + 1) mod 2 ^ 64) (srv_errors s)
       (begin_telemetry (srv_telemetry s))).

Definition route (r : HttpRequest) (correlationID : string) : Handler unit :=
  let is_get path := String.eqb (req_method r) "GET" && String.eqb (req_path r) path in
  if is_get "/healthz" then writeJSON StatusOK [] (PHealth (renv_sent renv))
  else if is_get "/readyz" then writeReadiness
  else if is_get "/metrics" then do! _ := authorizeMetrics r in writeMetrics
  else if String.eqb (req_method r) "POST" && String.eqb (req_path r) "/api/v1/orders"
  then Server_createOrder r correlationID
  else if HasPrefix (req_path r) "/api/v1/orders/" then
    match orderRouteMatch (req_path r) with
    | None => route_not_found
    | Some (orderID, action) => orderRoute r orderID action correlationID
    end
  else if String.eqb (req_method r) "GET" && HasPrefix (req_path r) "/api/v1/shipments/" then
    match shipmentRouteMatch (req_path r) with
    | None => route_not_found
    | Some shipmentID => Server_getShipment r shipmentID
    end
  else route_not_found.

(** The calls that send a response: [writeJSON] sends the status and one body,
    the metrics page is written line by line, and a handler that panicked before
    its answer has written nothing. *)
Definition response_calls (resp : Response) : list WriterCall :=
  match resp_payload resp with
  | PAborted => []
  | PMetrics lines => map (fun line => CallWrite (line +:+ String line_feed "")) lines
  | _ => CallWriteHeader (resp_status resp)
         :: match encode_body resp with None => [] | Some body => [CallWrite body] end
  end.

(** The deferred function runs after every response. *)
Definition finish_request (r : HttpRequest) (ids : string * string) (resp : Response)
    : Handler unit :=
  observe (end_telemetry (cfg_logger cfg) (renv_span renv) (routeSpanName r) (req_method r)
             (req_path r) (record_calls (renv_taken renv) (response_calls resp))
             (renv_duration renv) (fst ids) (snd ids)).

(** The identifiers are echoed as headers of every response. *)
Definition ServeHTTP (r : HttpRequest) : Handler unit :=
  do! ids := begin_request r in
  fun s => match route r (snd ids) s with
           | (inl resp, s') =>
               let resp := mkResponse (resp_status resp)
                             ([("X-Request-Id", fst ids); ("X-Correlation-Id", snd ids)]
                              ++ resp_headers resp)
                             (if enveloped (resp_payload resp) then Some ids else None)
                             (resp_payload resp) in
               (inl resp, snd (finish_request r ids resp s'))
           | (inr u, s') => (inr u, s')
           end.

End Server.
