(* ===== verification/ApiFacts.v ===== *)
(** Properties of the HTTP API of [Api], over any store that keeps the laws of
    [StoreLaws]: every request gets one response, credentials decide who the
    caller is, callers without credentials change nothing, merchants are
    isolated from each other, refused writes never reach the service, and the
    outcome of submissions and cancellations branch by branch. *)
From S2P Require Import Prelude GoStrings GoStringsFacts GoTime Sha256 Model StateMachine Store.
From S2P Require Import Service Telemetry Api.

(** ** Routes *)

(** A path segment: not empty, without a slash. *)
Definition segment (id : string) : Prop := id <> "" /\ has_char "/"%char id = false.

Lemma order_route_sound path id action :
  orderRouteMatch path = Some (id, action) ->
  segment id
  /\ (action = "" /\ path = "/api/v1/orders/" +:+ id
      \/ action = "cancel" /\ path = "/api/v1/orders/" +:+ id +:+ "/cancel").
Proof.
  unfold orderRouteMatch. destruct (CutPrefix path _) as [rest|] eqn:Hcut; [|done].
  apply cut_prefix_app in Hcut as ->. destruct (String.eqb_spec rest ""); [done|].
  destruct (Split rest "/"%char) as [|p [|q [|]]] eqn:Hs; try done;
    apply split_inv in Hs as [Hp Hs].
  - subst p. case_match; [done|]. intros [= <- <-]. split; [done|]. by left.
  - destruct Hs as (r & -> & Hr). apply split_inv in Hr as [_ ->].
    destruct (String.eqb_spec p ""); [done|]. destruct (String.eqb_spec q "cancel"); [|done].
    intros [= <- <-]. subst q. split; [done|]. by right.
Qed.

Lemma order_route_complete id :
  segment id ->
  orderRouteMatch ("/api/v1/orders/" +:+ id) = Some (id, "")
  /\ orderRouteMatch ("/api/v1/orders/" +:+ id +:+ "/cancel") = Some (id, "cancel").
Proof.
  intros [Hne Hc]. pose proof (proj2 (String.eqb_neq id "") Hne) as Hb. split.
  - unfold orderRouteMatch. rewrite (proj2 (cut_prefix_app _ _ id) eq_refl).
    by rewrite Hb, (split_no_sep _ _ Hc), Hb.
  - unfold orderRouteMatch.
    rewrite (proj2 (cut_prefix_app _ _ (id +:+ "/cancel")) eq_refl).
    change "/cancel" with (String "/"%char "cancel"). rewrite (split_app _ _ _ Hc).
    rewrite (split_no_sep "cancel" "/"%char) by done. rewrite Hb. simpl.
    destruct (String.eqb_spec (id +:+ String "/"%char "cancel") ""); [|done]. by destruct id.
Qed.

(** ** Reasoning about handlers *)

Section Handlers.
Context {St L : Type} `{Store St} {J : Json}.
Variable env : Env.
Variable cfg : Config.
Variable limiter : option (string -> M L bool).
Variable renv : RequestEnv.

Notation Srv := (Server St L).

(** From a state in [P] the handler either has answered, in [R], or goes on, in
    [Q]. *)
Definition ensures {A} (P : Srv -> Prop) (h : @Handler St L A) (R : Response -> Srv -> Prop)
    (Q : A -> Srv -> Prop) : Prop :=
  forall s, P s -> match h s with (inl resp, s') => R resp s' | (inr a, s') => Q a s' end.

Lemma ensures_then {A B} P (h : @Handler St L A) (k : A -> @Handler St L B) R Q T :
  ensures P h R Q -> (forall a, ensures (Q a) (k a) R T) -> ensures P (then_ h k) R T.
Proof.
  intros Hh Hk s Hs. specialize (Hh s Hs). unfold then_.
  destruct (h s) as [[resp|a] s']; [done|]. by apply Hk.
Qed.

Lemma ensures_goes {A} (P : Srv -> Prop) (a : A) R (Q : A -> Srv -> Prop) :
  (forall s, P s -> Q a s) -> ensures P (goes a) R Q.
Proof. intros HQ s Hs. by apply HQ. Qed.

(** The state once an error was answered. *)
Definition error_counted (s : Srv) : Srv :=
  mkServer (srv_service s) (srv_limiter s) (srv_counter s) (srv_requests s)
    ((srv_errors s + 1) mod 2 ^ 64) (srv_telemetry s).

(** The state once something was recorded about the request. *)
Definition observed (f : Telemetry -> Telemetry) (s : Srv) : Srv :=
  mkServer (srv_service s) (srv_limiter s) (srv_counter s) (srv_requests s) (srv_errors s)
    (f (srv_telemetry s)).

Lemma ensures_observe f (P : Srv -> Prop) R (Q : unit -> Srv -> Prop) :
  (forall s, P s -> Q tt (observed f s)) -> ensures P (observe f) R Q.
Proof. intros HQ s Hs. by apply HQ. Qed.

(** Attributes of the span matter to nothing that is said of the other parts. *)
Lemma ensures_attributes {A} attrs (k : unit -> @Handler St L A) (P : Srv -> Prop) R Q :
  (forall s f, P s -> P (observed f s)) -> ensures P (k tt) R Q ->
  ensures P (then_ (set_attributes attrs) k) R Q.
Proof.
  intros HP Hk. apply (ensures_then _ _ _ _ (fun _ => P)).
  - by apply ensures_observe; auto.
  - by intros [].
Qed.

Lemma ensures_error {A} (P : Srv -> Prop) status code message retry details R Q :
  (forall s, P s ->
     R (mkResponse status [] None (PError code message retry details (renv_sent renv)))
       (error_counted s)) ->
  ensures P (writeError renv status code message retry details : @Handler St L A) R Q.
Proof. intros HR s Hs. by apply HR. Qed.

Lemma ensures_json {A} (P : Srv -> Prop) status headers p R Q :
  (forall s, P s -> R (mkResponse status headers None p) s) ->
  ensures P (writeJSON status headers p : @Handler St L A) R Q.
Proof. intros HR s Hs. by apply HR. Qed.

(** The statuses [handleCommerceError] answers with. *)
Definition commerce_status (e : error) : Z :=
  match error_as_validation e with
  | Some _ => StatusUnprocessableEntity
  | None => if error_is e "duplicate order" || error_is e "invalid state transition"
            then StatusConflict
            else if error_is e "not found" then StatusNotFound else StatusInternalServerError
  end.

Lemma ensures_commerce {A} (P : Srv -> Prop) e R Q :
  (forall s code message retry details, P s ->
     R (mkResponse (commerce_status e) [] None
          (PError code message retry details (renv_sent renv))) (error_counted s)) ->
  ensures P (handleCommerceError renv e : @Handler St L A) R Q.
Proof.
  intros HR s Hs. unfold handleCommerceError, commerce_status in *.
  destruct (error_as_validation e); [by apply HR|].
  destruct (error_is e "duplicate order"); [by apply HR|].
  destruct (error_is e "invalid state transition"); [by apply HR|].
  destruct (error_is e "not found"); by apply HR.
Qed.

Definition with_service (sv : Service St) (s : Srv) : Srv :=
  mkServer sv (srv_limiter s) (srv_counter s) (srv_requests s) (srv_errors s) (srv_telemetry s).

Definition with_limiter (l : L) (s : Srv) : Srv :=
  mkServer (srv_service s) l (srv_counter s) (srv_requests s) (srv_errors s) (srv_telemetry s).

Lemma ensures_service {A} (P : Srv -> Prop) (c : M (Service St) A) R (Q : A -> Srv -> Prop) :
  (forall s a sv, P s -> c (srv_service s) = (Ok a, sv) -> Q a (with_service sv s)) ->
  (forall s e sv code message retry details, P s -> c (srv_service s) = (Err e, sv) ->
     R (mkResponse (commerce_status e) [] None
          (PError code message retry details (renv_sent renv)))
       (error_counted (with_service sv s))) ->
  ensures P (service_or_error renv c : @Handler St L A) R Q.
Proof.
  intros HQ HR s Hs. unfold service_or_error, call_service, then_.
  destruct (c (srv_service s)) as [[a|e] sv] eqn:Hc; simpl; [by apply HQ|].
  apply (ensures_commerce (eq (with_service sv s))); [|done]. intros ? ? ? ? ? <-. eauto.
Qed.

(** The merchants' write budget: a refusal and a failure of the limiter both
    answer the request. *)
Lemma ensures_allow m (P : Srv -> Prop) R (Q : unit -> Srv -> Prop) :
  (forall s, P s -> limiter = None -> Q tt s) ->
  (forall s allow l, P s -> limiter = Some allow ->
     allow ("merchant:" +:+ m +:+ ":write") (srv_limiter s) = (Ok true, l) ->
     Q tt (with_limiter l s)) ->
  (forall s allow l verdict, P s -> limiter = Some allow ->
     allow ("merchant:" +:+ m +:+ ":write") (srv_limiter s) = (verdict, l) -> verdict <> Ok true ->
     forall code message,
     R (mkResponse (match verdict with
                    | Err _ => StatusServiceUnavailable
                    | Ok _ => StatusTooManyRequests
                    end) [] None (PError code message true [] (renv_sent renv)))
       (error_counted (with_limiter l s))) ->
  ensures P (allowWrite limiter renv m : @Handler St L unit) R Q.
Proof.
  intros HN HQ HR s Hs. unfold allowWrite, call_limiter, then_.
  destruct limiter as [allow|] eqn:Hl; [|by apply HN].
  destruct (allow _ _) as [[[]|e] l] eqn:Ha; simpl; [by eapply HQ| |];
    exact (HR s allow l _ Hs eq_refl Ha ltac:(done) _ _).
Qed.

Lemma ensures_decode {A} (decode : Z -> string -> Decoded A) r (P : Srv -> Prop) R
    (Q : A -> Srv -> Prop) :
  (forall s a, P s -> Q a s) ->
  (forall s status code message, P s -> status ∈ [StatusBadRequest; StatusRequestEntityTooLarge] ->
     R (mkResponse status [] None (PError code message false [] (renv_sent renv)))
       (error_counted s)) ->
  ensures P (decodeJSON cfg renv decode r) R Q.
Proof.
  intros HQ HR. unfold decodeJSON.
  destruct (decode _ _); [destruct (decode_at_end _ _)|..];
    [by apply ensures_goes; auto|apply ensures_error; intros; apply HR; [done|]; set_solver..].
Qed.

Lemma ensures_tenant act m message (P : Srv -> Prop) R (Q : unit -> Srv -> Prop) :
  (forall s, P s -> actor_Ops act = true \/ actor_MerchantID act = m -> Q tt s) ->
  (forall s, P s -> actor_Ops act = false -> actor_MerchantID act <> m ->
     R (mkResponse StatusForbidden [] None (PError "forbidden" message false [] (renv_sent renv)))
       (error_counted s)) ->
  ensures P (check_tenant renv act m message : @Handler St L unit) R Q.
Proof.
  intros HQ HR. unfold check_tenant. destruct (actor_Ops act) eqn:Ho; simpl.
  { apply ensures_goes. auto. }
  destruct (String.eqb_spec (actor_MerchantID act) m); simpl;
    [apply ensures_goes|apply ensures_error]; auto.
Qed.

(** ** Credentials *)

(** Whom the headers of a request identify: an API key its merchant, otherwise
    a bearer token an operator. *)
Definition caller (r : HttpRequest) : option actor :=
  let apiKey := req_header r "X-API-Key" in
  let token := bearerToken (req_header r "Authorization") in
  if negb (String.eqb apiKey "") then
    (fun m => mkActor m "" false) <$> cfg_apiKeys cfg !! apiKey
  else if String.eqb token "" then None
  else if cfg_localOpsToken cfg && Nat.eqb (length (cfg_opsSecrets cfg)) 0
          && String.eqb token "ops-token"
  then Some (mkActor "" "local-ops" true)
  else (fun subject => mkActor "" subject true)
         <$> validateOpsJWT token (cfg_opsSecrets cfg) (cfg_opsIssuer cfg) (cfg_opsAudience cfg)
               (renv_now renv).

Lemma authenticate_some r act (s : Srv) :
  caller r = Some act ->
  authenticate cfg renv r s = (inr act, observed (with_state (record_actor act)) s).
Proof.
  unfold caller, authenticate.
  destruct (String.eqb (req_header r "X-API-Key") ""); simpl.
  - destruct (String.eqb (bearerToken _) ""); [done|]. simpl.
    destruct (_ && _ && _); [by intros [= <-]|]. destruct (validateOpsJWT _ _ _ _ _); [|done].
    by intros [= <-].
  - destruct (cfg_apiKeys cfg !! _); [|done]. by intros [= <-].
Qed.

Lemma authenticate_none r P (R : Response -> Srv -> Prop) Q :
  caller r = None ->
  (forall s message, P s ->
     R (mkResponse StatusUnauthorized [] None
          (PError "unauthorized" message false [] (renv_sent renv))) (error_counted s)) ->
  ensures P (authenticate cfg renv r) R Q.
Proof.
  unfold caller, authenticate, bad_key. intros Hc HR.
  repeat case_match; simplify_eq/=; try done; by apply ensures_error; auto.
Qed.

Lemma ensures_authenticate r P (R : Response -> Srv -> Prop) (Q : actor -> Srv -> Prop) :
  (forall s act, caller r = Some act -> P s -> Q act (observed (with_state (record_actor act)) s)) ->
  (forall s message, caller r = None -> P s ->
     R (mkResponse StatusUnauthorized [] None
          (PError "unauthorized" message false [] (renv_sent renv))) (error_counted s)) ->
  ensures P (authenticate cfg renv r) R Q.
Proof.
  intros HQ HR. destruct (caller r) as [act|] eqn:Hc.
  - intros s Hs. rewrite (authenticate_some r act s Hc). by apply HQ.
  - apply authenticate_none; auto.
Qed.

Lemma ensures_merchant r m P (R : Response -> Srv -> Prop) (Q : actor -> Srv -> Prop) :
  cfg_apiKeys cfg !! req_header r "X-API-Key" = Some m ->
  (forall s, P s -> let act := mkActor m "" false in
                    Q act (observed (with_state (record_actor act)) s)) ->
  ensures P (authenticateMerchant cfg renv r) R Q.
Proof. intros Hk HQ s Hs. unfold authenticateMerchant. rewrite Hk. by apply HQ. Qed.

(** Walking through a handler with an invariant [P] between its steps. *)
Lemma ensures_steps {A B} P (h : @Handler St L A) (k : A -> @Handler St L B) R Q :
  ensures P h R (fun _ => P) -> (forall a, ensures P (k a) R Q) -> ensures P (then_ h k) R Q.
Proof. intros. by eapply ensures_then. Qed.

(** A first step that always answers ends the handler. *)
Lemma ensures_stop {A B} P (h : @Handler St L A) (k : A -> @Handler St L B) R Q :
  ensures P h R (fun _ _ => False) -> ensures P (then_ h k) R Q.
Proof. intros Hh. eapply ensures_then; [exact Hh|]. by intros a s. Qed.

(** The routes. *)
Lemma route_cases (F : @Handler St L unit -> Prop) r c :
  (req_path r = "/healthz" -> F (writeJSON StatusOK [] (PHealth (renv_sent renv)))) ->
  (req_path r = "/readyz" -> F (writeReadiness cfg renv)) ->
  (req_path r = "/metrics" -> F (then_ (authorizeMetrics cfg renv r) (fun _ => writeMetrics renv))) ->
  (req_method r = "POST" -> req_path r = "/api/v1/orders" ->
   F (Server_createOrder env cfg limiter renv r c)) ->
  (forall id, req_method r = "POST" -> segment id ->
     req_path r = "/api/v1/orders/" +:+ id +:+ "/cancel" ->
     F (Server_cancelOrder env cfg renv r id c)) ->
  (forall id, req_method r = "GET" -> segment id -> req_path r = "/api/v1/orders/" +:+ id ->
     F (Server_getOrder cfg renv r id)) ->
  (forall id, req_method r = "GET" -> F (Server_getShipment cfg renv r id)) ->
  F (route_not_found renv) ->
  F (route env cfg limiter renv r c).
Proof.
  intros Hhealth Hready Hmetrics Hcreate Hcancel Hget Hship Hnone. unfold route.
  assert (Horders : F (match orderRouteMatch (req_path r) with
                       | None => route_not_found renv
                       | Some (orderID, action) => orderRoute env cfg renv r orderID action c
                       end)).
  { destruct (orderRouteMatch (req_path r)) as [[id action]|] eqn:E; [|done].
    apply order_route_sound in E as [Hs [[-> E]|[-> E]]]; unfold orderRoute; simpl;
      case_match eqn:Hm; try apply String.eqb_eq in Hm; auto. }
  repeat match goal with |- F (if ?b then _ else _) => destruct b eqn:?Hb end;
    rewrite ?andb_true_iff, ?String.eqb_eq in *; destruct_and?; auto.
  destruct (shipmentRouteMatch (req_path r)); auto.
Qed.

Lemma route_create r c :
  req_method r = "POST" -> req_path r = "/api/v1/orders" ->
  route env cfg limiter renv r c = Server_createOrder env cfg limiter renv r c.
Proof. intros Hm Hp. unfold route. by rewrite Hm, Hp. Qed.

Lemma route_cancel r id c :
  req_method r = "POST" -> segment id -> req_path r = "/api/v1/orders/" +:+ id +:+ "/cancel" ->
  route env cfg limiter renv r c = Server_cancelOrder env cfg renv r id c.
Proof.
  intros Hm Hs Hp. unfold route. rewrite Hm, Hp, (proj2 (order_route_complete id Hs)).
  unfold orderRoute. rewrite Hm, has_prefix_app. done.
Qed.

(** ** One response per request *)

Definition error_statuses : list Z :=
  [StatusBadRequest; StatusUnauthorized; StatusForbidden; StatusNotFound; StatusConflict;
   StatusRequestEntityTooLarge; StatusUnprocessableEntity; StatusTooManyRequests;
   StatusInternalServerError; StatusServiceUnavailable].

Definition same_counters (s0 s : Srv) : Prop :=
  srv_errors s = srv_errors s0 /\ srv_requests s = srv_requests s0
  /\ srv_counter s = srv_counter s0.

(** An error body has an error status and is counted; nothing else is. *)
Definition tally (s0 : Srv) (resp : Response) (s : Srv) : Prop :=
  match resp_payload resp with
  | PError _ _ _ _ _ =>
      resp_status resp ∈ error_statuses
      /\ srv_errors s = (srv_errors s0 + 1) mod 2 ^ 64 /\ srv_requests s = srv_requests s0
      /\ srv_counter s = srv_counter s0
  | PAborted => same_counters s0 s
  | _ => (resp_status resp = StatusOK \/ resp_status resp = StatusAccepted) /\ same_counters s0 s
  end.

Lemma commerce_status_error e : commerce_status e ∈ error_statuses.
Proof.
  unfold commerce_status. destruct (error_as_validation e); [|repeat case_match];
    rewrite list_elem_of_In; simpl; tauto.
Qed.

Ltac listed := rewrite list_elem_of_In; simpl; tauto.

Ltac counted :=
  intros; unfold tally, same_counters, error_counted, with_service, with_limiter in *;
  simpl in *; split; [|destruct_and?; split_and!; congruence].

Ltac tally_step :=
  lazymatch goal with
  | |- ensures _ (service_or_error _ _) _ _ =>
      apply ensures_service; [by auto|counted; apply commerce_status_error]
  | |- ensures _ (allowWrite _ _ _) _ _ =>
      apply ensures_allow; [by auto..|counted; case_match; listed]
  | |- ensures _ (decodeJSON _ _ _ _) _ _ =>
      apply ensures_decode; [by auto|counted; rewrite list_elem_of_In in *; simpl in *; tauto]
  | |- ensures _ (check_tenant _ _ _ _) _ _ =>
      apply ensures_tenant; [by auto|counted; listed]
  | |- ensures _ (authenticate _ _ _) _ _ =>
      apply ensures_authenticate; [by intros|counted; listed]
  | |- ensures _ (observe _) _ _ => apply ensures_observe; by intros
  | |- ensures _ (then_ _ _) _ _ => apply ensures_steps; [|intros ?]
  | |- ensures _ (goes _) _ _ => apply ensures_goes; by auto
  | |- ensures _ (writeError _ _ _ _ _ _) _ _ => apply ensures_error; counted; listed
  | |- ensures _ (writeJSON _ _ _) _ _ => apply ensures_json; counted; by auto
  | |- ensures _ _ _ _ => case_match
  end.

Lemma route_tally s0 r c :
  ensures (same_counters s0) (route env cfg limiter renv r c) (tally s0) (fun _ _ => False).
Proof.
  unfold route, Server_createOrder, authenticateMerchant, bad_key, orderRoute, Server_cancelOrder,
    Server_getOrder, Server_getShipment, route_not_found, authorizeMetrics, writeReadiness,
    recordActor, set_attributes.
  repeat tally_step; intros srv Hsrv; [split; [by left|done]|done].
Qed.

(** The state the dispatcher starts from, and the identifiers it hands on. *)
Definition received (s : Srv) : Srv :=
  mkServer (srv_service s) (srv_limiter s) ((srv_counter s + 1) mod 2 ^ 64)
    ((srv_requests s + 1) mod 2 ^ 64) (srv_errors s) (begin_telemetry (srv_telemetry s)).

Definition request_id (r : HttpRequest) (s : Srv) : string :=
  headerOrNew (req_header r "X-Request-Id") "req" ((srv_counter s + 1) mod 2 ^ 64).

Definition correlation_id (r : HttpRequest) (s : Srv) : string :=
  headerOrDefault (req_header r "X-Correlation-Id") (request_id r s).

Definition stamp (requestID correlationID : string) (resp : Response) : Response :=
  mkResponse (resp_status resp)
    ([("X-Request-Id", requestID); ("X-Correlation-Id", correlationID)] ++ resp_headers resp)
    (if enveloped (resp_payload resp) then Some (requestID, correlationID) else None)
    (resp_payload resp).

(** What the deferred function records. *)
Definition finished (r : HttpRequest) (s : Srv) (resp : Response) : Telemetry -> Telemetry :=
  end_telemetry (cfg_logger cfg) (renv_span renv) (routeSpanName r) (req_method r) (req_path r)
    (record_calls (renv_taken renv) (response_calls resp)) (renv_duration renv)
    (request_id r s) (correlation_id r s).

Lemma serve_run r s :
  exists resp s',
    let resp' := stamp (request_id r s) (correlation_id r s) resp in
    route env cfg limiter renv r (correlation_id r s) (received s) = (inl resp, s')
    /\ ServeHTTP env cfg limiter renv r s = (inl resp', observed (finished r s resp') s').
Proof.
  pose proof (route_tally (received s) r (correlation_id r s) (received s)
                (conj eq_refl (conj eq_refl eq_refl))) as Ht.
  unfold ServeHTTP, begin_request, then_.
  fold (request_id r s). fold (correlation_id r s). fold (received s). simpl snd.
  destruct (route env cfg limiter renv r _ _) as [[resp|] s']; [|done]. by exists resp, s'.
Qed.

(** What a judgement on the dispatcher says about [ServeHTTP]. *)
Lemma serve_ensures P R r s :
  (forall c, ensures P (route env cfg limiter renv r c) R (fun _ _ => True)) ->
  P (received s) ->
  exists resp s',
    let resp' := stamp (request_id r s) (correlation_id r s) resp in
    ServeHTTP env cfg limiter renv r s = (inl resp', observed (finished r s resp') s')
    /\ R resp s'.
Proof.
  intros Hr Hs. destruct (serve_run r s) as (resp & s' & Hrun & ->).
  specialize (Hr (correlation_id r s) _ Hs). rewrite Hrun in Hr. by exists resp, s'.
Qed.

(** Every request gets exactly one response: the dispatcher never falls
    through; the response echoes the request and correlation identifiers (the
    caller's when it sent some, otherwise generated from the request counter);
    the request counter grows by one, and the error counter grows by one exactly
    when the body is an error, which then carries one of the ten error statuses;
    every other body has status 200 or 202, unless a nil order aborted the
    connection. *)
Theorem every_request_answered r s :
  exists resp s' requestID correlationID headers,
    ServeHTTP env cfg limiter renv r s = (inl resp, s')
    /\ resp_headers resp
       = ("X-Request-Id", requestID) :: ("X-Correlation-Id", correlationID) :: headers
    /\ (blank (req_header r "X-Request-Id") = false -> requestID = req_header r "X-Request-Id")
    /\ (blank (req_header r "X-Correlation-Id") = true -> correlationID = requestID)
    /\ srv_requests s' = (srv_requests s + 1) mod 2 ^ 64
    /\ match resp_payload resp with
       | PError _ _ _ _ _ => resp_status resp ∈ error_statuses
                             /\ srv_errors s' = (srv_errors s + 1) mod 2 ^ 64
       | PAborted => srv_errors s' = srv_errors s
       | _ => (resp_status resp = StatusOK \/ resp_status resp = StatusAccepted)
              /\ srv_errors s' = srv_errors s
       end.
Proof.
  destruct (serve_ensures (same_counters (received s)) (tally (received s)) r s)
    as (resp & s' & Hrun & Ht); [|done|].
  { intros c srv Hsrv. pose proof (route_tally _ r c srv Hsrv). by repeat case_match. }
  eexists _, _, _, _, (resp_headers resp). split; [exact Hrun|]. split; [done|].
  split. { intros Hb. unfold request_id, headerOrNew. by rewrite Hb. }
  split. { intros Hb. unfold correlation_id, headerOrDefault. by rewrite Hb. }
  unfold tally, same_counters in Ht. simpl in *. destruct (resp_payload resp); naive_solver.
Qed.

(** ** Callers without credentials *)

(** Neither a merchant nor an operator. *)
Definition anonymous (r : HttpRequest) : Prop :=
  caller r = None /\ cfg_apiKeys cfg !! req_header r "X-API-Key" = None.

(** Nothing of an order or a shipment. *)
Definition discloses_nothing (p : Payload) : Prop :=
  match p with
  | PAccepted _ _ _ _ | POrder _ | PShipment _ => False
  | _ => True
  end.

(** C24: a request without a valid API key or operator token changes neither the
    service with its store nor the rate limiter, whatever its route and body,
    and its response discloses no order and no shipment; on the order and
    shipment routes it is refused with 401 or, where no such route exists,
    404. *)
Theorem anonymous_requests_inert r s :
  anonymous r ->
  exists resp s',
    ServeHTTP env cfg limiter renv r s = (inl resp, s')
    /\ srv_service s' = srv_service s /\ srv_limiter s' = srv_limiter s
    /\ discloses_nothing (resp_payload resp)
    /\ (HasPrefix (req_path r) "/api/" = true ->
        resp_status resp = StatusUnauthorized \/ resp_status resp = StatusNotFound).
Proof.
  intros [Hc Hk].
  destruct (serve_ensures
              (fun s1 => srv_service s1 = srv_service s /\ srv_limiter s1 = srv_limiter s)
              (fun resp s1 => (srv_service s1 = srv_service s /\ srv_limiter s1 = srv_limiter s)
                 /\ discloses_nothing (resp_payload resp)
                 /\ (HasPrefix (req_path r) "/api/" = true ->
                     resp_status resp = StatusUnauthorized \/ resp_status resp = StatusNotFound)) r s)
    as (resp & s' & Hrun & [? ?] & ? & ?); [|done|by eauto 10].
  intros c. apply (route_cases (fun h => ensures _ h _ _)).
  - intros E. apply ensures_json. intros. rewrite E. split_and!; naive_solver.
  - intros E. unfold writeReadiness. destruct (omap _ _); [apply ensures_json|apply ensures_error];
      intros; rewrite E; split_and!; naive_solver.
  - intros E. apply ensures_steps; [unfold authorizeMetrics; repeat case_match|intros ?].
    4:{ intros srv Hsrv. rewrite E. split_and!; naive_solver. }
    all: first [apply ensures_goes; by auto|by apply ensures_observe|apply ensures_error].
    intros. split_and!; naive_solver.
  - intros _ _. apply ensures_stop. unfold authenticateMerchant, bad_key. rewrite Hk.
    apply ensures_error. intros. split_and!; naive_solver.
  - intros id _ _ _. apply ensures_stop, authenticate_none; [done|].
    intros. split_and!; naive_solver.
  - intros id _ _ _. apply ensures_stop, authenticate_none; [done|].
    intros. split_and!; naive_solver.
  - intros id _. apply ensures_stop, authenticate_none; [done|].
    intros. split_and!; naive_solver.
  - apply ensures_error. intros. split_and!; naive_solver.
Qed.

(** ** Operator tokens *)

(** What makes a bearer token that of the operator [subject]. *)
Definition valid_ops_token (secrets : list string) (issuer audience : string) (now : Time)
    (token subject : string) : Prop :=
  exists p0 p1 p2 header claims secret,
    token = p0 +:+ "." +:+ p1 +:+ "." +:+ p2
    /\ has_char "."%char p0 = false /\ has_char "."%char p1 = false /\ has_char "."%char p2 = false
    (* the header asks for HMAC with SHA-256, and nothing else is accepted *)
    /\ decodeJWTPart decode_jwt_header p0 = Some header /\ header !! "alg" = Some (JString "HS256")
    (* signed over header and claims under one of the secrets *)
    /\ secret ∈ secrets /\ base64_decode p2 = Some (hmac_sha256 secret (p0 +:+ "." +:+ p1))
    /\ decodeJWTPart decode_jwt_claims p1 = Some claims
    /\ claims_Subject claims = subject /\ TrimSpace subject <> ""
    /\ Unix now < claims_ExpiresAt claims
    /\ (exists role, (role = claims_Role claims \/ role ∈ claims_Roles claims)
                     /\ (TrimSpace role = "operations" \/ TrimSpace role = "ops"))
    /\ (issuer <> "" -> claims_Issuer claims = issuer)
    /\ (audience <> "" -> audience ∈ claims_Audience claims).

Lemma operations_role_iff claims :
  hasOperationsRole claims = true <->
  exists role, (role = claims_Role claims \/ role ∈ claims_Roles claims)
               /\ (TrimSpace role = "operations" \/ TrimSpace role = "ops").
Proof.
  unfold hasOperationsRole. rewrite existsb_exists. setoid_rewrite in_app_iff.
  setoid_rewrite list_elem_of_In. unfold one_of. simpl.
  setoid_rewrite orb_true_iff. setoid_rewrite orb_false_r. setoid_rewrite String.eqb_eq.
  naive_solver.
Qed.

Lemma matches_secret_iff input got secrets :
  matchesAnyOpsJWTSecret input got secrets = true <->
  exists secret, secret ∈ secrets /\ got = hmac_sha256 secret input.
Proof.
  unfold matchesAnyOpsJWTSecret. rewrite existsb_exists. setoid_rewrite list_elem_of_In.
  setoid_rewrite String.eqb_eq. naive_solver.
Qed.

Lemma audience_contains l want : jwtAudience_Contains l want = true <-> want ∈ l.
Proof.
  unfold jwtAudience_Contains. rewrite existsb_exists. setoid_rewrite String.eqb_eq.
  setoid_rewrite <- list_elem_of_In. naive_solver.
Qed.

Lemma split_three s sep p0 p1 p2 :
  Split s sep = [p0; p1; p2] <->
  s = p0 +:+ String sep (p1 +:+ String sep p2)
  /\ has_char sep p0 = false /\ has_char sep p1 = false /\ has_char sep p2 = false.
Proof.
  split.
  - intros [H0 (r0 & -> & E0)]%split_inv. apply split_inv in E0 as [H1 (r1 & -> & E1)].
    by apply split_inv in E1 as [H2 ->].
  - intros (-> & H0 & H1 & H2). by rewrite !split_app, split_no_sep.
Qed.

#[local] Arguments hmac_sha256 : simpl never.
#[local] Arguments matchesAnyOpsJWTSecret : simpl never.

Lemma validate_ops_iff token secrets issuer audience now subject :
  validateOpsJWT token secrets issuer audience now = Some subject <->
  valid_ops_token secrets issuer audience now token subject.
Proof.
  unfold validateOpsJWT, valid_ops_token. split.
  - destruct (Nat.eqb _ 0); [done|].
    destruct (Split token "."%char) as [|p0 [|p1 [|p2 [|]]]] eqn:Hs; try done.
    apply split_three in Hs as (-> & H0 & H1 & H2).
    destruct (decodeJWTPart decode_jwt_header p0) as [header|] eqn:Hh; [|done].
    destruct (header !! "alg") as [[alg|]|] eqn:Halg; simpl; try done.
    destruct (String.eqb_spec alg "HS256") as [->|]; simpl; [|done].
    destruct (base64_decode p2) as [got|] eqn:Hg; [|done].
    destruct (matchesAnyOpsJWTSecret _ _ _) eqn:Hm; simpl; [|done].
    apply matches_secret_iff in Hm as (secret & Hsec & ->).
    destruct (decodeJWTPart decode_jwt_claims p1) as [claims|] eqn:Hc; [|done].
    destruct (blank _) eqn:Hb; simpl; [done|]. apply blank_false in Hb.
    destruct (Z.leb_spec (claims_ExpiresAt claims) (Unix now)); simpl; [done|].
    destruct (hasOperationsRole claims) eqn:Hr; simpl; [|done]. apply operations_role_iff in Hr.
    destruct (negb (String.eqb issuer "") && _) eqn:Hi; [done|].
    destruct (negb (String.eqb audience "") && _) eqn:Ha; [done|].
    intros [= <-]. exists p0, p1, p2, header, claims, secret. split_and!; try done.
    + intros Hne%String.eqb_neq. rewrite Hne in Hi. simpl in Hi.
      by apply negb_false_iff, String.eqb_eq in Hi.
    + intros Hne%String.eqb_neq. rewrite Hne in Ha. simpl in Ha.
      by apply negb_false_iff, audience_contains in Ha.
  - intros (p0 & p1 & p2 & header & claims & secret & Htok & H0 & H1 & H2 & Hh & Halg & Hsec
            & Hg & Hc & <- & Hb & He & Hr & Hi & Ha).
    destruct secrets as [|x xs]; [by apply not_elem_of_nil in Hsec|]. simpl Nat.eqb.
    rewrite (proj2 (split_three token "."%char p0 p1 p2)) by done.
    rewrite Hh, Halg, Hg, Hc. cbn [String.eqb Ascii.eqb eqb negb].
    rewrite (proj2 (matches_secret_iff _ _ _)) by (by eexists).
    apply blank_false in Hb. rewrite Hb. cbn [negb orb].
    destruct (Z.leb_spec (claims_ExpiresAt claims) (Unix now)); [lia|]. simpl.
    apply operations_role_iff in Hr. rewrite Hr. simpl.
    destruct (String.eqb_spec issuer ""); simpl; [|rewrite Hi, String.eqb_refl by done; simpl];
      (destruct (String.eqb_spec audience ""); simpl; [done|]);
      by rewrite (proj2 (audience_contains _ _)) by auto.
Qed.

(** C27: operator rights need an operator's token.  A request without an API key
    is authenticated as the operator [subject] exactly when its bearer token has
    three parts, asks for HS256, is signed over its first two parts under one
    of the configured secrets (the current one or a previous one, trimmed, never
    an empty one), decodes to unexpired claims with a non-blank subject and an
    operations role, and names the issuer and audience where these are
    configured; or, only where local tokens are allowed and no secret is
    configured, when it is the fixed local token. *)
Theorem operator_rights_iff o r (s : Srv) subject :
  cfg = NewServerWithOptions o -> req_header r "X-API-Key" = "" ->
  let token := bearerToken (req_header r "Authorization") in
  let secrets := opsJWTSecrets (opt_OpsJWTSecret o) (opt_OpsJWTPreviousSecrets o) in
  (forall secret, secret ∈ secrets <->
     secret <> "" /\ exists v, v ∈ opt_OpsJWTSecret o :: opt_OpsJWTPreviousSecrets o
                              /\ secret = TrimSpace v)
  /\ ((exists s', authenticate cfg renv r s = (inr (mkActor "" subject true), s'))
      <-> valid_ops_token secrets (TrimSpace (opt_OpsJWTIssuer o))
            (TrimSpace (opt_OpsJWTAudience o)) (renv_now renv) token subject
          \/ (opt_AllowLocalOpsToken o = true /\ secrets = [] /\ token = "ops-token"
              /\ subject = "local-ops")).
Proof.
  intros -> Hkey token secrets. split.
  { intros secret. unfold secrets, opsJWTSecrets. rewrite list_elem_of_filter, list_elem_of_fmap.
    naive_solver. }
  unfold authenticate. rewrite Hkey. simpl. fold token. fold secrets.
  rewrite <- validate_ops_iff.
  destruct (String.eqb_spec token "") as [Htok|Htok]; simpl.
  { rewrite Htok. split.
    - by intros [s' Hs'].
    - intros [Hv|(_ & _ & Hv & _)]; [|done]. by destruct secrets. }
  match goal with |- context [if ?b then then_ _ _ else _] => destruct b eqn:Hlocal end.
  - apply andb_true_iff in Hlocal as [[Hallow Hlen%Nat.eqb_eq%length_zero_iff_nil]%andb_true_iff
                                        Hops%String.eqb_eq].
    rewrite Hlen. split.
    + intros [s' [= <-]]. by right.
    + intros [Hv|(_ & _ & _ & ->)]; [done|]. by eexists.
  - destruct (validateOpsJWT _ _ _ _ _) as [x|] eqn:Hv.
    + split; [intros [s' [= <-]]; by left|]. intros [[= ->]|(Ha & Hs & Ht & _)]; [by eexists|].
      by rewrite Hs in Hv.
    + split; [by intros [s' [=]]|]. intros [[=]|(Ha & Hs & Ht & _)].
      by rewrite Ha, Hs, Ht in Hlocal.
Qed.

(** ** The write budget *)

(** Handlers that leave the limiter alone. *)
Definition spares_limiter (l : L) (h : @Handler St L unit) : Prop :=
  ensures (fun s => srv_limiter s = l) h (fun _ s => srv_limiter s = l) (fun _ _ => True).

Ltac spare :=
  lazymatch goal with
  | |- ensures _ (service_or_error _ _) _ _ => apply ensures_service; by auto
  | |- ensures _ (decodeJSON _ _ _ _) _ _ => apply ensures_decode; by auto
  | |- ensures _ (check_tenant _ _ _ _) _ _ => apply ensures_tenant; by auto
  | |- ensures _ (authenticate _ _ _) _ _ => by apply ensures_authenticate
  | |- ensures _ (observe _) _ _ => by apply ensures_observe
  | |- ensures _ (then_ _ _) _ _ => apply ensures_steps; [|intros ?]
  | |- ensures _ (goes _) _ _ => apply ensures_goes; by auto
  | |- ensures _ (writeError _ _ _ _ _ _) _ _ => apply ensures_error; by auto
  | |- ensures _ (writeJSON _ _ _) _ _ => apply ensures_json; by auto
  | |- ensures _ (writeMetrics _) _ _ => by intros ? ?
  | |- ensures _ _ _ _ => case_match
  end.

Lemma others_spare_limiter l r c :
  String.eqb (req_method r) "POST" && String.eqb (req_path r) "/api/v1/orders" = false ->
  spares_limiter l (route env cfg limiter renv r c).
Proof.
  intros Hb. apply route_cases; unfold spares_limiter, Server_cancelOrder, Server_getOrder,
    Server_getShipment, route_not_found, authorizeMetrics, writeReadiness, set_attributes; intros;
    try (repeat spare).
  match goal with Hm : req_method r = _, Hp : req_path r = _ |- _ => rewrite Hm, Hp in Hb end. done.
Qed.

(** The budget of one submission by the merchant [m]. *)
Definition budgeted (m : string) (l0 : L) (sv0 : Service St) (resp : Response) (s : Srv) : Prop :=
  match limiter with
  | None => srv_limiter s = l0
  | Some allow =>
      let '(verdict, l) := allow ("merchant:" +:+ m +:+ ":write") l0 in
      srv_limiter s = l
      /\ match verdict with
         | Ok true => True
         | Ok false => resp_status resp = StatusTooManyRequests /\ srv_service s = sv0
         | Err _ => resp_status resp = StatusServiceUnavailable /\ srv_service s = sv0
         end
  end.

Lemma create_budgeted m l0 sv0 r c :
  cfg_apiKeys cfg !! req_header r "X-API-Key" = Some m ->
  ensures (fun s => srv_limiter s = l0 /\ srv_service s = sv0)
    (Server_createOrder env cfg limiter renv r c) (budgeted m l0 sv0) (fun _ _ => True).
Proof.
  intros Hk. unfold Server_createOrder.
  apply (ensures_then _ _ _ _ (fun act s => (srv_limiter s = l0 /\ srv_service s = sv0)
                                            /\ actor_MerchantID act = m)).
  { by apply (ensures_merchant r m). }
  intros act. apply ensures_attributes; [done|].
  apply (ensures_then _ _ _ _ (fun _ s => forall resp sv',
    budgeted m l0 sv0 resp (with_service sv' s))).
  { apply ensures_allow; simpl; unfold budgeted; intros s; intros; destruct_and?; simplify_eq;
      repeat match goal with H : limiter = _ |- _ => rewrite H end; try done;
      match goal with H : _ = (_, _) |- _ => rewrite H end; simpl; [done|].
    by match goal with |- context [match ?v with Ok _ => _ | Err _ => _ end] =>
      destruct v as [[]|] end. }
  intros _. apply ensures_steps.
  { apply ensures_decode; [done|]. intros s ? ? ? Hs _. apply (Hs _ (srv_service s)). }
  intros req. apply ensures_steps.
  { apply ensures_service; simpl; [intros s ? ? Hs _; intros|intros s ? ? ? ? ? ? Hs _]; apply Hs. }
  intros [[o|] ?]; [apply ensures_attributes; [done|apply ensures_json]|];
    intros s Hs; apply (Hs _ (srv_service s)).
Qed.

(** C28: The rate limiter guards submissions and nothing else.  A submission by a
    known merchant consults it exactly once, on that merchant's write key; when
    it refuses or fails, the request is answered 429 or 503 and the service is
    never called.  Every other request leaves the limiter alone. *)
Theorem write_budget r s :
  exists resp s',
    ServeHTTP env cfg limiter renv r s = (inl resp, s')
    /\ match cfg_apiKeys cfg !! req_header r "X-API-Key", limiter with
       | Some m, Some allow =>
           if String.eqb (req_method r) "POST" && String.eqb (req_path r) "/api/v1/orders" then
             let '(verdict, l) := allow ("merchant:" +:+ m +:+ ":write") (srv_limiter s) in
             srv_limiter s' = l
             /\ match verdict with
                | Ok true => True
                | Ok false => resp_status resp = StatusTooManyRequests
                              /\ srv_service s' = srv_service s
                | Err _ => resp_status resp = StatusServiceUnavailable
                           /\ srv_service s' = srv_service s
                end
           else srv_limiter s' = srv_limiter s
       | _, _ => srv_limiter s' = srv_limiter s
       end.
Proof.
  pose proof (others_spare_limiter (srv_limiter s) r) as Hothers.
  destruct (String.eqb (req_method r) "POST" && String.eqb (req_path r) "/api/v1/orders") eqn:Hb.
  - apply andb_true_iff in Hb as [Hm%String.eqb_eq Hp%String.eqb_eq].
    destruct (cfg_apiKeys cfg !! req_header r "X-API-Key") as [m|] eqn:Hk.
    + edestruct (serve_ensures (fun s1 => srv_limiter s1 = srv_limiter s
                                          /\ srv_service s1 = srv_service s)
                   (budgeted m (srv_limiter s) (srv_service s)) r s)
        as (resp & s' & Hrun & HB); [|done|].
      { intros c. rewrite route_create by done. by apply create_budgeted. }
      eexists _, _. split; [exact Hrun|]. exact HB.
    + edestruct (serve_ensures (fun s1 => srv_limiter s1 = srv_limiter s)
                   (fun _ s1 => srv_limiter s1 = srv_limiter s) r s)
        as (resp & s' & Hrun & HB); [|done|by eauto].
      intros c. rewrite route_create by done. apply ensures_stop.
      unfold authenticateMerchant, bad_key. rewrite Hk. by apply ensures_error.
  - edestruct (serve_ensures (fun s1 => srv_limiter s1 = srv_limiter s)
                 (fun _ s1 => srv_limiter s1 = srv_limiter s) r s)
      as (resp & s' & Hrun & HB); [by intros c; apply Hothers|done|].
    eexists _, _. split; [exact Hrun|]. by repeat case_match.
Qed.


End Handlers.

(** ** Merchants and orders *)

Section Tenants.
Context {St L : Type} `{StoreLaws St} {J : Json}.
Variable env : Env.
Variable cfg : Config.
Variable limiter : option (string -> M L bool).
Variable renv : RequestEnv.

Notation Srv := (Server St L).
Notation store_of s := (svc_store (srv_service s)).

(** No stored order belongs to a merchant whose identifier holds the separator
    of the scoped keys. *)
Definition colon_free (st : St) : Prop :=
  forall id o, find_order st id = Some o -> has_char ":"%char (Order_MerchantID o) = false.

(** What a step in the name of [m] may do: the orders of the others stay as
    they are, and none appears. *)
Record isolated (m : string) (st st' : St) : Prop := {
  iso_ok : store_ok st';
  iso_colon : colon_free st';
  iso_others id o : Order_MerchantID o <> m -> find_order st' id = Some o <-> find_order st id = Some o
}.

Lemma isolated_refl m st : store_ok st -> colon_free st -> isolated m st st.
Proof. by split. Qed.

(** Rebinding one identifier to an order of [m], over nothing or over another
    order of [m]. *)
Lemma isolated_put m st st' id o' :
  has_char ":"%char m = false -> colon_free st -> store_ok st' ->
  Order_MerchantID o' = m -> (forall o, find_order st id = Some o -> Order_MerchantID o = m) ->
  find_order st' id = Some o' -> (forall x, x <> id -> find_order st' x = find_order st x) ->
  isolated m st st'.
Proof.
  intros Hm Hc Hok Ho' Hold Hid Hothers. split; [done| |].
  - intros x o Hx. destruct (decide (x = id)) as [->|Hne].
    + rewrite Hid in Hx. injection Hx as <-. by rewrite Ho'.
    + rewrite Hothers in Hx by done. by eapply Hc.
  - intros x o Ho. destruct (decide (x = id)) as [->|Hne]; [|by rewrite Hothers].
    split; intros Hx; [|by apply Hold in Hx]. rewrite Hid in Hx. congruence.
Qed.

Lemma create_isolated m k c req (sv : Service St) :
  has_char ":"%char m = false -> store_ok (svc_store sv) -> colon_free (svc_store sv) ->
  draws_new_id env sv ->
  let '(r, sv') := CreateOrderContext env m k c req sv in
  isolated m (svc_store sv) (svc_store sv')
  /\ match r with Ok (Some o, _) => Order_MerchantID o = m | _ => True end.
Proof.
  intros Hm Hok Hc Hnew. pose proof (isolated_refl m _ Hok Hc) as Hrefl.
  destruct (validateCreateOrder m k req) as [e|] eqn:Hv.
  { by rewrite (create_invalid env sv m k c req e Hv). }
  destruct (find_idempotent (svc_store sv) m k) as [id|] eqn:Hid.
  { destruct (create_replays env sv m k c req id Hok Hv Hid) as (o & sv' & Ho & -> & ->).
    split; [done|]. by eapply idempotent_owner_law; eauto. }
  destruct (external_taken (svc_store sv) m (Cmd_ExternalOrderID req)) eqn:Hx.
  { by destruct (create_duplicate env sv m k c req Hv Hid Hx) as (sv' & -> & ->). }
  destruct (create_places env sv m k c req Hok Hv Hid Hx Hnew)
    as (o & sv' & -> & Hfree & [Hok' [oid ->] Hfound Hothers _ _]).
  split; [|done].
  eapply (isolated_put m _ _ _ _ Hm Hc Hok'); [| |exact Hfound|exact Hothers]; [done|].
  intros o Ho. congruence.
Qed.

Lemma cancel_isolated m id c actor o (sv : Service St) :
  has_char ":"%char m = false -> store_ok (svc_store sv) -> colon_free (svc_store sv) ->
  find_order (svc_store sv) id = Some o -> Order_MerchantID o = m ->
  let '(r, sv') := CancelOrderContext env id c actor sv in
  isolated m (svc_store sv) (svc_store sv')
  /\ match r with Ok o' => Order_MerchantID o' = m | _ => True end.
Proof.
  intros Hm Hok Hc Ho Hown. pose proof (isolated_refl m _ Hok Hc) as Hrefl.
  pose proof (cancel_cases env sv id c actor Hok) as Hcase.
  destruct (CancelOrderContext env id c actor sv) as [r sv']. rewrite Ho in Hcase.
  destruct (validateCancelActor actor); [by destruct Hcase as [-> ->]|].
  destruct (ValidateOrderTransition _ _).
  { by destruct Hcase as [(? & -> & _) ->]. }
  destruct Hcase as (o' & -> & [Hok' -> Hfound Hothers _ _]).
  split; [|done].
  eapply (isolated_put m _ _ _ _ Hm Hc Hok'); [| |exact Hfound|exact Hothers]; [done|].
  intros x Hx. by simplify_eq.
Qed.

(** What a body shows belongs to [m]. *)
Definition own (m : string) (p : Payload) : Prop :=
  match p with
  | PAccepted _ merchantID _ _ => merchantID = m
  | POrder o => Order_MerchantID o = m
  | PShipment sh => ShipmentRecord_MerchantID sh = m
  | _ => True
  end.

Lemma get_order_run_store id (sv sv' : Service St) r :
  GetOrderContext id sv = (r, sv') ->
  svc_store sv' = svc_store sv
  /\ r = match find_order (svc_store sv) id with Some o => Ok o | None => Err ErrNotFound end.
Proof.
  unfold GetOrderContext, on_store. rewrite get_order_law. intros. by simplify_eq/=.
Qed.

Lemma get_shipment_run_store id (sv sv' : Service St) r :
  GetShipmentContext id sv = (r, sv') -> svc_store sv' = svc_store sv.
Proof.
  unfold GetShipmentContext, on_store. pose proof (get_shipment_law (svc_store sv) id).
  destruct (GetShipment id (svc_store sv)). intros. by simplify_eq/=.
Qed.

(** The judgement of the handlers: from the service [sv], in the name of [m]. *)
Definition guards m (sv : Service St) (h : @Handler St L unit) : Prop :=
  ensures (fun s => srv_service s = sv) h
    (fun resp s => isolated m (svc_store sv) (store_of s) /\ own m (resp_payload resp))
    (fun _ _ => True).

Lemma create_guards m r c sv :
  cfg_apiKeys cfg !! req_header r "X-API-Key" = Some m ->
  has_char ":"%char m = false -> store_ok (svc_store sv) -> colon_free (svc_store sv) ->
  draws_new_id env sv ->
  guards m sv (Server_createOrder env cfg limiter renv r c).
Proof.
  intros Hk Hm Hok Hc Hnew. pose proof (isolated_refl m _ Hok Hc) as Hrefl.
  unfold guards, Server_createOrder.
  apply (ensures_then _ _ _ _ (fun act s => srv_service s = sv /\ actor_MerchantID act = m)).
  { by apply (ensures_merchant cfg renv r m). }
  intros act. apply ensures_attributes; [done|]. apply ensures_steps.
  { apply ensures_allow; intros; simpl in *; destruct_and?; simplify_eq; done. }
  intros _. apply ensures_steps.
  { apply ensures_decode; intros; simpl in *; destruct_and?; simplify_eq; done. }
  intros req. eapply ensures_then with (Q := fun created s =>
    isolated m (svc_store sv) (store_of s)
    /\ match created with (Some o, _) => Order_MerchantID o = m | _ => True end).
  - apply ensures_service; intros s; intros; simpl in *; destruct_and?; simplify_eq;
      match goal with Hrun : CreateOrderContext _ _ ?k ?c ?q _ = _ |- _ =>
        pose proof (create_isolated (actor_MerchantID act) k c q (srv_service s) Hm Hok Hc Hnew) as Hiso;
        rewrite Hrun in Hiso end; destruct Hiso; done.
  - intros [[o|] replayed]; [apply ensures_attributes; [done|apply ensures_json]|];
      intros s [? ?]; done.
Qed.

(** Authentication and look-up, shared by the routes on an order. *)
Lemma authenticated_step {A} m r sv (k : actor -> @Handler St L A) R Q :
  caller cfg renv r = Some (mkActor m "" false) ->
  ensures (fun s => srv_service s = sv) (k (mkActor m "" false)) R Q ->
  ensures (fun s => srv_service s = sv) (then_ (authenticate cfg renv r) k) R Q.
Proof.
  intros Hc Hk s Hs. unfold then_. rewrite (authenticate_some cfg renv r _ s Hc). by apply Hk.
Qed.

Lemma found_step {A} m id sv message (k : Order -> @Handler St L A)
    (R : Response -> Srv -> Prop) Q :
  (forall s1 code msg retry details status, store_of s1 = svc_store sv ->
     R (mkResponse status [] None (PError code msg retry details (renv_sent renv))) s1) ->
  (forall o, find_order (svc_store sv) id = Some o -> Order_MerchantID o = m ->
     ensures (fun s => store_of s = svc_store sv) (k o) R Q) ->
  ensures (fun s => srv_service s = sv)
    (then_ (service_or_error renv (GetOrderContext id))
       (fun order => then_ (check_tenant renv (mkActor m "" false) (Order_MerchantID order) message)
          (fun _ => k order))) R Q.
Proof.
  intros HR Hk.
  apply (ensures_then _ _ _ _ (fun o s => store_of s = svc_store sv
                                          /\ find_order (svc_store sv) id = Some o)).
  { apply ensures_service; simpl; intros s ? ? ; intros; subst;
      match goal with Hrun : GetOrderContext _ _ = _ |- _ =>
        apply get_order_run_store in Hrun as [Hst Hr] end; [|by apply HR].
    destruct (find_order _ _); by simplify_eq. }
  intros o. apply (ensures_then _ _ _ _ (fun _ s => store_of s = svc_store sv
                      /\ find_order (svc_store sv) id = Some o /\ Order_MerchantID o = m)).
  { apply ensures_tenant; simpl; intros s [? ?]; intros; [naive_solver|by apply HR]. }
  intros _ s (Hs & Ho & Hown). by apply (Hk o Ho Hown).
Qed.

Lemma cancel_guards m r id c sv :
  caller cfg renv r = Some (mkActor m "" false) ->
  has_char ":"%char m = false -> store_ok (svc_store sv) -> colon_free (svc_store sv) ->
  guards m sv (Server_cancelOrder env cfg renv r id c).
Proof.
  intros Hcaller Hm Hok Hc. pose proof (isolated_refl m _ Hok Hc) as Hrefl.
  eapply authenticated_step; [done|]. apply ensures_attributes; [by intros|]. apply ensures_steps.
  { apply ensures_decode; [done|]. intros s ? ? ? <- _. done. }
  intros req. destruct (_ || _).
  { apply ensures_error. by intros s <-. }
  apply found_step. { intros s1 ????? ->. done. }
  intros o Ho Hown. eapply ensures_then with (Q := fun o' s =>
    isolated m (svc_store sv) (store_of s) /\ Order_MerchantID o' = m).
  - apply ensures_service; intros s; intros; simpl in *;
      match goal with Hrun : CancelOrderContext _ _ ?c ?q _ = _, Hs : store_of s = _ |- _ =>
        rewrite <- Hs in Hok, Hc, Ho |- *;
        pose proof (cancel_isolated m id c q o (srv_service s) Hm Hok Hc Ho Hown) as Hiso;
        rewrite Hrun in Hiso end; destruct Hiso; done.
  - intros o'. apply ensures_json. intros s [? ?]. done.
Qed.

Lemma get_order_guards m r id sv :
  caller cfg renv r = Some (mkActor m "" false) ->
  store_ok (svc_store sv) -> colon_free (svc_store sv) ->
  guards m sv (Server_getOrder cfg renv r id).
Proof.
  intros Hcaller Hok Hc. pose proof (isolated_refl m _ Hok Hc) as Hrefl.
  eapply authenticated_step; [done|]. apply ensures_attributes; [by intros|]. apply found_step. { intros s1 ????? ->. done. }
  intros o Ho Hown. apply ensures_json. intros s ->. done.
Qed.

Lemma get_shipment_guards m r id sv :
  caller cfg renv r = Some (mkActor m "" false) ->
  store_ok (svc_store sv) -> colon_free (svc_store sv) ->
  guards m sv (Server_getShipment cfg renv r id).
Proof.
  intros Hcaller Hok Hc. pose proof (isolated_refl m _ Hok Hc) as Hrefl.
  eapply authenticated_step; [done|]. apply ensures_attributes; [by intros|].
  apply (ensures_then _ _ _ _ (fun _ s => store_of s = svc_store sv)).
  { apply ensures_service; intros s; intros; simpl in *; subst;
      match goal with Hrun : GetShipmentContext _ _ = _ |- _ =>
        apply get_shipment_run_store in Hrun as Hst; rewrite ?Hst end; done. }
  intros sh. apply ensures_attributes; [by intros|].
  apply (ensures_then _ _ _ _ (fun _ s => store_of s = svc_store sv
                                          /\ ShipmentRecord_MerchantID sh = m)).
  { apply ensures_tenant; simpl; intros s ->; intros; [naive_solver|done]. }
  intros _. apply ensures_json. by intros s [-> ?].
Qed.

(** An answer before any call of the service. *)
Ltac quiet := let E := fresh in intros ? E; simpl in *; rewrite ?E.

(** C23: merchants are isolated.  A request that authenticates as the merchant
    [m], on any route and with any body, leaves every order of every other
    merchant as it was and adds none to them, and whatever order, shipment or
    acceptance its response shows belongs to [m]; the premises on the store hold
    again afterwards.  The premises: no merchant identifier holds a colon (the
    scoped keys of two merchants could coincide otherwise) and the identifier
    the request would draw is not in use. *)
Theorem tenant_isolation r m (s : Srv) :
  req_header r "X-API-Key" <> "" -> cfg_apiKeys cfg !! req_header r "X-API-Key" = Some m ->
  has_char ":"%char m = false -> store_ok (store_of s) -> colon_free (store_of s) ->
  draws_new_id env (srv_service s) ->
  exists resp s',
    ServeHTTP env cfg limiter renv r s = (inl resp, s')
    /\ isolated m (store_of s) (store_of s') /\ own m (resp_payload resp).
Proof.
  intros Hne Hk Hm Hok Hc Hnew.
  assert (Hcaller : caller cfg renv r = Some (mkActor m "" false)).
  { unfold caller. apply String.eqb_neq in Hne. by rewrite Hne, Hk. }
  pose proof (isolated_refl m _ Hok Hc) as Hrefl.
  destruct (serve_ensures env cfg limiter renv (fun s1 => srv_service s1 = srv_service s)
              (fun resp s1 => isolated m (store_of s) (store_of s1) /\ own m (resp_payload resp)) r s)
    as (resp & s' & Hrun & ? & ?); [|done|by eauto].
  intros c. apply (route_cases env cfg limiter renv (guards m (srv_service s))).
  - intros _. apply ensures_json. by quiet.
  - intros _. unfold writeReadiness. destruct (omap _ _); [apply ensures_json|apply ensures_error];
      by quiet.
  - intros _. apply ensures_steps; [unfold authorizeMetrics; repeat case_match|intros _; quiet; done].
    all: first [by apply ensures_goes|by apply ensures_observe|apply ensures_error; by quiet].
  - intros _ _. by apply create_guards.
  - intros. by apply cancel_guards.
  - intros. by apply get_order_guards.
  - intros. by apply get_shipment_guards.
  - apply ensures_error. by quiet.
Qed.

(** ** Submissions and cancellations over HTTP *)

(** The request [r] is a well-formed submission of [req] by the merchant [m]
    under the idempotency key [k]. *)
Record submits (r : HttpRequest) (m k : string) (req : createOrderRequest) : Prop := {
  sub_method : req_method r = "POST";
  sub_path : req_path r = "/api/v1/orders";
  sub_merchant : cfg_apiKeys cfg !! req_header r "X-API-Key" = Some m;
  sub_key : req_header r "Idempotency-Key" = k;
  sub_body : decode_create (cfg_maxBodyBytes cfg) (req_body r) = DecodedValue req;
  sub_end : decode_at_end (cfg_maxBodyBytes cfg) (req_body r) = true;
  sub_valid : validateCreateOrder m k (toCommand req) = None
}.

(** The limiter, where there is one, lets the merchant write. *)
Definition admits (m : string) (s : Srv) : Prop :=
  match limiter with
  | None => True
  | Some allow => fst (allow ("merchant:" +:+ m +:+ ":write") (srv_limiter s)) = Ok true
  end.

(** The answer to an accepted submission. *)
Definition accepted (o : Order) (replayed : bool) : Response :=
  mkResponse StatusAccepted (if replayed then [("X-Idempotent-Replay", "true")] else []) None
    (PAccepted (Order_OrderID o) (Order_MerchantID o) (Order_Status o) (Order_CreatedAt o)).

Lemma serve_submission r m k req (s : Srv) o replayed sv :
  submits r m k req -> admits m s ->
  CreateOrderContext env m k (correlation_id r s) (toCommand req) (srv_service s)
  = (Ok (Some o, replayed), sv) ->
  exists s',
    ServeHTTP env cfg limiter renv r s
    = (inl (stamp (request_id r s) (correlation_id r s) (accepted o replayed)), s')
    /\ srv_service s' = sv.
Proof.
  intros [Hm Hp Hk Hkey Hb He _] Ha Hrun.
  destruct (serve_run env cfg limiter renv r s) as (resp & s' & Hroute & ->).
  rewrite route_create in Hroute by done.
  unfold Server_createOrder, authenticateMerchant, then_, allowWrite, admits, call_limiter,
    decodeJSON, goes, service_or_error, call_service in *. rewrite Hk in Hroute.
  destruct limiter as [allow|]; simpl in *.
  - unfold then_ in Hroute. destruct (allow _ _) as [verdict l]. simpl in *. subst verdict.
    rewrite Hb, He in Hroute. simpl in Hroute. unfold then_ in Hroute. simpl in Hroute.
    rewrite Hkey, Hrun in Hroute. simpl in Hroute. injection Hroute as <- <-. by eexists.
  - rewrite Hb, He in Hroute. simpl in Hroute. unfold then_ in Hroute. simpl in Hroute.
    rewrite Hkey, Hrun in Hroute. simpl in Hroute. injection Hroute as <- <-. by eexists.
Qed.


(** The request [r] asks, with a complete body, for the cancellation of the
    order [id] in the name of [act]. *)
Record asks_cancel (r : HttpRequest) (id : string) (act : actor) (body : cancelOrderRequest)
    : Prop := {
  ask_method : req_method r = "POST";
  ask_segment : segment id;
  ask_path : req_path r = "/api/v1/orders/" +:+ id +:+ "/cancel";
  ask_caller : caller cfg renv r = Some act;
  ask_body : decode_cancel (cfg_maxBodyBytes cfg) (req_body r) = DecodedValue body;
  ask_end : decode_at_end (cfg_maxBodyBytes cfg) (req_body r) = true;
  ask_reason : blank (cancelOrderRequest_Reason body) = false;
  ask_type : blank (cancelOrderRequest_Type body) = false;
  ask_id : blank (cancelOrderRequest_ID body) = false
}.

Definition audit_actor (body : cancelOrderRequest) : AuditActor :=
  mkAuditActor (cancelOrderRequest_Type body) (cancelOrderRequest_ID body)
    (cancelOrderRequest_Reason body).

Lemma complete_actor_valid r id act body :
  asks_cancel r id act body -> validateCancelActor (audit_actor body) = None.
Proof.
  intros [_ _ _ _ _ _ Hr Ht Hi]. apply validation_result_none.
  unfold cancel_actor_errors, audit_actor. simpl. by rewrite Hr, Ht, Hi.
Qed.

Definition may_access (act : actor) (o : Order) : bool :=
  actor_Ops act || String.eqb (actor_MerchantID act) (Order_MerchantID o).

(** The outcome of such a request, branch by branch. *)
Definition cancel_outcome (s : Srv) (id : string) (act : actor) (body : cancelOrderRequest)
    (c : string) (resp : Response) (s' : Srv) : Prop :=
  let now := env_clock env (svc_ticks (srv_service s)) in
  match find_order (store_of s) id with
  | None => resp_status resp = StatusNotFound /\ store_of s' = store_of s
  | Some o =>
      if negb (may_access act o) then
        resp_status resp = StatusForbidden /\ store_of s' = store_of s
      else match ValidateOrderTransition (Order_Status o) StatusCancellationPending with
           | Some _ => resp_status resp = StatusConflict /\ store_of s' = store_of s
           | None =>
               resp_status resp = StatusAccepted
               /\ resp_payload resp = PAccepted (Order_OrderID o) (Order_MerchantID o)
                                        StatusCancellationPending now
               /\ find_order (store_of s') id
                  = Some (set_Order_UpdatedAt now (set_Order_Status StatusCancellationPending o))
               /\ AuditLogs (store_of s')
                  = AuditLogs (store_of s) ++ [cancel_audit o id c now (audit_actor body)]
               /\ exists ev, OutboxEvents (store_of s') = OutboxEvents (store_of s) ++ [ev]
                    /\ Event_EventType ev = "order.cancel_requested" /\ Event_OrderID ev = id
                    /\ Event_CorrelationID ev = c
           end
  end.

Lemma cancel_after_checks s id act body c o sv' :
  store_ok (store_of s) -> validateCancelActor (audit_actor body) = None ->
  find_order (store_of s) id = Some o -> may_access act o = true ->
  svc_store sv' = store_of s -> svc_ticks sv' = svc_ticks (srv_service s) ->
  ensures (fun s1 => srv_service s1 = sv')
    (then_ (service_or_error renv (CancelOrderContext env id c (audit_actor body)))
       (fun order => writeJSON StatusAccepted []
          (PAccepted (Order_OrderID order) (Order_MerchantID order) (Order_Status order)
             (Order_UpdatedAt order)) : @Handler St L unit))
    (cancel_outcome s id act body c) (fun _ _ => True).
Proof.
  intros Hok Hv Ho Hmay Hst Htick s1 Hs1. rewrite <- Hst in Hok, Ho.
  unfold then_, service_or_error, call_service, cancel_outcome. unfold then_.
  rewrite Hs1, <- Hst, Ho, Hmay, <- Htick. simpl.
  pose proof (cancel_cases env sv' id c (audit_actor body) Hok) as Hc. rewrite Hv, Ho in Hc.
  destruct (CancelOrderContext env id c (audit_actor body) sv') as [res sv2].
  destruct (ValidateOrderTransition _ _) as [e0|].
  - destruct Hc as [(e & -> & Hinv & Hnf & Hdup) Hs2].
    unfold handleCommerceError. rewrite Hnf, Hdup, Hinv. simpl. by rewrite Hs2.
  - destruct Hc as (o' & -> & [_ Ho' Hfound _ (ev & Hout & Ht & Hid & _ & Hcor) Haud]).
    simpl. subst o'. simpl. split_and!; eauto.
Qed.

(** C26: cancellation over HTTP, branch by branch.  For a complete request by an
    authenticated caller: an unknown order is 404, an order of another merchant
    403 (operators reach every order), an order whose status does not allow it
    409, and none of these changes the store; otherwise the answer is 202 with
    the new status, the stored order is pending cancellation, and one
    [order.cancel_requested] event and one audit entry with the actor of the body
    are appended. *)
Theorem cancel_over_http r id act body (s : Srv) :
  asks_cancel r id act body -> store_ok (store_of s) ->
  exists resp s',
    ServeHTTP env cfg limiter renv r s = (inl resp, s')
    /\ cancel_outcome s id act body (correlation_id r s) resp s'.
Proof.
  intros Hask Hok. pose proof (complete_actor_valid _ _ _ _ Hask) as Hv.
  destruct Hask as [Hm Hseg Hp Hc Hb He Hr Ht Hi].
  destruct (serve_run env cfg limiter renv r s) as (resp & s' & Hroute & ->).
  eexists _, _. split; [done|]. rewrite (route_cancel _ _ _ _ r id) in Hroute by done.
  enough (cancel_outcome s id act body (correlation_id r s) resp s') as Hout.
  { unfold cancel_outcome in *. by repeat case_match. }
  unfold Server_cancelOrder in Hroute. unfold then_ at 1 in Hroute.
  rewrite (authenticate_some cfg renv r act (received s) Hc) in Hroute.
  unfold then_ at 1 in Hroute. cbn [set_attributes observe] in Hroute.
  unfold then_ at 1 in Hroute. unfold decodeJSON in Hroute. rewrite Hb, He in Hroute.
  simpl in Hroute. rewrite Hr, Ht, Hi in Hroute. simpl in Hroute.
  unfold then_ at 1 in Hroute. unfold service_or_error at 1 in Hroute.
  unfold then_ at 1, call_service at 1, GetOrderContext at 1, on_store at 1 in Hroute.
  rewrite get_order_law in Hroute. simpl in Hroute.
  destruct (find_order (store_of s) id) as [o|] eqn:Ho; simpl in Hroute.
  2:{ injection Hroute as <- <-. unfold cancel_outcome. by rewrite Ho. }
  unfold then_ at 1, check_tenant in Hroute.
  destruct (may_access act o) eqn:Hmay.
  - assert (Hg : negb (actor_Ops act) && negb (String.eqb (actor_MerchantID act) (Order_MerchantID o))
                 = false) by (by rewrite <- negb_orb; unfold may_access in Hmay; rewrite Hmay).
    rewrite Hg in Hroute. simpl in Hroute.
    match type of Hroute with _ ?s1 = _ =>
      pose proof (cancel_after_checks s id act body (correlation_id r s) o (srv_service s1) Hok Hv Ho Hmay
                    eq_refl eq_refl s1 eq_refl) as Hj end.
    unfold audit_actor in Hj at 1. rewrite Hroute in Hj. exact Hj.
  - assert (Hg : negb (actor_Ops act) && negb (String.eqb (actor_MerchantID act) (Order_MerchantID o))
                 = true) by (by rewrite <- negb_orb; unfold may_access in Hmay; rewrite Hmay).
    rewrite Hg in Hroute. simpl in Hroute. injection Hroute as <- <-.
    unfold cancel_outcome. by rewrite Ho, Hmay.
Qed.

End Tenants.
