(* ===== verification/ApiSamples.v ===== *)
(** Instances of the properties of [ApiFacts]: a server over the in-memory
    store with one merchant, a decoder that knows two bodies, and requests on
    its routes. *)
From S2P Require Import Prelude GoStrings GoStringsFacts GoTime Sha256 Model StateMachine Store.
From S2P Require Import Service MemoryStore MemoryInvariant MemoryLaws MemoryQueries Metrics Telemetry Api ApiFacts.

Definition sample_create : createOrderRequest :=
  mkCreateOrderRequest "ext-2" "USD" (mkCustomerRequest "c1" "a@b.example" "A B")
    (mkAddressRequest "1 Main St" "" "Springfield" "IL" "62701" "US")
    [mkOrderItemRequest "SKU-CHAIR-BLK" 2 (mkMoneyRequest 9450 "USD")]
    (mkPaymentMethodRequest "stripe" "tok_visa").

Definition sample_cancel : cancelOrderRequest := mkCancelOrderRequest "late" "merchant" "mer_1".

Definition sample_claims : opsJWTClaims :=
  mkOpsJWTClaims "ops@hub.example" "hub" [] 1790000000 "" [" ops "].

#[local] Instance sample_json : Json := {|
  decode_create _ body := if String.eqb body "create" then DecodedValue sample_create
                          else DecodedInvalid;
  decode_cancel _ body := if String.eqb body "cancel" then DecodedValue sample_cancel
                          else DecodedInvalid;
  decode_at_end _ _ := true;
  decode_jwt_header _ := Ok {["alg" := JString "HS256"]};
  decode_jwt_fields _ := Ok (sample_claims, Some "orders");
  decode_string text := Ok text;
  decode_strings _ := Err (Text "cannot unmarshal string into a list");
  encode_body _ := Some "{}"
|}.

Definition sample_options : Options :=
  mkOptions {["key-1" := "mer_1"]} "current-secret" [" previous-secret "; ""] "hub" "orders" ""
    [] true 0 true.

Definition sample_cfg : Config := NewServerWithOptions sample_options.

Definition sample_renv : RequestEnv :=
  mkRequestEnv (time_Unix 1780056000) (time_Unix 1780056000) (fun _ => None) (mkMetricsSources None None None)
    (fun body => Z.of_nat (String.length body)) 1500000 (mkSpanContext (Some "4bf92f35") (Some "00f067aa")).

Definition no_limiter : option (string -> M unit bool) := None.

Definition sample_http (method path body : string) (headers : list (string * string))
    : HttpRequest :=
  mkHttpRequest method path
    (fun name => default "" ((list_to_map headers : gmap string string) !! name)) body.

(** The server over the sample store, whose order [ord_1] is of [mer_1]. *)
Definition sample_server : Server MemoryStore unit :=
  mkServer (NewService sample_store) tt 0 0 0 (mkTelemetry new_requestState [] [] []).

Definition post_order : HttpRequest :=
  sample_http "POST" "/api/v1/orders" "create"
    [("X-API-Key", "key-1"); ("Idempotency-Key", "idem-key-0002")].

Definition post_cancel : HttpRequest :=
  sample_http "POST" "/api/v1/orders/ord_1/cancel" "cancel" [("X-API-Key", "key-1")].

Lemma sample_store_orders id o :
  ms_orders sample_store !! id = Some o -> id = "ord_1" /\ o = sample_order.
Proof.
  unfold sample_store, sample_insert, run_op, discard, bind. rewrite insert_run. simpl.
  rewrite !lookup_empty. simpl.
  intros [[<- <-]|[_ Hx]]%lookup_insert_Some; [done|]. by rewrite lookup_empty in Hx.
Qed.

Lemma sample_draws_new : draws_new_id sample_env (srv_service sample_server).
Proof.
  intros id Hd. destruct (find_order _ id) as [o|] eqn:Ho; [|done].
  apply sample_store_orders in Ho as [-> _]. vm_compute in Hd. discriminate Hd.
Qed.

Lemma tenant_isolation_witness :
  exists resp s',
    ServeHTTP sample_env sample_cfg no_limiter sample_renv post_order sample_server = (inl resp, s')
    /\ isolated "mer_1" sample_store (svc_store (srv_service s')) /\ own "mer_1" (resp_payload resp).
Proof.
  apply (tenant_isolation sample_env sample_cfg no_limiter sample_renv post_order "mer_1"
           sample_server).
  - discriminate.
  - reflexivity.
  - reflexivity.
  - exact sample_store_ok.
  - intros id o Ho. apply sample_store_orders in Ho as [_ ->]. reflexivity.
  - exact sample_draws_new.
Defined.

Lemma anonymous_requests_inert_witness :
  exists resp s',
    ServeHTTP sample_env sample_cfg no_limiter sample_renv
      (sample_http "POST" "/api/v1/orders/ord_1/cancel" "cancel" []) sample_server = (inl resp, s')
    /\ (resp_status resp = StatusUnauthorized \/ resp_status resp = StatusNotFound)
    /\ srv_service s' = srv_service sample_server.
Proof.
  destruct (anonymous_requests_inert sample_env sample_cfg no_limiter sample_renv
              (sample_http "POST" "/api/v1/orders/ord_1/cancel" "cancel" []) sample_server)
    as (resp & s' & Hrun & Hsv & _ & _ & Hst).
  - split; reflexivity.
  - exists resp, s'. exact (conj Hrun (conj (Hst eq_refl) Hsv)).
Defined.

(** *** Operator tokens *)

Definition base64_digit (v : Z) : Ascii.ascii :=
  Ascii.ascii_of_nat (Z.to_nat (if v <? 26 then v + 65 else if v <? 52 then v + 71
                                else if v <? 62 then v - 4 else if v =? 62 then 45 else 95)).

Fixpoint base64_encode_bytes (l : list Z) : string :=
  match l with
  | [] => ""
  | [a] => String (base64_digit (a / 4)) (String (base64_digit (a mod 4 * 16)) "")
  | [a; b] => String (base64_digit (a / 4)) (String (base64_digit (a mod 4 * 16 + b / 16))
                (String (base64_digit (b mod 16 * 4)) ""))
  | a :: b :: c :: l =>
      String (base64_digit (a / 4)) (String (base64_digit (a mod 4 * 16 + b / 16))
        (String (base64_digit (b mod 16 * 4 + c / 64))
           (String (base64_digit (c mod 64)) (base64_encode_bytes l))))
  end.

Definition base64_encode (s : string) : string :=
  base64_encode_bytes (map byte_of (String.list_ascii_of_string s)).

(** A token signed under the secret that was rotated out. *)
Definition sample_token : string :=
  "e30.e30." +:+ base64_encode (hmac_sha256 "previous-secret" "e30.e30").

Definition ops_get : HttpRequest :=
  sample_http "GET" "/api/v1/orders/ord_1" "" [("Authorization", "Bearer " +:+ sample_token)].

Lemma sample_token_accepted :
  authenticate sample_cfg sample_renv ops_get sample_server
  = (inr (mkActor "" "ops@hub.example" true),
     observed (with_state (record_actor (mkActor "" "ops@hub.example" true))) sample_server).
Proof. vm_compute. reflexivity. Qed.

Lemma operator_rights_iff_witness :
  valid_ops_token
    (opsJWTSecrets (opt_OpsJWTSecret sample_options) (opt_OpsJWTPreviousSecrets sample_options))
    (TrimSpace (opt_OpsJWTIssuer sample_options)) (TrimSpace (opt_OpsJWTAudience sample_options))
    (renv_now sample_renv) (bearerToken (req_header ops_get "Authorization")) "ops@hub.example".
Proof.
  destruct (operator_rights_iff sample_cfg sample_renv sample_options ops_get sample_server
              "ops@hub.example" eq_refl eq_refl) as [_ [Hv _]].
  destruct (Hv (ex_intro _ _ sample_token_accepted)) as [H|(_ & H & _)].
  - exact H.
  - vm_compute in H. discriminate H.
Defined.

(** *** Submissions and cancellations *)

Lemma post_order_submits :
  submits sample_cfg post_order "mer_1" "idem-key-0002" sample_create.
Proof. split; vm_compute; reflexivity. Qed.


Lemma post_cancel_asks :
  asks_cancel sample_cfg sample_renv post_cancel "ord_1" (mkActor "mer_1" "" false) sample_cancel.
Proof. split; try (vm_compute; reflexivity). split; [discriminate|reflexivity]. Qed.

Lemma cancel_over_http_witness :
  exists resp s',
    ServeHTTP sample_env sample_cfg no_limiter sample_renv post_cancel sample_server = (inl resp, s')
    /\ resp_status resp = StatusAccepted
    /\ option_map Order_Status (find_order (svc_store (srv_service s')) "ord_1")
       = Some StatusCancellationPending.
Proof.
  destruct (cancel_over_http sample_env sample_cfg no_limiter sample_renv post_cancel "ord_1"
              (mkActor "mer_1" "" false) sample_cancel sample_server post_cancel_asks sample_store_ok)
    as (resp & s' & Hrun & Hout).
  exists resp, s'. split; [exact Hrun|].
  unfold cancel_outcome in Hout.
  change (find_order (svc_store (srv_service sample_server)) "ord_1")
    with (ms_orders sample_store !! "ord_1") in Hout.
  rewrite sample_lookup in Hout. simpl in Hout. destruct Hout as (Hs & _ & Hf & _).
  exact (conj Hs (f_equal (option_map Order_Status) Hf)).
Defined.
