(* ===== verification/RequestLog.v ===== *)
(** Properties of what [Api] records about its requests: every request leaves
    one log entry and one span, which name the caller exactly when it was
    authenticated, the status the client was sent and the identifiers of the
    response, and nothing of the credentials or the body. *)
From S2P Require Import Prelude GoStrings GoStringsFacts GoTime Sha256 Model StateMachine Store.
From S2P Require Import Service MemoryStore MemoryQueries Metrics Telemetry Api ApiFacts ApiSamples.

(** ** The names of spans *)

(** A span on an order or shipment route is named by the route, not by the
    identifier in its path. *)
Theorem span_name_by_route r id :
  segment id ->
  (req_path r = "/api/v1/orders/" +:+ id ->
   routeSpanName r = req_method r +:+ " /api/v1/orders/{orderId}")
  /\ (req_path r = "/api/v1/orders/" +:+ id +:+ "/cancel" ->
      routeSpanName r = req_method r +:+ " /api/v1/orders/{orderId}/cancel")
  /\ (req_path r = "/api/v1/shipments/" +:+ id ->
      routeSpanName r = req_method r +:+ " /api/v1/shipments/{shipmentId}").
Proof.
  intros Hs. destruct (order_route_complete id Hs) as [Hget Hcancel].
  unfold routeSpanName. split_and!; intros Hp; rewrite Hp.
  - rewrite Hget, has_prefix_app. by rewrite !andb_false_r.
  - rewrite Hcancel, has_prefix_app. by rewrite !andb_false_r.
  - unfold shipmentRouteMatch. rewrite (proj2 (cut_prefix_app _ _ id) eq_refl), has_prefix_app.
    destruct Hs as [Hne Hc]. apply String.eqb_neq in Hne. rewrite Hne, Hc. by rewrite !andb_false_r.
Qed.

(** ** The status that was sent *)

(** What the recorder can say of a response: an answered one has a status, and
    the metrics page at least one line. *)
Definition answered (resp : Response) : Prop :=
  match resp_payload resp with
  | PAborted => True
  | PMetrics lines => resp_status resp = StatusOK /\ lines <> []
  | _ => resp_status resp <> 0
  end.

(** The status of the log: what the client was sent, and 200 when the handler
    panicked before it sent anything. *)
Definition logged_status (resp : Response) : Z :=
  match resp_payload resp with PAborted => StatusOK | _ => resp_status resp end.

(** The bodies written for a response. *)
Definition written {J : Json} (resp : Response) : list string :=
  omap (fun c => match c with CallWrite body => Some body | CallWriteHeader _ => None end)
    (response_calls resp).

Lemma written_bytes taken cs :
  foldr Z.add 0 (map (bytes_taken taken) cs)
  = foldr Z.add 0 (map taken
      (omap (fun c => match c with CallWrite body => Some body | CallWriteHeader _ => None end) cs)).
Proof. induction cs as [|[st|body] cs IH]; simpl; [done|by rewrite IH..]. Qed.

Lemma direct_writes_status bodies w :
  rw_status w = Some StatusOK \/ rw_status w = None /\ bodies <> [] ->
  rw_status (fold_left direct_call (map CallWrite bodies) w) = Some StatusOK.
Proof.
  revert w. induction bodies as [|b bodies IH]; simpl; intros w [Hw|[Hw Hne]]; try done;
    apply IH; left; simpl; by rewrite Hw.
Qed.

Lemma recorded_response `{J : Json} taken resp :
  answered resp ->
  let r := record_calls taken (response_calls resp) in
  (if rec_status r =? 0 then StatusOK else rec_status r) = logged_status resp
  /\ rec_bytes r = wrap64 (foldr Z.add 0 (map taken (written resp))).
Proof.
  intros Ha.
  assert (Hcalls : Forall sends_status (response_calls resp)
            /\ let sent := rw_status (fold_left direct_call (response_calls resp)
                                        (mkResponseWriter None [])) in
               (if default 0 sent =? 0 then StatusOK else default 0 sent) = logged_status resp).
  { unfold response_calls, answered, logged_status in *. destruct (resp_payload resp).
    7:{ destruct Ha as [-> Hne].
        rewrite <- (map_map (fun line => line +:+ String line_feed "") CallWrite). split.
        - by apply Forall_forall; intros c (? & -> & _)%list_elem_of_fmap.
        - rewrite direct_writes_status; [done|]. right. split; [done|]. by destruct lines. }
    7:{ done. }
    all: destruct (encode_body resp); simpl; apply Z.eqb_neq in Ha as Hz; rewrite Hz; by repeat constructor. }
  destruct Hcalls as [Hcs Hst].
  destruct (recorder_transparent taken _ Hcs) as (Hw & Hs & Hb). simpl in *.
  rewrite Hs, Hw, Hb, written_bytes. by split.
Qed.

(** ** The caller that is recorded *)

Section Requests.
Context {St L : Type} `{Store St} {J : Json}.
Variable env : Env.
Variable cfg : Config.
Variable limiter : option (string -> M L bool).
Variable renv : RequestEnv.

Notation Srv := (Server St L).

(** The routes on which [authenticate] decides who is calling. *)
Definition authenticated_route (r : HttpRequest) : bool :=
  match orderRouteMatch (req_path r) with
  | Some (_, action) =>
      String.eqb action "cancel" && String.eqb (req_method r) "POST"
      || String.eqb action "" && String.eqb (req_method r) "GET"
  | None => String.eqb (req_method r) "GET" && bool_decide (is_Some (shipmentRouteMatch (req_path r)))
  end.

Definition scraper_state (r : HttpRequest) : requestState :=
  if negb (String.eqb (cfg_metricsToken cfg) "")
     && String.eqb (bearerToken (req_header r "Authorization")) (cfg_metricsToken cfg)
  then mkRequestState "metrics" "prometheus" "" else new_requestState.

Definition merchant_state (r : HttpRequest) : requestState :=
  match cfg_apiKeys cfg !! req_header r "X-API-Key" with
  | Some m => mkRequestState "merchant" m m
  | None => new_requestState
  end.

Definition caller_state (r : HttpRequest) : requestState :=
  match caller cfg renv r with
  | Some act => record_actor act new_requestState
  | None => new_requestState
  end.

(** Whom a request identifies itself as, on the routes where that counts: the
    scraper on the metrics page where it needs a token, the merchant of the API
    key on submissions, the caller on orders and shipments, and nobody else. *)
Definition identity (r : HttpRequest) : requestState :=
  if String.eqb (req_method r) "GET" && String.eqb (req_path r) "/metrics" then
    scraper_state r
  else if String.eqb (req_method r) "POST" && String.eqb (req_path r) "/api/v1/orders" then
    merchant_state r
  else if authenticated_route r then
    caller_state r
  else new_requestState.

(** Nothing was logged since [t0], and [who] is recorded as the caller. *)
Definition names (t0 : Telemetry) (who : requestState) (s : Srv) : Prop :=
  tel_state (srv_telemetry s) = who /\ tel_log (srv_telemetry s) = tel_log t0
  /\ tel_spans (srv_telemetry s) = tel_spans t0.

(** The handler answers with [who] recorded, or goes on with it recorded. *)
Definition keeps {A} (t0 : Telemetry) (who : requestState) (h : @Handler St L A) : Prop :=
  ensures (names t0 who) h (fun resp s => names t0 who s /\ answered resp)
    (fun _ => names t0 who).

(** From nobody, the handler answers with [who] recorded. *)
Definition identifies (t0 : Telemetry) (who : requestState) (h : @Handler St L unit) : Prop :=
  ensures (names t0 new_requestState) h (fun resp s => names t0 who s /\ answered resp)
    (fun _ _ => True).

Lemma keeps_ensures {A} t0 who (h : @Handler St L A) :
  keeps t0 who h ->
  ensures (names t0 who) h (fun resp s => names t0 who s /\ answered resp) (fun _ _ => True).
Proof. intros Hk s Hs. specialize (Hk s Hs). by repeat case_match. Qed.

Lemma commerce_status_nonzero e : commerce_status e <> 0.
Proof. unfold commerce_status. destruct (error_as_validation e); [done|]. by repeat case_match. Qed.

Ltac keep :=
  lazymatch goal with
  | |- keeps _ _ (then_ _ _) => apply ensures_steps; [|intros ?]
  | |- ensures _ (then_ _ _) _ _ => apply ensures_steps; [|intros ?]
  | |- ensures _ (service_or_error _ _) _ _ =>
      apply ensures_service; [done|]; intros; split; [done|apply commerce_status_nonzero]
  | |- ensures _ (allowWrite _ _ _) _ _ =>
      apply ensures_allow; [done..|]; intros; split; [done|]; by case_match
  | |- ensures _ (decodeJSON _ _ _ _) _ _ =>
      apply ensures_decode; [done|]; intros ? ? ? ? ? Hin; split; [done|];
      rewrite list_elem_of_In in Hin; simpl in Hin; unfold answered; simpl; naive_solver
  | |- ensures _ (check_tenant _ _ _ _) _ _ => by apply ensures_tenant
  | |- ensures _ (goes _) _ _ => by apply ensures_goes
  | |- ensures _ (set_attributes _) _ _ => by apply ensures_observe
  | |- ensures _ (replies _) _ _ => by intros ? ?
  | |- ensures _ (writeError _ _ _ _ _ _) _ _ => by apply ensures_error
  | |- ensures _ (writeJSON _ _ _) _ _ => by apply ensures_json
  | |- ensures _ _ _ _ => case_match
  end.

(** A handler behind [authenticate] that leaves the recorded caller alone. *)
Lemma authenticated_names t0 r (k : actor -> @Handler St L unit) :
  (forall act who, keeps t0 who (k act)) ->
  identifies t0 (caller_state r) (then_ (authenticate cfg renv r) k).
Proof.
  intros Hk s Hs. unfold caller_state. destruct (caller cfg renv r) as [act|] eqn:Hc.
  - unfold then_. rewrite (authenticate_some cfg renv r act s Hc).
    specialize (Hk act (record_actor act new_requestState)).
    apply keeps_ensures in Hk. apply Hk.
    destruct Hs as (E & ? & ?). split; [simpl; by rewrite E|done].
  - eapply (ensures_stop (names t0 new_requestState)); [|exact Hs].
    apply authenticate_none; [done|]. done.
Qed.

Lemma create_names t0 r c :
  identifies t0 (merchant_state r) (Server_createOrder env cfg limiter renv r c).
Proof.
  unfold identifies, Server_createOrder, merchant_state.
  destruct (cfg_apiKeys cfg !! _) as [m|] eqn:Hk.
  - apply (ensures_then _ _ _ _ (fun _ => names t0 (mkRequestState "merchant" m m))).
    { apply (ensures_merchant cfg renv r m); [done|]. by intros s (? & ? & ?). }
    intros act. apply keeps_ensures. repeat keep.
  - apply ensures_stop. unfold authenticateMerchant, bad_key. rewrite Hk. by apply ensures_error.
Qed.

Lemma metrics_names t0 r :
  identifies t0 (scraper_state r)
    (then_ (authorizeMetrics cfg renv r) (fun _ => writeMetrics renv)).
Proof.
  intros s Hs. unfold then_, authorizeMetrics, scraper_state.
  destruct (String.eqb (cfg_metricsToken cfg) ""); simpl; [done|].
  destruct (String.eqb (bearerToken _) _); simpl; [|done].
  destruct Hs as (E & ? & ?). split; [split; [simpl; by rewrite E|done]|done].
Qed.

Lemma unidentified_names t0 (h : @Handler St L unit) :
  keeps t0 new_requestState h -> identifies t0 new_requestState h.
Proof. apply keeps_ensures. Qed.

Lemma order_route_prefix path x :
  orderRouteMatch path = Some x -> HasPrefix path "/api/v1/orders/" = true.
Proof.
  destruct x as [id action]. intros [_ [[_ ->]|[_ ->]]]%order_route_sound; apply has_prefix_app.
Qed.

Lemma shipment_route_prefix path x :
  shipmentRouteMatch path = Some x -> HasPrefix path "/api/v1/shipments/" = true.
Proof.
  unfold shipmentRouteMatch. destruct (CutPrefix path _) eqn:E; [|done].
  apply cut_prefix_app in E as ->. intros _. apply has_prefix_app.
Qed.

Lemma orders_not_shipments path :
  HasPrefix path "/api/v1/orders/" = true -> shipmentRouteMatch path = None.
Proof.
  unfold HasPrefix, shipmentRouteMatch. destruct (CutPrefix path "/api/v1/orders/") eqn:E; [|done].
  apply cut_prefix_app in E as ->. done.
Qed.

(** The order routes end in the handlers behind [authenticate]. *)
Lemma order_names t0 r c id action :
  orderRouteMatch (req_path r) = Some (id, action) ->
  identifies t0 (if authenticated_route r then caller_state r else new_requestState)
    (orderRoute env cfg renv r id action c).
Proof.
  intros E. unfold authenticated_route, orderRoute. rewrite E.
  destruct (String.eqb action "cancel" && _); simpl.
  { apply authenticated_names. intros act who. repeat keep. }
  destruct (String.eqb action "" && _); simpl.
  { apply authenticated_names. intros act who. repeat keep. }
  by apply ensures_error.
Qed.

Lemma get_shipment_names t0 r id :
  identifies t0 (caller_state r) (Server_getShipment cfg renv r id).
Proof. apply authenticated_names. intros act who. repeat keep. Qed.

(** The probes identify nobody. *)
Lemma probe_identity r path :
  path ∈ ["/healthz"; "/readyz"] -> req_path r = path -> identity r = new_requestState.
Proof.
  intros Hp E. unfold identity, authenticated_route. rewrite E.
  rewrite list_elem_of_In in Hp. destruct Hp as [<-|[<-|[]]];
    by rewrite ?andb_false_r.
Qed.

Lemma readiness_keeps t0 who : keeps t0 who (writeReadiness cfg renv : @Handler St L unit).
Proof.
  unfold keeps, writeReadiness. destruct (omap _ _); [by apply ensures_json|by apply ensures_error].
Qed.

Lemma route_names t0 r c : identifies t0 (identity r) (route env cfg limiter renv r c).
Proof.
  unfold route.
  destruct (String.eqb (req_method r) "GET" && String.eqb (req_path r) "/healthz") eqn:E1.
  { apply andb_true_iff in E1 as [_ E%String.eqb_eq]. rewrite (probe_identity r "/healthz") by set_solver.
    by apply ensures_json. }
  destruct (String.eqb (req_method r) "GET" && String.eqb (req_path r) "/readyz") eqn:E2.
  { apply andb_true_iff in E2 as [_ E%String.eqb_eq]. rewrite (probe_identity r "/readyz") by set_solver.
    apply keeps_ensures, readiness_keeps. }
  unfold identity. destruct (_ && String.eqb (req_path r) "/metrics") eqn:E3; [apply metrics_names|].
  destruct (_ && String.eqb (req_path r) "/api/v1/orders") eqn:E4; [apply create_names|].
  destruct (HasPrefix (req_path r) "/api/v1/orders/") eqn:E5.
  { destruct (orderRouteMatch (req_path r)) as [[id action]|] eqn:Em; [by apply order_names|].
    unfold authenticated_route. rewrite Em, (orders_not_shipments _ E5), andb_false_r.
    by apply ensures_error. }
  unfold authenticated_route. destruct (orderRouteMatch (req_path r)) as [x|] eqn:Em.
  { apply order_route_prefix in Em. congruence. }
  destruct (String.eqb (req_method r) "GET"); simpl; [|by apply ensures_error].
  destruct (HasPrefix (req_path r) "/api/v1/shipments/") eqn:E6.
  - destruct (shipmentRouteMatch (req_path r)) as [id|]; simpl; [apply get_shipment_names|].
    by apply ensures_error.
  - destruct (shipmentRouteMatch (req_path r)) eqn:Es; [|by apply ensures_error].
    apply shipment_route_prefix in Es. congruence.
Qed.

(** ** The attributes the handlers set *)

Definition attributes (s : Srv) : list Attr := tel_attributes (srv_telemetry s).

(** Of an accepted submission: the order it names and whether it was replayed. *)
Definition accepted_attrs (resp : Response) : list Attr :=
  match resp_payload resp with
  | PAccepted orderID _ _ _ =>
      [("fulfillhub.order_id", AttrString orderID);
       ("fulfillhub.idempotent_replay",
          AttrBool (bool_decide (("X-Idempotent-Replay", "true") ∈ resp_headers resp)))]
  | _ => []
  end.

(** Of a shipment that was found in the store. *)
Definition shipment_attrs (id : string) (sv : Service St) : list Attr :=
  match fst (GetShipmentContext id sv) with
  | Ok shipment => [("fulfillhub.order_id", AttrString (ShipmentRecord_OrderID shipment));
                    ("fulfillhub.merchant_id", AttrString (ShipmentRecord_MerchantID shipment))]
  | Err _ => []
  end.

(** What the span of a request may say besides the request itself: the merchant
    of the API key, the identifiers in the path, in the accepted answer and in the
    stored shipment, and the operation; nothing at all without authentication. *)
Definition handler_attrs (sv : Service St) (r : HttpRequest) (resp : Response) : list Attr :=
  if String.eqb (req_method r) "POST" && String.eqb (req_path r) "/api/v1/orders" then
    match cfg_apiKeys cfg !! req_header r "X-API-Key" with
    | Some m => [("fulfillhub.merchant_id", AttrString m);
                 ("fulfillhub.operation", AttrString "create_order")] ++ accepted_attrs resp
    | None => []
    end
  else if authenticated_route r && bool_decide (is_Some (caller cfg renv r)) then
    match orderRouteMatch (req_path r), shipmentRouteMatch (req_path r) with
    | Some (id, action), _ =>
        [("fulfillhub.order_id", AttrString id);
         ("fulfillhub.operation",
            AttrString (if String.eqb action "cancel" then "cancel_order" else "get_order"))]
    | None, Some id =>
        [("fulfillhub.shipment_id", AttrString id);
         ("fulfillhub.operation", AttrString "get_shipment")] ++ shipment_attrs id sv
    | None, None => []
    end
  else [].

(** The span holds [a] so far. *)
Definition holds (a : list Attr) (s : Srv) : Prop := attributes s = a.

Lemma holds_set {A} attrs a (k : unit -> @Handler St L A) R Q :
  ensures (holds (a ++ attrs)) (k tt) R Q -> ensures (holds a) (then_ (set_attributes attrs) k) R Q.
Proof. intros Hk s Hs. apply Hk. unfold holds, attributes in *. simpl. by rewrite Hs. Qed.

(** A step whose value is known. *)
Lemma ensures_value {A B} (a0 : A) P P' (h : @Handler St L A) (k : A -> @Handler St L B) R Q :
  ensures P h R (fun a s => a = a0 /\ P' s) -> ensures P' (k a0) R Q -> ensures P (then_ h k) R Q.
Proof.
  intros Hh Hk. apply (ensures_then _ _ _ _ _ _ Hh). intros a s [-> Hs]. by apply Hk.
Qed.

Lemma ensures_pure {A} (phi : Prop) P (h : @Handler St L A) R Q :
  (phi -> ensures P h R Q) -> ensures (fun s => P s /\ phi) h R Q.
Proof. intros Hh s [Hs Hp]. by apply Hh. Qed.

Lemma ensures_both {A} P P' (h : @Handler St L A) R R' Q Q' :
  ensures P h R Q -> ensures P' h R' Q' ->
  ensures (fun s => P s /\ P' s) h (fun resp s => R resp s /\ R' resp s)
    (fun a s => Q a s /\ Q' a s).
Proof. intros H1 H2 s [Hs Hs']. specialize (H1 s Hs). specialize (H2 s Hs'). by repeat case_match. Qed.

Ltac hold :=
  lazymatch goal with
  | |- ensures _ (then_ (set_attributes _) _) _ _ => apply holds_set; simpl
  | |- ensures _ (then_ _ _) _ _ => apply ensures_steps; [|intros ?]
  | |- ensures _ (service_or_error _ _) _ _ => apply ensures_service; done
  | |- ensures _ (allowWrite _ _ _) _ _ => apply ensures_allow; done
  | |- ensures _ (decodeJSON _ _ _ _) _ _ => apply ensures_decode; done
  | |- ensures _ (check_tenant _ _ _ _) _ _ => apply ensures_tenant; done
  | |- ensures _ (replies _) _ _ => by intros ? ?
  | |- ensures _ (writeError _ _ _ _ _ _) _ _ => by apply ensures_error
  | |- ensures _ (writeJSON _ _ _) _ _ => by apply ensures_json
  | |- ensures _ _ _ _ => case_match
  end.

Lemma create_holds r c :
  ensures (holds []) (Server_createOrder env cfg limiter renv r c)
    (fun resp s =>
       attributes s = match cfg_apiKeys cfg !! req_header r "X-API-Key" with
                      | Some m => [("fulfillhub.merchant_id", AttrString m);
                                   ("fulfillhub.operation", AttrString "create_order")]
                                  ++ accepted_attrs resp
                      | None => []
                      end) (fun _ _ => True).
Proof.
  unfold Server_createOrder. destruct (cfg_apiKeys cfg !! _) as [m|] eqn:Hk.
  - apply (ensures_value (mkActor m "" false) _ (holds [])).
    { apply (ensures_merchant cfg renv r m); [done|]. by intros s Hs. }
    repeat hold. apply ensures_json. intros s Hs. unfold accepted_attrs, holds in *. simpl.
    by destruct b.
  - apply ensures_stop. unfold authenticateMerchant, bad_key. rewrite Hk. by apply ensures_error.
Qed.

(** A handler behind [authenticate], for the caller or for nobody. *)
Lemma authenticated_holds {A} P r (k : actor -> @Handler St L A) (R : Response -> Srv -> Prop) :
  (forall s f, P s -> P (observed (with_state f) s)) -> (forall s, P s -> P (error_counted s)) ->
  (caller cfg renv r = None -> forall resp s, P s -> R resp s) ->
  (forall act, caller cfg renv r = Some act -> ensures P (k act) R (fun _ _ => True)) ->
  ensures P (then_ (authenticate cfg renv r) k) R (fun _ _ => True).
Proof.
  intros Hf He Hn Hk. destruct (caller cfg renv r) as [act|] eqn:Hc.
  - intros s Hs. unfold then_. rewrite (authenticate_some cfg renv r act s Hc).
    by apply Hk; auto.
  - apply ensures_stop, authenticate_none; [done|]. intros. apply Hn; auto.
Qed.

Lemma order_holds r c id action :
  orderRouteMatch (req_path r) = Some (id, action) ->
  ensures (holds []) (orderRoute env cfg renv r id action c)
    (fun resp s =>
       attributes s
       = if authenticated_route r && bool_decide (is_Some (caller cfg renv r)) then
           [("fulfillhub.order_id", AttrString id);
            ("fulfillhub.operation",
               AttrString (if String.eqb action "cancel" then "cancel_order" else "get_order"))]
         else []) (fun _ _ => True).
Proof.
  intros E. unfold orderRoute, authenticated_route. rewrite E.
  destruct (String.eqb_spec action "cancel") as [->|Hne]; simpl;
    [|destruct (String.eqb_spec action "") as [->|]; simpl; [|by apply ensures_error]].
  all: destruct (String.eqb (req_method r) _); simpl; [|by apply ensures_error].
  all: apply authenticated_holds; [done|done|by intros ->|].
  all: intros act ->; repeat hold.
Qed.

Lemma shipment_holds sv r id :
  ensures (fun s => holds [] s /\ srv_service s = sv) (Server_getShipment cfg renv r id)
    (fun resp s =>
       attributes s
       = if bool_decide (is_Some (caller cfg renv r)) then
           [("fulfillhub.shipment_id", AttrString id);
            ("fulfillhub.operation", AttrString "get_shipment")] ++ shipment_attrs id sv
         else []) (fun _ _ => True).
Proof.
  apply authenticated_holds; [done|done|by intros -> resp s []|].
  intros act ->. simpl. set (a := [_; _]).
  apply (ensures_then _ _ _ _ (fun _ s => holds a s /\ srv_service s = sv)).
  { apply ensures_observe. intros s [Hs ?]. split; [|done].
    unfold holds, attributes in *. simpl. by rewrite Hs. }
  intros _.
  apply (ensures_then _ _ _ _ (fun sh s => holds a s /\ fst (GetShipmentContext id sv) = Ok sh)).
  { apply ensures_service.
    - intros s sh sv' [Hs <-] E. by rewrite E.
    - intros s e sv' ? ? ? ? [Hs <-] E. unfold shipment_attrs. by rewrite E. }
  intros shipment. apply ensures_pure. intros E. unfold shipment_attrs. rewrite E. repeat hold.
Qed.

Lemma route_holds sv r c :
  ensures (fun s => holds [] s /\ srv_service s = sv) (route env cfg limiter renv r c)
    (fun resp s => attributes s = handler_attrs sv r resp) (fun _ _ => True).
Proof.
  unfold route, handler_attrs.
  destruct (_ && String.eqb (req_path r) "/healthz") eqn:E1.
  { apply andb_true_iff in E1 as [_ E%String.eqb_eq]. unfold authenticated_route. rewrite E.
    rewrite !andb_false_r. by apply ensures_json; intros s []. }
  destruct (_ && String.eqb (req_path r) "/readyz") eqn:E2.
  { apply andb_true_iff in E2 as [_ E%String.eqb_eq]. unfold authenticated_route. rewrite E.
    rewrite !andb_false_r. unfold writeReadiness.
    by destruct (omap _ _); [apply ensures_json|apply ensures_error]; intros s []. }
  destruct (_ && String.eqb (req_path r) "/metrics") eqn:E3.
  { apply andb_true_iff in E3 as [_ E%String.eqb_eq]. unfold authenticated_route. rewrite E.
    rewrite !andb_false_r. intros s [Hs _]. unfold then_, authorizeMetrics.
    destruct (String.eqb (cfg_metricsToken cfg) ""); [done|]. by destruct (String.eqb (bearerToken _) _). }
  destruct (_ && String.eqb (req_path r) "/api/v1/orders") eqn:E4.
  { intros s [Hs _]. by apply create_holds. }
  destruct (HasPrefix (req_path r) "/api/v1/orders/") eqn:E5.
  { destruct (orderRouteMatch (req_path r)) as [[id action]|] eqn:Em.
    - intros s [Hs _]. by apply order_holds.
    - unfold authenticated_route. rewrite Em, (orders_not_shipments _ E5), andb_false_r.
      by apply ensures_error; intros s []. }
  unfold authenticated_route. destruct (orderRouteMatch (req_path r)) as [x|] eqn:Em.
  { apply order_route_prefix in Em. congruence. }
  destruct (String.eqb (req_method r) "GET"); simpl; [|by apply ensures_error; intros s []].
  destruct (HasPrefix (req_path r) "/api/v1/shipments/") eqn:E6.
  - destruct (shipmentRouteMatch (req_path r)) as [id|]; simpl; [apply shipment_holds|].
    by apply ensures_error; intros s [].
  - destruct (shipmentRouteMatch (req_path r)) eqn:Es; [|by apply ensures_error; intros s []].
    apply shipment_route_prefix in Es. congruence.
Qed.

(** The identifiers added to a response do not count. *)
Lemma accepted_stamped requestID correlationID resp :
  accepted_attrs resp = accepted_attrs (stamp requestID correlationID resp).
Proof.
  unfold accepted_attrs, stamp. simpl. destruct (resp_payload resp); try done.
  do 4 f_equal. apply bool_decide_ext. set_solver.
Qed.

(** C40: every request is logged and traced once, without its credentials.  With
    a logger, a request adds exactly one entry.  Its status is the one the client
    was sent; when a handler panics, nothing was sent and the entry says 200.  Its
    level follows the status (error from 500, warning from 400), its identifiers
    are those of the response's headers, its byte count is what the connection
    took of the body, and it names the caller exactly when the request was
    authenticated.  The request also ends exactly one span, named by its route,
    with the same status, identifiers and caller, and an error status from 500.
    Entry and span hold nothing else than what is listed: method, path, the
    identifiers, and on the span the operation and the identifiers of the path, of
    the accepted order and of the stored shipment; so neither holds an API key, a
    token or anything of the body. *)
Theorem request_observed r (s : Srv) :
  exists resp s' headers status,
    let requestID := request_id r s in
    let correlationID := correlation_id r s in
    ServeHTTP env cfg limiter renv r s = (inl resp, s')
    /\ (resp_payload resp <> PAborted -> status = resp_status resp)
    /\ (resp_payload resp = PAborted -> status = 200)
    /\ resp_headers resp
       = ("X-Request-Id", requestID) :: ("X-Correlation-Id", correlationID) :: headers
    /\ tel_log (srv_telemetry s')
       = tel_log (srv_telemetry s)
         ++ (if cfg_logger cfg then
               [mkLogEntry
                  (if 500 <=? status then LevelError else if 400 <=? status then LevelWarn
                   else LevelInfo) "http_request"
                  ([("method", AttrString (req_method r)); ("path", AttrString (req_path r));
                    ("status", AttrInt status);
                    ("response_bytes",
                       AttrInt (wrap64 (foldr Z.add 0 (map (renv_taken renv) (written resp)))));
                    ("duration_ms", AttrMillis (Z.quot (renv_duration renv) 1000));
                    ("request_id", AttrString requestID);
                    ("correlation_id", AttrString correlationID)]
                   ++ state_attrs "" (identity r)
                   ++ attr_if_some "trace_id" (sc_TraceID (renv_span renv))
                   ++ attr_if_some "span_id" (sc_SpanID (renv_span renv)))]
             else [])
    /\ tel_spans (srv_telemetry s')
       = tel_spans (srv_telemetry s)
         ++ [mkSpan (routeSpanName r)
               (handler_attrs (srv_service s) r resp
                ++ [("http.request.method", AttrString (req_method r));
                    ("url.path", AttrString (req_path r));
                    ("http.response.status_code", AttrInt status);
                    ("fulfillhub.request_id", AttrString requestID);
                    ("fulfillhub.correlation_id", AttrString correlationID)]
                ++ state_attrs "fulfillhub." (identity r))
               (if 500 <=? status then Some (StatusText status) else None)].
Proof.
  destruct (serve_ensures env cfg limiter renv
              (fun s1 => names (srv_telemetry s) new_requestState s1
                         /\ holds [] s1 /\ srv_service s1 = srv_service s)
              (fun resp s' => (names (srv_telemetry s) (identity r) s' /\ answered resp)
                              /\ attributes s' = handler_attrs (srv_service s) r resp) r s)
    as (resp & s' & Hrun & ((Hwho & Hlog & Hspans) & Ha) & Hat); [|done|].
  { intros c s1 Hs1. pose proof (ensures_both _ _ _ _ _ _ _ (route_names (srv_telemetry s) r c)
      (route_holds (srv_service s) r c) s1 Hs1). by repeat case_match. }
  set (resp' := stamp _ _ resp) in *.
  assert (Hat' : attributes s' = handler_attrs (srv_service s) r resp')
    by (rewrite Hat; unfold handler_attrs; 
        by rewrite (accepted_stamped (request_id r s) (correlation_id r s) resp)).
  destruct (recorded_response (renv_taken renv) resp' Ha) as [Hst Hb].
  eexists resp', _, _, (logged_status resp'). split; [exact Hrun|].
  split. { unfold logged_status. by destruct (resp_payload resp'). }
  split. { unfold logged_status. by intros ->. }
  split; [done|].
  unfold observed, finished, end_telemetry, logRequest, request_level.
  cbn [srv_telemetry tel_log tel_spans]. fold (attributes s').
  rewrite Hwho, Hlog, Hspans, Hst, Hb, Hat'. split; [by destruct (cfg_logger cfg)|done].
Qed.

End Requests.

(** ** Samples *)

#[local] Existing Instance sample_json.

(** A submission that is refused for its key is logged as a warning that names
    nobody; one that is accepted names its merchant. *)
Example refused_submission_logged :
  let refused := sample_http "POST" "/api/v1/orders" "create"
                   [("X-API-Key", "guess"); ("X-Request-Id", "r-1")] in
  map (fun e => (log_level e, nth_error (log_attrs e) 2, skipn 7 (log_attrs e)))
    (tel_log (srv_telemetry (snd (ServeHTTP sample_env sample_cfg no_limiter sample_renv refused
                                    sample_server))))
  = [(LevelWarn, Some ("status", AttrInt 401),
      [("trace_id", AttrString "4bf92f35"); ("span_id", AttrString "00f067aa")])].
Proof. vm_compute. reflexivity. Qed.

Example accepted_submission_logged :
  map (fun e => (log_level e, firstn 5 (skipn 2 (log_attrs e)), firstn 3 (skipn 7 (log_attrs e))))
    (tel_log (srv_telemetry (snd (ServeHTTP sample_env sample_cfg no_limiter sample_renv post_order
                                    sample_server))))
  = [(LevelInfo,
      [("status", AttrInt 202); ("response_bytes", AttrInt 2); ("duration_ms", AttrMillis 1500);
       ("request_id", AttrString "req_000000000001");
       ("correlation_id", AttrString "req_000000000001")],
      [("actor_type", AttrString "merchant"); ("actor_id", AttrString "mer_1");
       ("merchant_id", AttrString "mer_1")])].
Proof. vm_compute. reflexivity. Qed.
