(* ===== verification/Settings.v ===== *)
(** The settings of the commands ([cmd/*/main.go]) and of tracing: how they
    read the environment, what they refuse, and how the API process assembles
    its server from them.

    What the process asks of the outside while it starts (open the database,
    migrate, dial the broker, reach Redis, listen) is a record of outcomes. *)
From S2P Require Import Prelude GoStrings GoStringsFacts GoTime GoDuration Model Topology.
From S2P Require Import Service Api.

Section Settings.
Variable getenv : string -> string.

(** ** [cmd/fulfillhub-api] *)

Definition boolEnv (key : string) : result bool :=
  let value := TrimSpace (getenv key) in
  if String.eqb value "" then Ok false
  else match ParseBool value with
       | None => Err (Text (key +:+ " must be a boolean"))
       | Some parsed => Ok parsed
       end.

Definition rateLimitPerMinute : result Z :=
  let value := TrimSpace (getenv "RATE_LIMIT_PER_MINUTE") in
  if String.eqb value "" then Ok 120
  else match ParseInt value with
       | Some limit => if limit <=? 0
                       then Err (Text "RATE_LIMIT_PER_MINUTE must be a positive integer")
                       else Ok limit
       | None => Err (Text "RATE_LIMIT_PER_MINUTE must be a positive integer")
       end.

Definition durableStoreConfig : result (string * bool) :=
  let databaseURL := TrimSpace (getenv "DATABASE_URL") in
  match boolEnv "ALLOW_IN_MEMORY_STORE" with
  | Err e => Err e
  | Ok allowInMemory =>
      if String.eqb databaseURL "" && negb allowInMemory
      then Err (Text "DATABASE_URL is required unless ALLOW_IN_MEMORY_STORE=true")
      else Ok (databaseURL, allowInMemory)
  end.

(** One entry of [MERCHANT_API_KEYS]: skipped when blank. *)
Definition add_api_key (keys : gmap string string) (part : string)
    : result (gmap string string) :=
  let part := TrimSpace part in
  if String.eqb part "" then Ok keys else
  let '(apiKey, merchantID, ok) := Cut part "="%char in
  let apiKey := TrimSpace apiKey in
  let merchantID := TrimSpace merchantID in
  if negb ok || String.eqb apiKey "" || String.eqb merchantID ""
  then Err (Text "MERCHANT_API_KEYS must use api_key=merchant_id pairs separated by commas")
  else Ok (<[apiKey := merchantID]> keys).

Fixpoint add_api_keys (keys : gmap string string) (parts : list string)
    : result (gmap string string) :=
  match parts with
  | [] => Ok keys
  | part :: parts => match add_api_key keys part with
                     | Err e => Err e
                     | Ok keys => add_api_keys keys parts
                     end
  end.

(** A nil map and an empty one are alike to the caller. *)
Definition merchantAPIKeys : result (gmap string string) :=
  let value := TrimSpace (getenv "MERCHANT_API_KEYS") in
  if String.eqb value "" then Ok ∅
  else match add_api_keys ∅ (Split value ","%char) with
       | Err e => Err e
       | Ok keys => if Nat.eqb (size keys) 0
                    then Err (Text "MERCHANT_API_KEYS must contain at least one api_key=merchant_id pair")
                    else Ok keys
       end.

Definition splitCSV (value : string) : list string :=
  filter (fun part => part <> "") (map TrimSpace (Split value ","%char)).

(** ** [cmd/fulfillhub-worker] *)

Record WorkerSettings := mkWorkerSettings {
  worker_databaseURL : string;
  worker_rabbitURL : string;
  worker_queue : string;
  worker_consumerName : string
}.

Definition worker_loadSettings : result WorkerSettings :=
  let databaseURL := getenv "DATABASE_URL" in
  let rabbitURL := getenv "RABBITMQ_URL" in
  let queue := getenv "WORKER_QUEUE" in
  let consumerName := getenv "CONSUMER_NAME" in
  if String.eqb databaseURL "" then Err (Text "DATABASE_URL is required")
  else if String.eqb rabbitURL "" then Err (Text "RABBITMQ_URL is required")
  else
    let queue := if String.eqb queue "" then InventoryReserveQueue else queue in
    let consumerName := if String.eqb consumerName "" then queue else consumerName in
    Ok (mkWorkerSettings databaseURL rabbitURL queue consumerName).

(** ** [cmd/fulfillhub-migrate] *)

Record MigrateSettings := mkMigrateSettings {
  migrate_databaseURL : string;
  migrate_timeout : Duration
}.

Definition migrate_loadSettings : result MigrateSettings :=
  let databaseURL := TrimSpace (getenv "DATABASE_URL") in
  if String.eqb databaseURL "" then Err (Text "DATABASE_URL is required") else
  let raw := TrimSpace (getenv "MIGRATION_TIMEOUT") in
  if String.eqb raw "" then Ok (mkMigrateSettings databaseURL (30 * second))
  else match ParseDuration raw with
       | Some timeout => if timeout <=? 0
                         then Err (Text "MIGRATION_TIMEOUT must be a positive duration")
                         else Ok (mkMigrateSettings databaseURL timeout)
       | None => Err (Text "MIGRATION_TIMEOUT must be a positive duration")
       end.

(** ** [cmd/fulfillhub-outbox-relay] *)

Definition relayBatchSize : result Z :=
  let value := TrimSpace (getenv "OUTBOX_RELAY_BATCH_SIZE") in
  if String.eqb value "" then Ok 100
  else match ParseInt value with
       | Some parsed => if parsed <=? 0
                        then Err (Text "OUTBOX_RELAY_BATCH_SIZE must be a positive integer")
                        else Ok parsed
       | None => Err (Text "OUTBOX_RELAY_BATCH_SIZE must be a positive integer")
       end.

Definition relayInterval : result Duration :=
  let value := TrimSpace (getenv "OUTBOX_RELAY_INTERVAL") in
  if String.eqb value "" then Ok (250 * millisecond)
  else match ParseDuration value with
       | Some parsed => if parsed <=? 0
                        then Err (Text "OUTBOX_RELAY_INTERVAL must be a positive duration")
                        else Ok parsed
       | None => Err (Text "OUTBOX_RELAY_INTERVAL must be a positive duration")
       end.

(** ** [internal/observability] *)

Inductive TraceMode : Type :=
| TracingOff
| TracingOn (exporter serviceName : string).

(** The outcome of the exporter library for one of the two exporters. *)
Definition newTraceExporter (build : string -> result unit) (exporterName : string)
    : result unit :=
  if String.eqb exporterName "stdout" then build "stdout"
  else if one_of exporterName ["otlp"; "otlphttp"] then build "otlp"
  else Err (Text ("unsupported OTEL_TRACES_EXPORTER " +:+ quote exporterName
                  +:+ "; supported values are none, stdout, and otlp")).

Definition ConfigureTracing (env : Env) (build : string -> result unit)
    (defaultServiceName : string) : result TraceMode :=
  let exporterName := ToLower env (TrimSpace (getenv "OTEL_TRACES_EXPORTER")) in
  if String.eqb exporterName "" || String.eqb exporterName "none" then Ok TracingOff else
  let serviceName := TrimSpace (getenv "OTEL_SERVICE_NAME") in
  let serviceName := if String.eqb serviceName "" then defaultServiceName else serviceName in
  if String.eqb serviceName "" then Err (Text "service name is required") else
  match newTraceExporter build exporterName with
  | Err e => Err e
  | Ok _ => Ok (TracingOn exporterName serviceName)
  end.

End Settings.

(** ** The start of the API process *)

(** What the outside answers while the process starts. *)
Record StartWorld := mkStartWorld {
  sw_exporter : string -> result unit;
  (** [sql.Open], [db.PingContext] and [postgres.RunMigrations] *)
  sw_sql_open : string -> result unit;
  sw_ping : string -> result unit;
  sw_migrate : result unit;
  (** [newQueueInspectorWithRetry] *)
  sw_inspector : string -> result unit;
  (** [redis.ParseURL] *)
  sw_redis_parse : string -> result unit;
  sw_redis_ping : result unit;
  (** [net.Listen] of the profiling server *)
  sw_listen : string -> result unit
}.

Inductive StoreKind : Type :=
| DurableStore (databaseURL : string)
| InMemoryStore.

Inductive QueueMetrics : Type :=
| NoQueueMetrics
| Inspector
| UnavailableQueueMetrics (e : error).

(** The process once it serves. *)
Record ApiProcess := mkApiProcess {
  ap_addr : string;
  ap_tracing : TraceMode;
  (** [None] is a nil store *)
  ap_store : option StoreKind;
  ap_options : Options;
  (** the budget per minute of the Redis limiter, when there is one *)
  ap_rate_limit : option Z;
  ap_queue_metrics : QueueMetrics;
  ap_pprof : option string
}.

(** A pool of database connections with its bounds. *)
Record DbPool := mkDbPool {
  pool_url : string;
  pool_MaxOpenConns : Z;
  pool_MaxIdleConns : Z;
  pool_ConnMaxLifetime : Z;
  pool_ConnMaxIdleTime : Z
}.

Definition configureDBPool (databaseURL : string) : DbPool :=
  mkDbPool databaseURL 25 25 (30 * minute) (5 * minute).

(** [fatal(logger, message, err)] ends the process. *)
Definition or_fatal {A B} (message : string) (r : result A) (k : A -> result B) : result B :=
  match r with
  | Ok a => k a
  | Err e => Err (Wrap (message +:+ ": ") e "")
  end.

Notation "'fatal!' msg 'for' x := r 'in' k" := (or_fatal msg r (fun x => k))
  (at level 10, x binder, r at level 100, k at level 200).

Section Start.
Variable getenv : string -> string.
Variable env : Env.
Variable world : StartWorld.

(** [postgres.Open]; a pool that does not answer is closed again. *)
Definition Open (databaseURL : string) : result DbPool :=
  match sw_sql_open world databaseURL with
  | Err e => Err (Wrap "open postgres: " e "")
  | Ok _ => match sw_ping world databaseURL with
            | Err e => Err (Wrap "ping postgres: " e "")
            | Ok _ => Ok (configureDBPool databaseURL)
            end
  end.

Definition NewRedisClient (redisURL : string) : result unit :=
  match sw_redis_parse world redisURL with
  | Err e => Err (Wrap "parse redis url: " e "")
  | Ok _ => Ok tt
  end.

Definition startPprofServer : result (option string) :=
  match boolEnv getenv "ENABLE_PPROF" with
  | Err e => Err e
  | Ok false => Ok None
  | Ok true =>
      let addr := TrimSpace (getenv "PPROF_ADDR") in
      let addr := if String.eqb addr "" then "127.0.0.1:6060" else addr in
      match sw_listen world addr with
      | Err e => Err (Wrap ("listen on pprof addr " +:+ addr +:+ ": ") e "")
      | Ok _ => Ok (Some addr)
      end
  end.

(** The key table: the configured one, or the demo one where that is allowed. *)
Definition api_key_table (allowLocalDemoCredentials : bool) : result (gmap string string) :=
  fatal! "load merchant api keys" for apiKeys := merchantAPIKeys getenv in
  if Nat.eqb (size apiKeys) 0 then
    if negb allowLocalDemoCredentials
    then Err (Text "MERCHANT_API_KEYS is required unless ALLOW_LOCAL_DEMO_CREDENTIALS=true")
    else Ok LocalDemoAPIKeys
  else Ok apiKeys.

(** A nil store is what is left when neither a database nor the in-memory store
    is chosen. *)
Definition open_store (databaseURL : string) (allowInMemoryStore : bool)
    : result (option StoreKind) :=
  if negb (String.eqb databaseURL "") then
    fatal! "open postgres" for _ := Open databaseURL in
    fatal! "run postgres migrations" for _ := sw_migrate world in
    Ok (Some (DurableStore databaseURL))
  else if allowInMemoryStore then Ok (Some InMemoryStore) else Ok None.

Definition queue_metrics : QueueMetrics :=
  let rabbitURL := getenv "RABBITMQ_URL" in
  if String.eqb rabbitURL "" then NoQueueMetrics
  else match sw_inspector world rabbitURL with
       | Ok _ => Inspector
       | Err e => UnavailableQueueMetrics e
       end.

Definition redis_limit : result (option Z) :=
  let redisURL := getenv "REDIS_URL" in
  if String.eqb redisURL "" then Ok None else
  fatal! "create redis client" for _ := NewRedisClient redisURL in
  fatal! "ping redis" for _ := sw_redis_ping world in
  fatal! "load redis rate limit" for limit := rateLimitPerMinute getenv in
  Ok (Some limit).

Definition readiness_entries (queues : QueueMetrics) (limit : option Z) : list (string * bool) :=
  [("store", true)]
  ++ (match queues with NoQueueMetrics => [] | _ => [("broker", true)] end)
  ++ (match limit with None => [] | Some _ => [("cache", true)] end).

(** [main] up to the point where the server listens. *)
Definition api_main : result ApiProcess :=
  fatal! "configure tracing" for tracing :=
    ConfigureTracing getenv env (sw_exporter world) "fulfillhub-api" in
  let addr := getenv "HTTP_ADDR" in
  let addr := if String.eqb addr "" then ":8080" else addr in
  fatal! "load local demo credential setting" for allowLocalDemoCredentials :=
    boolEnv getenv "ALLOW_LOCAL_DEMO_CREDENTIALS" in
  fatal! "load local ops token setting" for allowLocalOpsToken :=
    boolEnv getenv "ALLOW_LOCAL_OPS_TOKEN" in
  fatal! "load durable store setting" for durable := durableStoreConfig getenv in
  let '(databaseURL, allowInMemoryStore) := durable in
  match api_key_table allowLocalDemoCredentials with
  | Err e => Err e
  | Ok apiKeys =>
      match open_store databaseURL allowInMemoryStore with
      | Err e => Err e
      | Ok store =>
          let queues := queue_metrics in
          match redis_limit with
          | Err e => Err e
          | Ok limit =>
              let options :=
                mkOptions apiKeys (getenv "OPS_JWT_SECRET")
                  (splitCSV (getenv "OPS_JWT_PREVIOUS_SECRETS")) (getenv "OPS_JWT_ISSUER")
                  (getenv "OPS_JWT_AUDIENCE") (getenv "METRICS_BEARER_TOKEN")
                  (readiness_entries queues limit) allowLocalOpsToken 0 true in
              fatal! "start pprof server" for pprof := startPprofServer in
              Ok (mkApiProcess addr tracing store options limit queues pprof)
          end
      end
  end.

End Start.

(** ** Facts *)

Definition named_keys (keys : gmap string string) : Prop :=
  map_Forall (fun apiKey merchantID => apiKey <> "" /\ merchantID <> "") keys.

Lemma add_api_key_named keys part keys' :
  named_keys keys -> add_api_key keys part = Ok keys' -> named_keys keys'.
Proof.
  intros Hk. unfold add_api_key. destruct (String.eqb _ ""); [by intros [= <-]|].
  destruct (Cut _ _) as [[k m] ok].
  destruct (negb ok); [done|]. simpl.
  destruct (String.eqb_spec (TrimSpace k) ""); [done|].
  destruct (String.eqb_spec (TrimSpace m) ""); [done|]. intros [= <-]. by apply map_Forall_insert_2.
Qed.

Lemma add_api_keys_named parts keys keys' :
  named_keys keys -> add_api_keys keys parts = Ok keys' -> named_keys keys'.
Proof.
  revert keys. induction parts as [|part parts IH]; intros keys Hk; simpl; [by intros [= <-]|].
  destruct (add_api_key keys part) as [keys1|] eqn:Ha; [|done].
  apply IH. by eapply add_api_key_named.
Qed.

Lemma merchant_keys_named getenv keys :
  merchantAPIKeys getenv = Ok keys ->
  named_keys keys
  /\ (keys = ∅ <-> TrimSpace (getenv "MERCHANT_API_KEYS") = "").
Proof.
  unfold merchantAPIKeys. destruct (String.eqb_spec (TrimSpace (getenv "MERCHANT_API_KEYS")) "").
  { intros [= <-]. split; [apply map_Forall_empty|done]. }
  destruct (add_api_keys ∅ _) as [keys'|] eqn:Ha; [|done].
  destruct (Nat.eqb_spec (size keys') 0) as [|Hs]; [done|]. intros [= <-]. split.
  - eapply add_api_keys_named; [|exact Ha]. apply map_Forall_empty.
  - split; [|done]. intros ->. by rewrite map_size_empty in Hs.
Qed.

Lemma or_fatal_ok {A B} message (r : result A) (k : A -> result B) b :
  or_fatal message r k = Ok b -> exists a, r = Ok a /\ k a = Ok b.
Proof. destruct r; [eauto|done]. Qed.

Lemma demo_keys_named : named_keys LocalDemoAPIKeys.
Proof. apply map_Forall_insert_2; [done|]. by apply map_Forall_singleton. Qed.

(** The key table is the configured one or, where that is allowed and nothing is
    configured, the demo table. *)
Lemma key_table_cases getenv allow keys :
  api_key_table getenv allow = Ok keys ->
  named_keys keys /\ keys <> ∅
  /\ (merchantAPIKeys getenv = Ok keys
      \/ allow = true /\ TrimSpace (getenv "MERCHANT_API_KEYS") = "" /\ keys = LocalDemoAPIKeys).
Proof.
  unfold api_key_table. intros (found & Hf & Hk)%or_fatal_ok.
  destruct (merchant_keys_named _ _ Hf) as [Hnamed Hblank].
  destruct (Nat.eqb_spec (size found) 0) as [Hs|Hs].
  - apply map_size_empty_inv in Hs. destruct allow; [|done]. injection Hk as <-.
    split; [apply demo_keys_named|]. split; [|right; naive_solver].
    intros E. apply (f_equal size) in E. by vm_compute in E.
  - injection Hk as <-. split; [done|]. split; [|by left]. intros ->. by rewrite map_size_empty in Hs.
Qed.

Lemma positive_setting (r : option Z) (e : error) n :
  match r with Some v => if v <=? 0 then Err e else Ok v | None => Err e end = Ok n ->
  r = Some n /\ 0 < n.
Proof.
  destruct r as [v|]; [|done]. destruct (Z.leb_spec v 0); [done|]. by intros [= <-].
Qed.

Lemma rate_limit_positive getenv n : rateLimitPerMinute getenv = Ok n -> 0 < n.
Proof.
  unfold rateLimitPerMinute. destruct (String.eqb _ ""); [by intros [= <-]|].
  by intros [_ ?]%positive_setting.
Qed.

Lemma store_cases getenv world url allow store :
  durableStoreConfig getenv = Ok (url, allow) -> open_store world url allow = Ok store ->
  url = TrimSpace (getenv "DATABASE_URL")
  /\ (url <> "" /\ store = Some (DurableStore url)
       /\ Open world url = Ok (configureDBPool url) /\ sw_migrate world = Ok tt
      \/ url = "" /\ store = Some InMemoryStore
         /\ boolEnv getenv "ALLOW_IN_MEMORY_STORE" = Ok true).
Proof.
  unfold durableStoreConfig, open_store. destruct (boolEnv _ _) as [b|] eqn:Hb; [|done].
  destruct (_ && _) eqn:Hreq; [done|]. intros [= <- <-] Ho. split; [done|].
  destruct (String.eqb_spec (TrimSpace (getenv "DATABASE_URL")) "") as [E|E]; simpl in *.
  - right. destruct b; [|done]. by injection Ho as <-.
  - left. apply or_fatal_ok in Ho as (pool & Hopen & Ho).
    apply or_fatal_ok in Ho as ([] & Hm & [= <-]). split_and!; [done..| |done].
    revert Hopen. unfold Open. by repeat case_match; intros [= <-].
Qed.

(** C35: what a started API process has checked: it always has a store, the
    database at [DATABASE_URL] once it is opened and migrated, or the in-memory
    store only where that was explicitly allowed and no database is named; its
    key table is not empty, has no empty key or merchant, and is the demo table
    only where demo credentials were explicitly allowed and no keys are
    configured; the fixed operator token is accepted only where it was explicitly
    allowed; and a Redis limiter has a positive budget. *)
Theorem api_start_guarded getenv env world p :
  api_main getenv env world = Ok p ->
  (let url := TrimSpace (getenv "DATABASE_URL") in
   url <> "" /\ ap_store p = Some (DurableStore url)
     /\ Open world url = Ok (configureDBPool url) /\ sw_migrate world = Ok tt
   \/ url = "" /\ ap_store p = Some InMemoryStore
      /\ boolEnv getenv "ALLOW_IN_MEMORY_STORE" = Ok true)
  /\ (let keys := opt_APIKeys (ap_options p) in
      named_keys keys /\ keys <> ∅
      /\ (merchantAPIKeys getenv = Ok keys
          \/ boolEnv getenv "ALLOW_LOCAL_DEMO_CREDENTIALS" = Ok true
             /\ TrimSpace (getenv "MERCHANT_API_KEYS") = "" /\ keys = LocalDemoAPIKeys))
  /\ (opt_AllowLocalOpsToken (ap_options p) = true ->
      boolEnv getenv "ALLOW_LOCAL_OPS_TOKEN" = Ok true)
  /\ match ap_rate_limit p with
     | None => getenv "REDIS_URL" = ""
     | Some n => getenv "REDIS_URL" <> "" /\ 0 < n /\ sw_redis_ping world = Ok tt
     end.
Proof.
  unfold api_main. intros (tracing & _ & Hrun)%or_fatal_ok.
  apply or_fatal_ok in Hrun as (demo & Hdemo & Hrun).
  apply or_fatal_ok in Hrun as (local & Hlocal & Hrun).
  apply or_fatal_ok in Hrun as ([url allow] & Hstore & Hrun).
  destruct (api_key_table getenv demo) as [keys|] eqn:Hkeys; [|done].
  destruct (open_store world url allow) as [store|] eqn:Hopen; [|done].
  destruct (redis_limit getenv world) as [limit|] eqn:Hlimit; [|done].
  apply or_fatal_ok in Hrun as (pprof & _ & [= <-]). simpl.
  destruct (store_cases _ _ _ _ _ Hstore Hopen) as [-> Hcases]. split; [exact Hcases|].
  apply key_table_cases in Hkeys as (Hn & Hne & Hwhich).
  split; [|split]; [split_and!; [done..|]; naive_solver|by intros ->|].
  unfold redis_limit in Hlimit. destruct (String.eqb_spec (getenv "REDIS_URL") "") as [Hno|Hredis].
  { by injection Hlimit as <-. }
  apply or_fatal_ok in Hlimit as (? & _ & Hlimit).
  apply or_fatal_ok in Hlimit as ([] & Hping & Hlimit).
  apply or_fatal_ok in Hlimit as (budget & Hb & [= <-]). eauto using rate_limit_positive.
Qed.

(** *** Round trips *)

(** A field of the tables below: printable ASCII without the separators. *)
Definition field (s : string) : Prop :=
  s <> "" /\ all_chars (fun c => graphic c && negb (Ascii.eqb c ","%char)
                                && negb (Ascii.eqb c "="%char)) s = true.

Record plain (s : string) : Prop := {
  plain_graphic : all_chars graphic s = true;
  plain_trim : TrimSpace s = s;
  plain_comma : has_char ","%char s = false;
  plain_equals : has_char "="%char s = false
}.

Lemma field_plain s : field s -> plain s.
Proof.
  intros [_ Hs].
  assert (Hg : all_chars graphic s = true).
  { eapply all_chars_impl; [|exact Hs]. intros c Hc.
    by apply andb_true_iff in Hc as [[? _]%andb_true_iff _]. }
  split; [done|by apply trim_graphic|eapply all_chars_absent; [|exact Hs]; done..].
Qed.

Definition key_entry (e : string * string) : string := fst e +:+ "=" +:+ snd e.

Lemma entry_chars e :
  field (fst e) -> field (snd e) ->
  all_chars graphic (key_entry e) = true /\ has_char ","%char (key_entry e) = false.
Proof.
  intros [Gk _ Ck _]%field_plain [Gm _ Cm _]%field_plain. unfold key_entry.
  rewrite !all_chars_app, !has_char_app, Gk, Gm, Ck, Cm. done.
Qed.

Lemma add_entry keys e :
  field (fst e) -> field (snd e) ->
  add_api_key keys (key_entry e) = Ok (<[fst e := snd e]> keys).
Proof.
  intros Hk Hm. destruct (entry_chars e Hk Hm) as [Hg _].
  destruct (field_plain _ Hk) as [_ Tk _ Ek], (field_plain _ Hm) as [_ Tm _ _].
  unfold add_api_key. rewrite (trim_graphic _ Hg). unfold key_entry.
  change ("=" +:+ snd e) with (String "="%char (snd e)). rewrite (cut_at_separator _ _ "="%char Ek).
  rewrite Tk, Tm. destruct Hk as [Hk _], Hm as [Hm _].
  apply String.eqb_neq in Hk as Hk', Hm as Hm'. rewrite Hk', Hm'. simpl.
  destruct (String.eqb_spec (fst e +:+ String "="%char (snd e)) "") as [E|_]; [|done].
  by destruct (fst e).
Qed.

Lemma split_join parts sep :
  parts <> [] -> Forall (fun p => has_char sep p = false) parts ->
  Split (join_with (String sep "") parts) sep = parts.
Proof.
  induction parts as [|p [|q parts] IH]; intros Hne Hf; [done| |].
  - simpl. apply split_no_sep. by inversion Hf.
  - inversion Hf as [|?? Hp Hr]; subst. change (join_with (String sep "") (p :: q :: parts))
      with (p +:+ String sep "" +:+ join_with (String sep "") (q :: parts)).
    change (String sep "" +:+ ?x) with (String sep x). rewrite (split_app _ _ _ Hp). f_equal.
    by apply IH.
Qed.

Lemma entries_fold entries keys :
  Forall (fun e => field (fst e) /\ field (snd e)) entries ->
  add_api_keys keys (map key_entry entries)
  = Ok (fold_left (fun m e => <[fst e := snd e]> m) entries keys).
Proof.
  revert keys. induction entries as [|e entries IH]; intros keys Hf; [done|].
  inversion Hf as [|?? [Hk Hm] Hr]; subst. simpl. rewrite (add_entry _ _ Hk Hm). by apply IH.
Qed.

Lemma join_graphic parts :
  Forall (fun p => all_chars graphic p = true) parts -> all_chars graphic (join_with "," parts) = true.
Proof.
  induction parts as [|p [|q parts] IH]; intros Hf; [done|by inversion Hf|].
  inversion Hf as [|?? Hp Hr]; subst. change (join_with "," (p :: q :: parts))
    with (p +:+ "," +:+ join_with "," (q :: parts)).
  rewrite !all_chars_app, Hp, (IH Hr). done.
Qed.

Definition entries_of (entries : list (string * string)) : gmap string string :=
  fold_left (fun m e => <[fst e := snd e]> m) entries ∅.

(** The key table survives its environment variable: entries of printable
    keys and merchants without the two separators, written as
    [key=merchant] and joined with commas, are read back as exactly that table,
    a later entry for a key replacing an earlier one. *)
Theorem merchant_keys_round_trip getenv entries :
  entries <> [] -> Forall (fun e => field (fst e) /\ field (snd e)) entries ->
  getenv "MERCHANT_API_KEYS" = join_with "," (map key_entry entries) ->
  merchantAPIKeys getenv = Ok (entries_of entries).
Proof.
  intros Hne Hf Hget. unfold merchantAPIKeys. rewrite Hget.
  assert (Hc : Forall (fun p => all_chars graphic p = true /\ has_char ","%char p = false)
                 (map key_entry entries)).
  { apply Forall_fmap. eapply Forall_impl; [exact Hf|]. intros e [? ?]. by apply entry_chars. }
  rewrite trim_graphic by (apply join_graphic; eapply Forall_impl; [exact Hc|]; by intros ? [? _]).
  rewrite (split_join _ ","%char).
  2:{ by destruct entries. }
  2:{ eapply Forall_impl; [exact Hc|]. by intros ? [_ ?]. }
  rewrite (entries_fold _ _ Hf). fold (entries_of entries).
  destruct entries as [|e entries]; [done|]. inversion Hf as [|?? [[He _] _] _]; subst.
  destruct (String.eqb_spec (join_with "," (map key_entry (e :: entries))) "") as [E|_].
  { exfalso. destruct e as [k m]. simpl in He. destruct k; [done|]. by destruct entries. }
  destruct (Nat.eqb_spec (size (entries_of (e :: entries))) 0) as [Hs|]; [|done].
  apply map_size_empty_inv in Hs. exfalso. revert Hs. unfold entries_of. simpl.
  generalize (insert_non_empty ∅ (fst e) (snd e) : <[fst e:=snd e]> (∅ : gmap string string) <> ∅).
  generalize (<[fst e:=snd e]> (∅ : gmap string string)). clear.
  induction entries as [|e' entries IH]; intros m Hm; [done|]. simpl. apply IH.
  apply insert_non_empty.
Qed.

(** Accepted intervals and timeouts are positive [int64] durations, and one
    written as a number with a unit is read as it is written. *)
Lemma relay_interval_range getenv d : relayInterval getenv = Ok d -> 0 < d <= int64_max.
Proof.
  unfold relayInterval. destruct (String.eqb _ ""); [intros [= <-]; by vm_compute|].
  intros [Hp Hpos]%positive_setting. apply parse_duration_int64 in Hp. unfold in_int64 in Hp. lia.
Qed.

Lemma migrate_timeout_range getenv s :
  migrate_loadSettings getenv = Ok s ->
  migrate_databaseURL s <> "" /\ 0 < migrate_timeout s <= int64_max.
Proof.
  unfold migrate_loadSettings. destruct (String.eqb_spec (TrimSpace (getenv "DATABASE_URL")) ""); [done|].
  destruct (String.eqb _ ""); [intros [= <-]; simpl; split; [done|by vm_compute]|].
  destruct (ParseDuration _) as [d|] eqn:Hp; [|done]. destruct (Z.leb_spec d 0); [done|].
  intros [= <-]. simpl. split; [done|]. apply parse_duration_int64 in Hp. unfold in_int64 in Hp. lia.
Qed.

Lemma relay_interval_written getenv n u unit :
  0 < n -> u ∈ ["ns"; "us"; "ms"; "s"; "m"; "h"] -> unitMap u = Some unit ->
  n * unit <= int64_max -> getenv "OUTBOX_RELAY_INTERVAL" = Itoa n +:+ u ->
  relayInterval getenv = Ok (n * unit).
Proof.
  intros Hn Hu Hunit Hmax Hget. unfold relayInterval. rewrite Hget.
  assert (Hplain : plain_unit u /\ all_chars graphic u = true /\ 0 < unit).
  { apply list_elem_of_In in Hu. simpl in Hu.
    destruct Hu as [<-|[<-|[<-|[<-|[<-|[<-|[]]]]]]]; vm_compute in Hunit; injection Hunit as <-;
      (split; [split; [discriminate|reflexivity]|]); (split; [reflexivity|lia]). }
  destruct Hplain as (Hp & Hg & Hpos).
  assert (Hni : all_chars graphic (Itoa n +:+ u) = true).
  { rewrite all_chars_app, Hg, andb_true_r. eapply all_chars_impl; [|apply itoa_numeric].
    exact numeric_graphic. }
  rewrite (trim_graphic _ Hni), (parse_number_with_unit n u unit Hn Hp Hunit Hpos Hmax).
  destruct (String.eqb_spec (Itoa n +:+ u) "") as [E|_].
  { pose proof (itoa_nonempty n). by destruct (Itoa n). }
  destruct (Z.leb_spec (n * unit) 0); [nia|done].
Qed.

(** ** Instances *)

Definition sample_getenv (key : string) : string :=
  if String.eqb key "MERCHANT_API_KEYS" then "key-1=mer_1,key-2=mer_2"
  else if String.eqb key "ALLOW_IN_MEMORY_STORE" then " TRUE "
  else if String.eqb key "REDIS_URL" then "redis://cache"
  else "".

Definition willing_world : StartWorld :=
  mkStartWorld (fun _ => Ok tt) (fun _ => Ok tt) (fun _ => Ok tt) (Ok tt) (fun _ => Ok tt) (fun _ => Ok tt) (Ok tt)
    (fun _ => Ok tt).

Lemma sample_start_run :
  match api_main sample_getenv sample_env willing_world with
  | Ok p => match ap_store p with Some InMemoryStore => true | _ => false end
  | Err _ => false
  end = true.
Proof. vm_compute. reflexivity. Qed.

Lemma api_start_guarded_witness :
  exists p, api_main sample_getenv sample_env willing_world = Ok p
            /\ named_keys (opt_APIKeys (ap_options p)).
Proof.
  pose proof sample_start_run as Hs.
  destruct (api_main sample_getenv sample_env willing_world) as [p|] eqn:Hp; [|discriminate Hs].
  exists p. split; [reflexivity|].
  exact (proj1 (proj1 (proj2 (api_start_guarded _ _ _ _ Hp)))).
Defined.

Lemma merchant_keys_round_trip_witness :
  merchantAPIKeys sample_getenv = Ok (entries_of [("key-1", "mer_1"); ("key-2", "mer_2")]).
Proof.
  apply (merchant_keys_round_trip sample_getenv [("key-1", "mer_1"); ("key-2", "mer_2")]).
  - discriminate.
  - repeat constructor; discriminate.
  - reflexivity.
Defined.
