(* ===== verification/ApiProcess.v ===== *)
(** The API process from its start to its end, [cmd/fulfillhub-api/main.go]:
    the two HTTP servers, the wait for a signal or a failure, and what is shut
    down and released in which order.

    [Settings] holds the start.  Listening, serving and draining connections are
    [net/http]'s; their outcomes are given. *)
From S2P Require Import Prelude GoStrings GoTime Model Service Api Settings.

(** ** The servers *)

Inductive ServerHandler : Type :=
| ApiHandler (cfg : Config)
(** the patterns of the profiling mux *)
| PprofHandler (patterns : list string).

Record HttpServer := mkHttpServer {
  hs_Addr : string;
  hs_Handler : ServerHandler;
  hs_ReadHeaderTimeout : Z;
  hs_ReadTimeout : Z;
  hs_WriteTimeout : Z;
  hs_IdleTimeout : Z
}.

Definition newHTTPServer (addr : string) (handler : Config) : HttpServer :=
  mkHttpServer addr (ApiHandler handler) (5 * second) (15 * second) (15 * second) (60 * second).

Definition newPprofServer (addr : string) : HttpServer :=
  mkHttpServer addr
    (PprofHandler ["/debug/pprof/"; "/debug/pprof/cmdline"; "/debug/pprof/profile";
                   "/debug/pprof/symbol"; "/debug/pprof/trace"])
    (5 * second) (15 * second) (30 * second) (60 * second).

(** ** What the process does *)

Inductive Resource : Type := Tracing | Database | QueueInspector | RedisClient.

Inductive Action : Type :=
| StartServing (name : string) (server : HttpServer)
(** [server.Shutdown] with a deadline *)
| ShutDown (name : string) (timeout : Z)
| Release (r : Resource)
| LogError (message : string) (e : error).

(** How the wait ends: a signal, or the end of the API server, with the error of
    [ListenAndServe] unless it was closed. *)
Inductive Wake : Type :=
| Interrupted
| ServerEnded (err : option error).

(** The outcomes of shutting down. *)
Record StopWorld := mkStopWorld {
  stop_server : string -> option error;
  stop_tracing : option error
}.

Section Process.
Variable world : StopWorld.

Definition shutdownHTTPServer (server : option HttpServer) (name : string) : list Action :=
  match server with
  | None => []
  | Some _ =>
      ShutDown name (10 * second)
      :: match stop_server world name with
         | None => []
         | Some e => [LogError ("shutdown http server " +:+ name) e]
         end
  end.

(** What the start left open, in the order in which it was opened. *)
Definition opened (p : ApiProcess) : list Resource :=
  [Tracing]
  ++ match ap_store p with Some (DurableStore _) => [Database] | _ => [] end
  ++ match ap_queue_metrics p with Inspector => [QueueInspector] | _ => [] end
  ++ match ap_rate_limit p with Some _ => [RedisClient] | None => [] end.

Definition release (r : Resource) : list Action :=
  Release r
  :: match r, stop_tracing world with
     | Tracing, Some e => [LogError "shutdown tracing" e]
     | _, _ => []
     end.

(** The deferred calls, last one first. *)
Definition deferred (p : ApiProcess) : list Action := flat_map release (reverse (opened p)).

(** [main] once the servers are built: the exit status and what was done. *)
Definition api_serve (p : ApiProcess) (wake : Wake) : Z * list Action :=
  let server := newHTTPServer (ap_addr p) (NewServerWithOptions (ap_options p)) in
  let pprofServer := newPprofServer <$> ap_pprof p in
  let started := match pprofServer with None => [] | Some srv => [StartServing "pprof" srv] end
                 ++ [StartServing "api" server] in
  match wake with
  | Interrupted =>
      (0, started ++ shutdownHTTPServer (Some server) "api"
          ++ shutdownHTTPServer pprofServer "pprof" ++ deferred p)
  | ServerEnded None => (0, started ++ deferred p)
  (* [fatal] exits at once *)
  | ServerEnded (Some e) => (1, started ++ [LogError "api server stopped" e])
  end.

Definition api_process (getenv : string -> string) (env : Env) (start : StartWorld) (wake : Wake)
    : Z * list Action :=
  match api_main getenv env start with
  | Err e => (1, [LogError "start" e])
  | Ok p => api_serve p wake
  end.

(** ** Facts *)

Definition is_shutdown (a : Action) : bool := match a with ShutDown _ _ => true | _ => false end.

Definition released (a : Action) : option Resource :=
  match a with Release r => Some r | _ => None end.

Lemma released_deferred p : omap released (deferred p) = reverse (opened p).
Proof.
  unfold deferred. induction (reverse (opened p)) as [|r rs IH]; simpl; [done|].
  rewrite omap_app, IH. unfold release. destruct r, (stop_tracing world); done.
Qed.

Lemma shutdown_releases_nothing server name : omap released (shutdownHTTPServer server name) = [].
Proof. unfold shutdownHTTPServer. destruct server, (stop_server world name); done. Qed.

(** A signal stops the process in order, whatever fails on the way: the API
    server is asked first to drain its requests, then the profiling server; only
    then is anything released, and then everything the start had opened, once,
    the last opened first; the exit status is 0. *)
Theorem interrupted_process_releases p :
  exists serving stopping,
    api_serve p Interrupted = (0, serving ++ stopping ++ deferred p)
    /\ filter (fun a => is_shutdown a = true) stopping
       = ShutDown "api" (10 * second)
         :: match ap_pprof p with None => [] | Some _ => [ShutDown "pprof" (10 * second)] end
    /\ omap released (serving ++ stopping) = []
    /\ omap released (deferred p) = reverse (opened p)
    /\ NoDup (opened p).
Proof.
  unfold api_serve. set (server := newHTTPServer _ _). set (pprof := newPprofServer <$> ap_pprof p).
  exists (match pprof with None => [] | Some srv => [StartServing "pprof" srv] end
          ++ [StartServing "api" server]),
    (shutdownHTTPServer (Some server) "api" ++ shutdownHTTPServer pprof "pprof").
  split_and!.
  - by rewrite !app_assoc.
  - rewrite filter_app. unfold shutdownHTTPServer, pprof.
    destruct (stop_server world "api"), (ap_pprof p); simpl; try done;
      destruct (stop_server world "pprof"); done.
  - rewrite !omap_app, !shutdown_releases_nothing. by destruct pprof.
  - apply released_deferred.
  - unfold opened. destruct (ap_store p) as [[]|], (ap_queue_metrics p), (ap_rate_limit p);
      repeat constructor; set_solver.
Qed.

(** A server that stopped by itself ends the process with status 1, and the
    servers have a bound on every phase of a request. *)
Theorem failed_process_exits p e :
  fst (api_serve p (ServerEnded (Some e))) = 1
  /\ forall name srv, StartServing name srv ∈ snd (api_serve p (ServerEnded (Some e))) ->
       0 < hs_ReadHeaderTimeout srv <= hs_ReadTimeout srv /\ 0 < hs_WriteTimeout srv
       /\ 0 < hs_IdleTimeout srv.
Proof.
  split; [done|]. intros name srv. unfold api_serve. simpl.
  rewrite !elem_of_app. intros [[Hs|Hs]|Hs].
  - destruct (ap_pprof p); simpl in Hs; [|by apply elem_of_nil in Hs].
    apply list_elem_of_singleton in Hs as [= -> ->]. vm_compute. done.
  - apply list_elem_of_singleton in Hs as [= -> ->]. vm_compute. done.
  - by apply list_elem_of_singleton in Hs.
Qed.

End Process.
