(* ===== verification/Connections.v ===== *)
(** Connections to the broker: the constructors and [Close] of
    [internal/messaging/rabbitmq.go], [rabbitmq_consumer.go] and
    [queue_metrics.go], queue inspection, and the retry loops the commands
    start with.

    The AMQP client is an environment that decides for each call whether it
    fails.  A close releases its resource even when it reports an error. *)
From S2P Require Import Prelude GoStrings GoTime Model Topology Metrics.

(** ** Calls of the client *)

Inductive WireAction : Type :=
| Dialled
| OpenedChannel
| Declared (d : Declaration)
| SetQos
| Confirming
| Consuming (queue consumerName : string)
| ClosedChannel
| ClosedConnection.

Record Wire := mkWire {
  wire_calls : nat;
  wire_log : list WireAction
}.

Section Wire.
(** the failure of the n-th call, if it fails *)
Variable fault : nat -> option error.

Definition wire_call (a : WireAction) : M Wire unit :=
  fun w => match fault (wire_calls w) with
           | Some e => (Err e, mkWire (Datatypes.S (wire_calls w)) (wire_log w))
           | None => (Ok tt, mkWire (Datatypes.S (wire_calls w)) (wire_log w ++ [a]))
           end.

Definition wire_close (a : WireAction) : M Wire unit :=
  fun w => (match fault (wire_calls w) with Some e => Err e | None => Ok tt end,
            mkWire (Datatypes.S (wire_calls w)) (wire_log w ++ [a])).

(** [_ = channel.Close()] and [_ = conn.Close()]. *)
Definition ignore (c : M Wire unit) : M Wire unit := let! _ := attempt c in ret tt.

Definition close_conn : M Wire unit := ignore (wire_close ClosedConnection).

Definition close_both : M Wire unit :=
  let! _ := ignore (wire_close ClosedChannel) in
  close_conn.

(** [if err != nil { cleanup; return nil, err }]. *)
Definition cleanup_on_error (cleanup c : M Wire unit) : M Wire unit :=
  fun w => match c w with
           | (Err e, w') => (Err e, snd (cleanup w'))
           | r => r
           end.

(** The common beginning: dial, open a channel, declare the topology. *)
Definition connect : M Wire unit :=
  let! _ := annotate "dial rabbitmq: " (wire_call Dialled) in
  let! _ := cleanup_on_error close_conn
              (annotate "open rabbitmq channel: " (wire_call OpenedChannel)) in
  cleanup_on_error close_both (DeclareTopology (fun d => wire_call (Declared d))).

Definition NewRabbitPublisher : M Wire unit :=
  let! _ := connect in
  cleanup_on_error close_both
    (annotate "enable rabbitmq publisher confirms: " (wire_call Confirming)).

Definition NewRabbitConsumer : M Wire unit :=
  let! _ := connect in
  let! _ := cleanup_on_error close_both
              (annotate "configure consumer qos: " (wire_call SetQos)) in
  cleanup_on_error close_both
    (annotate "enable rabbitmq retry publisher confirms: " (wire_call Confirming)).

(** The inspector keeps the names it will ask for. *)
Definition NewQueueInspector (queues : list string) : M Wire (list string) :=
  let! _ := connect in
  ret (match queues with [] => QueueNames | _ => queues end).

(** [Close] of all three: the channel's error wins. *)
Definition Close : M Wire unit :=
  let! channelErr := attempt (wire_close ClosedChannel) in
  let! connErr := attempt (wire_close ClosedConnection) in
  match channelErr with
  | Err e => throw e
  | Ok _ => match connErr with Err e => throw e | Ok _ => ret tt end
  end.

Definition Deliveries (queue consumerName : string) : M Wire unit :=
  if String.eqb queue "" then throw (Text "queue is required") else
  let consumerName := if String.eqb consumerName "" then queue else consumerName in
  annotate ("consume queue " +:+ queue +:+ ": ") (wire_call (Consuming queue consumerName)).

End Wire.

(** ** Queue inspection *)

Section Inspect.
Context {W : Type}.
(** [channel.QueueInspect], and the context's error before each queue *)
Variable inspect : string -> M W QueueDepth.
Variable ctx_err : M W unit.

Definition inspect_queue (queueName : string) : M W QueueDepth :=
  let! _ := ctx_err in
  annotate ("inspect queue " +:+ queueName +:+ ": ") (inspect queueName).

Definition QueueDepths (queues : list string) : M W (list QueueDepth) :=
  for_collect inspect_queue queues.

Definition UnavailableQueueMetrics_QueueDepths (err : option error) : M W (list QueueDepth) :=
  match err with
  | Some e => throw e
  | None => throw (Text "rabbitmq queue metrics unavailable")
  end.

End Inspect.

(** ** Connecting with retries *)

(** The channel a [select] takes: of the ones that are ready first, any. *)
Inductive Wakeup : Type := Interrupted | DeadlinePassed | Waited.

Definition first_ready (now : Z) (signal : option Z) (deadline pause : Z) (tie : nat) : Wakeup :=
  let at_deadline := (Z.max now deadline, DeadlinePassed) in
  let at_pause := (now + pause, Waited) in
  let times := match signal with
               | Some t => [(Z.max now t, Interrupted); at_deadline; at_pause]
               | None => [at_deadline; at_pause]
               end in
  let earliest := fold_right Z.min (now + pause) (map fst times) in
  let ready := filter (fun e => fst e = earliest) times in
  match nth (tie mod length ready) ready at_pause with
  | (_, w) => w
  end.

Section Retry.
Context {A : Type}.
(** the n-th attempt: how long it takes and what it gives *)
Variable attempt : nat -> Duration * result A.
(** when the process is told to stop, and how ties in the select fall *)
Variable signal : option Z.
Variable tie : nat -> nat.
(** [ctx.Err()] once interrupted *)
Variable interrupted : error.

(** [newRabbitConsumerWithRetry] and its siblings, [now] after the start: a
    deadline of 60 seconds, pauses of two.  [None] when the fuel is out. *)
Fixpoint retry_loop (fuel n : nat) (now : Z) : option (result A * nat) :=
  match fuel with
  | O => None
  | Datatypes.S fuel =>
      let (took, r) := attempt n in
      match r with
      | Ok a => Some (Ok a, n)
      | Err lastErr =>
          let now := now + took in
          match first_ready now signal (60 * second) (2 * second) (tie n) with
          | Interrupted => Some (Err interrupted, n)
          | DeadlinePassed => Some (Err lastErr, n)
          | Waited => retry_loop fuel (Datatypes.S n) (now + 2 * second)
          end
      end
  end.

(** Thirty-one attempts, at least two seconds apart, fill the minute. *)
Definition connect_with_retry : option (result A * nat) := retry_loop 31 0 0.

End Retry.

(** The three callers: worker and relay watch the signals of the process, the
    API gives its inspector a context that only times out. *)
Definition newRabbitConsumerWithRetry (attempt : nat -> Duration * result unit)
    (signal : option Z) (tie : nat -> nat) : option (result unit * nat) :=
  connect_with_retry attempt signal tie (Text "context canceled").

Definition newRabbitPublisherWithRetry (attempt : nat -> Duration * result unit)
    (signal : option Z) (tie : nat -> nat) : option (result unit * nat) :=
  connect_with_retry attempt signal tie (Text "context canceled").

Definition newQueueInspectorWithRetry (attempt : nat -> Duration * result (list string))
    (tie : nat -> nat) : option (result (list string) * nat) :=
  connect_with_retry attempt None tie (Text "context deadline exceeded").

(** ** Facts *)

(** Connections and channels held, as a log of calls leaves them. *)
Definition action_weight (a : WireAction) : Z * Z :=
  match a with
  | Dialled => (1, 0)
  | OpenedChannel => (0, 1)
  | ClosedChannel => (0, -1)
  | ClosedConnection => (-1, 0)
  | _ => (0, 0)
  end.

Definition held (w : Wire) : Z * Z :=
  fold_right (fun a acc => (fst (action_weight a) + fst acc, snd (action_weight a) + snd acc))
    (0, 0) (wire_log w).

Lemma held_app n l a :
  held (mkWire n (l ++ [a]))
  = (fst (held (mkWire n l)) + fst (action_weight a), snd (held (mkWire n l)) + snd (action_weight a)).
Proof.
  unfold held. simpl. induction l as [|b l IH]; simpl; [f_equal; lia|].
  rewrite IH. simpl. f_equal; lia.
Qed.

Definition shift (c ch : Z) (h : Z * Z) : Z * Z := (fst h + c, snd h + ch).

(** [moves m c ch c' ch']: on success the call changes what is held by
    [(c, ch)], on failure by [(c', ch')]. *)
Definition moves {A} (m : M Wire A) (c ch c' ch' : Z) : Prop :=
  forall w, match m w with
            | (Ok _, w') => held w' = shift c ch (held w)
            | (Err _, w') => held w' = shift c' ch' (held w)
            end.

Lemma shift_zero h : shift 0 0 h = h.
Proof. destruct h as [a b]. unfold shift. simpl. f_equal; lia. Qed.

Lemma shift_shift a b c d h : shift a b (shift c d h) = shift (c + a) (d + b) h.
Proof. unfold shift. simpl. f_equal; lia. Qed.

Section Held.
Variable fault : nat -> option error.

Lemma moves_call a :
  moves (wire_call fault a) (fst (action_weight a)) (snd (action_weight a)) 0 0.
Proof.
  intros w. unfold wire_call. destruct (fault _).
  - rewrite shift_zero. done.
  - rewrite held_app. done.
Qed.

Lemma moves_close a :
  let c := fst (action_weight a) in let ch := snd (action_weight a) in
  moves (wire_close fault a) c ch c ch.
Proof. intros c ch w. unfold wire_close. destruct (fault _); simpl; by rewrite held_app. Qed.

Lemma moves_annotate {A} text (m : M Wire A) c ch c' ch' :
  moves m c ch c' ch' -> moves (annotate text m) c ch c' ch'.
Proof. intros Hm w. specialize (Hm w). unfold annotate. destruct (m w) as [[]]; done. Qed.

(** It never fails, so nothing is to be said about that case. *)
Lemma moves_ignore m c ch c' ch' : moves m c ch c ch -> moves (ignore m) c ch c' ch'.
Proof.
  intros Hm w. specialize (Hm w). unfold ignore, bind, attempt.
  destruct (m w) as [[]]; simpl; done.
Qed.

Lemma moves_bind {A B} (m : M Wire A) (k : A -> M Wire B) c ch d dh e eh :
  moves m c ch e eh -> (forall a, moves (k a) d dh (e - c) (eh - ch)) ->
  moves (bind m k) (c + d) (ch + dh) e eh.
Proof.
  intros Hm Hk w. specialize (Hm w). unfold bind. destruct (m w) as [[a|] w1]; [|done].
  specialize (Hk a w1). destruct (k a w1) as [[|] w2]; rewrite Hk, Hm, shift_shift; f_equal; lia.
Qed.

Lemma moves_cleanup cl m c ch c' ch' d dh :
  moves m c ch c' ch' -> moves cl d dh d dh -> moves (cleanup_on_error cl m) c ch (c' + d) (ch' + dh).
Proof.
  intros Hm Hcl w. specialize (Hm w). unfold cleanup_on_error.
  destruct (m w) as [[|] w1]; [done|]. specialize (Hcl w1).
  destruct (cl w1) as [[|] w2]; simpl; rewrite Hcl, Hm, shift_shift; done.
Qed.

Lemma moves_eq {A} (m : M Wire A) c ch c' ch' d dh d' dh' :
  moves m c ch c' ch' -> c = d -> ch = dh -> c' = d' -> ch' = dh' -> moves m d dh d' dh'.
Proof. by intros ? -> -> -> ->. Qed.

Lemma moves_each {X} (body : X -> M Wire unit) l :
  (forall x, moves (body x) 0 0 0 0) -> moves (for_each body l) 0 0 0 0.
Proof.
  intros Hb. induction l as [|x l IH]; simpl; [intros w; simpl; by rewrite shift_zero|].
  eapply moves_eq; [apply moves_bind; [apply Hb|intros _; apply IH]|lia..].
Qed.

Lemma moves_topology : moves (DeclareTopology (fun d => wire_call fault (Declared d))) 0 0 0 0.
Proof.
  assert (Hd : forall text d, moves (declare (fun d => wire_call fault (Declared d)) text d) 0 0 0 0).
  { intros. apply moves_annotate, (moves_call (Declared d)). }
  assert (Hthen : forall (m k : M Wire unit), moves m 0 0 0 0 -> moves k 0 0 0 0 ->
            moves (let! _ := m in k) 0 0 0 0).
  { intros m k Hm Hk. eapply moves_eq; [apply moves_bind; [apply Hm|intros _; apply Hk]|lia..]. }
  unfold DeclareTopology. apply Hthen; apply moves_each; [intros; apply Hd|].
  intros t. unfold declare_queue, declare_bindings.
  repeat (apply Hthen; [apply Hd|]). apply moves_each. intros key.
  repeat (apply Hthen; [apply Hd|]). apply Hd.
Qed.

Lemma moves_close_conn c' ch' : moves (close_conn fault) (-1) 0 c' ch'.
Proof. apply moves_ignore, (moves_close ClosedConnection). Qed.

Lemma moves_close_both : moves (close_both fault) (-1) (-1) (-1) (-1).
Proof.
  eapply moves_eq; [apply moves_bind; [apply moves_ignore, (moves_close ClosedChannel)|]|..];
    [intros _; apply moves_close_conn|done..].
Qed.

Lemma moves_connect : moves (connect fault) 1 1 0 0.
Proof.
  eapply moves_eq; [apply moves_bind; [apply moves_annotate, (moves_call Dialled)|intros _]|..].
  - eapply moves_eq; [apply moves_bind; [|intros _]|..].
    + eapply moves_cleanup; [apply moves_annotate, (moves_call OpenedChannel)|apply moves_close_conn].
    + eapply moves_eq; [apply moves_cleanup; [apply moves_topology|apply moves_close_both]|done..].
    + done.
    + done.
    + done.
    + done.
  - done.
  - done.
  - done.
  - done.
Qed.

(** One more call on the open channel. *)
Lemma moves_on_channel text a :
  action_weight a = (0, 0) ->
  moves (cleanup_on_error (close_both fault) (annotate text (wire_call fault a))) 0 0 (-1) (-1).
Proof.
  intros Ha. pose proof (moves_call a) as Hm. rewrite Ha in Hm.
  eapply moves_eq; [apply moves_cleanup; [apply moves_annotate, Hm|apply moves_close_both]|done..].
Qed.

Lemma moves_then_call {A} (k : M Wire A) :
  moves k 0 0 (-1) (-1) -> moves (let! _ := connect fault in k) 1 1 0 0.
Proof. intros Hk. by apply (moves_bind _ _ 1 1 0 0 0 0); [apply moves_connect|]. Qed.

Lemma moves_close_all : moves (Close fault) (-1) (-1) (-1) (-1).
Proof.
  intros [n l]. unfold Close, bind, attempt, wire_close. simpl.
  destruct (fault n), (fault (Datatypes.S n)); simpl; rewrite !held_app;
    change (held (mkWire (Datatypes.S (Datatypes.S n)) l)) with (held (mkWire n l));
    unfold shift; simpl; f_equal; lia.
Qed.

(** Connections do not leak.  Whatever call of the AMQP client fails, the
    constructors of the publisher, the consumer and the inspector leave as many
    connections and channels open as there were before when they return an error,
    and one more of each when they succeed; [Close] then gives both back, even
    when it reports an error. *)
Theorem connections_balanced queues w :
  (forall new, new ∈ [NewRabbitPublisher fault; NewRabbitConsumer fault;
                      let! _ := NewQueueInspector fault queues in ret tt] ->
     match new w with
     | (Err _, w') => held w' = held w
     | (Ok _, w') => held w' = shift 1 1 (held w)
                     /\ held (snd (Close fault w')) = held w
     end).
Proof.
  intros new Hnew.
  assert (Hm : moves new 1 1 0 0).
  { apply list_elem_of_In in Hnew. destruct Hnew as [<-|[<-|[<-|[]]]].
    - by apply moves_then_call, (moves_on_channel _ Confirming).
    - apply moves_then_call. apply (moves_bind _ _ 0 0 0 0 (-1) (-1)); [|intros _];
        [by apply (moves_on_channel _ SetQos)|by apply (moves_on_channel _ Confirming)].
    - intros w0. pose proof (moves_connect w0) as Hc. unfold NewQueueInspector, bind.
      destruct (connect fault w0) as [[[]|e] w1]; simpl; exact Hc. }
  specialize (Hm w). destruct (new w) as [[[]|e] w']; [|by rewrite Hm, shift_zero].
  split; [done|]. pose proof (moves_close_all w') as Hc. destruct (Close fault w') as [[|] w2];
    simpl; rewrite Hc, Hm, shift_shift; apply shift_zero.
Qed.

End Held.

(** *** Retries end *)

Lemma fold_min_elem d l : fold_right Z.min d l ∈ d :: l.
Proof.
  induction l as [|x l IH]; simpl; [by apply list_elem_of_here|].
  destruct (Z.min_spec x (fold_right Z.min d l)) as [[_ ->]|[_ ->]].
  - apply list_elem_of_further, list_elem_of_here.
  - apply elem_of_cons in IH as [->|IH]; [apply list_elem_of_here|].
    by apply list_elem_of_further, list_elem_of_further.
Qed.

Lemma fold_min_le d l x : x ∈ l -> fold_right Z.min d l <= x.
Proof.
  induction l as [|y l IH]; [by intros ?%elem_of_nil|]. intros [->|Hx]%elem_of_cons; simpl; [lia|].
  specialize (IH Hx). lia.
Qed.

(** The pause only ends first when neither of the other two came before. *)
Lemma first_ready_waited now signal deadline pause tie :
  first_ready now signal deadline pause tie = Waited ->
  now + pause <= Z.max now deadline.
Proof.
  unfold first_ready. set (times := match signal with Some t => _ | None => _ end).
  set (earliest := fold_right Z.min (now + pause) (map fst times)).
  set (ready := filter _ times).
  assert (Hpause : (now + pause, Waited) ∈ times).
  { unfold times. destruct signal; rewrite list_elem_of_In; simpl; tauto. }
  assert (Hdead : (Z.max now deadline, DeadlinePassed) ∈ times).
  { unfold times. destruct signal; rewrite list_elem_of_In; simpl; tauto. }
  assert (Hle : earliest <= Z.max now deadline).
  { apply fold_min_le. apply list_elem_of_fmap. by eexists (_, _). }
  assert (Hne : length ready <> 0%nat).
  { intros H0. apply length_zero_iff_nil in H0.
    assert (Hin : earliest ∈ map fst times).
    { pose proof (fold_min_elem (now + pause) (map fst times)) as E.
      apply elem_of_cons in E as [E|E]; [|done].
      fold earliest in E. rewrite E. apply list_elem_of_fmap. by exists (now + pause, Waited). }
    apply list_elem_of_fmap in Hin as (x & Hx & Hin).
    assert (Hr : x ∈ ready) by (apply list_elem_of_filter; done). rewrite H0 in Hr.
    by apply elem_of_nil in Hr. }
  destruct (nth (tie mod length ready) ready (now + pause, Waited)) as [t w] eqn:Hn. intros ->.
  assert (Hin : (t, Waited) ∈ ready).
  { rewrite <- Hn. apply list_elem_of_In, nth_In, Nat.mod_upper_bound, Hne. }
  apply list_elem_of_filter in Hin as [Ht Hin]. simpl in Ht.
  assert (t = now + pause); [|lia].
  unfold times in Hin. rewrite list_elem_of_In in Hin.
  destruct signal; simpl in Hin; naive_solver.
Qed.

Section RetryFacts.
Context {A : Type}.
Variable attempt : nat -> Duration * result A.
Variable signal : option Z.
Variable tie : nat -> nat.
Variable interrupted : error.

Lemma retry_loop_ends fuel n now :
  (forall k, 0 <= fst (attempt k)) ->
  (31 <= n + fuel)%nat -> 2 * second * Z.of_nat n <= now <= 60 * second ->
  exists r k, retry_loop attempt signal tie interrupted fuel n now = Some (r, k).
Proof.
  intros Hpos. revert n now. induction fuel as [|fuel IH]; intros n now Hf Hnow.
  { assert (31 <= Z.of_nat n) by lia. unfold second in *. lia. }
  simpl. specialize (Hpos n). destruct (attempt n) as [took [a|e]]; [by eexists _, _|].
  simpl in Hpos. destruct (first_ready _ _ _ _ _) eqn:Hr; [by eexists _, _..|].
  apply first_ready_waited in Hr. apply IH; [lia|]. unfold second in *. lia.
Qed.

Lemma first_ready_interrupted now deadline pause t :
  first_ready now None deadline pause t <> Interrupted.
Proof.
  unfold first_ready. set (ready := filter _ _).
  destruct (nth _ ready _) as [t' w] eqn:Hn. intros ->.
  destruct (nth_in_or_default (t mod length ready) ready (now + pause, Waited)) as [Hin|Hd].
  - rewrite Hn in Hin. apply list_elem_of_In, list_elem_of_filter in Hin as [_ Hin].
    rewrite list_elem_of_In in Hin. simpl in Hin. naive_solver.
  - congruence.
Qed.

Lemma retry_loop_result fuel n now r k :
  retry_loop attempt signal tie interrupted fuel n now = Some (r, k) ->
  (n <= k < n + fuel)%nat
  /\ (forall j, (n <= j < k)%nat -> is_ok (snd (attempt j)) = false)
  /\ match r with
     | Ok a => snd (attempt k) = Ok a
     | Err e => is_ok (snd (attempt k)) = false
                /\ (snd (attempt k) = Err e \/ signal <> None /\ e = interrupted)
     end.
Proof.
  revert n now. induction fuel as [|fuel IH]; intros n now; simpl; [done|].
  destruct (attempt n) as [took [a|e]] eqn:Ha.
  { intros [= <- <-]. rewrite Ha. split_and!; [lia..| |done]. intros. lia. }
  destruct (first_ready _ _ _ _ _) eqn:Hr.
  - intros [= <- <-]. rewrite Ha. split_and!; [lia|lia|intros; lia|done|]. right. split; [|done].
    intros E. rewrite E in Hr. by eapply first_ready_interrupted.
  - intros [= <- <-]. rewrite Ha. split_and!; [lia|lia|intros; lia|done|by left].
  - intros (Hk & Hearly & Hres)%IH. split_and!; [lia..| |done]. intros j Hj.
    destruct (decide (j = n)) as [->|Hne]; [by rewrite Ha|]. apply Hearly. lia.
Qed.

(** C34: connecting with retries terminates.  However the attempts turn out, as
    long as they take no negative time, the loop makes at most thirty-one of them
    before it returns; it returns the first success, the interruption, or the
    error of the last attempt, and every earlier attempt failed. *)
Theorem connect_with_retry_terminates :
  (forall k, 0 <= fst (attempt k)) ->
  exists r k, connect_with_retry attempt signal tie interrupted = Some (r, k)
    /\ (k <= 30)%nat
    /\ (forall j, (j < k)%nat -> is_ok (snd (attempt j)) = false)
    /\ match r with
       | Ok a => snd (attempt k) = Ok a
       | Err e => is_ok (snd (attempt k)) = false
                  /\ (snd (attempt k) = Err e \/ signal <> None /\ e = interrupted)
       end.
Proof.
  intros Hpos. unfold connect_with_retry.
  destruct (retry_loop_ends 31 0 0 Hpos) as (r & k & Hrun); [lia|unfold second; lia|].
  exists r, k. split; [done|].
  destruct (retry_loop_result _ _ _ _ _ Hrun) as (Hk & Hearly & Hres).
  split_and!; [lia| |done]. intros j Hj. apply Hearly. lia.
Qed.

End RetryFacts.

(** ** Instances *)

Lemma connect_with_retry_terminates_witness :
  exists r k, connect_with_retry (A := unit) (fun _ => (1, Err (Text "refused"))) None (fun n => n)
                (Text "context canceled") = Some (r, k) /\ (k <= 30)%nat.
Proof.
  destruct (connect_with_retry_terminates (A := unit) (fun _ => (1, Err (Text "refused"))) None
              (fun n => n) (Text "context canceled") ltac:(simpl; lia)) as (r & k & H & Hk & _).
  exists r, k. exact (conj H Hk).
Defined.

(** The broker refuses the consumer's fourth call: nothing stays open. *)
Lemma connections_balanced_witness :
  let fault := fun n => if Nat.eqb n 3 then Some (Text "channel exception") else None in
  match NewRabbitConsumer fault (mkWire 0 []) with
  | (Err _, w') => held w' = (0, 0)
  | (Ok _, w') => held w' = (1, 1) /\ held (snd (Close fault w')) = (0, 0)
  end.
Proof.
  intros fault.
  exact (connections_balanced fault [] (mkWire 0 []) (NewRabbitConsumer fault)
           (list_elem_of_further _ _ _ (list_elem_of_here _ _))).
Defined.
