(* ===== verification/Migrations.v ===== *)
(** Schema migrations, [internal/postgres/migrations.go].

    The database behind [migrationExecutor] is the recorded versions, the
    advisory lock and a schema the bodies act on; what a body does to the schema
    is a parameter, the text of the embedded file its only argument.  Every
    statement may fail, before the server has executed it or after, when only its
    answer is lost; and a body that fails may leave a part of its work behind. *)
From stdpp Require Import sorting.
From S2P Require Import Prelude GoStrings Api Settings.

(** An entry of the embedded directory. *)
Record DirEntry := mkDirEntry {
  entry_name : string;
  entry_is_dir : bool;
  (** the file's text, or the failure to read it *)
  entry_body : result string
}.

(** How a statement fails: it does not reach the server, or the server executes
    it and the answer does not come back. *)
Inductive StatementFault :=
| Unsent (e : error)
| Unanswered (e : error).

Section Migrations.
Context {Sch : Type}.

Record MigrationDb := mkMigrationDb {
  mdb_schema : Sch;
  (** [None] until the table exists *)
  mdb_versions : option (gset string);
  mdb_locked : bool;
  mdb_calls : nat;
  (** the bodies executed, by version *)
  mdb_applied : list string
}.

(** the failure of the n-th statement, and what a body does *)
Variable fault : nat -> option StatementFault.
Variable run_body : string -> M Sch unit.
(** [migrationsFS.ReadDir("migrations")] *)
Variable read_dir : result (list DirEntry).

Definition statement {A} (f : MigrationDb -> result A * MigrationDb) : M MigrationDb A :=
  fun db =>
    let next db := mkMigrationDb (mdb_schema db) (mdb_versions db) (mdb_locked db)
                     (Datatypes.S (mdb_calls db)) (mdb_applied db) in
    match fault (mdb_calls db) with
    | Some (Unsent e) => (Err e, next db)
    | Some (Unanswered e) => (Err e, snd (f (next db)))
    | None => f (next db)
    end.

Definition set_lock (b : bool) (db : MigrationDb) : MigrationDb :=
  mkMigrationDb (mdb_schema db) (mdb_versions db) b (mdb_calls db) (mdb_applied db).

Definition set_versions (v : gset string) (db : MigrationDb) : MigrationDb :=
  mkMigrationDb (mdb_schema db) (Some v) (mdb_locked db) (mdb_calls db) (mdb_applied db).

Definition versions (db : MigrationDb) : gset string := default ∅ (mdb_versions db).

(** [CREATE TABLE IF NOT EXISTS schema_migrations ..]. *)
Definition ensureSchemaMigrations : M MigrationDb unit :=
  annotate "ensure schema_migrations: "
    (statement (fun db => (Ok tt, set_versions (versions db) db))).

Definition undefined_table : error :=
  PgError "42P01" "relation schema_migrations does not exist".

Definition migrationApplied (version : string) : M MigrationDb bool :=
  annotate ("check migration " +:+ version +:+ ": ")
    (statement (fun db => match mdb_versions db with
                          | None => (Err undefined_table, db)
                          | Some vs => (Ok (bool_decide (version ∈ vs)), db)
                          end)).

(** [db.ExecContext(ctx, string(body))]. *)
Definition exec_body (version body : string) : M MigrationDb unit :=
  statement (fun db =>
    let (r, sch) := run_body body (mdb_schema db) in
    (r, mkMigrationDb sch (mdb_versions db) (mdb_locked db) (mdb_calls db)
          (mdb_applied db ++ [version]))).

Definition record_version (version : string) : M MigrationDb unit :=
  statement (fun db => match mdb_versions db with
                       | None => (Err undefined_table, db)
                       | Some vs => (Ok tt, set_versions ({[version]} ∪ vs) db)
                       end).

(** [strings.HasSuffix] and [strings.TrimSuffix]. *)
Definition TrimSuffix (s suffix : string) : string :=
  match CutPrefix (String.rev s) (String.rev suffix) with
  | Some rest => String.rev rest
  | None => s
  end.

Definition HasSuffix (s suffix : string) : bool := HasPrefix (String.rev s) (String.rev suffix).

(** The names of the migration files, sorted. *)
Definition migration_names (entries : list DirEntry) : list string :=
  sort_strings
    (map entry_name
       (filter (fun e => negb (entry_is_dir e) && HasSuffix (entry_name e) ".sql" = true) entries)).

(** [migrationsFS.ReadFile("migrations/" + name)]. *)
Definition read_file (entries : list DirEntry) (name : string) : result string :=
  match list_find (fun e => entry_name e = name) entries with
  | Some (_, e) => entry_body e
  | None => Err (Text "file does not exist")
  end.

(** The body of the loop. *)
Definition migrate_one (entries : list DirEntry) (name : string) : M MigrationDb unit :=
  let version := TrimSuffix name ".sql" in
  let! applied := migrationApplied version in
  if applied then ret tt else
  let! body := annotate ("read migration " +:+ name +:+ ": ")
                 (fun db => (read_file entries name, db)) in
  let! _ := annotate ("apply migration " +:+ name +:+ ": ") (exec_body version body) in
  annotate ("record migration " +:+ name +:+ ": ") (record_version version).

Definition migrate_all : M MigrationDb unit :=
  let! _ := ensureSchemaMigrations in
  let! entries := annotate "read migrations: " (fun db => (read_dir, db)) in
  for_each (migrate_one entries) (migration_names entries).

(** [pg_advisory_lock] waits until the lock is free, then takes it; the
    unlocking is deferred and its error returned only when there is no other. *)
Definition runMigrations : M MigrationDb unit :=
  let! _ := annotate "acquire migration lock: "
              (statement (fun db => (Ok tt, set_lock true db))) in
  fun db =>
    let (r, db) := migrate_all db in
    let (u, db) := annotate "release migration lock: "
                     (statement (fun db => (Ok tt, set_lock false db))) db in
    (match r with Ok _ => u | Err e => Err e end, db).

(** [db.Conn] may fail before anything is done. *)
Definition RunMigrations (conn : result unit) : M MigrationDb unit :=
  fun db => match conn with
            | Err e => (Err (Wrap "open migration connection: " e ""), db)
            | Ok _ => runMigrations db
            end.

(** [main] of [cmd/fulfillhub-migrate]; its timeout is one of the causes a
    statement fails for. *)
Definition migrate_main (getenv : string -> string) (open_store : string -> result unit)
    (conn : result unit) (db : MigrationDb) : result unit * MigrationDb :=
  match migrate_loadSettings getenv with
  | Err e => (Err (Wrap "load settings: " e ""), db)
  | Ok cfg =>
      match open_store (migrate_databaseURL cfg) with
      | Err e => (Err (Wrap "open postgres: " e ""), db)
      | Ok _ => annotate "run postgres migrations: " (RunMigrations conn) db
      end
  end.

(** ** Specification *)

Definition version_of (name : string) : string := TrimSuffix name ".sql".

(** The versions a run has to apply, in the order of the names. *)
Fixpoint pending (recorded : gset string) (names : list string) : list string :=
  match names with
  | [] => []
  | name :: names =>
      let v := version_of name in
      if bool_decide (v ∈ recorded) then pending recorded names
      else v :: pending ({[v]} ∪ recorded) names
  end.

Lemma pending_ext vs vs' names : vs ≡ vs' -> pending vs names = pending vs' names.
Proof. intros ->%leibniz_equiv. done. Qed.

(** What is left once a part is recorded. *)
Lemma pending_resume vs names d r :
  pending vs names = d ++ r -> pending (vs ∪ list_to_set d) names = r.
Proof.
  revert vs d. induction names as [|name names IH]; intros vs d; simpl.
  { intros E. by destruct d, r. }
  destruct (bool_decide_reflect (version_of name ∈ vs)) as [Hin|Hout].
  - intros E. rewrite bool_decide_eq_true_2 by set_solver. by apply IH.
  - destruct d as [|x d]; simpl.
    + intros <-. rewrite bool_decide_eq_false_2 by set_solver. f_equal.
      apply pending_ext. set_solver.
    + intros [= -> E]. rewrite bool_decide_eq_true_2 by set_solver. apply IH in E.
      rewrite <- E. apply pending_ext. set_solver.
Qed.

Lemma pending_recorded vs names :
  vs ∪ list_to_set (map version_of names) ≡@{gset string} vs ∪ list_to_set (pending vs names).
Proof.
  revert vs. induction names as [|name names IH]; intros vs; simpl; [done|].
  destruct (bool_decide_reflect (version_of name ∈ vs)) as [Hin|Hout].
  - rewrite <- IH. set_solver.
  - simpl. specialize (IH ({[version_of name]} ∪ vs)). set_solver.
Qed.

(** ** Facts *)

(** What the loop leaves: on success everything pending was executed and
    recorded in order, on failure a part of it, and perhaps the next body without
    its record. *)
Definition progressed (vs : gset string) (names : list string) (db : MigrationDb)
    (r : result unit) (db' : MigrationDb) : Prop :=
  mdb_locked db' = mdb_locked db
  /\ exists d rest extra,
       pending vs names = d ++ rest
       /\ mdb_applied db' = mdb_applied db ++ d ++ extra
       /\ mdb_versions db' = Some (vs ∪ list_to_set d)
       /\ match r with
          | Ok _ => rest = [] /\ extra = []
          | Err _ => extra = [] \/ exists v rest', rest = v :: rest' /\ extra = [v]
          end.

Lemma progressed_stop vs names db e db' :
  mdb_locked db' = mdb_locked db -> mdb_applied db' = mdb_applied db ->
  mdb_versions db' = Some vs -> progressed vs names db (Err e) db'.
Proof.
  intros Hl Ha Hv. split; [done|]. exists [], (pending vs names), [].
  split; [done|]. split; [by rewrite app_nil_r|]. split; [rewrite Hv; f_equal; set_solver|by left].
Qed.

Lemma migrate_one_outcome entries name vs db :
  mdb_versions db = Some vs ->
  let v := version_of name in
  match migrate_one entries name db with
  | (Ok _, db') =>
      mdb_locked db' = mdb_locked db
      /\ if bool_decide (v ∈ vs)
         then mdb_versions db' = Some vs /\ mdb_applied db' = mdb_applied db
              /\ mdb_schema db' = mdb_schema db
         else mdb_versions db' = Some ({[v]} ∪ vs) /\ mdb_applied db' = mdb_applied db ++ [v]
  | (Err _, db') =>
      mdb_locked db' = mdb_locked db
      /\ (mdb_versions db' = Some vs /\ mdb_applied db' = mdb_applied db
          \/ bool_decide (v ∈ vs) = false /\ mdb_applied db' = mdb_applied db ++ [v]
             /\ (mdb_versions db' = Some vs \/ mdb_versions db' = Some ({[v]} ∪ vs)))
  end.
Proof.
  intros Hv v. unfold migrate_one. fold (version_of name). fold v.
  unfold migrationApplied, exec_body, record_version, annotate, statement, bind, ret.
  destruct (fault (mdb_calls db)) as [[e|e]|]; simpl; rewrite ?Hv; simpl; [by auto..|].
  destruct (bool_decide (v ∈ vs)) eqn:Hin; [done|].
  destruct (read_file entries name) as [body|]; simpl; [|by auto].
  destruct (fault (Datatypes.S (mdb_calls db))) as [[e|e]|]; simpl; [by auto|..].
  { destruct (run_body body (mdb_schema db)) as [r sch]. simpl. split; [done|]. right. auto. }
  destruct (run_body body (mdb_schema db)) as [[[]|] sch]; simpl; [|by auto 6].
  destruct (fault (Datatypes.S (Datatypes.S (mdb_calls db)))) as [[e|e]|]; simpl; [by auto 6..|done].
Qed.

Lemma migrate_loop_progress entries names vs db :
  mdb_versions db = Some vs ->
  let (r, db') := for_each (migrate_one entries) names db in progressed vs names db r db'.
Proof.
  revert vs db. induction names as [|name names IH]; intros vs db Hv; simpl.
  { split; [done|]. exists [], [], []. rewrite Hv.
    split_and!; try done; [by rewrite app_nil_r|f_equal; set_solver]. }
  pose proof (migrate_one_outcome entries name vs db Hv) as Hone. unfold bind. simpl in Hone.
  destruct (migrate_one entries name db) as [[[]|e] db1].
  - destruct Hone as [Hl Hone].
    destruct (bool_decide_reflect (version_of name ∈ vs)) as [Hin|Hout].
    + destruct Hone as (Hv1 & Ha1 & _). specialize (IH vs db1 Hv1).
      destruct (for_each _ names db1) as [r db']. destruct IH as [Hl' IH].
      split; [congruence|]. simpl. rewrite bool_decide_eq_true_2 by done. by rewrite <- Ha1.
    + destruct Hone as (Hv1 & Ha1). specialize (IH _ db1 Hv1).
      destruct (for_each _ names db1) as [r db'].
      destruct IH as [Hl' (d & rest & extra & Hp & Ha & Hvs & Hr)].
      split; [congruence|]. exists (version_of name :: d), rest, extra. simpl.
      rewrite bool_decide_eq_false_2 by done. rewrite Hp, Ha, Ha1, Hvs, <- app_assoc.
      split_and!; try done. f_equal. set_solver.
  - destruct Hone as (Hl & [[Hv1 Ha]|(Hin & Ha & [Hv1|Hv1])]); [by apply progressed_stop|..];
      (split; [done|]); simpl; rewrite Hin.
    + eexists [], _, [_]. split; [done|]. split; [exact Ha|]. split; [rewrite Hv1; f_equal; set_solver|].
      right. eauto.
    + eexists [_], _, []. split; [done|]. split; [exact Ha|]. split; [rewrite Hv1; f_equal; set_solver|].
      by left.
Qed.

(** What a run leaves, from the versions recorded before it. *)
Definition migrated (names : list string) (db : MigrationDb) (r : result unit)
    (db' : MigrationDb) : Prop :=
  exists d rest extra,
    pending (versions db) names = d ++ rest
    /\ mdb_applied db' = mdb_applied db ++ d ++ extra
    /\ versions db' = versions db ∪ list_to_set d
    /\ (r = Ok tt -> rest = [] /\ extra = [] /\ mdb_locked db' = false)
    /\ (extra = [] \/ exists v rest', rest = v :: rest' /\ extra = [v]).

Lemma migrated_none names db e db' :
  mdb_applied db' = mdb_applied db -> versions db' = versions db ->
  migrated names db (Err e) db'.
Proof.
  intros Ha Hv. exists [], (pending (versions db) names), [].
  split_and!; try done; [by rewrite app_nil_r|set_solver|by left].
Qed.

Lemma migrate_all_progress entries db :
  read_dir = Ok entries ->
  let (r, db') := migrate_all db in
  (exists e, r = Err e /\ mdb_applied db' = mdb_applied db /\ versions db' = versions db)
  \/ progressed (versions db) (migration_names entries) db r db'.
Proof.
  intros Hread. unfold migrate_all, ensureSchemaMigrations, annotate, statement, bind. rewrite Hread.
  destruct (fault (mdb_calls db)) as [[e|e]|]; simpl; [left; by eexists..|].
  lazymatch goal with |- context [for_each _ _ ?d] =>
    pose proof (migrate_loop_progress entries (migration_names entries) (versions db) d eq_refl) as H
  end.
  destruct (for_each _ _ _) as [r db']. by right.
Qed.

Lemma run_migrated entries db :
  read_dir = Ok entries ->
  let (r, db') := runMigrations db in migrated (migration_names entries) db r db'.
Proof.
  intros Hread. unfold runMigrations, annotate, statement, bind.
  destruct (fault (mdb_calls db)) as [[e|e]|]; simpl; [by apply migrated_none..|].
  lazymatch goal with |- context [migrate_all ?d] =>
    pose proof (migrate_all_progress entries d Hread) as H
  end.
  destruct (migrate_all _) as [r db1]. simpl.
  destruct H as [(e & -> & Ha & Hv)|(Hl & d & rest & extra & Hp & Ha & Hvs & Hr)].
  { destruct (fault (mdb_calls db1)) as [[]|]; by apply migrated_none. }
  assert (versions db1 = versions db ∪ list_to_set d) as Hv1 by (unfold versions at 1; by rewrite Hvs).
  destruct r as [[]|]; [destruct Hr as [-> ->]|];
    (destruct (fault (mdb_calls db1)) as [[]|]; eexists d, _, _; split_and!; try done); auto.
Qed.

(** The unlocking is the last statement of every run that took the lock. *)
Lemma run_unlocks db :
  let db' := (runMigrations db).2 in
  fault (mdb_calls db) = None ->
  exists n, mdb_calls db' = Datatypes.S n /\ (fault n = None -> mdb_locked db' = false).
Proof.
  cbv zeta. unfold runMigrations, annotate, statement, bind. intros ->. simpl.
  destruct (migrate_all _) as [r db1]. exists (mdb_calls db1).
  by destruct (fault (mdb_calls db1)) as [[]|].
Qed.

#[local] Instance string_le_total : Total string_le.
Proof. intros a b. unfold string_le. destruct (String.leb_total a b) as [->| ->]; auto. Qed.

(** C33: An interrupted migration run resumes where it stopped.  Whatever
    statements fail, before or after the server has executed them, a run executes the pending files in ascending order of
    their names and records each before the next; the run after it starts at the
    first unrecorded one, so that over both every pending body is executed once,
    except that the one in flight may be executed twice; a successful run leaves
    every file recorded and the lock released, and the next executes nothing. *)
Theorem migrations_resume entries db r1 db1 db2 r3 db3 :
  let names := migration_names entries in
  read_dir = Ok entries ->
  runMigrations db = (r1, db1) -> runMigrations db1 = (Ok tt, db2) ->
  runMigrations db2 = (r3, db3) ->
  Sorted string_le names
  /\ (exists d twice rest,
     pending (versions db) names = d ++ rest
     /\ (twice = [] \/ exists v rest', rest = v :: rest' /\ twice = [v])
     /\ mdb_applied db2 = mdb_applied db ++ d ++ twice ++ rest
     /\ (r1 = Ok tt -> twice = [] /\ rest = []))
  /\ versions db2 = versions db ∪ list_to_set (map version_of names)
  /\ mdb_locked db2 = false
  /\ mdb_applied db3 = mdb_applied db2
  /\ (fault (mdb_calls db) = None ->
      exists n, mdb_calls db1 = Datatypes.S n /\ (fault n = None -> mdb_locked db1 = false)).
Proof.
  intros names Hread R1 R2 R3.
  pose proof (run_unlocks db) as Hlock. rewrite R1 in Hlock.
  pose proof (run_migrated entries db Hread) as M1. rewrite R1 in M1.
  pose proof (run_migrated entries db1 Hread) as M2. rewrite R2 in M2.
  pose proof (run_migrated entries db2 Hread) as M3. rewrite R3 in M3.
  fold names in M1, M2, M3.
  destruct M1 as (d1 & rest1 & x1 & Hp1 & Ha1 & Hv1 & Hok1 & Hx1).
  destruct M2 as (d2 & rest2 & x2 & Hp2 & Ha2 & Hv2 & Hok2 & _).
  destruct (Hok2 eq_refl) as (-> & -> & Hl). rewrite app_nil_r in Hp2, Ha2.
  assert (d2 = rest1) as -> by (rewrite <- Hp2, Hv1; by apply pending_resume).
  assert (versions db2 = versions db ∪ list_to_set (map version_of names)) as Hv.
  { apply leibniz_equiv. rewrite pending_recorded, Hp1, Hv2, Hv1, list_to_set_app. set_solver. }
  assert (pending (versions db2) names = []) as Hdone.
  { rewrite Hv2. apply pending_resume. by rewrite Hp2, app_nil_r. }
  destruct M3 as (d3 & rest3 & x3 & Hp3 & Ha3 & _ & _ & Hx3).
  rewrite Hdone in Hp3. symmetry in Hp3. apply app_nil in Hp3 as [-> ->].
  assert (x3 = []) as -> by naive_solver. rewrite app_nil_r in Ha3.
  split_and!; try done; [apply (Sorted_merge_sort _)|]. exists d1, x1, rest1.
  split_and!; try done; [by rewrite Ha2, Ha1, <- !app_assoc|naive_solver].
Qed.

End Migrations.

Arguments MigrationDb : clear implicits.
Arguments mkMigrationDb {Sch}.
#[global] Arguments mdb_schema {Sch}.
#[global] Arguments mdb_versions {Sch}.
#[global] Arguments mdb_locked {Sch}.
#[global] Arguments mdb_calls {Sch}.
#[global] Arguments mdb_applied {Sch}.

(** ** The repository's files, with a connection lost at the third record *)

Definition sample_entries : list DirEntry :=
  map (fun v => mkDirEntry (v +:+ ".sql") false (Ok ("-- " +:+ v)))
    ["014_outbox_claims"; "001_init"; "002_audit_details"; "003_fulfillment_projections";
     "004_notification_events"; "005_compensation_events"; "006_outbox_causation";
     "007_inventory_catalog"; "008_orders_merchant_fk"; "009_stock_reservation_warehouse";
     "010_demo_inventory_seed"; "011_order_status_check"; "012_order_provider_references";
     "013_projection_status_checks"]
  ++ [mkDirEntry "README.md" false (Ok "notes"); mkDirEntry "old.sql" true (Err (Text "is a directory"))].

Definition sample_fault (n : nat) : option StatementFault :=
  if (n =? 10)%nat then Some (Unsent (Text "connection reset")) else None.

Definition sample_body (body : string) : M (list string) unit := fun sch => (Ok tt, sch ++ [body]).

Definition sample_run := runMigrations sample_fault sample_body (Ok sample_entries).

Definition sample_db : MigrationDb (list string) := mkMigrationDb [] None false 0 [].

Lemma migrations_resume_witness :
  let db1 := (sample_run sample_db).2 in
  let db2 := (sample_run db1).2 in
  (sample_run sample_db).1 <> Ok tt
  /\ (sample_run db1).1 = Ok tt
  /\ length (mdb_applied db2) = 15%nat
  /\ versions db2 = ∅ ∪ list_to_set (map version_of (migration_names sample_entries))
  /\ mdb_applied (sample_run db2).2 = mdb_applied db2.
Proof.
  intros db1 db2.
  assert ((sample_run db1).1 = Ok tt) as E by (vm_compute; reflexivity).
  pose proof (migrations_resume sample_fault sample_body (Ok sample_entries) sample_entries sample_db
    (sample_run sample_db).1 db1 db2 (sample_run db2).1 (sample_run db2).2 eq_refl
    (surjective_pairing _) (eq_trans (surjective_pairing _) (f_equal (fun r => (r, db2)) E))
    (surjective_pairing _)) as (_ & _ & Hv & _ & Ha & _).
  split; [vm_compute; discriminate|]. split; [exact E|]. split; [vm_compute; reflexivity|].
  split; [exact Hv|exact Ha].
Defined.
