(* ===== verification/RelayProcess.v ===== *)
(** The relay process, [cmd/fulfillhub-outbox-relay/main.go]: its start and its
    loop around the relay, over any outbox source and over the PostgreSQL store. *)
From S2P Require Import Prelude GoStrings GoTime GoDuration Model Relay.
From S2P Require Import Database PgStore PgAtomic PgStock PgOrders PgOutbox PgSamples.
From S2P Require Import Service Api Settings.

(** ** The process *)

(** What the outside answers while the process starts. *)
Record RelayWorld := mkRelayWorld {
  rw_exporter : string -> result unit;
  rw_open : string -> result unit;
  rw_migrate : result unit;
  (** [newRabbitPublisherWithRetry] *)
  rw_publisher : string -> result unit
}.

Definition relay_start (getenv : string -> string) (env : Env) (world : RelayWorld)
    : result (Z * Duration) :=
  match ConfigureTracing getenv env (rw_exporter world) "fulfillhub-outbox-relay" with
  | Err e => Err e
  | Ok _ =>
      let databaseURL := getenv "DATABASE_URL" in
      if String.eqb databaseURL "" then Err (Text "DATABASE_URL is required") else
      let rabbitURL := getenv "RABBITMQ_URL" in
      if String.eqb rabbitURL "" then Err (Text "RABBITMQ_URL is required") else
      match rw_open world databaseURL with
      | Err e => Err e
      | Ok _ =>
          match rw_migrate world with
          | Err e => Err e
          | Ok _ =>
              match rw_publisher world rabbitURL with
              | Err e => Err e
              | Ok _ =>
                  match relayBatchSize getenv with
                  | Err e => Err e
                  | Ok batchSize =>
                      match relayInterval getenv with
                      | Err e => Err e
                      | Ok interval => Ok (batchSize, interval)
                      end
                  end
              end
          end
      end
  end.

Section Process.
Context {S P : Type}.
Variable source : OutboxSource S.
Variable publisher : Publisher P.
Variable clock : nat -> Time.
Variable batchSize : Z.
(** whether the n-th [select] sees the context done before the interval is over *)
Variable stop : nat -> bool.

(** The loop.  A full batch is followed by the next one at once; [None] is a
    loop that is still running after [fuel] rounds. *)
Fixpoint relay_rounds (fuel pauses : nat) (st : RelayState S P) : option (RelayState S P) :=
  match fuel with
  | O => None
  | Datatypes.S fuel =>
      let '((published, _), st) := RunOnce source publisher clock batchSize st in
      if published =? batchSize then relay_rounds fuel pauses st
      else if stop pauses then Some st
      else relay_rounds fuel (Datatypes.S pauses) st
  end.

End Process.

Lemma relay_start_batch getenv env world batchSize interval :
  relay_start getenv env world = Ok (batchSize, interval) -> 0 < batchSize.
Proof.
  unfold relay_start, relayBatchSize. intros H. repeat case_match; simplify_eq; lia.
Qed.

(** [main]: the error it dies with, or its loop. *)
Definition relay_main {S P} (getenv : string -> string) (env : Env) (world : RelayWorld)
    (source : OutboxSource S) (publisher : Publisher P) (clock : nat -> Time)
    (stop : nat -> bool) (fuel : nat) (st : RelayState S P)
    : result (option (RelayState S P)) :=
  match relay_start getenv env world with
  | Err e => Err e
  | Ok (batchSize, _) => Ok (relay_rounds source publisher clock batchSize stop fuel 0 st)
  end.

(** ** What the process needs of its source and publisher *)

(** [ol_unsent] are the messages not yet published; [ol_idle X] says that none
    of them outside [X] is under a lease, now or later. *)
Class OutboxLaws {S} (source : OutboxSource S) := {
  ol_ok : S -> Prop;
  ol_unsent : S -> gset string;
  ol_idle : gset string -> S -> Prop;
  ol_pending limit s :
    ol_ok s -> ol_idle ∅ s -> 0 < limit ->
    exists es s', PendingOutboxEvents source limit s = (Ok es, s')
      /\ ol_ok s' /\ ol_unsent s' = ol_unsent s
      /\ NoDup (map Event_MessageID es)
      /\ list_to_set (map Event_MessageID es) ⊆ ol_unsent s
      /\ Z.of_nat (length es) = Z.min limit (Z.of_nat (size (ol_unsent s)))
      /\ ol_idle (list_to_set (map Event_MessageID es)) s';
  ol_mark id at_ s :
    ol_ok s -> id ∈ ol_unsent s ->
    exists s', MarkOutboxPublished source id at_ s = (Ok tt, s')
      /\ ol_ok s' /\ ol_unsent s' = ol_unsent s ∖ {[id]}
      /\ forall X, ol_idle X s -> ol_idle (X ∖ {[id]}) s'
}.

(** A publisher whose broker takes everything. *)
Class Accepting {P} (publisher : Publisher P) := {
  acc_sent : P -> list OutboxEvent;
  acc_publish e p :
    exists p', Publish publisher e p = (Ok tt, p') /\ acc_sent p' = acc_sent p ++ [e]
}.

Section Drain.
Context {S P : Type} (source : OutboxSource S) (publisher : Publisher P).
Context {OL : OutboxLaws source} {AP : Accepting publisher}.
Variable clock : nat -> Time.

Notation ids es := (list_to_set (map Event_MessageID es) : gset string).

(** What sending [es] does to the two sides. *)
Record sent_all (es : list OutboxEvent) (st st' : RelayState S P) : Prop := {
  sa_ok : ol_ok (rs_source st');
  sa_unsent : ol_unsent (rs_source st') = ol_unsent (rs_source st) ∖ ids es;
  sa_idle : ol_idle ∅ (rs_source st');
  sa_sent : acc_sent (rs_publisher st') = acc_sent (rs_publisher st) ++ es
}.

Lemma relay_event_sends e st :
  ol_ok (rs_source st) -> Event_MessageID e ∈ ol_unsent (rs_source st) ->
  exists st', relay_event source publisher clock e st = (Ok tt, st')
    /\ ol_ok (rs_source st')
    /\ ol_unsent (rs_source st') = ol_unsent (rs_source st) ∖ {[Event_MessageID e]}
    /\ (forall X, ol_idle X (rs_source st) -> ol_idle (X ∖ {[Event_MessageID e]}) (rs_source st'))
    /\ acc_sent (rs_publisher st') = acc_sent (rs_publisher st) ++ [e].
Proof.
  intros Hok Hin. destruct (acc_publish e (rs_publisher st)) as (p' & Hp & Hsent).
  destruct (ol_mark (Event_MessageID e) (clock (rs_ticks st)) (rs_source st) Hok Hin)
    as (s' & Hm & Hok' & Hun & Hidle).
  exists (mkRelayState s' p' (Datatypes.S (rs_ticks st))).
  unfold relay_event, bind, annotate, on_publisher, on_source, relay_clock.
  rewrite Hp. simpl. rewrite Hm. done.
Qed.

Lemma relay_loop_sends es k st :
  ol_ok (rs_source st) -> NoDup (map Event_MessageID es) -> ids es ⊆ ol_unsent (rs_source st) ->
  ol_idle (ids es) (rs_source st) ->
  exists st', relay_loop source publisher clock k es st = ((k + Z.of_nat (length es), None), st')
    /\ sent_all es st st'.
Proof.
  revert k st. induction es as [|e es IH]; intros k st Hok Hnd Hsub Hidle; simpl.
  { exists st. split; [by rewrite Z.add_0_r|]. split; [done|set_solver|done|by rewrite app_nil_r]. }
  apply NoDup_cons in Hnd as [Hnew Hnd]. simpl in Hsub.
  destruct (relay_event_sends e st Hok) as (st1 & -> & Hok1 & Hun1 & Hidle1 & Hsent1); [set_solver|].
  assert (Hnot : Event_MessageID e ∉ ids es) by set_solver.
  destruct (IH (k + 1) st1 Hok1 Hnd) as (st' & -> & [Hok' Hun' Hi' Hs']).
  - rewrite Hun1. set_solver.
  - specialize (Hidle1 _ Hidle). simpl in Hidle1.
    assert (({[Event_MessageID e]} ∪ ids es) ∖ {[Event_MessageID e]} = ids es) as E by set_solver.
    by rewrite E in Hidle1.
  - exists st'. split; [f_equal; f_equal; lia|]. split; [done| |done|].
    + rewrite Hun', Hun1. simpl. set_solver.
    + by rewrite Hs', Hsent1, <- app_assoc.
Qed.

Lemma run_once_sends limit st :
  ol_ok (rs_source st) -> ol_idle ∅ (rs_source st) -> 0 < limit ->
  exists es st', RunOnce source publisher clock limit st = ((Z.of_nat (length es), None), st')
    /\ Z.of_nat (length es) = Z.min limit (Z.of_nat (size (ol_unsent (rs_source st))))
    /\ NoDup (map Event_MessageID es) /\ ids es ⊆ ol_unsent (rs_source st)
    /\ sent_all es st st'.
Proof.
  intros Hok Hidle Hlim. unfold RunOnce, on_source.
  destruct (ol_pending limit (rs_source st) Hok Hidle Hlim)
    as (es & s' & -> & Hok' & Hun & Hnd & Hsub & Hlen & Hidle').
  destruct (relay_loop_sends es 0 (mkRelayState s' (rs_publisher st) (rs_ticks st)) Hok' Hnd)
    as (st' & -> & [H1 H2 H3 H4]); [simpl; by rewrite Hun|done|].
  simpl in *. rewrite Hun in H2. exists es, st'. split_and!; try done.
Qed.

Lemma ids_size es : NoDup (map Event_MessageID es) -> size (ids es) = length es.
Proof. intros Hnd. rewrite size_list_to_set by done. by rewrite length_map. Qed.

(** The loop sends everything and comes to rest. *)
Lemma relay_rounds_drain batchSize stop k fuel pauses st :
  0 < batchSize -> stop k = true -> (pauses <= k)%nat ->
  (size (ol_unsent (rs_source st)) + (k - pauses) < fuel)%nat ->
  ol_ok (rs_source st) -> ol_idle ∅ (rs_source st) ->
  exists st' es, relay_rounds source publisher clock batchSize stop fuel pauses st = Some st'
    /\ ol_unsent (rs_source st') = ∅
    /\ acc_sent (rs_publisher st') = acc_sent (rs_publisher st) ++ es
    /\ NoDup (map Event_MessageID es) /\ ids es = ol_unsent (rs_source st).
Proof.
  intros Hb Hk. revert pauses st.
  induction fuel as [|fuel IH]; intros pauses st Hle Hfuel Hok Hidle; [lia|].
  destruct (run_once_sends batchSize st Hok Hidle Hb)
    as (es & st1 & Hrun & Hlen & Hnd & Hsub & [Hok1 Hun1 Hidle1 Hsent1]).
  simpl. rewrite Hrun.
  assert (Hsize : size (ol_unsent (rs_source st1))
                  = (size (ol_unsent (rs_source st)) - length es)%nat).
  { by rewrite Hun1, size_difference, (ids_size es Hnd). }
  assert (Hgo : forall pauses', (pauses' <= k)%nat ->
    (size (ol_unsent (rs_source st1)) + (k - pauses') < fuel)%nat ->
    exists st' es', relay_rounds source publisher clock batchSize stop fuel pauses' st1 = Some st'
      /\ ol_unsent (rs_source st') = ∅
      /\ acc_sent (rs_publisher st') = acc_sent (rs_publisher st) ++ es'
      /\ NoDup (map Event_MessageID es') /\ ids es' = ol_unsent (rs_source st)).
  { intros pauses' Hle' Hf'.
    destruct (IH pauses' st1 Hle' Hf' Hok1 Hidle1) as (st' & es' & -> & Hempty & Hs & Hnd' & Hids).
    exists st', (es ++ es'). rewrite Hs, Hsent1, <- app_assoc, map_app, list_to_set_app_L, Hids, Hun1.
    split_and!; try done.
    - apply NoDup_app. split_and!; try done. intros x Hx Hx'.
      assert (Hx2 : x ∈ ids es') by (by apply elem_of_list_to_set). rewrite Hids, Hun1 in Hx2.
      apply elem_of_difference in Hx2 as [_ []]. by apply elem_of_list_to_set.
    - symmetry. apply union_difference_L. done. }
  destruct (Z.eqb_spec (Z.of_nat (length es)) batchSize) as [Hfull|Hpart].
  { apply Hgo; [done|]. lia. }
  destruct (stop pauses) eqn:Hstop.
  - exists st1, es. split_and!; try done.
    + apply leibniz_equiv, size_empty_inv. lia.
    + apply set_eq. intros x. split; [by apply Hsub|]. intros Hx.
      destruct (decide (x ∈ ids es)) as [|Hn]; [done|].
      assert (x ∈ ol_unsent (rs_source st1)) as Hx1 by (rewrite Hun1; set_solver).
      assert (ol_unsent (rs_source st1) = ∅) as E by (apply leibniz_equiv, size_empty_inv; lia).
      rewrite E in Hx1. by apply not_elem_of_empty in Hx1.
  - assert (pauses <> k) by congruence. apply Hgo; lia.
Qed.

End Drain.

(** ** Over the PostgreSQL store *)

Definition pg_source (env : PgEnv) : OutboxSource Conn :=
  mkOutboxSource (PgStore_PendingOutboxEvents env) (PgStore_MarkOutboxPublished env).

(** A server that fails no statement and whose clock does not go back. *)
Class SteadyServer (env : PgEnv) : Prop := {
  steady_reliable : reliable env;
  steady_clock n m : (n <= m)%nat -> pg_now env n <= pg_now env m
}.

Section PgDrain.
Context (env : PgEnv) {Hord : PgOrdering env} {Hsteady : SteadyServer env}.

Definition pending_rows (c : Conn) : list OutboxRow :=
  filter (fun r => row_pending r = true) (t_outbox_events (conn_db c)).

(** The outbox is consistent and its pending rows can be read. *)
Definition pg_outbox_ok (c : Conn) : Prop :=
  outbox_ok env (conn_db c)
  /\ Forall (fun r => is_ok (scanOutboxEvent env r) = true) (pending_rows c).

Definition pg_unsent (c : Conn) : gset string := list_to_set (map out_message_id (pending_rows c)).

Definition pg_idle (X : gset string) (c : Conn) : Prop :=
  Forall (fun r => out_message_id r ∉ X -> row_claimable (claim_time env c) r = true)
    (pending_rows c).

Lemma timestamptz_mono t t' : t <= t' -> timestamptz t <= timestamptz t'.
Proof. unfold timestamptz. intros. rewrite !Z.mod_eq by lia. pose proof (Z.div_le_mono t t' 1000). lia. Qed.

Lemma claimable_later t t' r : t <= t' -> row_claimable t r = true -> row_claimable t' r = true.
Proof. unfold row_claimable. destruct (out_published_at r), (out_claimed_until r); try done. lia. Qed.

Lemma claimable_pending t r : row_claimable t r = true -> row_pending r = true.
Proof. unfold row_claimable, row_pending. by destruct (out_published_at r). Qed.

(** A statement that rewrites rows one by one keeps the outbox consistent. *)
Lemma pg_outbox_ok_map f c c' :
  t_outbox_events (conn_db c') = map f (t_outbox_events (conn_db c)) ->
  (forall r, out_message_id (f r) = out_message_id r
             /\ scanOutboxEvent env (f r) = scanOutboxEvent env r
             /\ (row_pending (f r) = true -> row_pending r = true)) ->
  pg_outbox_ok c -> pg_outbox_ok c'.
Proof.
  intros E Hf [[Hu Hn] Hs]. split; [split|]; unfold pending_rows in *; rewrite ?E.
  - rewrite map_map. erewrite map_ext; [exact Hu|]. intros r. by destruct (Hf r) as [-> _].
  - apply Forall_fmap. eapply Forall_impl; [exact Hn|]. intros r Hr e. simpl.
    destruct (Hf r) as (-> & -> & _). apply Hr.
  - rewrite Forall_forall in *. intros x [Hp (r & -> & Hr)%list_elem_of_fmap]%list_elem_of_filter.
    destruct (Hf r) as (_ & -> & Hk). apply Hs, list_elem_of_filter. auto.
Qed.

Lemma scan_all rows :
  Forall (fun r => is_ok (scanOutboxEvent env r) = true) rows -> exists es, scan_events env rows = Ok es.
Proof.
  induction 1 as [|r rows Hr _ [es IH]]; [by eexists|]. simpl.
  destruct (scanOutboxEvent env r); [|done]. rewrite IH. by eexists.
Qed.

(** The row after a claim. *)
Definition claimed_row (limit : Z) (c : Conn) (r : OutboxRow) : OutboxRow :=
  if is_picked env limit (claim_time env c) (conn_db c) r then set_claim (claim_time env c) r else r.

Lemma claim_succeeds limit c :
  pg_outbox_ok c -> 0 < limit ->
  exists es, PgStore_PendingOutboxEvents env limit c
    = (Ok es, mkConn (set_outbox_events (map (claimed_row limit c) (t_outbox_events (conn_db c)))
                        (conn_db c)) (Datatypes.S (Datatypes.S (conn_calls c)))).
Proof.
  intros [Hok Hscan] Hlim. unfold PgStore_PendingOutboxEvents. rewrite (proj2 (Z.leb_gt limit 0)) by lia.
  unfold bind at 1, annotate at 1. erewrite call_reliable by (done || apply steady_reliable). simpl.
  set (rows := pg_returning env _).
  destruct (scan_all rows) as [es Hes].
  { unfold rows. rewrite pg_returned_rows. apply Forall_fmap, Forall_forall.
    intros r [Hp Hr]%list_elem_of_filter. rewrite Forall_forall in Hscan. apply (Hscan r).
    apply list_elem_of_filter. split; [|done].
    apply (is_picked_spec env) in Hp; [|apply Hok|done].
    apply (picked_claimable env) in Hp as [_ Hc].
    by eapply claimable_pending. }
  rewrite Hes. unfold bind, annotate, iterate. rewrite query_reliable by apply steady_reliable.
  by exists es.
Qed.

Lemma pending_rows_claimed limit c db n :
  t_outbox_events db = map (claimed_row limit c) (t_outbox_events (conn_db c)) ->
  pending_rows (mkConn db n) = map (claimed_row limit c) (pending_rows c).
Proof.
  intros E. unfold pending_rows. simpl. rewrite E.
  apply filter_map_same. intros r. unfold claimed_row. by destruct (is_picked _ _ _ _ r).
Qed.

Lemma claimed_row_id limit c r : out_message_id (claimed_row limit c r) = out_message_id r.
Proof. unfold claimed_row. by destruct (is_picked _ _ _ _ r). Qed.

Lemma idle_rows c : pg_idle ∅ c -> claimable_rows env c = pending_rows c.
Proof.
  unfold pg_idle, pending_rows, claimable_rows. rewrite Forall_forall. intros Hidle.
  apply filter_ext_in, Forall_forall. intros r Hr. split; [apply claimable_pending|].
  intros Hp. apply Hidle; [by apply list_elem_of_filter|set_solver].
Qed.

Lemma pending_unique c : pg_outbox_ok c -> NoDup (map out_message_id (pending_rows c)).
Proof.
  intros [[Hu _] _]. eapply sublist_NoDup; [exact Hu|]. by apply fmap_sublist, sublist_filter.
Qed.

Lemma unsent_size c : pg_outbox_ok c -> size (pg_unsent c) = length (pending_rows c).
Proof.
  intros Hok. unfold pg_unsent. rewrite size_list_to_set by (by apply pending_unique).
  by rewrite length_map.
Qed.

Lemma claim_time_later c c' : (conn_calls c <= conn_calls c')%nat -> claim_time env c <= claim_time env c'.
Proof. intros Hn. by apply timestamptz_mono, steady_clock. Qed.

Lemma pg_pending_law limit c :
  pg_outbox_ok c -> pg_idle ∅ c -> 0 < limit ->
  exists es c', PgStore_PendingOutboxEvents env limit c = (Ok es, c')
    /\ pg_outbox_ok c' /\ pg_unsent c' = pg_unsent c
    /\ NoDup (map Event_MessageID es)
    /\ list_to_set (map Event_MessageID es) ⊆ pg_unsent c
    /\ Z.of_nat (length es) = Z.min limit (Z.of_nat (size (pg_unsent c)))
    /\ pg_idle (list_to_set (map Event_MessageID es)) c'.
Proof.
  intros Hok Hidle Hlim. destruct (claim_succeeds limit c Hok Hlim) as [es Hrun].
  eexists es, _. split; [exact Hrun|]. set (c' := mkConn _ _) in *.
  pose proof (pending_rows_claimed limit c (conn_db c') (conn_calls c') eq_refl) as Hrows.
  change (mkConn (conn_db c') (conn_calls c')) with c' in Hrows.
  pose proof (claim_ids env limit c es c' (proj1 Hok) Hrun) as Hpicked.
  destruct (pg_claim_oldest_first env limit c es c' (proj1 Hok) Hrun)
    as (taken & left_ & Hperm & Hids & Hnd & _ & Hle & Hleft).
  rewrite (idle_rows c Hidle) in Hperm.
  assert (claim_limit limit = limit) as El by (unfold claim_limit; case_match; lia).
  rewrite El in *. split_and!; try done.
  - apply (pg_outbox_ok_map (claimed_row limit c) c); [done| |done]. intros r.
    unfold claimed_row. by destruct (is_picked _ _ _ _ r).
  - unfold pg_unsent. rewrite Hrows, map_map. f_equal. apply map_ext, claimed_row_id.
  - intros x. rewrite elem_of_list_to_set, Hids. unfold pg_unsent.
    rewrite elem_of_list_to_set, Hperm, map_app, elem_of_app. by left.
  - rewrite unsent_size, Hperm, length_app by done.
    assert (length es = length taken) by (rewrite <- (length_map Event_MessageID), Hids; by rewrite length_map).
    destruct left_; [simpl; lia|]. specialize (Hleft ltac:(done)). lia.
  - unfold pg_idle. rewrite Hrows. apply Forall_fmap, Forall_forall. intros r Hr. simpl.
    rewrite claimed_row_id, elem_of_list_to_set, Hpicked. intros Hnot. unfold claimed_row.
    destruct (is_picked _ _ _ _ r) eqn:Hp.
    { destruct Hnot. apply existsb_exists in Hp as (p & Hp%list_elem_of_In & Ep%String.eqb_eq).
      rewrite <- Ep. by apply list_elem_of_fmap_2. }
    apply (claimable_later (claim_time env c)); [apply claim_time_later; simpl; lia|].
    unfold pg_idle in Hidle. rewrite Forall_forall in Hidle. by apply Hidle; [|set_solver].
Qed.

Lemma mark_row_pending id at_ r :
  row_pending (mark_row id at_ r) = row_pending r && negb (String.eqb (out_message_id r) id).
Proof.
  unfold mark_row. destruct (String.eqb (out_message_id r) id); simpl.
  - destruct (row_pending r) eqn:E; [done|]. by rewrite E.
  - by rewrite andb_true_r.
Qed.

Lemma pending_rows_marked id at_ c db n :
  t_outbox_events db = map (mark_row id at_) (t_outbox_events (conn_db c)) ->
  pending_rows (mkConn db n) = filter (fun r => out_message_id r <> id) (pending_rows c).
Proof.
  intros E. unfold pending_rows. simpl. rewrite E. clear E.
  induction (t_outbox_events (conn_db c)) as [|r rows IH]; [done|]. simpl map.
  rewrite !(filter_cons _ (mark_row id at_ r)), !(filter_cons _ r), mark_row_pending, IH.
  destruct (row_pending r) eqn:Hp; simpl.
  - rewrite filter_cons. destruct (String.eqb_spec (out_message_id r) id) as [Heq|Hne]; simpl.
    + by rewrite decide_False by naive_solver.
    + rewrite decide_True by done. f_equal. unfold mark_row.
      apply String.eqb_neq in Hne. by rewrite Hne.
  - done.
Qed.

Lemma pg_mark_law id at_ c :
  pg_outbox_ok c -> id ∈ pg_unsent c ->
  exists c', PgStore_MarkOutboxPublished env id at_ c = (Ok tt, c')
    /\ pg_outbox_ok c' /\ pg_unsent c' = pg_unsent c ∖ {[id]}
    /\ forall X, pg_idle X c -> pg_idle (X ∖ {[id]}) c'.
Proof.
  intros Hok Hin. unfold PgStore_MarkOutboxPublished, bind, annotate.
  erewrite call_reliable by (done || apply steady_reliable). simpl.
  apply elem_of_list_to_set, list_elem_of_fmap in Hin as (r & -> & Hr).
  assert (Hin : r ∈ filter (fun x => String.eqb (out_message_id x) (out_message_id r)
                                     && row_pending x = true) (t_outbox_events (conn_db c))).
  { apply list_elem_of_filter in Hr as [Hp Hr]. apply list_elem_of_filter.
    by rewrite String.eqb_refl, Hp. }
  rewrite (proj2 (Z.eqb_neq _ 0)).
  2: { intros H0. destruct (filter _ _); [by apply elem_of_nil in Hin|done]. }
  eexists. split; [done|]. set (id := out_message_id r). set (c' := mkConn _ _).
  pose proof (pending_rows_marked id at_ c (conn_db c') (conn_calls c') eq_refl) as Hrows.
  change (mkConn (conn_db c') (conn_calls c')) with c' in Hrows. split_and!.
  - apply (pg_outbox_ok_map (mark_row id at_) c); [done| |done]. intros x.
    do 2 (split; [unfold mark_row; by destruct (_ && _)|]).
    rewrite mark_row_pending. by intros [? _]%andb_true_iff.
  - unfold pg_unsent. rewrite Hrows. apply set_eq. intros x.
    rewrite elem_of_difference, !elem_of_list_to_set, !list_elem_of_fmap, elem_of_singleton.
    setoid_rewrite list_elem_of_filter. clearbody id c'. clear. split.
    + intros (y & -> & Hne & Hy%list_elem_of_filter). by split; [exists y|].
    + intros [(y & -> & Hy) Hne]. exists y. split_and!; [done..|by apply list_elem_of_filter].
  - unfold pg_idle. intros X. rewrite Hrows, !Forall_forall. intros Hidle x [Hne Hx]%list_elem_of_filter Hn.
    apply (claimable_later (claim_time env c)); [apply claim_time_later; simpl; lia|].
    apply Hidle; [done|]. set_solver.
Qed.

#[export] Instance pg_outbox_laws : OutboxLaws (pg_source env) := {
  ol_ok := pg_outbox_ok;
  ol_unsent := pg_unsent;
  ol_idle := pg_idle;
  ol_pending := pg_pending_law;
  ol_mark := pg_mark_law
}.

End PgDrain.

(** C16: the relay process drains the outbox.  Over the PostgreSQL store, with a
    broker that takes every message and no lease running at the start, the loop
    of the process sends every unpublished event exactly once, marks all of them
    published and, told to stop, ends; no more rounds are needed than there are
    unpublished events and pauses before the stop. *)
Theorem relay_process_drains {P} (publisher : Publisher P) `{!Accepting publisher}
    env `{!PgOrdering env} `{!SteadyServer env} clock getenv senv world batchSize interval stop k fuel
    (st : RelayState Conn P) :
  relay_start getenv senv world = Ok (batchSize, interval) -> stop k = true ->
  (size (pg_unsent (rs_source st)) + k < fuel)%nat ->
  pg_outbox_ok env (rs_source st) -> pg_idle env ∅ (rs_source st) ->
  exists st' es,
    relay_main getenv senv world (pg_source env) publisher clock stop fuel st = Ok (Some st')
    /\ pg_unsent (rs_source st') = ∅
    /\ acc_sent (rs_publisher st') = acc_sent (rs_publisher st) ++ es
    /\ NoDup (map Event_MessageID es)
    /\ list_to_set (map Event_MessageID es) = pg_unsent (rs_source st).
Proof.
  intros Hstart Hk Hfuel Hok Hidle. unfold relay_main. rewrite Hstart.
  destruct (relay_rounds_drain (pg_source env) publisher clock batchSize stop k fuel 0 st)
    as (st' & es & -> & H); [by eapply relay_start_batch|done|lia|simpl; lia|done|done|].
  by exists st', es.
Qed.

(** ** Instances *)

#[export] Instance accept_everything : Accepting (selective_publisher (fun _ => true)) := {
  acc_sent := fun sent => sent;
  acc_publish := fun e sent => ex_intro _ (sent ++ [e]) (conj eq_refl eq_refl)
}.

#[export] Instance pg_sample_steady : SteadyServer pg_sample.
Proof. split; [done|]. intros n m Hn. simpl. unfold second. lia. Qed.

Definition relay_env (key : string) : string :=
  if one_of key ["DATABASE_URL"; "RABBITMQ_URL"] then "set"
  else if String.eqb key "OUTBOX_RELAY_BATCH_SIZE" then " 1 " else "".

Definition willing_world : RelayWorld :=
  mkRelayWorld (fun _ => Ok tt) (fun _ => Ok tt) (Ok tt) (fun _ => Ok tt).

(** Two events wait and a batch is one event: two full rounds, an empty one and
    a pause, then the stop. *)
Lemma relay_process_drains_witness :
  exists st' es,
    relay_main relay_env sample_env willing_world (pg_source pg_sample)
      (selective_publisher (fun _ => true)) (fun _ => 0) (fun n => Nat.eqb n 1) 4
      (mkRelayState pg_reserved [] 0%nat) = Ok (Some st')
    /\ pg_unsent (rs_source st') = ∅ /\ rs_publisher st' = [] ++ es
    /\ list_to_set (map Event_MessageID es) = pg_unsent pg_reserved.
Proof.
  assert (Hstart : relay_start relay_env sample_env willing_world = Ok (1, 250 * millisecond))
    by (vm_compute; reflexivity).
  assert (Hsize : (size (pg_unsent pg_reserved) + 1 < 4)%nat) by (vm_compute; lia).
  assert (Hscan : Forall (fun r => is_ok (scanOutboxEvent pg_sample r) = true) (pending_rows pg_reserved))
    by (apply List.Forall_forall, forallb_forall; vm_compute; reflexivity).
  assert (Hidle : pg_idle pg_sample ∅ pg_reserved).
  { apply List.Forall_forall. intros r Hr _. revert r Hr. apply forallb_forall. vm_compute. reflexivity. }
  destruct (relay_process_drains (selective_publisher (fun _ => true)) pg_sample (fun _ => 0)
              relay_env sample_env willing_world 1 (250 * millisecond) (fun n => Nat.eqb n 1) 1 4
              (mkRelayState pg_reserved [] 0%nat) Hstart eq_refl Hsize
              (conj reserved_outbox Hscan) Hidle) as (st' & es & Hrun & Hun & Hsent & _ & Hids).
  exists st', es. exact (conj Hrun (conj Hun (conj Hsent Hids))).
Defined.
