(* ===== verification/WorkerProcess.v ===== *)
(** The worker process, [cmd/fulfillhub-worker/main.go]: its start, the wiring
    of handler, inbox and retries over the PostgreSQL store, and the loop over the
    deliveries of its queue.

    The inbox and the handler use different tables of the database, the inbox its
    own and the handler the others, so the world keeps a connection for each. *)
From S2P Require Import Prelude GoStrings GoTime Model Topology Amqp Consumer Handlers Providers.
From S2P Require Import Saga Database PgStore PgSamples Service Api Settings Connections.

(** ** Wiring *)

Section Wiring.
Context {P : Type}.
Variable env : PgEnv.
Variable henv : HEnv.

Definition pg_projector : Projector Conn :=
  mkProjector (PgStore_RecordInventoryReserved env) (PgStore_RecordInventoryRejected env)
    (PgStore_RecordPaymentAuthorized env) (PgStore_RecordPaymentFailed env)
    (PgStore_RecordShipmentCreated env) (PgStore_RecordShipmentFailed env)
    (PgStore_RecordOrderCancelled env) (PgStore_RecordNotificationQueued env)
    (PgStore_RecordCompensation env).

Definition pg_orders : OrderStatusUpdater Conn :=
  mkOrderStatusUpdater (PgStore_GetOrder env) (PgStore_UpdateOrderStatus env).

(** The [fulfillment.Dependencies] of the process. *)
Definition pg_worker_dependencies : Dependencies Conn P :=
  mkDependencies (Some pg_projector) (Some pg_orders) None
    (Some (ProviderPaymentAuthorizer_AuthorizePayment (Some (PgStore_GetOrder env))
             (Some FakePaymentProvider)))
    (Some (ProviderShipmentCreator_CreateShipment henv (Some (PgStore_GetOrder env))
             (Some FakeShipmentProvider)))
    None.

(** [messaging.PersistentInbox{Recorder: store}]. *)
Definition pg_inbox : Inbox Conn :=
  persistent_inbox (Some (PgStore_RecordInboxMessage env, Some (PgStore_ReleaseInboxMessage env))).

End Wiring.

(** ** The process *)

(** What the outside answers while the process starts. *)
Record WorkerWorld := mkWorkerWorld {
  ww_exporter : string -> result unit;
  ww_open : string -> result unit;
  ww_migrate : result unit;
  (** [newRabbitConsumerWithRetry] *)
  ww_consumer : string -> result unit;
  (** the failure of the n-th call on the consumer's channel *)
  ww_fault : nat -> option error
}.

(** What a turn of the [select] receives. *)
Inductive Wake : Type :=
| Stopped
| DeliveriesClosed
| Arrived (d : Delivery).

Section Process.
Context {P B : Type}.
Variable getenv : string -> string.
Variable tenv : Env.
Variable env : PgEnv.
Variable henv : HEnv.
Variable world : WorkerWorld.
(** [RabbitConsumer.PublishRetry] of the open channel *)
Variable publish_retry : Delivery -> OutboxEvent -> Z -> M B unit.

Notation WorkerConsumer := (Consumer Conn (HWorld Conn P) B).

Definition worker_start (wire : Wire) : result WorkerConsumer * Wire :=
  match ConfigureTracing getenv tenv (ww_exporter world) "fulfillhub-worker" with
  | Err e => (Err e, wire)
  | Ok _ =>
  match worker_loadSettings getenv with
  | Err e => (Err e, wire)
  | Ok cfg =>
  match ww_open world (worker_databaseURL cfg) with
  | Err e => (Err e, wire)
  | Ok _ =>
  match ww_migrate world with
  | Err e => (Err e, wire)
  | Ok _ =>
  match ww_consumer world (worker_rabbitURL cfg) with
  | Err e => (Err e, wire)
  | Ok _ =>
  match HandlerForQueue henv (pg_worker_dependencies env henv) (worker_queue cfg) with
  | Err e => (Err e, wire)
  | Ok handler =>
  match Deliveries (ww_fault world) (worker_queue cfg) (worker_consumerName cfg) wire with
  | (Err e, wire) => (Err e, wire)
  | (Ok _, wire) =>
      (Ok (mkConsumer (worker_queue cfg) (worker_consumerName cfg) (Some (pg_inbox env))
             (Some handler) (Some publish_retry) 0), wire)
  end end end end end end end.

Variable unmarshal : string -> result OutboxEvent.
Variables Ack Nack : Delivery -> M B unit.

Notation W := (World Conn (HWorld Conn P) B).

(** The loop over what the turns receive; [true] once it returned.  An error of
    a delivery is logged and the loop goes on. *)
Fixpoint worker_loop (c : WorkerConsumer) (wakes : list Wake) (w : W) : bool * W :=
  match wakes with
  | [] => (false, w)
  | Stopped :: _ => (true, w)
  | DeliveriesClosed :: _ => (true, w)
  | Arrived d :: wakes => worker_loop c wakes (snd (ProcessDelivery unmarshal Ack Nack c d w))
  end.

(** [main] *)
Definition worker_main (wakes : list Wake) (wire : Wire) (w : W) : result (bool * W) :=
  match worker_start wire with
  | (Err e, _) => Err e
  | (Ok c, _) => Ok (worker_loop c wakes w)
  end.

(** ** Facts *)

(** The deliveries taken before the loop returns, and whether it does. *)
Fixpoint taken (wakes : list Wake) : list Delivery :=
  match wakes with
  | Arrived d :: wakes => d :: taken wakes
  | _ => []
  end.

Fixpoint ends (wakes : list Wake) : bool :=
  match wakes with
  | [] => false
  | Arrived _ :: wakes => ends wakes
  | _ => true
  end.

Lemma handled_queue_known {S} (deps : Dependencies S P) queue handler :
  HandlerForQueue henv deps queue = Ok handler -> queue ∈ QueueNames.
Proof.
  unfold HandlerForQueue, QueueNames. rewrite list_elem_of_In.
  repeat match goal with |- context [String.eqb queue ?q] =>
    destruct (String.eqb_spec queue q) as [->|]; [intros _; simpl; tauto|]
  end. done.
Qed.

Lemma consumer_name_set cfg :
  worker_loadSettings getenv = Ok cfg -> worker_consumerName cfg <> "".
Proof.
  unfold worker_loadSettings. destruct (String.eqb (getenv "DATABASE_URL") ""); [done|].
  destruct (String.eqb (getenv "RABBITMQ_URL") ""); [done|].
  destruct (String.eqb_spec (getenv "CONSUMER_NAME") ""); intros [= <-]; [|done].
  simpl. by destruct (String.eqb_spec (getenv "WORKER_QUEUE") "").
Qed.

(** A started worker consumes, under its name, a queue of the topology that has
    a handler. *)
Lemma worker_start_ok wire c wire' :
  worker_start wire = (Ok c, wire') ->
  Consumer_validate c = None
  /\ Consumer_Queue c ∈ QueueNames
  /\ (exists handler, Consumer_Handler c = Some handler
        /\ HandlerForQueue henv (pg_worker_dependencies env henv) (Consumer_Queue c) = Ok handler)
  /\ wire_log wire' = wire_log wire ++ [Consuming (Consumer_Queue c) (consumerName c)].
Proof.
  unfold worker_start. destruct (ConfigureTracing _ _ _ _); [|done].
  destruct (worker_loadSettings getenv) as [cfg|] eqn:Hcfg; [|done].
  destruct (ww_open _ _); [|done]. destruct (ww_migrate _); [|done].
  destruct (ww_consumer _ _); [|done].
  destruct (HandlerForQueue _ _ _) as [handler|] eqn:Hh; [|done].
  destruct (Deliveries _ _ _ wire) as [[[]|] wire1] eqn:Hd; [|done].
  intros [= <- <-]. simpl. pose proof (handled_queue_known _ _ _ Hh) as Hq.
  split_and!; [done..|by exists handler|].
  unfold Deliveries, annotate, wire_call in Hd. unfold consumerName. simpl.
  apply consumer_name_set, String.eqb_neq in Hcfg. rewrite Hcfg in Hd |- *. simpl.
  destruct (String.eqb (worker_queue cfg) ""); [done|].
  destruct (ww_fault world (wire_calls wire)); simplify_eq. done.
Qed.

(** What the loop logs: delivery by delivery. *)
Lemma worker_loop_log c wakes w :
  Consumer_validate c = None ->
  fst (worker_loop c wakes w) = ends wakes
  /\ exists logs, Forall2 (delivery_log c) (taken wakes) logs
       /\ w_log (snd (worker_loop c wakes w)) = w_log w ++ concat logs.
Proof.
  intros Hv. revert w. induction wakes as [|[| |d] wakes IH]; intros w; simpl.
  1-3: split; [done|]; exists []; split; [constructor|by rewrite app_nil_r].
  destruct (process_log unmarshal Ack Nack c d w Hv) as (log & Hlog & Hd).
  destruct (IH (snd (ProcessDelivery unmarshal Ack Nack c d w))) as [He (logs & Hf & Hl)].
  split; [done|]. exists (log :: logs). split; [by constructor|].
  by rewrite Hl, Hlog, <- app_assoc.
Qed.

(** C15: the worker settles what it takes.  A process that starts consumes one
    queue of the topology with that queue's handler; whatever fails while it
    serves, the deliveries it received before the stop, and no others, were
    processed one after the other, each by the steps allowed for a delivery and
    settled exactly once by its last call, and the loop returns exactly when it is
    told to stop or the channel closes. *)
Theorem worker_settles_deliveries wakes wire w c wire' :
  worker_start wire = (Ok c, wire') ->
  Consumer_Queue c ∈ QueueNames
  /\ (exists handler, Consumer_Handler c = Some handler
        /\ HandlerForQueue henv (pg_worker_dependencies env henv) (Consumer_Queue c) = Ok handler)
  /\ wire_log wire' = wire_log wire ++ [Consuming (Consumer_Queue c) (consumerName c)]
  /\ exists logs w',
       worker_main wakes wire w = Ok (ends wakes, w')
       /\ w_log w' = w_log w ++ concat logs
       /\ Forall2 (fun d log => delivery_log c d log
                    /\ exists acts last, log = acts ++ [last] /\ settles last = true
                         /\ Forall (fun a => settles a = false) acts) (taken wakes) logs.
Proof.
  intros Hstart. destruct (worker_start_ok _ _ _ Hstart) as (Hv & Hq & Hh & Hw).
  split_and!; try done. unfold worker_main. rewrite Hstart.
  destruct (worker_loop_log c wakes w Hv) as [He (logs & Hf & Hl)].
  exists logs, (snd (worker_loop c wakes w)). rewrite <- He, <- surjective_pairing.
  split_and!; try done. eapply Forall2_impl; [exact Hf|]. intros d log Hd. split; [done|].
  destruct (delivery_log_last c d log Hd) as (acts & last & -> & Hs & Ha & _). eauto.
Qed.

End Process.

(** ** Instances *)

Definition worker_env (key : string) : string :=
  if one_of key ["DATABASE_URL"; "RABBITMQ_URL"] then "set"
  else if String.eqb key "WORKER_QUEUE" then ShipmentsCreateQueue else "".

Definition worker_world : WorkerWorld :=
  mkWorkerWorld (fun _ => Ok tt) (fun _ => Ok tt) (Ok tt) (fun _ => Ok tt) (fun _ => None).

Definition sample_worker_start (queue_env : string -> string) :=
  worker_start (P := unit) (B := unit) queue_env sample_env pg_sample sample_henv worker_world
    (fun _ _ _ => ret tt) (mkWire 0 []).

Lemma sample_worker_starts :
  match sample_worker_start worker_env with
  | (Ok c, _) => Some (Consumer_Queue c, consumerName c)
  | (Err _, _) => None
  end = Some (ShipmentsCreateQueue, ShipmentsCreateQueue).
Proof. vm_compute. reflexivity. Qed.

(** A queue without a handler is refused before anything is consumed. *)
Example unknown_queue_refused :
  let env key := if String.eqb key "WORKER_QUEUE" then "orders.unknown" else worker_env key in
  match sample_worker_start env with (Ok _, _) => false | (Err _, wire) => Nat.eqb (wire_calls wire) 0 end
  = true.
Proof. vm_compute. reflexivity. Qed.

Lemma worker_settles_deliveries_witness :
  let wakes := [Arrived sample_delivery; Arrived sample_delivery; Stopped; Arrived sample_delivery] in
  let w := mkWorld pg_start (mkHWorld pg_start tt 0 0) tt [] in
  exists logs w',
    worker_main worker_env sample_env pg_sample sample_henv worker_world (fun _ _ _ => ret tt)
      sample_decode broker_ok broker_ok wakes (mkWire 0 []) w
    = Ok (true, w')
    /\ w_log w' = w_log w ++ concat logs /\ length logs = 2%nat.
Proof.
  intros wakes w. pose proof sample_worker_starts as H.
  destruct (sample_worker_start worker_env) as [[c|e] wire'] eqn:Hs; [|discriminate H].
  destruct (worker_settles_deliveries worker_env sample_env pg_sample sample_henv worker_world
              (fun _ _ _ => ret tt) sample_decode broker_ok broker_ok
              wakes (mkWire 0 []) w c wire' Hs)
    as (_ & _ & _ & logs & w' & Hrun & Hlog & Hf).
  exists logs, w'. split; [exact Hrun|]. split; [exact Hlog|]. symmetry. exact (Forall2_length _ _ _ Hf).
Defined.
