(* ===== verification/PgWorkers.v ===== *)
(** The workers over the PostgreSQL store, as [cmd/fulfillhub-worker] wires them,
    with a connection that may fail at any call: what one run of a handler may do
    to the database. *)
From S2P Require Import Prelude GoStrings GoTime Model StateMachine MemoryInvariant MemoryQueries.
From S2P Require Import Topology Amqp Consumer Handlers Providers Workers Saga.
From S2P Require Import Database PgStore PgAtomic PgStock PgOrders PgReplay PgSamples WorkerProcess.

(** ** What a worker may ask of the store *)

Definition continues (src : OutboxEvent) (ty : string) (next : OutboxEvent) : Prop :=
  descends src next /\ Event_EventType next = ty.

(** The operations a queue's worker may run for an event: on the order of the
    event, with the next event of the saga. *)
Definition assigned (queue : string) (src : OutboxEvent) (op : PgOp) : Prop :=
  match op with
  | PgReserved s next _ =>
      queue = InventoryReserveQueue /\ s = src /\ continues src "inventory.reserved" next
  | PgRejected s next _ =>
      queue = InventoryReserveQueue /\ s = src /\ continues src "inventory.rejected" next
  | PgAuthorized s next _ _ =>
      queue = PaymentsAuthorizeQueue /\ s = src /\ continues src "payment.authorized" next
  | PgPaymentFailed s next _ =>
      queue = PaymentsAuthorizeQueue /\ s = src /\ continues src "payment.failed" next
  | PgShipped s next _ _ =>
      queue = ShipmentsCreateQueue /\ s = src /\ continues src "shipment.created" next
  | PgShipmentFailed s next _ =>
      queue = ShipmentsCreateQueue /\ s = src /\ continues src "shipment.failed" next
  | PgUpdate id status _ next _ =>
      id = Event_OrderID src
      /\ (queue = OrdersFinalizeQueue /\ status = StatusCompleted
            /\ continues src "order.completed" next
          \/ queue = OrdersCancelQueue /\ status = StatusManualReview
            /\ continues src "order.manual_review_required" next)
  | PgCancelled s next _ =>
      queue = OrdersCancelQueue /\ s = src /\ continues src "order.cancelled" next
  | PgNotified s _ => queue = NotificationsEmailQueue /\ s = src
  | PgCompensated s status _ =>
      queue = OrdersCompensateQueue /\ s = src
      /\ exists action, compensationPlan (Event_EventType src) = Ok (status, action)
  | _ => False
  end.

(** The orders a worker leaves as they are without an error: those that are past
    the step it would take. *)
Definition settled (queue status : string) : bool :=
  String.eqb queue OrdersFinalizeQueue
    && one_of status [StatusCompleted; StatusCancellationPending; StatusManualReview;
                      StatusCancelled]
  || String.eqb queue OrdersCancelQueue && one_of status [StatusCancelled; StatusManualReview].

(** ** The calls of a handler *)

Section Effects.
Context {P : Type}.
Variable env : PgEnv.
Variable queue : string.
Variable src : OutboxEvent.

Notation W := (HWorld Conn P).
Notation db_of w := (conn_db (hw_store w)).

(** A call that leaves the database alone and whose value satisfies [Q]. *)
Definition looks {A} (c : M W A) (Q : Database -> A -> Prop) : Prop :=
  forall w, db_of (snd (c w)) = db_of w /\ forall a, fst (c w) = Ok a -> Q (db_of w) a.

(** The database after one operation that went through. *)
Definition operated (db db' : Database) : Prop :=
  Event_MessageID src <> "" /\ exists op n c', assigned queue src op
    /\ pg_run (without_faults env) op (mkConn db n) = (Ok tt, c') /\ conn_db c' = db'.

Definition past (db : Database) : Prop :=
  exists r, t_orders db !! Event_OrderID src = Some r /\ settled queue (orders_status r) = true.

(** A call that succeeds with one operation, or has nothing to do; when it fails,
    the operation may still have gone through. *)
Definition works (db : Database) (c : M W unit) : Prop :=
  forall w, db_of w = db ->
    match c w with
    | (Ok _, w') => operated db (db_of w') \/ db_of w' = db /\ past db
    | (Err _, w') => db_of w' = db \/ operated db (db_of w')
    end.

Lemma looks_ret {A} (a : A) (Q : Database -> A -> Prop) : (forall db, Q db a) -> looks (ret a) Q.
Proof using Type. intros H w. split; [done|]. by intros ? [= <-]. Qed.

Lemma looks_throw {A} e (Q : Database -> A -> Prop) : looks (throw e) Q.
Proof using Type. intros w. done. Qed.

Lemma looks_bind {A B} (c : M W A) (k : A -> M W B) Q R :
  looks c Q -> (forall a, looks (k a) R) -> looks (bind c k) R.
Proof using Type.
  intros Hc Hk w. unfold bind. destruct (Hc w) as [Hs _]. destruct (c w) as [[a|e] w1]; simpl in *; [|done].
  destruct (Hk a w1) as [Hs' Hr]. by rewrite Hs', <- Hs.
Qed.

Lemma looks_value {A B} (a : A) (k : A -> M W B) R : looks (k a) R -> looks (bind (ret a) k) R.
Proof using Type. done. Qed.

Lemma looks_require e : looks (require e) (fun _ _ => e = None).
Proof using Type. destruct e; [apply looks_throw|by apply looks_ret]. Qed.

Lemma looks_attempt {A} (c : M W A) Q : looks c Q -> looks (attempt c) (fun _ _ => True).
Proof using Type. intros H w. destruct (H w) as [Hs _]. unfold attempt. by destruct (c w). Qed.

Lemma looks_ext {A} (c : M P A) : looks (in_ext c) (fun _ _ => True).
Proof using Type. intros w. unfold in_ext. by destruct (c (hw_ext w)). Qed.

Lemma works_bind {A} db (c : M W A) Q k :
  looks c Q -> (forall a, Q db a -> works db (k a)) -> works db (bind c k).
Proof using Type.
  intros Hc Hk w Hw. unfold bind. destruct (Hc w) as [Hs Hq].
  destruct (c w) as [[a|e] w1]; simpl in *; [|left; congruence].
  apply Hk; [rewrite <- Hw; by apply Hq|congruence].
Qed.

Lemma works_throw db e : works db (throw e).
Proof using Type. intros w Hw. by left. Qed.

Lemma works_past db : past db -> works db (ret tt).
Proof using Type. intros Hp w Hw. by right. Qed.

(** One operation of the store on a connection that may fail. *)
Lemma operation_outcome op c :
  transactional op = true -> assigned queue src op -> Event_MessageID src <> "" ->
  match pg_run env op c with
  | (Ok _, c') => operated (conn_db c) (conn_db c')
  | (Err _, c') => conn_db c' = conn_db c \/ operated (conn_db c) (conn_db c')
  end.
Proof using Type.
  intros Ht Ha Hid. destruct (pg_atomic_run env op c) as [Hf Hr]. specialize (Hr Ht).
  destruct c as [db n]. unfold faulty in Hf. simpl in *.
  assert (Hop : forall c', pg_run (without_faults env) op (mkConn db n) = (Ok tt, c') ->
                           operated db (conn_db c')).
  { intros c' E. split; [done|]. by exists op, n, c'. }
  destruct (pg_run (without_faults env) op (mkConn db n)) as [[[]|e0] c0]; simpl in *.
  - destruct Hf as [[H1 H2]|[H1 H2]]; destruct (pg_run env op (mkConn db n)) as [[[]|e] c'];
      simpl in *; try done.
    + rewrite H2. by apply Hop.
    + destruct H2 as [->| ->]; [by left|right; by apply Hop].
  - rewrite Hr in Hf by done.
    destruct Hf as [[H1 H2]|[H1 H2]]; destruct (pg_run env op (mkConn db n)) as [[[]|e] c'];
      simpl in *; try done; left; [done|by destruct H2].
Qed.

(** The last call of a handler. *)
Lemma works_store db op c :
  (forall s, c s = pg_run env op s) -> transactional op = true -> assigned queue src op ->
  Event_MessageID src <> "" -> works db (in_store c).
Proof using Type.
  intros Hc Ht Ha Hid w Hw. unfold in_store. rewrite Hc.
  pose proof (operation_outcome op (hw_store w) Ht Ha Hid) as H. rewrite Hw in H.
  destruct (pg_run env op (hw_store w)) as [[[]|e] s]; simpl in *; [by left|done].
Qed.

(** The same when the value of the operation is dropped. *)
Lemma works_update db id st now next au :
  assigned queue src (PgUpdate id st now next au) -> Event_MessageID src <> "" ->
  works db (let! _ := in_store (PgStore_UpdateOrderStatus env id st now next au) in ret tt).
Proof using Type.
  intros Ha Hid w Hw.
  pose proof (works_store db (PgUpdate id st now next au) _ (fun s => eq_refl) eq_refl Ha Hid w Hw)
    as H.
  unfold bind, in_store, ret in *. simpl in H. unfold discard, bind, ret in H.
  by destruct (PgStore_UpdateOrderStatus env id st now next au (hw_store w)) as [[] ?].
Qed.

End Effects.

(** ** The handlers *)

Section Handlers.
Context {P : Type}.
Variable env : PgEnv.
Variable henv : HEnv.
(** what the driver reports is not taken for a refusal of the store *)
Hypothesis driver_errors : forall n carried_out e,
  pg_fault env n = Some (carried_out, e) -> error_is e "insufficient stock" = false.

Notation W := (HWorld Conn P).
Notation deps := (pg_worker_dependencies (P := P) env henv).

Lemma looks_clock : looks (P := P) (Clock henv) (fun _ _ => True).
Proof using Type. intros w. done. Qed.

Lemma looks_new_id prefix : looks (NewID henv deps prefix) (fun _ _ => True).
Proof using Type.
  unfold NewID. simpl. eapply looks_bind with (Q := fun _ _ => True); [by intros w|].
  intros [b|]; [by apply looks_ret|]. eapply looks_bind; [apply looks_clock|].
  intros. by apply looks_ret.
Qed.

Lemma looks_next src ty now :
  looks (nextEventAt henv deps src ty now) (fun _ => continues src ty).
Proof using Type. eapply looks_bind; [apply looks_new_id|]. intros id. by apply looks_ret. Qed.

Lemma looks_projector : looks (projector deps) (fun _ p => p = pg_projector env).
Proof using Type. by apply looks_ret. Qed.

Lemma looks_orders : looks (orders deps) (fun _ o => o = pg_orders env).
Proof using Type. by apply looks_ret. Qed.

Lemma reads_get_order id : reads (getOrderTx env id).
Proof using Type.
  unfold getOrderTx, iterate. apply reads_bind; [auto with pg|]. intros [r|]; [|auto with pg].
  repeat (apply reads_bind; [auto with pg|intros ?]). auto with pg.
Qed.

Lemma looks_get_order id :
  looks (P := P) (in_store (PgStore_GetOrder env id))
    (fun db o => exists r, t_orders db !! id = Some r /\ Order_Status o = orders_status r).
Proof using Type.
  intros w. unfold in_store, PgStore_GetOrder.
  pose proof (reads_get_order id (hw_store w)) as Hr.
  destruct (getOrderTx env id (hw_store w)) as [r s] eqn:E. simpl in *. split; [done|].
  intros o ->. apply get_order_ok in E as [_ Hs]. unfold stored_order in Hs.
  destruct (t_orders (conn_db (hw_store w)) !! id) as [row|]; [|done]. injection Hs as <-.
  by exists row.
Qed.

Ltac look :=
  repeat first
    [ apply looks_throw | by apply looks_ret | apply looks_value | apply looks_new_id
    | eapply looks_bind;
      [first [apply looks_get_order | apply looks_ext | apply looks_clock | apply looks_new_id]
      |intros ?]
    | lazymatch goal with |- looks (match ?x with _ => _ end) _ => destruct x end ].

Lemma looks_authorizer src :
  looks (P := P) (ProviderPaymentAuthorizer_AuthorizePayment (Some (PgStore_GetOrder env))
                    (Some FakePaymentProvider) src) (fun _ _ => True).
Proof using Type. unfold ProviderPaymentAuthorizer_AuthorizePayment, required. look. Qed.

Lemma looks_creator src :
  looks (P := P) (ProviderShipmentCreator_CreateShipment henv (Some (PgStore_GetOrder env))
                    (Some FakeShipmentProvider) src) (fun _ _ => True).
Proof using Type. unfold ProviderShipmentCreator_CreateShipment, required. look. Qed.

Lemma looks_shipment sh now : looks (normalizedShipment henv deps sh now) (fun _ _ => True).
Proof using Type.
  unfold normalizedShipment. eapply looks_bind with (Q := fun _ _ => True); [look|].
  intros. by apply looks_ret.
Qed.

(** Step through the calls that precede the store operation. *)
Ltac look_step :=
  eapply works_bind;
  [ first [ apply looks_projector | apply looks_orders | apply looks_require | apply looks_clock
          | apply looks_new_id | apply looks_next | apply looks_get_order | apply looks_shipment ]
  | let a := fresh "a" in let H := fresh "Hpre" in intros a H; cbv beta in H; try subst a ].

Notation works := (works (P := P) env).

Lemma rejected_works src db now cause :
  Event_MessageID src <> "" ->
  works InventoryReserveQueue src db
    (recordInventoryRejected henv deps (pg_projector env) src now cause).
Proof using Type.
  intros Hid. unfold recordInventoryRejected. look_step.
  by eapply (works_store _ _ _ _ (PgRejected _ _ _)).
Qed.

(** A reservation that reports missing stock has changed nothing. *)
Lemma transaction_unchanged {A} label (body : M Conn (string * A)) c e c' :
  transaction env label body c = (Err e, c') ->
  error_is e "insufficient stock" = true -> conn_db c' = conn_db c.
Proof using driver_errors.
  unfold transaction. destruct (pg_fault env (conn_calls c)) as [[b f]|]; [by intros [= _ <-]|].
  destruct (body _) as [[[l a]|e'] s']; [|by intros [= _ <-]].
  destruct (pg_fault env (conn_calls s')) as [[b f]|] eqn:Hf; [|done].
  intros [= <- <-]. simpl. by rewrite (driver_errors _ _ _ Hf).
Qed.

Lemma insufficient_unchanged src next au c e c' :
  PgStore_RecordInventoryReserved env src next au c = (Err e, c') ->
  error_is e "insufficient stock" = true -> conn_db c' = conn_db c.
Proof using driver_errors.
  apply transaction_unchanged.
Qed.

Lemma reserve_works src db :
  works InventoryReserveQueue src db (reserveInventory henv deps src).
Proof using driver_errors.
  unfold reserveInventory. do 3 look_step. pose proof (validate_identity _ _ Hpre) as Hid.
  unfold try_reserve. simpl.
  eapply works_bind; [by apply (looks_ret None (fun _ r => r = None))|]. intros ? ->.
  look_step. intros w Hw. unfold bind, attempt, in_store. simpl.
  pose proof (operation_outcome env InventoryReserveQueue src
    (PgReserved src a1 (systemAudit src "inventory.reserved" a0)) (hw_store w) eq_refl
    (conj eq_refl (conj eq_refl Hpre1)) Hid) as Ho. simpl in Ho. rewrite Hw in Ho.
  destruct (PgStore_RecordInventoryReserved env src a1 _ (hw_store w)) as [[[]|e] s] eqn:E;
    simpl; [by left|].
  destruct (error_is e "insufficient stock") eqn:Hi; [|done].
  apply rejected_works; [done|]. simpl. rewrite <- Hw. by eapply insufficient_unchanged.
Qed.

Lemma authorize_works src db : works PaymentsAuthorizeQueue src db (authorizePayment henv deps src).
Proof using Type.
  unfold authorizePayment. do 3 look_step. pose proof (validate_identity _ _ Hpre) as Hid. simpl.
  eapply works_bind; [eapply looks_attempt, looks_authorizer|]. intros [p|e] _.
  - eapply works_bind with (Q := fun _ _ => True).
    { destruct (String.eqb _ ""); [|by apply looks_ret].
      eapply looks_bind; [apply looks_new_id|]. intros. by apply looks_ret. }
    intros p' _. look_step. by eapply (works_store _ _ _ _ (PgAuthorized _ _ _ _)).
  - look_step. by eapply (works_store _ _ _ _ (PgPaymentFailed _ _ _)).
Qed.

Lemma ship_works src db : works ShipmentsCreateQueue src db (createShipment henv deps src).
Proof using Type.
  unfold createShipment. do 3 look_step. pose proof (validate_identity _ _ Hpre) as Hid. simpl.
  eapply works_bind; [eapply looks_attempt, looks_creator|]. intros [p|e] _; look_step.
  - look_step. by eapply (works_store _ _ _ _ (PgShipped _ _ _ _)).
  - by eapply (works_store _ _ _ _ (PgShipmentFailed _ _ _)).
Qed.

Lemma complete_works src db : works OrdersFinalizeQueue src db (completeOrder henv deps src).
Proof using Type.
  unfold completeOrder. do 3 look_step. pose proof (validate_identity _ _ Hpre) as Hid.
  destruct Hpre0 as (r & Hr & ->).
  destruct (String.eqb _ StatusShipmentCreated).
  - do 2 look_step. apply works_update; [|done]. split; [done|]. by left.
  - destruct (one_of _ _) eqn:Ho; [|apply works_throw]. apply works_past. exists r.
    split; [done|]. unfold settled. by rewrite Ho.
Qed.

Lemma cancel_works src db : works OrdersCancelQueue src db (cancelOrder henv deps src).
Proof using Type.
  unfold cancelOrder. do 3 look_step. pose proof (validate_identity _ _ Hpre) as Hid.
  destruct Hpre0 as (r & Hr & ->).
  destruct (_ || _) eqn:Ho.
  { apply works_past. exists r. split; [done|]. unfold settled. simpl. by rewrite orb_false_r. }
  look_step. destruct (requiresManualReview _).
  - look_step. apply works_update; [|done]. split; [done|]. by right.
  - do 2 look_step. by eapply (works_store _ _ _ _ (PgCancelled _ _ _)).
Qed.

Lemma notify_works src db : works NotificationsEmailQueue src db (queueNotification henv deps src).
Proof using Type.
  unfold queueNotification. look_step. destruct (negb _); [apply works_throw|].
  do 2 look_step. pose proof (identity_id _ Hpre) as Hid.
  by eapply (works_store _ _ _ _ (PgNotified _ _)).
Qed.

Lemma compensate_works src db :
  works OrdersCompensateQueue src db (recordCompensation henv deps src).
Proof using Type.
  unfold recordCompensation. look_step.
  destruct (compensationPlan _) as [[st act]|e] eqn:Hp; [|apply works_throw].
  do 2 look_step. pose proof (identity_id _ Hpre) as Hid.
  eapply (works_store _ _ _ _ (PgCompensated _ _ _)); [done|done| |done].
  split; [done|]. split; [done|]. by exists act.
Qed.

Lemma handler_works queue handler src db :
  HandlerForQueue henv deps queue = Ok handler -> works queue src db (handler src).
Proof using driver_errors.
  unfold HandlerForQueue.
  repeat (match goal with |- context [if String.eqb queue ?q then _ else _] =>
            destruct (String.eqb_spec queue q); [subst queue; intros [= <-]|] end); [..|done];
    auto using reserve_works, authorize_works, ship_works, complete_works, cancel_works,
      notify_works, compensate_works.
Qed.

End Handlers.

(** ** What an operation of a worker touches *)

Definition caused_by (src : OutboxEvent) (row : OutboxRow) : Prop :=
  out_causation_id row = Event_MessageID src /\ out_correlation_id row = Event_CorrelationID src
  /\ out_order_id row = Event_OrderID src /\ out_merchant_id row = Event_MerchantID src.

(** Other orders stay as they are; [events] events that [src] caused and [audits]
    audit entries are appended. *)
Record footprint (src : OutboxEvent) (events audits : nat) (db db' : Database) : Prop := {
  fp_others id : id <> Event_OrderID src -> t_orders db' !! id = t_orders db !! id;
  fp_events : exists new, t_outbox_events db' = t_outbox_events db ++ new
                          /\ length new = events /\ Forall (caused_by src) new;
  fp_audits : exists new, t_audit_logs db' = t_audit_logs db ++ new /\ length new = audits
}.

Section Footprints.
Variable src : OutboxEvent.
Notation foot := (footprint src).

Lemma foot_trans e1 a1 e2 a2 db d db' :
  foot e1 a1 db d -> foot e2 a2 d db' -> foot (e1 + e2) (a1 + a2) db db'.
Proof using Type.
  intros [O1 (n1 & E1 & <- & F1) (m1 & A1 & <-)] [O2 (n2 & E2 & <- & F2) (m2 & A2 & <-)]. split.
  - intros id Hid. by rewrite O2, O1.
  - exists (n1 ++ n2). rewrite E2, E1, app_assoc, length_app. split_and!; [done|done|].
    by apply Forall_app.
  - exists (m1 ++ m2). by rewrite A2, A1, app_assoc, length_app.
Qed.

Lemma foot_frame db db' :
  (forall id, id <> Event_OrderID src -> t_orders db' !! id = t_orders db !! id) ->
  t_outbox_events db' = t_outbox_events db -> t_audit_logs db' = t_audit_logs db ->
  foot 0 0 db db'.
Proof using Type.
  intros Ho He Ha. split; [done|exists []; by rewrite He, app_nil_r|exists []; by rewrite Ha, app_nil_r].
Qed.

#[export] Instance foot_preorder : PreOrder (foot 0 0).
Proof using Type.
  split; [intros db; by apply foot_frame|]. intros a b c. apply (foot_trans 0 0 0 0).
Qed.

Lemma foot_bind {A B} e1 a1 e2 a2 (m : M Conn A) (k : A -> M Conn B) :
  keeps (foot e1 a1) m -> (forall a, keeps (foot e2 a2) (k a)) ->
  keeps (foot (e1 + e2) (a1 + a2)) (bind m k).
Proof using Type.
  intros Hm Hk s b s' (a & s1 & E1 & E2)%bind_ok_inv. eapply foot_trans; [by eapply Hm|by eapply Hk].
Qed.

Variable env : PgEnv.

Lemma foot_outbox ev payload :
  Event_MessageID src <> "" -> descends src ev ->
  keeps (foot 1 0) (insertOutboxEvent env (set_Event_Payload payload ev)).
Proof using Type.
  intros Hid Hd. pose proof (descends_envelope src ev payload Hd Hid) as (D1 & D2 & D3 & D4).
  unfold insertOutboxEvent. set (e := WithEnvelopeDefaults _) in *.
  destruct (pg_marshal env e) as [p|]; [|apply keeps_throw].
  apply keeps_annotate, keeps_call. intros db u db'. unfold insert_outbox_row.
  destruct (pg_jsonb env p) as [p'|]; [|done]. destruct (existsb _ _); [done|].
  destruct (t_orders db !! _); [|done]. intros [= _ <-]. split; [done| |exists []; by rewrite app_nil_r].
  exists [outbox_row e p']. split_and!; [done|done|]. constructor; [|constructor]. done.
Qed.

Lemma foot_audit au : keeps (foot 0 1) (insertAuditLog env au).
Proof using Type.
  unfold insertAuditLog. destruct (pg_marshal_details env _) as [d|]; [|apply keeps_throw].
  apply keeps_annotate, keeps_call. intros db u db'. unfold insert_audit_row.
  destruct (pg_jsonb env d) as [d'|]; [|done]. intros [= _ <-].
  split; [done|exists []; by rewrite app_nil_r|by eexists].
Qed.

(** An update of the order of the event. *)
Lemma foot_update l f : keeps (foot 0 0) (annotate l (call env (update_order env (Event_OrderID src) f))).
Proof using Type.
  apply keeps_annotate, keeps_call. intros db n db'. unfold update_order.
  destruct (t_orders db !! _) as [r|]; [|intros [= _ <-]; reflexivity].
  destruct (negb _); [done|]. destruct (negb _); [done|]. intros [= _ <-].
  apply foot_frame; [|done|done]. intros id Hid. simpl. by rewrite lookup_insert_ne.
Qed.

End Footprints.

(** Close the goal that one statement writes other tables only. *)
Ltac foot_statement :=
  lazymatch goal with
  | |- keeps _ (exec _ _) => apply keeps_exec; intros ?
  | |- keeps _ (call _ (update_order _ _ _)) => fail
  | |- keeps _ (call _ _) => apply keeps_call; intros ? ? ? ?
  end;
  repeat match goal with
         | H : _ = Ok _ |- _ => progress unfold upsert_authorization, upsert_shipment,
             upsert_notification, upsert_compensation, release_inventory, reserve_candidate,
             upsert_reservation in H
         end;
  repeat match goal with
         | H : context [match ?x with _ => _ end] |- _ => destruct x eqn:?; try discriminate H
         end;
  simplify_eq/=; by apply foot_frame.

Create HintDb foot discriminated.

Ltac foot_keeps :=
  repeat first [solve [auto with foot] | apply foot_update | keeps_step | foot_statement].

Section Operations.
Variable src : OutboxEvent.
Variable env : PgEnv.
Notation foot := (footprint src).
Notation id := (Event_OrderID src).

Lemma foot_get i : keeps (foot 0 0) (getOrderTx env i).
Proof using Type. unfold getOrderTx. foot_keeps. Qed.

Lemma foot_lock i st : keeps (foot 0 0) (lock_and_validate env i st).
Proof using Type. unfold lock_and_validate, lockOrderStatusForUpdate. foot_keeps. Qed.

Lemma foot_status l st at_ : keeps (foot 0 0) (update_status_checked env l id st at_).
Proof using Type. unfold update_status_checked. foot_keeps. Qed.

Lemma foot_release i at_ : keeps (foot 0 0) (releaseReservedStock env i at_).
Proof using Type. unfold releaseReservedStock, releaseInventoryItems. foot_keeps. Qed.

Lemma foot_void at_ : keeps (foot 0 0) (voidAuthorizedPayment env id at_).
Proof using Type. unfold voidAuthorizedPayment. foot_keeps. Qed.

Lemma foot_effects at_ : keeps (foot 0 0) (applyCompensationEffects env src at_).
Proof using Type.
  unfold applyCompensationEffects. apply keeps_bind; [apply _| |intros _]; case_match;
    auto using foot_release, foot_void; apply keeps_ret; apply _.
Qed.

Lemma foot_items i : keeps (foot 0 0) (orderItemsForReservation env i).
Proof using Type. unfold orderItemsForReservation. foot_keeps. Qed.

Lemma foot_line s next item : keeps (foot 0 0) (reserve_line env s next item).
Proof using Type. unfold reserve_line, reserveInventoryItem, reserve_from_stock. foot_keeps. Qed.

End Operations.

#[export] Hint Resolve foot_get foot_lock foot_status foot_release foot_void foot_effects foot_items
  foot_line : foot.

(** Follow an operation to its event and its audit entry. *)
Ltac foot_op :=
  repeat first
    [ solve [auto with foot]
    | lazymatch goal with
      | |- keeps (footprint ?src _ ?a) (bind (insertOutboxEvent _ _) _) =>
          apply (foot_bind src 1 0 0 a); [by apply foot_outbox|intros ?]
      | |- keeps (footprint ?src _ _) (bind (insertAuditLog _ _) _) =>
          apply (foot_bind src 0 1 0 0); [apply foot_audit|intros ?]
      | |- keeps (footprint ?src ?e ?a) (bind _ _) =>
          apply (foot_bind src 0 0 e a); [foot_keeps|intros ?]
      | |- keeps _ (match ?x with _ => _ end) => destruct x
      | |- keeps _ (throw _) => apply keeps_throw
      | |- keeps _ (ret _) => apply keeps_ret; apply _
      | |- keeps _ (let _ := _ in _) => cbv zeta
      end ].

(** The events an operation of a worker appends. *)
Definition events_of (op : PgOp) : nat :=
  match op with PgNotified _ _ | PgCompensated _ _ _ => 0 | _ => 1 end.

Lemma assigned_footprint env queue src op :
  assigned queue src op -> Event_MessageID src <> "" ->
  keeps (footprint src (events_of op) 1) (pg_run env op).
Proof.
  intros Ha Hid. destruct op; try done; simpl in Ha; destruct_and?; subst;
    try match goal with H : continues _ _ _ |- _ => destruct H as [Hd _] end.
  - destruct H0 as [(_ & _ & Hd & _)|(_ & _ & Hd & _)]; simpl; unfold discard.
    all: apply (foot_bind src 1 1 0 0); [apply keeps_transaction; foot_op|intros; apply keeps_ret; apply _].
  - simpl. apply keeps_transaction. foot_op.
  - simpl. apply keeps_transaction. foot_op.
  - simpl. apply keeps_transaction. foot_op.
  - simpl. apply keeps_transaction. foot_op.
  - simpl. apply keeps_transaction. foot_op.
  - simpl. apply keeps_transaction. foot_op.
  - simpl. apply keeps_transaction. foot_op.
  - simpl. apply keeps_transaction. foot_op.
  - simpl. apply keeps_transaction. foot_op.
Qed.

(** ** One run of a handler *)

(** One operation of the queue's worker on behalf of the event, run to its end:
    what it did to the database. *)
Definition performed (env : PgEnv) (queue : string) (src : OutboxEvent) (db db' : Database) : Prop :=
  exists op n c', assigned queue src op
    /\ pg_run (without_faults env) op (mkConn db n) = (Ok tt, c') /\ conn_db c' = db'
    /\ footprint src (events_of op) 1 db db' /\ orders_step db db'.

Lemma operated_performed env queue src db db' :
  operated env queue src db db' -> performed env queue src db db'.
Proof.
  intros (Hid & op & n & c' & Ha & Hrun & <-). exists op, n, c'. split_and!; [done..| |].
  - exact (assigned_footprint (without_faults env) queue src op Ha Hid _ _ _ Hrun).
  - pose proof (orders_run (without_faults env) op (mkConn db n)) as H. by rewrite Hrun in H.
Qed.

(** C12: one run of a worker's handler is at most one operation of the PostgreSQL
    store, wired as the worker process wires it, with a connection that may fail at
    any call.  A run that succeeds performed one operation of its queue on the order
    of its event (or found the order past its step, for completions and
    cancellations, and changed nothing).  A run that fails changed nothing, or its
    one operation went through all the same because the confirmation of its commit
    was lost.  The operation leaves every other order alone, moves this one along
    the life cycle only, and appends one audit entry and one event (none for
    notifications and compensations) that carries the order, merchant and
    correlation id of its source and names it as its cause. *)
Theorem worker_run_correct {P} env henv queue handler src (w : HWorld Conn P) :
  (forall n carried_out e,
     pg_fault env n = Some (carried_out, e) -> error_is e "insufficient stock" = false) ->
  HandlerForQueue henv (pg_worker_dependencies env henv) queue = Ok handler ->
  let '(r, w') := handler src w in
  let db := conn_db (hw_store w) in
  let db' := conn_db (hw_store w') in
  match r with
  | Ok _ =>
      performed env queue src db db'
      \/ db' = db /\ exists row, t_orders db !! Event_OrderID src = Some row
                                 /\ settled queue (orders_status row) = true
  | Err _ => db' = db \/ performed env queue src db db'
  end.
Proof.
  intros Hf Hq. pose proof (handler_works env henv Hf queue handler src _ Hq w eq_refl) as H.
  destruct (handler src w) as [[u|e] w']; destruct H as [H|H]; auto using operated_performed.
Qed.

(** ** A lost confirmation *)

(** The commit of the reservation, call number 20, is carried out by the server and
    reported as failed. *)
Definition lost_commit : PgEnv :=
  mkPgEnv (fun n => if Nat.eqb n 20 then Some (true, Text "connection reset") else None)
    (pg_now pg_sample) (pg_message pg_sample) (pg_by_occurred_at pg_sample)
    (pg_returning pg_sample) (pg_marshal pg_sample) (pg_unmarshal pg_sample)
    (pg_marshal_details pg_sample) (pg_unmarshal_details pg_sample) (pg_jsonb pg_sample).

Definition unconfirmed : result unit * HWorld Conn unit :=
  reserveInventory sample_henv (pg_worker_dependencies lost_commit sample_henv)
    (pg_event "msg_1" "order.created") (mkHWorld pg_inserted tt 0 0).

Lemma worker_run_correct_witness :
  is_ok (fst unconfirmed) = false
  /\ orders_status <$> t_orders (conn_db (hw_store (snd unconfirmed))) !! "ord_1"
     = Some StatusInventoryReserved
  /\ performed lost_commit InventoryReserveQueue (pg_event "msg_1" "order.created")
       (conn_db pg_inserted) (conn_db (hw_store (snd unconfirmed))).
Proof.
  assert (H1 : is_ok (fst unconfirmed) = false) by (vm_compute; reflexivity).
  assert (H2 : orders_status <$> t_orders (conn_db (hw_store (snd unconfirmed))) !! "ord_1"
               = Some StatusInventoryReserved) by (vm_compute; reflexivity).
  assert (H3 : orders_status <$> t_orders (conn_db pg_inserted) !! "ord_1"
               = Some StatusPendingFulfillment) by (vm_compute; reflexivity).
  pose proof (worker_run_correct lost_commit sample_henv InventoryReserveQueue
    (reserveInventory sample_henv (pg_worker_dependencies lost_commit sample_henv))
    (pg_event "msg_1" "order.created") (mkHWorld pg_inserted tt 0 0)) as H.
  change (reserveInventory sample_henv (pg_worker_dependencies lost_commit sample_henv)
    (pg_event "msg_1" "order.created") (mkHWorld pg_inserted tt 0 0)) with unconfirmed in H.
  destruct unconfirmed as [[u|e] w']; [discriminate H1|]. cbn [fst snd hw_store] in *.
  split; [reflexivity|split; [exact H2|]].
  destruct H as [E|H]; [|reflexivity| |exact H].
  - intros n b e'. unfold lost_commit. cbn [pg_fault]. destruct (Nat.eqb n _); [|discriminate].
    intros [= _ <-]. reflexivity.
  - exfalso. rewrite E, H3 in H2. discriminate H2.
Defined.
