(* ===== verification/DlqProcess.v ===== *)
(** The dead-letter replay command, [cmd/fulfillhub-dlq-replay/main.go]: its
    settings, the replay and the audit entry in the PostgreSQL store, composed as
    [main] composes them. *)
From S2P Require Import Prelude GoStrings GoTime Model MemoryStore Topology Amqp Dlq.
From S2P Require Import MemoryInvariant Database PgStore PgAtomic PgStock PgOrders PgSamples.

(** What the outside answers before the replay. *)
Record ReplayWorld := mkReplayWorld {
  rpw_open : string -> result unit;
  rpw_migrate : result unit;
  (** [amqp.Dial], [conn.Channel] and [DeclareTopology] *)
  rpw_channel : string -> result unit
}.

Definition replay_config (s : replaySettings) : DLQReplayConfig :=
  mkDLQReplayConfig (Settings_Queue s) (Settings_Exchange s) (Settings_RoutingKey s)
    (Settings_Limit s).

Section Command.
Context {C : Type}.
Variable getenv : string -> string.
(** the clock at the start and when the audit entry is built *)
Variables started audited : Time.
Variable world : ReplayWorld.
(** [messaging.ReplayDLQ] on the open channel *)
Variable replay : DLQReplayConfig -> C -> (Z * option error) * C.
Variable env : PgEnv.

(** What is done before the replay; [log.Fatal] ends the command. *)
Definition replay_setup : result replaySettings :=
  match loadReplaySettings getenv started with
  | Err e => Err e
  | Ok settings =>
      match rpw_open world (Settings_DatabaseURL settings) with
      | Err e => Err e
      | Ok _ =>
          match rpw_migrate world with
          | Err e => Err e
          | Ok _ =>
              match rpw_channel world (Settings_RabbitURL settings) with
              | Err e => Err e
              | Ok _ => Ok settings
              end
          end
      end
  end.

(** [main]: the replayed count it reports, or the error it dies with.  The audit
    entry is written whether the replay failed or not. *)
Definition dlq_main (c : C) (conn : Conn) : result Z * C * Conn :=
  match replay_setup with
  | Err e => (Err e, c, conn)
  | Ok settings =>
      let '((replayed, replayErr), c) := replay (replay_config settings) c in
      let audit := buildReplayAudit settings replayed replayErr audited in
      match PgStore_RecordAuditLog env audit conn with
      | (Err e, conn) => (Err (Wrap "record dlq replay audit: " e ""), c, conn)
      | (Ok _, conn) =>
          (match replayErr with Some e => Err e | None => Ok replayed end, c, conn)
      end
  end.

End Command.

(** ** Facts *)

(** A recorded audit entry is the last row of its table. *)
Lemma record_audit_ok env audit c c' :
  PgStore_RecordAuditLog env audit c = (Ok tt, c') ->
  exists details details',
    pg_marshal_details env (Audit_Details audit) = Ok details /\ pg_jsonb env details = Ok details'
    /\ conn_db c' = set_audit_logs (t_audit_logs (conn_db c) ++ [audit_row audit details']) (conn_db c).
Proof.
  unfold PgStore_RecordAuditLog, transaction, insertAuditLog.
  destruct (pg_fault env (conn_calls c)) as [[]|]; [done|].
  unfold bind. destruct (pg_marshal_details env (Audit_Details audit)) as [details|] eqn:Hm; [|done].
  destruct (annotate _ _ _) as [[[]|e] s] eqn:Ha; [|done].
  apply annotate_ok_inv, call_ok_inv in Ha. unfold insert_audit_row in Ha.
  destruct (pg_jsonb env details) as [details'|] eqn:Hj; [|done]. injection Ha as Ha.
  simpl. destruct (pg_fault env (conn_calls s)) as [[]|]; [done|]. intros [= <-].
  exists details, details'. by rewrite <- Ha.
Qed.

Lemma settings_complete getenv now s :
  loadReplaySettings getenv now = Ok s ->
  String.eqb (Settings_Queue s) "" || String.eqb (Settings_Exchange s) ""
  || String.eqb (Settings_RoutingKey s) "" = false
  /\ 0 < Settings_Limit s.
Proof.
  unfold loadReplaySettings. destruct (replay_limit _) as [limit|] eqn:Hl; [|done].
  destruct (String.eqb (TrimSpace (getenv "RABBITMQ_URL")) ""); [done|].
  destruct (String.eqb (TrimSpace (getenv "DATABASE_URL")) ""); [done|].
  destruct (String.eqb (TrimSpace (getenv "DLQ_QUEUE")) "") eqn:Hq; [done|].
  destruct (String.eqb (TrimSpace (getenv "TARGET_ROUTING_KEY")) "") eqn:Hr; [done|].
  destruct (String.eqb (TrimSpace (getenv "OPS_ACTOR_ID")) ""); [done|].
  intros [= <-]. simpl. rewrite Hq, Hr. split; [done|].
  unfold replay_limit in Hl. repeat case_match; simplify_eq; lia.
Qed.

Definition status_of (err : option error) : string :=
  match err with None => "succeeded" | Some _ => "failed" end.

Lemma audit_details_of settings n err at_ :
  let details := Audit_Details (buildReplayAudit settings n err at_) in
  details !! "replayed_count" = Some (Itoa n) /\ details !! "status" = Some (status_of err)
  /\ details !! "queue" = Some (Settings_Queue settings).
Proof.
  destruct err; simpl; split_and!;
    repeat first [rewrite lookup_insert_eq; done | rewrite lookup_insert_ne by done].
Qed.

(** C20: the replay command is safe on every failure path and leaves a trace.
    Nothing is assumed of the AMQP channel: each of its calls may answer with an
    error, whatever its effect was.  Once the set-up succeeds, the calls the
    command makes are exactly these: it turns on publisher confirms; it then moves
    messages one at a time, at most the configured number, each taken from the
    queue, sent again unchanged under the configured exchange and key, waited for
    until the confirm, and acknowledged only after that; it stops at an empty
    queue or at the first call that fails, where a message in hand that was not
    confirmed is given back to the queue, and one whose acknowledgement failed was
    confirmed and is left unacknowledged.  It then records one audit entry that
    names the queue, the number of messages moved and whether the replay failed;
    it reports success only when both the replay and the entry succeeded. *)
Theorem dlq_command_audited {C : Type} Confirm Get PublishWithContext waitForOutcome Ack Requeue
    (c : C) getenv started audited world env settings conn :
  replay_setup getenv started world = Ok settings ->
  let config := replay_config settings in
  exists count err log,
    let audit := buildReplayAudit settings count err audited in
    let details := Audit_Details audit in
    let '(res, (_, log'), conn') :=
      dlq_main getenv started audited world
        (logged_replay Confirm Get PublishWithContext waitForOutcome Ack Requeue) env
        (c, []) conn in
    log' = log
    /\ ((exists e, log = [CalledConfirm (Err e)] /\ count = 0
                   /\ err = Some (Wrap "enable dlq replay publisher confirms: " e ""))
        \/ exists out last,
             log = CalledConfirm (Ok tt) :: concat (map (moved config) out) ++ last
             /\ count = Z.of_nat (length out) /\ count <= Settings_Limit settings
             /\ ((count = Settings_Limit settings /\ last = [] /\ err = None)
                 \/ count < Settings_Limit settings /\ stopped config last err))
    /\ details !! "replayed_count" = Some (Itoa count)
    /\ details !! "status" = Some (status_of err)
    /\ details !! "queue" = Some (Settings_Queue settings)
    /\ match fst (PgStore_RecordAuditLog env audit conn) with
       | Ok _ => (exists text, t_audit_logs (conn_db conn')
                               = t_audit_logs (conn_db conn) ++ [audit_row audit text])
                 /\ res = match err with None => Ok count | Some e => Err e end
       | Err e => res = Err (Wrap "record dlq replay audit: " e "")
       end.
Proof.
  intros Hsetup config.
  assert (Hload : loadReplaySettings getenv started = Ok settings).
  { unfold replay_setup in Hsetup. repeat case_match; by simplify_eq. }
  destruct (settings_complete _ _ _ Hload) as [Hset Hlim].
  destruct (dlq_replay_journal Confirm Get PublishWithContext waitForOutcome Ack Requeue config c
              Hset) as (count & err & c' & log & Hrun & Hlog).
  exists count, err, log. unfold dlq_main. rewrite Hsetup. fold config. rewrite Hrun.
  destruct (audit_details_of settings count err audited) as (H1 & H2 & H3).
  set (audit := buildReplayAudit _ _ _ _) in *.
  simpl in Hlog. rewrite (proj2 (Z.leb_gt _ 0)) in Hlog by done.
  assert (Hj : (exists e, log = [CalledConfirm (Err e)] /\ count = 0
                   /\ err = Some (Wrap "enable dlq replay publisher confirms: " e ""))
        \/ exists out last,
             log = CalledConfirm (Ok tt) :: concat (map (moved config) out) ++ last
             /\ count = Z.of_nat (length out) /\ count <= Settings_Limit settings
             /\ ((count = Settings_Limit settings /\ last = [] /\ err = None)
                 \/ count < Settings_Limit settings /\ stopped config last err)).
  { destruct Hlog as [?|(out & last & Hl & Hn & Hj)]; [by left|right]. exists out, last.
    split_and!; [done|done|destruct Hj as [(? & _ & _)|[? _]]; lia|].
    destruct Hj as [(? & ? & ?)|[? ?]]; [left; split_and!; auto; lia|right; split; [lia|done]]. }
  destruct (PgStore_RecordAuditLog env audit conn) as [[[]|e] conn'] eqn:Ha; simpl.
  - destruct (record_audit_ok _ _ _ _ Ha) as (_ & text & _ & _ & Hdb).
    split_and!; try done. exists text. by rewrite Hdb.
  - split_and!; done.
Qed.

(** ** Instances *)

Definition replay_env (key : string) : string :=
  if one_of key ["RABBITMQ_URL"; "DATABASE_URL"; "OPS_ACTOR_ID"] then "set"
  else if String.eqb key "DLQ_QUEUE" then "orders.cancel.dlq"
  else if String.eqb key "TARGET_ROUTING_KEY" then "order.cancel_requested"
  else if String.eqb key "REPLAY_LIMIT" then "5" else "".

Definition replay_world : ReplayWorld :=
  mkReplayWorld (fun _ => Ok tt) (Ok tt) (fun _ => Ok tt).

(** A queue of two messages on a channel whose second acknowledgement fails. *)
Definition two_messages (queue : string) : M (list Delivery) (option Delivery) :=
  fun q => match q with [] => (Ok None, q) | d :: rest => (Ok (Some d), rest) end.

Definition second_ack_fails (d : Delivery) : M (list Delivery) unit :=
  fun q => match q with [] => (Err (Text "closed"), q) | _ => (Ok tt, q) end.

Definition replay_run : result Z * (list Delivery * list ChannelCall) * Conn :=
  dlq_main replay_env 0 0 replay_world
    (logged_replay (ret tt) two_messages (fun _ _ _ => ret tt) (fun _ => ret tt) second_ack_fails
       (fun _ => ret tt)) pg_sample ([sample_delivery; sample_delivery], []) pg_start.

Lemma dlq_command_audited_witness :
  let config := mkDLQReplayConfig "orders.cancel.dlq" DomainExchange "order.cancel_requested" 5 in
  let log := replay_run.1.2.2 in
  replay_run.1.1 = Err (Wrap "ack dlq message: " (Text "closed") "") /\ length log = 9%nat
  /\ exists out last,
       log = CalledConfirm (Ok tt) :: concat (map (moved config) out) ++ last
       /\ exists err, stopped config last err.
Proof.
  set (config := mkDLQReplayConfig _ _ _ _).
  assert (Hres : replay_run.1.1 = Err (Wrap "ack dlq message: " (Text "closed") "")
                 /\ length replay_run.1.2.2 = 9%nat) by (split; vm_compute; reflexivity).
  destruct Hres as [Hres Hlen].
  assert (Hc : match replay_setup replay_env 0 replay_world with
               | Ok s => (replay_config s, Settings_Limit s) = (config, 5)
               | Err _ => False
               end) by (vm_compute; reflexivity).
  destruct (replay_setup replay_env 0 replay_world) as [settings|] eqn:Hs; [|by destruct Hc].
  pose proof (f_equal fst Hc) as Hconf. pose proof (f_equal snd Hc) as Hlim.
  cbn [fst snd] in Hconf, Hlim.
  destruct (dlq_command_audited (ret tt) two_messages (fun _ _ _ => ret tt) (fun _ => ret tt)
              second_ack_fails (fun _ => ret tt) [sample_delivery; sample_delivery]
              replay_env 0 0 replay_world pg_sample settings pg_start Hs)
    as (count & err & log & H).
  fold replay_run in H. rewrite Hconf, Hlim in H.
  destruct replay_run as [[res [q' log']] conn']. cbn [fst snd] in *.
  destruct H as (-> & [(e & -> & _)|(out & last & Hl & Hn & _ & Hend)] & _); [discriminate Hlen|].
  split; [exact Hres|split; [exact Hlen|]]. exists out, last. split; [exact Hl|].
  destruct Hend as [(Hc5 & -> & _)|[_ Hstop]]; [|by exists err].
  exfalso. subst log. rewrite Hc5 in Hn.
  destruct out as [|? [|? [|? out]]]; [discriminate Hn..|discriminate Hlen].
Defined.
