(* ===== verification/Transactions.v ===== *)
(** The transactions of the PostgreSQL store as sequences of statements, for
    executions in which several connections work on one database.

    [PgStore] runs an operation from begin to commit on its own.  Here an
    operation is a [Prog]: the statements it sends, in the order it sends them,
    each with the rows it writes and the rows or index entries it locks until
    the transaction ends.  The outcome of a statement is that of [PgStore]'s
    statement on the rows the transaction sees.

    What a statement reads without a lock may be out of date when the
    transaction commits.  Such a value is an argument of the transaction, and
    the statement's guard says that it was right when it was read: the key
    lookup of [InsertOrder], the provider that [RecordPaymentFailed] writes
    back, the stock row the server picks for a reservation (the best one in the
    statement's snapshot, which another transaction may have changed while the
    statement waited for its lock) and the events a claim picks (it skips locked
    ones). *)
From S2P Require Import Prelude GoStrings GoTime Model StateMachine MemoryStore.
From S2P Require Import Database PgStore PgAtomic.

(** ** Rows written *)

Inductive Write : Type :=
| WMerchant (id : string)
| WNewOrder (id : string) (row : OrderRow)
(** the columns an [UPDATE orders] sets, taken from a row *)
| WSetOrder (id : string) (row : OrderRow)
| WNewItem (row : ItemRow)
(** all items of the order, or those in one status *)
| WSetItems (order status : string) (from : option string)
| WKey (merchant key order : string)
| WOutbox (row : OutboxRow)
| WClaim (ids : list string) (now : Time)
| WPublish (id : string) (at_ : Time)
| WInbox (consumer message correlation : string)
| WInboxGone (consumer message : string)
| WAudit (row : AuditRow)
| WReservation (order sku : string) (row : ReservationRow)
| WAuthorization (order : string) (row : AuthorizationRow)
| WVoid (order : string) (at_ : Time)
| WShipment (order : string) (row : ShipmentRow)
| WNotification (message : string) (row : NotificationRow)
| WCompensation (message : string) (row : CompensationRow)
(** the quantities and the time an [UPDATE inventory_items] sets *)
| WStock (id : Z) (available reserved : Z) (at_ : Time).

(** The columns of [orders] that no [UPDATE] sets stay as they are. *)
Definition set_columns (row old : OrderRow) : OrderRow :=
  mkOrderRow (orders_merchant_id old) (orders_external_order_id old) (orders_status row)
    (orders_currency old) (orders_subtotal_amount old) (orders_shipping_amount old)
    (orders_total_amount old) (orders_payment_provider row) (orders_payment_status row)
    (orders_payment_authorization_id row) (orders_payment_credential_ref old)
    (orders_shipping_address_ref old) (orders_created_at old) (orders_updated_at row)
    (orders_version row).

Definition set_quantities (available reserved : Z) (at_ : Time) (row : InventoryRow)
    : InventoryRow :=
  mkInventoryRow (inv_warehouse_id row) (inv_sku row) available reserved at_.

Definition chosen (order : string) (from : option string) (r : ItemRow) : bool :=
  String.eqb (item_order_id r) order
  && match from with None => true | Some st => String.eqb (item_reservation_status r) st end.

Definition apply_write (w : Write) (db : Database) : Database :=
  match w with
  | WMerchant id => set_merchants (<[id := id]> (t_merchants db)) db
  | WNewOrder id row => set_orders (<[id := row]> (t_orders db)) db
  | WSetOrder id row => set_orders (alter (set_columns row) id (t_orders db)) db
  | WNewItem row => set_order_items (t_order_items db ++ [row]) db
  | WSetItems order status from =>
      set_order_items
        (map (fun r => if chosen order from r then set_item_status status r else r)
           (t_order_items db)) db
  | WKey merchant key order =>
      set_idempotency_keys (<[(merchant, key) := order]> (t_idempotency_keys db)) db
  | WOutbox row => set_outbox_events (t_outbox_events db ++ [row]) db
  | WClaim ids now =>
      set_outbox_events
        (map (fun r => if existsb (String.eqb (out_message_id r)) ids then set_claim now r else r)
           (t_outbox_events db)) db
  | WPublish id at_ => set_outbox_events (map (mark_row id at_) (t_outbox_events db)) db
  | WInbox consumer message correlation =>
      set_inbox_messages (<[(consumer, message) := correlation]> (t_inbox_messages db)) db
  | WInboxGone consumer message =>
      set_inbox_messages (delete (consumer, message) (t_inbox_messages db)) db
  | WAudit row => set_audit_logs (t_audit_logs db ++ [row]) db
  | WReservation order sku row =>
      set_stock_reservations (<[(order, sku) := row]> (t_stock_reservations db)) db
  | WAuthorization order row =>
      set_payment_authorizations (<[order := row]> (t_payment_authorizations db)) db
  | WVoid order at_ =>
      set_payment_authorizations
        (alter (void_authorization at_) order (t_payment_authorizations db)) db
  | WShipment order row => set_shipments (<[order := row]> (t_shipments db)) db
  | WNotification message row =>
      set_notification_events (<[message := row]> (t_notification_events db)) db
  | WCompensation message row =>
      set_compensation_events (<[message := row]> (t_compensation_events db)) db
  | WStock id available reserved at_ =>
      set_inventory_items
        (alter (set_quantities available reserved at_) id (t_inventory_items db)) db
  end.

Definition apply_writes (ws : list Write) (db : Database) : Database :=
  fold_left (fun db w => apply_write w db) ws db.

(** ** Locks *)

(** Rows, and index entries that a new row occupies. *)
Inductive Lock : Type :=
| LMerchant (id : string)
| LOrder (id : string)
| LExternal (merchant external : string)
| LItems (order : string)
| LKey (merchant key : string)
| LMessage (id : string)
| LInbox (consumer message : string)
| LReservation (order sku : string)
| LAuthorization (order : string)
| LAuthorizationID (id : string)
| LShipment (order : string)
| LShipmentID (id : string)
| LTracking (number : string)
| LNotification (message : string)
| LCompensation (message : string)
| LStock (id : Z).

#[export] Instance Lock_eq_dec : EqDecision Lock.
Proof. solve_decision. Defined.

(** ** Programs *)

(** The outcome of a statement on the rows a transaction sees. *)
Definition Stmt (X : Type) : Type := Database -> result (X * list Write * list Lock).

Inductive Prog : Type :=
| Done
| Fail (e : error)
| Exec {X : Type} (guard : Database -> bool) (s : Stmt X) (k : X -> Prog).

(** The program on its own, with what it had read without a lock: the guards,
    which say that those values were right when they were read, are not checked. *)
Fixpoint serial (p : Prog) (db : Database) : result Database :=
  match p with
  | Done => Ok db
  | Fail e => Err e
  | Exec _ s k =>
      match s db with
      | Ok (x, ws, _) => serial (k x) (apply_writes ws db)
      | Err e => Err e
      end
  end.

(** A statement of [PgStore] with what it writes and locks. *)
Definition writing {X} (f : Database -> result (X * Database)) (ws : Database -> list Write)
    (ls : Database -> list Lock) : Stmt X :=
  fun db => match f db with
            | Ok (x, _) => Ok (x, ws db, ls db)
            | Err e => Err e
            end.

Definition reading {X} (f : Database -> result X) (ls : Database -> list Lock) : Stmt X :=
  writing (fun db => match f db with Ok x => Ok (x, db) | Err e => Err e end) (fun _ => []) ls.

Definition labelled {X} (label : string) (s : Stmt X) : Stmt X :=
  fun db => match s db with Err e => Err (Wrap label e "") | ok => ok end.

Definition unguarded : Database -> bool := fun _ => true.

Section Programs.
Variable env : PgEnv.

(** ** The statements of the store *)

(** *** Orders *)

(** [getOrderTx] inside a transaction, of which only the existence of the order
    matters there. *)
Definition require_order (id : string) : Stmt unit :=
  reading (fun db => match t_orders db !! id with
                     | None => Err ErrNotFound
                     | Some _ => Ok tt
                     end) (fun _ => []).

(** [SELECT .. FROM orders .. FOR UPDATE]. *)
Definition select_order_for_update (id : string) : Stmt OrderRow :=
  reading (fun db => match t_orders db !! id with
                     | None => Err ErrNotFound
                     | Some r => Ok r
                     end) (fun _ => [LOrder id]).

(** A later plain [SELECT] of the same row. *)
Definition select_order (id : string) : Stmt OrderRow :=
  reading (fun db => match t_orders db !! id with
                     | None => Err ErrNotFound
                     | Some r => Ok r
                     end) (fun _ => []).

Definition stmt_update_order (id : string) (f : OrderRow -> OrderRow) : Stmt Z :=
  writing (update_order env id f)
    (fun db => match t_orders db !! id with None => [] | Some r => [WSetOrder id (f r)] end)
    (fun db => match t_orders db !! id with None => [] | Some _ => [LOrder id] end).

(** The insert whose unique violations are reported as [ErrDuplicateOrder]. *)
Definition stmt_insert_order (merchantID : string) (order : Order) : Stmt unit :=
  writing
    (fun db => match insert_order_row env merchantID order db with
               | Err e => Err (if isUniqueViolation e then ErrDuplicateOrder
                               else Wrap "insert order: " e "")
               | ok => ok
               end)
    (fun _ => match char3 (Order_Currency order) with
              | None => []
              | Some currency =>
                  [WNewOrder (Order_OrderID order) (order_row merchantID currency order)]
              end)
    (fun _ => [LOrder (Order_OrderID order); LExternal merchantID (Order_ExternalOrderID order)]).

Definition stmt_insert_item (id : string) (item : OrderItem) : Stmt unit :=
  writing (insert_item_row env id item)
    (fun _ => match char3 (Money_Currency (OrderItem_UnitPrice item)) with
              | None => []
              | Some currency =>
                  [WNewItem (mkItemRow id (OrderItem_SKU item) (OrderItem_Quantity item)
                               (Money_Amount (OrderItem_UnitPrice item)) currency
                               (OrderItem_ReservationStatus item))]
              end)
    (fun _ => [LItems id]).

Definition stmt_insert_key (merchantID key orderID : string) : Stmt unit :=
  writing (insert_idempotency_row env merchantID key orderID)
    (fun _ => [WKey merchantID key orderID]) (fun _ => [LKey merchantID key]).

Definition stmt_upsert_merchant (id : string) : Stmt unit :=
  writing
    (fun db => Ok (tt, match t_merchants db !! id with
                       | Some _ => db
                       | None => set_merchants (<[id := id]> (t_merchants db)) db
                       end))
    (fun db => match t_merchants db !! id with Some _ => [] | None => [WMerchant id] end)
    (fun db => match t_merchants db !! id with Some _ => [] | None => [LMerchant id] end).

(** [UPDATE order_items] of every item of the order. *)
Definition stmt_update_items (id status : string) : Stmt unit :=
  writing (fun db => Ok (tt, update_items id status (fun _ => true) db))
    (fun _ => [WSetItems id status None]) (fun _ => [LItems id]).

(** [UPDATE order_items .. AND reservation_status = 'reserved']. *)
Definition reserved_items (id : string) (db : Database) : list ItemRow :=
  filter (fun r => item_reservation_status r = "reserved") (items_of id db).

Definition stmt_release_items (id : string) : Stmt unit :=
  writing
    (fun db => Ok (tt, update_items id "released"
                         (fun r => String.eqb (item_reservation_status r) "reserved") db))
    (fun _ => [WSetItems id "released" (Some "reserved")])
    (fun db => match reserved_items id db with [] => [] | _ => [LItems id] end).

(** *** Events and audit *)

Definition stmt_insert_outbox (event : OutboxEvent) (payload : string) : Stmt unit :=
  writing (insert_outbox_row env event payload)
    (fun _ => match pg_jsonb env payload with
              | Err _ => []
              | Ok payload => [WOutbox (outbox_row event payload)]
              end)
    (fun _ => [LMessage (Event_MessageID event)]).

Definition stmt_insert_audit (audit : AuditLog) (details : string) : Stmt unit :=
  writing (insert_audit_row env audit details)
    (fun _ => match pg_jsonb env details with
              | Err _ => []
              | Ok details => [WAudit (audit_row audit details)]
              end)
    (fun _ => []).

Definition outbox_prog (event : OutboxEvent) (k : Prog) : Prog :=
  let event := WithEnvelopeDefaults event in
  match pg_marshal env event with
  | Err e => Fail (Wrap "marshal outbox event: " e "")
  | Ok payload =>
      Exec unguarded (labelled "insert outbox event: " (stmt_insert_outbox event payload))
        (fun _ => k)
  end.

Definition audit_prog (audit : AuditLog) (k : Prog) : Prog :=
  match pg_marshal_details env (Audit_Details audit) with
  | Err e => Fail (Wrap "marshal audit details: " e "")
  | Ok details =>
      Exec unguarded (labelled "insert audit log: " (stmt_insert_audit audit details))
        (fun _ => k)
  end.

(** [lockOrderStatusForUpdate] and the check of the move. *)
Definition lock_prog (id : string) (status : OrderStatus) (k : Prog) : Prog :=
  Exec unguarded (select_order_for_update id) (fun r =>
    match ValidateOrderTransition (orders_status r) status with
    | Some e => Fail e
    | None => k
    end).

(** An update whose affected rows are inspected. *)
Definition update_checked_prog (label id : string) (f : OrderRow -> OrderRow) (k : Prog) : Prog :=
  Exec unguarded (labelled label (stmt_update_order id f)) (fun rows =>
    if rows =? 0 then Fail ErrNotFound else k).

(** An update whose affected rows are not. *)
Definition update_prog (label id : string) (f : OrderRow -> OrderRow) (k : Prog) : Prog :=
  Exec unguarded (labelled label (stmt_update_order id f)) (fun _ => k).

(** *** Stock *)

Definition select_items (id : string) : Stmt (list reservationItem) :=
  reading (fun db => match map (fun r => mkReservationItem (item_sku r) (item_quantity r))
                             (items_of id db) with
                     | [] => Err ErrNotFound
                     | items => Ok items
                     end) (fun _ => []).

(** [SELECT .. FROM stock_reservations .. FOR UPDATE]. *)
Definition select_reservation (id sku : string) : Stmt (option ReservationRow) :=
  reading (fun db => Ok (t_stock_reservations db !! (id, sku)))
    (fun db => match t_stock_reservations db !! (id, sku) with
               | None => []
               | Some _ => [LReservation id sku]
               end).

(** The candidate row [id] in its newest version, if it still qualifies. *)
Definition qualifies (merchantID sku : string) (quantity : Z) (db : Database) (id : Z)
    : option InventoryRow :=
  match t_inventory_items db !! id with
  | None => None
  | Some row => if candidate merchantID sku quantity db row then Some row else None
  end.

(** The [UPDATE .. FROM candidate .. RETURNING] on a picked row. *)
Definition take_picked (merchantID : string) (item : reservationItem) (at_ : Time)
    (pick : option Z) (db : Database) : result (string * Database) :=
  let none := Err (Wrap "" ErrInsufficientStock (" for sku " +:+ reservation_sku item)) in
  match pick with
  | None => none
  | Some id =>
      match qualifies merchantID (reservation_sku item) (reservation_quantity item) db id with
      | None => none
      | Some row =>
          let row := take_stock (reservation_quantity item) at_ row in
          if negb (int4 (inv_reserved_quantity row))
          then Err (Wrap "reserve inventory item: " (out_of_range env "reserved_quantity") "")
          else if inv_reserved_quantity row <? 0
          then Err (Wrap "reserve inventory item: "
                      (check_violation env "inventory_items_reserved_quantity_check") "")
          else Ok (inv_warehouse_id row,
                   set_inventory_items (<[id := row]> (t_inventory_items db)) db)
      end
  end.

Definition stmt_take_picked (merchantID : string) (item : reservationItem) (at_ : Time)
    (pick : option Z) : Stmt string :=
  writing (take_picked merchantID item at_ pick)
    (fun db => match pick with
               | None => []
               | Some id =>
                   match t_inventory_items db !! id with
                   | None => []
                   | Some row =>
                       let row := take_stock (reservation_quantity item) at_ row in
                       [WStock id (inv_available_quantity row) (inv_reserved_quantity row)
                          (inv_updated_at row)]
                   end
               end)
    (fun _ => match pick with None => [] | Some id => [LStock id] end).

(** [reserveInventoryItem]. *)
Definition reserve_prog (merchantID orderID : string) (item : reservationItem) (at_ : Time)
    (pick : option Z) (k : string -> Prog) : Prog :=
  let from_stock := Exec unguarded (stmt_take_picked merchantID item at_ pick) k in
  Exec unguarded (select_reservation orderID (reservation_sku item)) (fun existing =>
    match existing with
    | None => from_stock
    | Some r =>
        if String.eqb (res_status r) "reserved" then
          if negb (res_quantity r =? reservation_quantity item)
          then Fail (Text ("reservation quantity mismatch for sku " +:+ reservation_sku item))
          else k (default "" (res_warehouse_id r))
        else from_stock
    end).

(** The reservation after the upsert. *)
Definition upserted_reservation (orderID : string) (warehouseID : option string) (sku : string)
    (quantity : Z) (at_ : Time) (db : Database) : ReservationRow :=
  mkReservationRow
    match warehouseID, t_stock_reservations db !! (orderID, sku) with
    | Some w, _ => Some w
    | None, Some r => res_warehouse_id r
    | None, None => None
    end quantity "reserved" (timestamptz at_) None.

Definition stmt_upsert_reservation (orderID : string) (warehouseID : option string) (sku : string)
    (quantity : Z) (at_ : Time) : Stmt unit :=
  writing (upsert_reservation env orderID warehouseID sku quantity at_)
    (fun db => [WReservation orderID sku
                  (upserted_reservation orderID warehouseID sku quantity at_ db)])
    (fun _ => [LReservation orderID sku]).

(** The reservation loop; the server's picks are given in turn. *)
Fixpoint reserve_lines (source next : OutboxEvent) (items : list reservationItem)
    (picks : list (option Z)) (k : list any -> Prog) : Prog :=
  match items with
  | [] => k []
  | item :: items =>
      reserve_prog (Event_MerchantID source) (Event_OrderID source) item (Event_OccurredAt next)
        (default None (head picks)) (fun warehouseID =>
      Exec unguarded
        (labelled "upsert stock reservation: "
           (stmt_upsert_reservation (Event_OrderID source) (nullableString warehouseID)
              (reservation_sku item) (reservation_quantity item) (Event_OccurredAt next)))
        (fun _ => reserve_lines source next items (tail picks) (fun lines =>
           k (AMap [("quantity", AInt (reservation_quantity item));
                    ("sku", AStr (reservation_sku item)); ("warehouse_id", AStr warehouseID)]
              :: lines))))
  end.

(** The stock rows that get a reserved quantity back, as they become. *)
Definition returned_rows (orderID : string) (at_ : Time) (db : Database) : gmap Z InventoryRow :=
  omap (fun row => match holding orderID db row with
                   | None => None
                   | Some _ => Some (give_back orderID at_ db row)
                   end) (t_inventory_items db).

Definition set_stock (kv : Z * InventoryRow) : Write :=
  WStock (fst kv) (inv_available_quantity (snd kv)) (inv_reserved_quantity (snd kv))
    (inv_updated_at (snd kv)).

Definition stmt_release_inventory (orderID : string) (at_ : Time) : Stmt unit :=
  writing (release_inventory env orderID at_)
    (fun db => map set_stock (map_to_list (returned_rows orderID at_ db)))
    (fun db => map (fun kv => LStock (fst kv)) (map_to_list (returned_rows orderID at_ db))).

(** The reservations of the order that are not released yet, as they become. *)
Definition closed_reservations (orderID : string) (at_ : Time) (db : Database)
    : gmap (string * string) ReservationRow :=
  map_imap (fun k r => if String.eqb (fst k) orderID && negb (String.eqb (res_status r) "released")
                       then Some (release_reservation orderID at_ k r) else None)
    (t_stock_reservations db).

Definition set_reservation (kv : string * string * ReservationRow) : Write :=
  WReservation (fst (fst kv)) (snd (fst kv)) (snd kv).

Definition stmt_release_reservations (orderID : string) (at_ : Time) : Stmt unit :=
  writing
    (fun db => Ok (tt, set_stock_reservations
                         (map_imap (fun k r => Some (release_reservation orderID at_ k r))
                            (t_stock_reservations db)) db))
    (fun db => map set_reservation (map_to_list (closed_reservations orderID at_ db)))
    (fun db => map (fun kv => LReservation (fst (fst kv)) (snd (fst kv)))
                 (map_to_list (closed_reservations orderID at_ db))).

(** [releaseReservedStock]. *)
Definition release_prog (orderID : string) (at_ : Time) (k : Prog) : Prog :=
  Exec unguarded (labelled "release inventory items: " (stmt_release_inventory orderID at_))
    (fun _ =>
  Exec unguarded (labelled "release stock reservations: " (stmt_release_reservations orderID at_))
    (fun _ =>
  Exec unguarded (labelled "release order items: " (stmt_release_items orderID)) (fun _ => k))).

(** *** Payments and shipments *)

Definition stmt_void (orderID : string) (at_ : Time) : Stmt unit :=
  writing
    (fun db => Ok (tt, set_payment_authorizations
                         (alter (void_authorization at_) orderID (t_payment_authorizations db)) db))
    (fun _ => [WVoid orderID at_])
    (fun db => match t_payment_authorizations db !! orderID with
               | Some r => if String.eqb (auth_status r) "authorized"
                           then [LAuthorization orderID] else []
               | None => []
               end).

(** [voidAuthorizedPayment]. *)
Definition void_prog (orderID : string) (at_ : Time) (k : Prog) : Prog :=
  Exec unguarded (labelled "void payment authorization: " (stmt_void orderID at_)) (fun _ =>
  update_prog "void order payment: " orderID void_row k).

(** [applyCompensationEffects]. *)
Definition effects_prog (source : OutboxEvent) (at_ : Time) (k : Prog) : Prog :=
  let void := if String.eqb (Event_EventType source) "shipment.failed"
              then void_prog (Event_OrderID source) at_ k else k in
  if one_of (Event_EventType source) ["payment.failed"; "shipment.failed"]
  then release_prog (Event_OrderID source) at_ void else void.

(** The authorization after the upsert. *)
Definition upserted_authorization (orderID : string) (row : AuthorizationRow) (db : Database)
    : AuthorizationRow :=
  match t_payment_authorizations db !! orderID with
  | None => row
  | Some old => mkAuthorizationRow (auth_authorization_id row) (auth_merchant_id old)
                  (auth_provider row) (auth_status row) (auth_amount row)
                  (auth_currency row) (auth_authorized_at row) None
  end.

Definition stmt_upsert_authorization (orderID : string) (row : AuthorizationRow) : Stmt unit :=
  writing (upsert_authorization env orderID row)
    (fun db => [WAuthorization orderID (upserted_authorization orderID row db)])
    (fun _ => [LAuthorization orderID; LAuthorizationID (auth_authorization_id row)]).

(** The shipment after the upsert. *)
Definition upserted_shipment (orderID : string) (row : ShipmentRow) (db : Database)
    : ShipmentRow :=
  match t_shipments db !! orderID with
  | None => row
  | Some old => mkShipmentRow (ship_shipment_id row) (ship_merchant_id old)
                  (ship_carrier row) (ship_tracking_number row) (ship_status row)
                  (ship_created_at old) (ship_updated_at row)
  end.

Definition stmt_upsert_shipment (orderID : string) (row : ShipmentRow) : Stmt unit :=
  writing (upsert_shipment env orderID row)
    (fun db => [WShipment orderID (upserted_shipment orderID row db)])
    (fun _ => [LShipment orderID; LShipmentID (ship_shipment_id row);
               LTracking (ship_tracking_number row)]).

(** *** Projections of messages *)

Definition upserted_notification (source : OutboxEvent) (at_ : Time) (db : Database)
    : NotificationRow :=
  match t_notification_events db !! Event_MessageID source with
  | None => mkNotificationRow (Event_OrderID source) (Event_MerchantID source)
              (Event_EventType source) "email" "queued" (Event_CorrelationID source)
              (timestamptz at_)
  | Some old => mkNotificationRow (ntf_order_id old) (ntf_merchant_id old)
                  (ntf_source_event_type old) (ntf_channel old) "queued"
                  (Event_CorrelationID source) (timestamptz at_)
  end.

Definition stmt_upsert_notification (source : OutboxEvent) (at_ : Time) : Stmt unit :=
  writing (upsert_notification env source at_)
    (fun db => [WNotification (Event_MessageID source) (upserted_notification source at_ db)])
    (fun _ => [LNotification (Event_MessageID source)]).

Definition upserted_compensation (source : OutboxEvent) (status : OrderStatus) (audit : AuditLog)
    (db : Database) : CompensationRow :=
  let at_ := timestamptz (Audit_CreatedAt audit) in
  match t_compensation_events db !! Event_MessageID source with
  | None => mkCompensationRow (Event_OrderID source) (Event_MerchantID source)
              (Event_EventType source) (Audit_Action audit) status "recorded"
              (Event_CorrelationID source) at_
  | Some old => mkCompensationRow (cmp_order_id old) (cmp_merchant_id old)
                  (cmp_source_event_type old) (cmp_action old) status "recorded"
                  (Event_CorrelationID source) at_
  end.

Definition stmt_upsert_compensation (source : OutboxEvent) (status : OrderStatus)
    (audit : AuditLog) : Stmt unit :=
  writing (upsert_compensation env source status audit)
    (fun db => [WCompensation (Event_MessageID source)
                  (upserted_compensation source status audit db)])
    (fun _ => [LCompensation (Event_MessageID source)]).

(** *** Outbox and inbox statements outside transactions *)

(** A claim of the picked events at [now]: rows that are still claimable. *)
Definition rows_of (id : string) (db : Database) : list OutboxRow :=
  filter (fun r => out_message_id r = id) (t_outbox_events db).

Definition claimable_id (now : Time) (db : Database) (id : string) : bool :=
  existsb (row_claimable now) (rows_of id db).

Definition claim_valid (limit : Z) (now : Time) (ids : list string) (db : Database) : bool :=
  (Z.of_nat (length ids) <=? (if limit <=? 0 then 100 else limit))
  && forallb (claimable_id now db) ids.

Definition stmt_claim (limit : Z) (now : Time) (ids : list string) : Stmt unit :=
  writing
    (fun db => if claim_valid limit now ids db
               then Ok (tt, apply_write (WClaim ids now) db)
               else Err (Text "not a pick of the server"))
    (fun _ => [WClaim ids now]) (fun _ => map LMessage ids).

Definition stmt_publish (id : string) (at_ : Time) : Stmt unit :=
  writing
    (fun db => match mark_published id at_ db with
               | Ok (rows, db) => if rows =? 0 then Err ErrNotFound else Ok (tt, db)
               | Err e => Err e
               end)
    (fun _ => [WPublish id at_]) (fun _ => [LMessage id]).

(** [INSERT .. ON CONFLICT DO NOTHING] that records the message or finds it
    recorded. *)
Definition stmt_receive (consumer : string) (event : OutboxEvent) (fresh : bool) : Stmt unit :=
  if fresh then
    writing
      (fun db => match insert_inbox_row consumer event db with
                 | Ok (rows, db) => if rows =? 1 then Ok (tt, db)
                                    else Err (Text "not what the server found")
                 | Err e => Err e
                 end)
      (fun _ => [WInbox consumer (Event_MessageID event) (Event_CorrelationID event)])
      (fun _ => [LInbox consumer (Event_MessageID event)])
  else reading (fun _ => Ok tt) (fun _ => []).

Definition recorded (consumer : string) (event : OutboxEvent) (db : Database) : bool :=
  bool_decide (is_Some (t_inbox_messages db !! (consumer, Event_MessageID event))).

(** [DELETE FROM inbox_messages] that finds the row or does not. *)
Definition stmt_forget (consumer : string) (event : OutboxEvent) (found : bool) : Stmt unit :=
  if found then
    writing
      (fun db => Ok (tt, set_inbox_messages
                           (delete (consumer, Event_MessageID event) (t_inbox_messages db)) db))
      (fun _ => [WInboxGone consumer (Event_MessageID event)])
      (fun _ => [LInbox consumer (Event_MessageID event)])
  else reading (fun _ => Ok tt) (fun _ => []).

(** ** The store's operations *)

Inductive Txn : Type :=
(** the order found under the key, if any *)
| TInsert (found : option string) (m k : string) (o : Order) (ev : OutboxEvent) (au : AuditLog)
| TUpdate (id : string) (st : OrderStatus) (now : Time) (ev : OutboxEvent) (au : AuditLog)
(** the stock rows picked for the lines *)
| TReserved (picks : list (option Z)) (src next : OutboxEvent) (au : AuditLog)
| TRejected (src next : OutboxEvent) (au : AuditLog)
| TAuthorized (src next : OutboxEvent) (p : Payment) (au : AuditLog)
(** the provider read from the order *)
| TPaymentFailed (provider : string) (src next : OutboxEvent) (au : AuditLog)
| TShipped (src next : OutboxEvent) (sh : Shipment) (au : AuditLog)
| TShipmentFailed (src next : OutboxEvent) (au : AuditLog)
| TCancelled (src next : OutboxEvent) (au : AuditLog)
| TNotified (src : OutboxEvent) (au : AuditLog)
| TCompensated (src : OutboxEvent) (st : OrderStatus) (au : AuditLog)
| TAudited (au : AuditLog)
(** the server's clock and the events picked *)
| TClaim (now : Time) (ids : list string) (limit : Z)
| TPublished (id : string) (at_ : Time)
(** whether the message was new *)
| TReceived (fresh : bool) (consumer : string) (ev : OutboxEvent)
(** whether the message was there *)
| TReleased (found : bool) (consumer : string) (ev : OutboxEvent).

(** The operation of the store a transaction carries out. *)
Definition txn_op (t : Txn) : PgOp :=
  match t with
  | TInsert _ m k o ev au => PgInsert m k o ev au
  | TUpdate id st now ev au => PgUpdate id st now ev au
  | TReserved _ src next au => PgReserved src next au
  | TRejected src next au => PgRejected src next au
  | TAuthorized src next p au => PgAuthorized src next p au
  | TPaymentFailed _ src next au => PgPaymentFailed src next au
  | TShipped src next sh au => PgShipped src next sh au
  | TShipmentFailed src next au => PgShipmentFailed src next au
  | TCancelled src next au => PgCancelled src next au
  | TNotified src au => PgNotified src au
  | TCompensated src st au => PgCompensated src st au
  | TAudited au => PgAudited au
  | TClaim _ _ limit => PgClaim limit
  | TPublished id at_ => PgPublished id at_
  | TReceived _ consumer ev => PgReceived consumer ev
  | TReleased _ consumer ev => PgReleased consumer ev
  end.

(** *** Orders *)

(** The inserts of the order's items. *)
Fixpoint items_prog (id : string) (items : list OrderItem) (k : Prog) : Prog :=
  match items with
  | [] => k
  | item :: items =>
      Exec unguarded (labelled "insert order item: " (stmt_insert_item id item))
        (fun _ => items_prog id items k)
  end.

Definition insert_prog (found : option string) (m key : string) (o : Order) (ev : OutboxEvent)
    (au : AuditLog) : Prog :=
  Exec (fun db => bool_decide (t_idempotency_keys db !! (m, key) = found))
    (reading (fun _ => Ok tt) (fun _ => [])) (fun _ =>
  match found with
  | Some id => Exec unguarded (require_order id) (fun _ => Done)
  | None =>
      Exec unguarded (labelled "upsert merchant: " (stmt_upsert_merchant m)) (fun _ =>
      Exec unguarded (stmt_insert_order m o) (fun _ =>
      items_prog (Order_OrderID o) (Order_Items o) (
      Exec unguarded (labelled "insert idempotency key: "
                        (stmt_insert_key m key (Order_OrderID o))) (fun _ =>
      outbox_prog ev (audit_prog au Done)))))
  end).

Definition update_status_prog (id : string) (st : OrderStatus) (now : Time) (ev : OutboxEvent)
    (au : AuditLog) : Prog :=
  lock_prog id st (
  update_checked_prog "update order status: " id (set_row_status st now) (
  outbox_prog (set_Event_Payload (OrderStatusEventPayload st now au (Event_Payload ev)) ev) (
  audit_prog au (
  Exec unguarded (require_order id) (fun _ => Done))))).

(** *** Fulfilment *)

Definition reserved_prog (picks : list (option Z)) (src next : OutboxEvent) (au : AuditLog)
    : Prog :=
  let id := Event_OrderID src in
  lock_prog id StatusInventoryReserved (
  Exec unguarded (select_items id) (fun items =>
  reserve_lines src next items picks (fun lines =>
  Exec unguarded (labelled "mark order items reserved: " (stmt_update_items id "reserved"))
    (fun _ =>
  update_prog "touch order after inventory reservation: " id
    (set_row_status StatusInventoryReserved (Event_OccurredAt next)) (
  outbox_prog (set_Event_Payload
                 (<["order_status" := AStr StatusInventoryReserved]>
                  {["reservations" := AList lines]}) next) (
  audit_prog au Done)))))).

Definition rejected_prog (src next : OutboxEvent) (au : AuditLog) : Prog :=
  let id := Event_OrderID src in
  Exec unguarded (require_order id) (fun _ =>
  Exec unguarded (labelled "mark order items rejected: " (stmt_update_items id "rejected"))
    (fun _ =>
  update_prog "touch order after inventory rejection: " id (touch_row (Event_OccurredAt next)) (
  outbox_prog (set_Event_Payload
                 (failurePayload "inventory" (detail (Audit_Details au) "error")) next) (
  audit_prog au Done)))).

Definition authorized_prog (src next : OutboxEvent) (payment : Payment) (au : AuditLog) : Prog :=
  let id := Event_OrderID src in
  lock_prog id StatusPaymentAuthorized (
  Exec unguarded (select_order id) (fun r =>
  let provider := payment_provider_of (Payment_Provider payment) r in
  Exec unguarded (labelled "upsert payment authorization: "
    (stmt_upsert_authorization id
       (mkAuthorizationRow (Payment_AuthorizationID payment) (Event_MerchantID src) provider
          (Payment_Status payment) (orders_total_amount r) (orders_currency r)
          (timestamptz (Event_OccurredAt next)) None))) (fun _ =>
  update_prog "update order payment authorization: " id (fun r =>
    set_row_status StatusPaymentAuthorized (Event_OccurredAt next)
      (set_row_payment (Some provider) (Some (Payment_Status payment))
         (Some (Payment_AuthorizationID payment)) r)) (
  outbox_prog (set_Event_Payload
                 (<["order_status" := AStr StatusPaymentAuthorized]>
                  {["payment" := AMap
                     [("amount", AInt (orders_total_amount r));
                      ("authorization_id", AStr (Payment_AuthorizationID payment));
                      ("currency", AStr (orders_currency r));
                      ("provider", AStr provider)]]}) next) (
  audit_prog au Done))))).

Definition payment_failed_prog (provider : string) (src next : OutboxEvent) (au : AuditLog)
    : Prog :=
  let id := Event_OrderID src in
  Exec (fun db => match t_orders db !! id with
                  | Some r => String.eqb (payment_provider_of "" r) provider
                  | None => true
                  end) (require_order id) (fun _ =>
  update_prog "update order payment failure: " id (fun r =>
    touch_row (Event_OccurredAt next) (set_row_payment (Some provider) (Some "failed") None r)) (
  outbox_prog (set_Event_Payload
                 (failurePayload "payment" (detail (Audit_Details au) "error")) next) (
  audit_prog au Done))).

Definition shipped_prog (src next : OutboxEvent) (sh : Shipment) (au : AuditLog) : Prog :=
  let id := Event_OrderID src in
  let at_ := timestamptz (Event_OccurredAt next) in
  lock_prog id StatusShipmentCreated (
  Exec unguarded (require_order id) (fun _ =>
  Exec unguarded (labelled "upsert shipment: "
    (stmt_upsert_shipment id
       (mkShipmentRow (Shipment_ShipmentID sh) (Event_MerchantID src) (Shipment_Carrier sh)
          (Shipment_TrackingNumber sh) (Shipment_Status sh) at_ at_))) (fun _ =>
  update_prog "touch order after shipment: " id
    (set_row_status StatusShipmentCreated (Event_OccurredAt next)) (
  outbox_prog (set_Event_Payload
                 (<["order_status" := AStr StatusShipmentCreated]>
                  {["shipment" := AMap
                     [("carrier", AStr (Shipment_Carrier sh));
                      ("shipment_id", AStr (Shipment_ShipmentID sh));
                      ("tracking_number", AStr (Shipment_TrackingNumber sh))]]}) next) (
  audit_prog au Done))))).

Definition shipment_failed_prog (src next : OutboxEvent) (au : AuditLog) : Prog :=
  let id := Event_OrderID src in
  Exec unguarded (require_order id) (fun _ =>
  update_prog "touch order after shipment failure: " id (touch_row (Event_OccurredAt next)) (
  outbox_prog (set_Event_Payload
                 (failurePayload "shipment" (detail (Audit_Details au) "error")) next) (
  audit_prog au Done))).

Definition cancelled_prog (src next : OutboxEvent) (au : AuditLog) : Prog :=
  let id := Event_OrderID src in
  let at_ := Event_OccurredAt next in
  lock_prog id StatusCancelled (
  update_checked_prog "update cancelled order status: " id (set_row_status StatusCancelled at_) (
  release_prog id at_ (
  void_prog id at_ (
  outbox_prog (set_Event_Payload
                 (OrderStatusEventPayload StatusCancelled at_ au (Event_Payload next)) next) (
  audit_prog au Done))))).

Definition notified_prog (src : OutboxEvent) (au : AuditLog) : Prog :=
  Exec unguarded (require_order (Event_OrderID src)) (fun _ =>
  Exec unguarded (labelled "upsert notification event: "
                    (stmt_upsert_notification src (Audit_CreatedAt au))) (fun _ =>
  audit_prog au Done)).

Definition compensated_prog (src : OutboxEvent) (st : OrderStatus) (au : AuditLog) : Prog :=
  lock_prog (Event_OrderID src) st (
  update_checked_prog "update compensated order status: " (Event_OrderID src)
    (set_row_status st (Audit_CreatedAt au)) (
  effects_prog src (Audit_CreatedAt au) (
  Exec unguarded (labelled "upsert compensation event: "
                    (stmt_upsert_compensation src st au)) (fun _ =>
  audit_prog au Done)))).

(** *** All of them *)

Definition program (t : Txn) : Prog :=
  match t with
  | TInsert found m k o ev au => insert_prog found m k o ev au
  | TUpdate id st now ev au => update_status_prog id st now ev au
  | TReserved picks src next au => reserved_prog picks src next au
  | TRejected src next au => rejected_prog src next au
  | TAuthorized src next p au => authorized_prog src next p au
  | TPaymentFailed provider src next au => payment_failed_prog provider src next au
  | TShipped src next sh au => shipped_prog src next sh au
  | TShipmentFailed src next au => shipment_failed_prog src next au
  | TCancelled src next au => cancelled_prog src next au
  | TNotified src au => notified_prog src au
  | TCompensated src st au => compensated_prog src st au
  | TAudited au => audit_prog au Done
  | TClaim now ids limit =>
      Exec (claim_valid limit now ids) (stmt_claim limit now ids) (fun _ => Done)
  | TPublished id at_ => Exec unguarded (stmt_publish id at_) (fun _ => Done)
  | TReceived fresh consumer ev =>
      Exec (fun db => Bool.eqb (recorded consumer ev db) (negb fresh))
        (stmt_receive consumer ev fresh) (fun _ => Done)
  | TReleased found consumer ev =>
      Exec (fun db => Bool.eqb (recorded consumer ev db) found)
        (stmt_forget consumer ev found) (fun _ => Done)
  end.

End Programs.
