(* ===== verification/Interleaving.v ===== *)
(** Connections at work at the same time on one PostgreSQL database.

    The engine is the committed database and the transactions under way.  At
    isolation level READ COMMITTED, which [BeginTx(ctx, nil)] asks for, a
    statement sees what is committed when it runs and what its own transaction
    has written; the rows it writes or selects [FOR UPDATE], and the index
    entries its new rows occupy, stay locked until its transaction ends, and a
    statement that needs a lock held by another transaction waits.

    The main result: whatever the interleaving, the committed database is the
    one obtained by running the committed transaction programs one after another,
    in the order of their commits.  What a program read without a lock is an
    argument of it and is not read again in that run; what this means for the
    operations of the store is said in [Concurrency]. *)
From S2P Require Import Prelude GoStrings GoTime Model StateMachine MemoryStore.
From S2P Require Import Database PgStore PgAtomic Transactions.

(** ** The engine *)

Record Tx := mkTx {
  tx_txn : Txn;
  tx_held : list Lock;
  tx_writes : list Write;
  tx_rest : Prog
}.

Record Engine := mkEngine {
  w_committed : Database;
  w_active : gmap nat Tx;
  (** the committed transactions, in the order of their commits *)
  w_history : list Txn;
  (** how transactions ended *)
  w_results : list (nat * result unit)
}.

Definition start (db : Database) : Engine := mkEngine db ∅ [] [].

(** What the transaction sees. *)
Definition view (w : Engine) (tx : Tx) : Database := apply_writes (tx_writes tx) (w_committed w).

(** No other transaction holds one of the locks. *)
Definition free (t : nat) (ls : list Lock) (active : gmap nat Tx) : bool :=
  forallb (fun kv => Nat.eqb (fst kv) t
                     || forallb (fun l => negb (bool_decide (l ∈ tx_held (snd kv)))) ls)
    (map_to_list active).

Inductive Event : Type :=
| Begin (t : nat) (txn : Txn)
(** the next statement of the transaction *)
| Next (t : nat)
| Commit (t : nat)
(** the connection is lost, or the server ends a deadlock *)
| Abort (t : nat).

Definition ended (t : nat) (r : result unit) (w : Engine) : Engine :=
  mkEngine (w_committed w) (delete t (w_active w)) (w_history w) (w_results w ++ [(t, r)]).

Definition with_tx (t : nat) (tx : Tx) (w : Engine) : Engine :=
  mkEngine (w_committed w) (<[t := tx]> (w_active w)) (w_history w) (w_results w).

Section Scheduler.
Variable env : PgEnv.

(** The statement waits, [None], while another transaction holds its locks. *)
Definition next (t : nat) (tx : Tx) (w : Engine) : option Engine :=
  match tx_rest tx with
  | Done => None
  | Fail e => Some (ended t (Err e) w)
  | Exec guard s k =>
      if guard (view w tx) then
        match s (view w tx) with
        | Err e => Some (ended t (Err e) w)
        | Ok (x, ws, ls) =>
            if free t ls (w_active w)
            then Some (with_tx t (mkTx (tx_txn tx) (tx_held tx ++ ls) (tx_writes tx ++ ws) (k x)) w)
            else None
        end
      else None
  end.

Definition commit (t : nat) (tx : Tx) (w : Engine) : option Engine :=
  match tx_rest tx with
  | Done => Some (mkEngine (view w tx) (delete t (w_active w)) (w_history w ++ [tx_txn tx])
                    (w_results w ++ [(t, Ok tt)]))
  | _ => None
  end.

Definition step (w : Engine) (e : Event) : option Engine :=
  match e with
  | Begin t txn =>
      match w_active w !! t with
      | None => Some (with_tx t (mkTx txn [] [] (program env txn)) w)
      | Some _ => None
      end
  | Next t => match w_active w !! t with Some tx => next t tx w | None => None end
  | Commit t => match w_active w !! t with Some tx => commit t tx w | None => None end
  | Abort t =>
      match w_active w !! t with
      | Some _ => Some (ended t (Err (Text "transaction aborted")) w)
      | None => None
      end
  end.

Fixpoint run (w : Engine) (es : list Event) : option Engine :=
  match es with
  | [] => Some w
  | e :: es => match step w e with Some w => run w es | None => None end
  end.

(** The transaction programs one after another, each from begin to commit, with
    the values they had read without a lock. *)
Fixpoint serial_runs (txns : list Txn) (db : Database) : result Database :=
  match txns with
  | [] => Ok db
  | t :: txns =>
      match serial (program env t) db with
      | Ok db => serial_runs txns db
      | Err e => Err e
      end
  end.

End Scheduler.

(** ** Changes of one table *)

Create HintDb rely.

Section Tables.
Context {K V : Type} `{Countable K}.
Implicit Types m : gmap K V.

(** No row goes away. *)
Definition grows m m' : Prop := forall k, is_Some (m !! k) -> is_Some (m' !! k).

(** The row is as it was. *)
Definition same_at (k : K) m m' : Prop := m' !! k = m !! k.

(** A row with this value in a column, or columns, had it before. *)
Definition no_new_holder {X} (column : V -> X) (x : X) m m' : Prop :=
  forall k r, m' !! k = Some r -> column r = x -> exists r0, m !! k = Some r0 /\ column r0 = x.

#[export] Instance grows_preorder : PreOrder grows.
Proof. unfold grows. split; [by intros m k|]. intros a b c Hab Hbc k Hk. auto. Qed.

#[export] Instance same_at_preorder k : PreOrder (same_at k).
Proof. unfold same_at. split; [by intros m|]. intros a b c Hab Hbc. congruence. Qed.

#[export] Instance no_new_holder_preorder {X} (column : V -> X) x :
  PreOrder (no_new_holder column x).
Proof.
  split; [by intros m k r; eauto|]. intros a b c Hab Hbc k r Hr Hx.
  destruct (Hbc _ _ Hr Hx) as (r1 & H1 & Hx1). eauto.
Qed.

(** *** The same change on both sides *)

Lemma grows_both_insert m m' k v : grows m m' -> grows (<[k := v]> m) (<[k := v]> m').
Proof. intros Hg i. rewrite !lookup_insert_is_Some. naive_solver. Qed.

Lemma grows_both_alter m m' k f : grows m m' -> grows (alter f k m) (alter f k m').
Proof. intros Hg i. rewrite !lookup_alter_is_Some. apply Hg. Qed.

Lemma same_both_insert m m' i k v : same_at i m m' -> same_at i (<[k := v]> m) (<[k := v]> m').
Proof. unfold same_at. intros Hs. by rewrite !lookup_insert, Hs. Qed.

Lemma same_both_delete m m' i k : same_at i m m' -> same_at i (delete k m) (delete k m').
Proof. unfold same_at. intros Hs. by rewrite !lookup_delete, Hs. Qed.

Lemma same_both_alter m m' i k f : same_at i m m' -> same_at i (alter f k m) (alter f k m').
Proof.
  unfold same_at. intros Hs. rewrite !lookup_alter. destruct (decide (k = i)) as [->|]; [|done].
  by rewrite Hs.
Qed.

Lemma holder_both_insert {X} (column : V -> X) x m m' k v :
  no_new_holder column x m m' -> no_new_holder column x (<[k := v]> m) (<[k := v]> m').
Proof.
  intros Hn i r. rewrite !lookup_insert. destruct (decide (k = i)); [|apply Hn].
  intros [= <-]. eauto.
Qed.

Lemma holder_both_alter {X} (column : V -> X) x m m' k f :
  (forall r, column (f r) = column r) ->
  no_new_holder column x m m' -> no_new_holder column x (alter f k m) (alter f k m').
Proof.
  intros Hf Hn i r. rewrite !lookup_alter. destruct (decide (k = i)) as [->|]; [|apply Hn].
  intros (r1 & Hr & ->)%fmap_Some Hx. rewrite Hf in Hx.
  destruct (Hn _ _ Hr Hx) as (r0 & -> & H0). exists (f r0). by rewrite Hf.
Qed.

(** *** A change on one side *)

Lemma grows_insert m k v : grows m (<[k := v]> m).
Proof. intros i Hi. rewrite lookup_insert_is_Some'. auto. Qed.

Lemma grows_alter m k f : grows m (alter f k m).
Proof. intros i Hi. by rewrite lookup_alter_is_Some. Qed.

Lemma same_insert m i k v : k <> i -> same_at i m (<[k := v]> m).
Proof. apply lookup_insert_ne. Qed.

Lemma same_delete m i k : k <> i -> same_at i m (delete k m).
Proof. apply lookup_delete_ne. Qed.

Lemma same_alter m i k f : k <> i -> same_at i m (alter f k m).
Proof. intros. by apply lookup_alter_ne. Qed.

Lemma holder_insert {X} (column : V -> X) x m k v :
  column v <> x -> no_new_holder column x m (<[k := v]> m).
Proof. intros Hv i r. rewrite lookup_insert. destruct (decide (k = i)); naive_solver. Qed.

Lemma holder_alter {X} (column : V -> X) x m k f :
  (forall r, column (f r) = column r) -> no_new_holder column x m (alter f k m).
Proof.
  intros Hf i r. rewrite lookup_alter. destruct (decide (k = i)) as [->|]; [|naive_solver].
  intros (r1 & Hr & ->)%fmap_Some. rewrite Hf. eauto.
Qed.

End Tables.

#[export] Hint Resolve grows_both_insert grows_both_alter same_both_insert same_both_delete
  same_both_alter holder_both_insert grows_insert grows_alter same_insert same_delete same_alter
  holder_insert : rely.
#[export] Hint Extern 2 (no_new_holder _ _ (alter _ _ _) (alter _ _ _)) =>
  apply holder_both_alter; [done|] : rely.
#[export] Hint Extern 2 (no_new_holder _ _ _ (alter _ _ _)) => apply holder_alter; done : rely.
#[export] Hint Extern 1 (grows ?m ?m) => reflexivity : rely.
#[export] Hint Extern 1 (same_at _ ?m ?m) => reflexivity : rely.
#[export] Hint Extern 1 (no_new_holder _ _ ?m ?m) => reflexivity : rely.

(** ** What a transaction may rely on *)

Definition external_of (r : OrderRow) : string * string :=
  (orders_merchant_id r, orders_external_order_id r).

Definition shelf_of (r : InventoryRow) : string * string := (inv_warehouse_id r, inv_sku r).

(** The rows and index entries behind the locks a transaction holds stay as
    they are while others commit; merchants, orders and stock rows do not go
    away, warehouses do not change. *)
Record Rely (L : list Lock) (db db' : Database) : Prop := {
  ry_merchants : grows (t_merchants db) (t_merchants db');
  ry_merchant id : LMerchant id ∈ L -> same_at id (t_merchants db) (t_merchants db');
  ry_orders : grows (t_orders db) (t_orders db');
  ry_order id : LOrder id ∈ L -> same_at id (t_orders db) (t_orders db');
  ry_external m e : LExternal m e ∈ L ->
    no_new_holder external_of (m, e) (t_orders db) (t_orders db');
  ry_items id : LOrder id ∈ L -> items_of id db' = items_of id db;
  ry_key m k : LKey m k ∈ L -> same_at (m, k) (t_idempotency_keys db) (t_idempotency_keys db');
  ry_message id : LMessage id ∈ L -> rows_of id db' = rows_of id db;
  ry_inbox c m : LInbox c m ∈ L -> same_at (c, m) (t_inbox_messages db) (t_inbox_messages db');
  ry_reservation id sku : LOrder id ∈ L ->
    same_at (id, sku) (t_stock_reservations db) (t_stock_reservations db');
  ry_authorization id : LOrder id ∈ L ->
    same_at id (t_payment_authorizations db) (t_payment_authorizations db');
  ry_authorization_id a : LAuthorizationID a ∈ L ->
    no_new_holder auth_authorization_id a (t_payment_authorizations db)
      (t_payment_authorizations db');
  ry_shipment id : LOrder id ∈ L -> same_at id (t_shipments db) (t_shipments db');
  ry_shipment_id s : LShipmentID s ∈ L ->
    no_new_holder ship_shipment_id s (t_shipments db) (t_shipments db');
  ry_tracking n : LTracking n ∈ L ->
    no_new_holder ship_tracking_number n (t_shipments db) (t_shipments db');
  ry_notification m : LNotification m ∈ L ->
    same_at m (t_notification_events db) (t_notification_events db');
  ry_compensation m : LCompensation m ∈ L ->
    same_at m (t_compensation_events db) (t_compensation_events db');
  ry_warehouses : t_warehouses db' = t_warehouses db;
  ry_stock id : LStock id ∈ L -> same_at id (t_inventory_items db) (t_inventory_items db');
  ry_shelf id : shelf_of <$> t_inventory_items db' !! id = shelf_of <$> t_inventory_items db !! id
}.

#[export] Instance Rely_preorder L : PreOrder (Rely L).
Proof.
  split.
  - intros db. split; intros; done || reflexivity.
  - intros a b c [] []. split; intros;
      solve [etrans; [multimatch goal with H : _ |- _ => by apply H end|by auto]].
Qed.

Lemma Rely_mono L L' db db' : L ⊆ L' -> Rely L' db db' -> Rely L db db'.
Proof. intros HL []. split; auto. Qed.

(** ** Writes *)

Lemma apply_writes_app ws ws' db :
  apply_writes (ws ++ ws') db = apply_writes ws' (apply_writes ws db).
Proof. apply fold_left_app. Qed.

Lemma items_of_app id db row :
  items_of id (set_order_items (t_order_items db ++ [row]) db)
  = items_of id db ++ (if String.eqb (item_order_id row) id then [row] else []).
Proof.
  unfold items_of. simpl. rewrite filter_app, filter_cons, filter_nil.
  destruct (String.eqb_spec (item_order_id row) id), (decide _); try done; by rewrite app_nil_r.
Qed.

Lemma items_of_map id db g :
  (forall r, item_order_id (g r) = item_order_id r) ->
  items_of id (set_order_items (map g (t_order_items db)) db) = map g (items_of id db).
Proof. intros Hg. unfold items_of. simpl. apply filter_map_same. intros r. by rewrite Hg. Qed.

Lemma rows_of_app id db row :
  rows_of id (set_outbox_events (t_outbox_events db ++ [row]) db)
  = rows_of id db ++ (if String.eqb (out_message_id row) id then [row] else []).
Proof.
  unfold rows_of. simpl. rewrite filter_app, filter_cons, filter_nil.
  destruct (String.eqb_spec (out_message_id row) id), (decide _); try done; by rewrite app_nil_r.
Qed.

Lemma rows_of_map id db g :
  (forall r, out_message_id (g r) = out_message_id r) ->
  rows_of id (set_outbox_events (map g (t_outbox_events db)) db) = map g (rows_of id db).
Proof. intros Hg. unfold rows_of. simpl. apply filter_map_same. intros r. by rewrite Hg. Qed.

(** What the row updates leave alone. *)
Lemma chosen_order order from status r :
  item_order_id (if chosen order from r then set_item_status status r else r) = item_order_id r.
Proof. by destruct (chosen _ _ _). Qed.

Lemma claimed_id ids now r :
  out_message_id (if existsb (String.eqb (out_message_id r)) ids then set_claim now r else r)
  = out_message_id r.
Proof. by destruct (existsb _ _). Qed.

Lemma mark_row_id m at_ r : out_message_id (mark_row m at_ r) = out_message_id r.
Proof. unfold mark_row. by destruct (_ && _). Qed.

Lemma void_id at_ r : auth_authorization_id (void_authorization at_ r) = auth_authorization_id r.
Proof. unfold void_authorization. by destruct (String.eqb _ _). Qed.

#[export] Hint Extern 1 (no_new_holder auth_authorization_id _ (alter _ _ _) (alter _ _ _)) =>
  apply holder_both_alter; [apply void_id|] : rely.
#[export] Hint Extern 1 (no_new_holder auth_authorization_id _ _ (alter _ _ _)) =>
  apply holder_alter, void_id : rely.

Lemma shelf_alter k a r at_ (m : gmap Z InventoryRow) i :
  shelf_of <$> alter (set_quantities a r at_) k m !! i = shelf_of <$> m !! i.
Proof. rewrite lookup_alter. destruct (decide (k = i)) as [->|]; [|done]. by destruct (m !! i). Qed.

(** A transaction's own writes are the same on both sides. *)
Lemma rely_write L w db db' : Rely L db db' -> Rely L (apply_write w db) (apply_write w db').
Proof.
  intros []. destruct w; split; simpl; intros; rewrite ?shelf_alter; auto with rely;
    try (by apply ry_items0); try (by apply ry_message0);
    rewrite ?items_of_app, ?rows_of_app, ?(items_of_map _ _ _ (chosen_order _ _ _)),
      ?(rows_of_map _ _ _ (claimed_id _ _)), ?(rows_of_map _ _ _ (mark_row_id _ _));
    f_equal; auto.
Qed.

Lemma rely_writes L ws db db' : Rely L db db' -> Rely L (apply_writes ws db) (apply_writes ws db').
Proof. revert db db'. induction ws as [|w ws IH]; intros; [done|]. by apply IH, rely_write. Qed.

(** The locks under which a write may be committed: all rows that belong to an
    order are guarded by the lock of the order. *)
Definition covered (L : list Lock) (w : Write) : Prop :=
  match w with
  | WMerchant id => LMerchant id ∈ L
  | WNewOrder id row =>
      LOrder id ∈ L /\ LExternal (orders_merchant_id row) (orders_external_order_id row) ∈ L
  | WSetOrder id _ => LOrder id ∈ L
  | WNewItem row => LOrder (item_order_id row) ∈ L
  | WSetItems order _ _ => LOrder order ∈ L
  | WKey merchant key _ => LKey merchant key ∈ L
  | WOutbox row => LMessage (out_message_id row) ∈ L
  | WClaim ids _ => Forall (fun id => LMessage id ∈ L) ids
  | WPublish id _ => LMessage id ∈ L
  | WInbox consumer message _ | WInboxGone consumer message => LInbox consumer message ∈ L
  | WAudit _ => True
  | WReservation order _ _ => LOrder order ∈ L
  | WAuthorization order row => LOrder order ∈ L /\ LAuthorizationID (auth_authorization_id row) ∈ L
  | WVoid order _ => LOrder order ∈ L
  | WShipment order row =>
      LOrder order ∈ L /\ LShipmentID (ship_shipment_id row) ∈ L
      /\ LTracking (ship_tracking_number row) ∈ L
  | WNotification message _ => LNotification message ∈ L
  | WCompensation message _ => LCompensation message ∈ L
  | WStock id _ _ _ => LStock id ∈ L
  end.

Definition disjoint_locks (L L' : list Lock) : Prop := forall l, l ∈ L -> l ∉ L'.

Lemma map_id_in {A} (f : A -> A) l : Forall (fun x => f x = x) l -> map f l = l.
Proof. induction 1; simpl; congruence. Qed.

Lemma items_of_kept id db f :
  (forall r, item_order_id (f r) = item_order_id r) ->
  (forall r, item_order_id r = id -> f r = r) ->
  items_of id (set_order_items (map f (t_order_items db)) db) = items_of id db.
Proof.
  intros Hf Hk. rewrite items_of_map by done. apply map_id_in, Forall_forall.
  intros r [Hr _]%list_elem_of_filter. by apply Hk.
Qed.

Lemma rows_of_kept id db f :
  (forall r, out_message_id (f r) = out_message_id r) ->
  (forall r, out_message_id r = id -> f r = r) ->
  rows_of id (set_outbox_events (map f (t_outbox_events db)) db) = rows_of id db.
Proof.
  intros Hf Hk. rewrite rows_of_map by done. apply map_id_in, Forall_forall.
  intros r [Hr _]%list_elem_of_filter. by apply Hk.
Qed.

(** A covered write keeps what others rely on. *)
Lemma covered_rely L L' w db :
  covered L' w -> disjoint_locks L L' -> Rely L db (apply_write w db).
Proof.
  intros Hc Hd. unfold disjoint_locks in Hd.
  destruct w; simpl in Hc; destruct_and?; split; simpl; intros;
    rewrite ?shelf_alter; auto with rely; try done;
    try (first [apply same_insert|apply same_delete|apply same_alter|apply holder_insert];
         intros ?; simplify_eq; by eapply Hd).
  - apply holder_insert. unfold external_of. intros [= <- <-]. by eapply Hd.
  - rewrite items_of_app. destruct (String.eqb_spec (item_order_id row) id) as [<-|];
      [by edestruct Hd|by rewrite app_nil_r].
  - apply items_of_kept; [apply chosen_order|]. intros r <-. unfold chosen.
    destruct (String.eqb_spec (item_order_id r) order) as [<-|]; [by edestruct Hd|done].
  - rewrite rows_of_app. destruct (String.eqb_spec (out_message_id row) id) as [<-|];
      [by edestruct Hd|by rewrite app_nil_r].
  - apply rows_of_kept; [apply claimed_id|]. intros r <-.
    destruct (existsb _ ids) eqn:E; [|done]. apply existsb_exists in E as (x & Hx & E).
    apply String.eqb_eq in E as <-. rewrite Forall_forall in Hc. edestruct Hd; [done|].
    apply Hc. by apply list_elem_of_In.
  - apply rows_of_kept; [apply mark_row_id|]. intros r <-. unfold mark_row.
    destruct (String.eqb_spec (out_message_id r) id) as [<-|]; [by edestruct Hd|done].
Qed.

Lemma covered_rely_all L L' ws db :
  Forall (covered L') ws -> disjoint_locks L L' -> Rely L db (apply_writes ws db).
Proof.
  intros Hc Hd. revert db. induction Hc as [|w ws Hw _ IH]; intros db; [reflexivity|].
  etrans; [by eapply covered_rely|apply IH].
Qed.

(** ** Programs that keep the discipline *)

(** The orders a transaction knows to exist. *)
Definition known (E : list string) (db : Database) : Prop :=
  Forall (fun id => is_Some (t_orders db !! id)) E.

Lemma known_rely L E db db' : Rely L db db' -> known E db -> known E db'.
Proof. intros H HE. eapply Forall_impl; [done|]. intros id. apply (ry_orders _ _ _ H). Qed.

(** From locks [L] and writes [ws] on, the program locks what it reads, as far
    as it relies on it, and commits only with the locks that cover its writes. *)
Fixpoint disciplined (E : list string) (L : list Lock) (ws : list Write) (p : Prog) : Prop :=
  match p with
  | Done => Forall (covered L) ws
  | Fail _ => True
  | Exec _ s k =>
      forall db x ws' ls, known E db -> s db = Ok (x, ws', ls) ->
        (forall db', Rely (L ++ ls) db db' -> s db' = Ok (x, ws', ls))
        /\ exists E', known E' (apply_writes ws' db)
                      /\ disciplined E' (L ++ ls) (ws ++ ws') (k x)
  end.

(** The program's first statements give these writes, on a database, and lead to
    the rest of it. *)
Inductive reaches (L : list Lock) : Database -> Prog -> list Write -> Prog -> Prop :=
| reaches_refl db p : reaches L db p [] p
| reaches_exec db {X} g (s : Stmt X) k x ws ls ws' q :
    s db = Ok (x, ws, ls) -> ls ⊆ L ->
    reaches L (apply_writes ws db) (k x) ws' q ->
    reaches L db (Exec g s k) (ws ++ ws') q.

Lemma reaches_snoc L L' db p ws {X} g (s : Stmt X) k x ws' ls :
  reaches L db p ws (Exec g s k) -> s (apply_writes ws db) = Ok (x, ws', ls) ->
  L ⊆ L' -> ls ⊆ L' -> reaches L' db p (ws ++ ws') (k x).
Proof.
  intros Hr Hs HL Hls. remember (Exec g s k) as q eqn:Eq.
  induction Hr as [db p|db Y g' s' k' y ws1 ls1 ws2 q E1 Hl1 _ IH]; subst.
  - rewrite <- (app_nil_r (_ ++ _)). simpl. econstructor; [done..|constructor].
  - rewrite <- app_assoc. econstructor; [done|set_solver|].
    apply IH; [done|]. by rewrite <- apply_writes_app.
Qed.

(** A disciplined program gets as far, with the same writes, on what others make
    of the database. *)
Lemma reaches_stable L db db' p ws q E L0 ws0 :
  reaches L db p ws q -> disciplined E L0 ws0 p -> L0 ⊆ L -> known E db ->
  Rely L db db' -> reaches L db' p ws q.
Proof.
  intros Hr. revert db' E L0 ws0.
  induction Hr as [db p|db X g s k x ws ls ws' q Hs Hl _ IH]; intros db' E L0 ws0 Hd HL HE HR;
    [constructor|].
  destruct (Hd _ _ _ _ HE Hs) as (Hst & E' & HE' & Hd').
  assert (L0 ++ ls ⊆ L) as HL' by set_solver.
  econstructor; [apply Hst; by eapply Rely_mono|done|].
  eapply IH; [done..|]. by apply rely_writes.
Qed.

Lemma reaches_serial L db p ws : reaches L db p ws Done -> serial p db = Ok (apply_writes ws db).
Proof.
  intros Hr. remember Done as q eqn:Eq.
  induction Hr as [db p|db X g s k x ws ls ws' q Hs Hl _ IH]; subst; [done|].
  simpl. rewrite Hs, apply_writes_app. by apply IH.
Qed.

(** ** The invariant of the engine *)

Section Invariant.
Variable env : PgEnv.
(** the discipline of the programs, shown below *)
Hypothesis programs_disciplined : forall t, disciplined [] [] [] (program env t).

(** A transaction under way is where it would be, had it run alone on what is
    committed by now. *)
Record tx_ok (db : Database) (tx : Tx) : Prop := {
  to_reaches : reaches (tx_held tx) db (program env (tx_txn tx)) (tx_writes tx) (tx_rest tx);
  to_known : exists E, known E (apply_writes (tx_writes tx) db)
                       /\ disciplined E (tx_held tx) (tx_writes tx) (tx_rest tx)
}.

Record engine_ok (db0 : Database) (w : Engine) : Prop := {
  wo_history : serial_runs env (w_history w) db0 = Ok (w_committed w);
  wo_active t tx : w_active w !! t = Some tx -> tx_ok (w_committed w) tx;
  wo_locks t t' tx tx' : t <> t' -> w_active w !! t = Some tx -> w_active w !! t' = Some tx' ->
    disjoint_locks (tx_held tx) (tx_held tx')
}.

Lemma tx_ok_rely db db' tx : tx_ok db tx -> Rely (tx_held tx) db db' -> tx_ok db' tx.
Proof using programs_disciplined.
  intros [Hr (E & HE & Hd)] HR. split.
  - eapply reaches_stable; [done|apply programs_disciplined|set_solver|by constructor|done].
  - exists E. split; [|done]. by eapply known_rely; [apply rely_writes|].
Qed.

Lemma free_spec t ls active t' tx' :
  free t ls active = true -> t <> t' -> active !! t' = Some tx' -> disjoint_locks ls (tx_held tx').
Proof using Type.
  unfold free. rewrite forallb_forall. intros H Hne Ht' l Hl Hl'.
  specialize (H (t', tx')). rewrite <- list_elem_of_In, elem_of_map_to_list in H.
  specialize (H Ht'). apply orb_true_iff in H as [H%Nat.eqb_eq|H]; [simpl in H; congruence|].
  rewrite forallb_forall in H. specialize (H l). rewrite <- list_elem_of_In in H.
  specialize (H Hl). by apply negb_true_iff, bool_decide_eq_false in H.
Qed.

Lemma serial_runs_app ts t db db' :
  serial_runs env ts db = Ok db' ->
  serial_runs env (ts ++ [t]) db = serial (program env t) db'.
Proof using Type.
  revert db. induction ts as [|t' ts IH]; intros db; simpl.
  - intros [= ->]. by destruct (serial _ db').
  - destruct (serial (program env t') db); [apply IH|done].
Qed.

Lemma tx_ok_exec db tx {X} g (s : Stmt X) k x ws ls :
  tx_rest tx = Exec g s k -> s (apply_writes (tx_writes tx) db) = Ok (x, ws, ls) ->
  tx_ok db tx -> tx_ok db (mkTx (tx_txn tx) (tx_held tx ++ ls) (tx_writes tx ++ ws) (k x)).
Proof using Type.
  clear programs_disciplined. intros Er Hs [Hr (E & HE & Hd)]. rewrite Er in Hr, Hd. split; simpl.
  - eapply reaches_snoc; [done..|set_solver|set_solver].
  - destruct (Hd _ _ _ _ HE Hs) as (_ & E' & HE' & Hd'). exists E'.
    by rewrite apply_writes_app.
Qed.

Lemma ended_ok db0 t r w : engine_ok db0 w -> engine_ok db0 (ended t r w).
Proof using Type.
  clear programs_disciplined. intros []. split; simpl; [done|..].
  - intros t' tx (_ & H)%lookup_delete_Some. eauto.
  - intros t1 t2 tx1 tx2 Hne (_ & H1)%lookup_delete_Some (_ & H2)%lookup_delete_Some. eauto.
Qed.

Lemma disjoint_locks_sym L L' : disjoint_locks L L' -> disjoint_locks L' L.
Proof using Type. intros H l H1 H2. by eapply H. Qed.

Lemma with_tx_ok db0 t tx w :
  engine_ok db0 w -> tx_ok (w_committed w) tx ->
  (forall t' tx', t <> t' -> w_active w !! t' = Some tx' ->
                  disjoint_locks (tx_held tx) (tx_held tx')) ->
  engine_ok db0 (with_tx t tx w).
Proof using Type.
  clear programs_disciplined. intros [] Htx Hl. split; simpl; [done|..].
  - intros t' tx'. rewrite lookup_insert. destruct (decide _); [by intros [= <-]|eauto].
  - intros t1 t2 tx1 tx2 Hne. rewrite !lookup_insert.
    destruct (decide (t = t1)), (decide (t = t2)); intros H1 H2; simplify_eq; eauto.
    apply disjoint_locks_sym. eauto.
Qed.

Lemma next_ok db0 t tx w w' :
  engine_ok db0 w -> w_active w !! t = Some tx -> next t tx w = Some w' -> engine_ok db0 w'.
Proof using Type.
  clear programs_disciplined. intros Hw Ht. unfold next. destruct (tx_rest tx) as [|e|X g s k] eqn:Er; [done|..].
  { intros [= <-]. by apply ended_ok. }
  destruct (g _); [|done]. destruct (s (view w tx)) as [[[x ws] ls]|e] eqn:Es.
  - destruct (free t ls _) eqn:Ef; [|done]. intros [= <-].
    apply with_tx_ok; [done|by eapply tx_ok_exec; [..|eapply wo_active]|]. simpl.
    intros t' tx' Hne Ht' l [Hl|Hl]%elem_of_app; [by eapply (wo_locks _ _ Hw t t')|].
    by eapply free_spec.
  - intros [= <-]. by apply ended_ok.
Qed.

Lemma commit_ok db0 t tx w w' :
  engine_ok db0 w -> w_active w !! t = Some tx -> commit t tx w = Some w' -> engine_ok db0 w'.
Proof using programs_disciplined.
  intros Hw Ht. unfold commit. destruct (tx_rest tx) eqn:Er; [|done..]. intros [= <-].
  destruct (wo_active _ _ Hw _ _ Ht) as [Hr (E & _ & Hd)]. rewrite Er in Hr, Hd.
  split; simpl.
  - erewrite serial_runs_app by apply Hw. by eapply reaches_serial.
  - intros t' tx' (Hne & Ht')%lookup_delete_Some.
    eapply tx_ok_rely; [by eapply wo_active|]. eapply covered_rely_all; [done|].
    by eapply (wo_locks _ _ Hw t' t).
  - intros t1 t2 tx1 tx2 Hne (_ & H1)%lookup_delete_Some (_ & H2)%lookup_delete_Some.
    by eapply wo_locks.
Qed.

Lemma engine_step_ok db0 w e w' : engine_ok db0 w -> step env w e = Some w' -> engine_ok db0 w'.
Proof using programs_disciplined.
  intros Hw. destruct e as [t txn|t|t|t]; simpl;
    destruct (w_active w !! t) as [tx|] eqn:Et; try done.
  - intros [= <-]. apply with_tx_ok; [done| |by intros ? ? ? ? l Hl%elem_of_nil].
    split; simpl; [constructor|]. exists []. split; [by constructor|]. apply programs_disciplined.
  - by apply next_ok.
  - by apply commit_ok.
  - intros [= <-]. by apply ended_ok.
Qed.

Lemma run_ok db0 es w w' : engine_ok db0 w -> run env w es = Some w' -> engine_ok db0 w'.
Proof using programs_disciplined.
  revert w. induction es as [|e es IH]; simpl; intros w Hw; [by intros [= <-]|].
  destruct (step env w e) as [w1|] eqn:E; [|done]. apply IH. by eapply engine_step_ok.
Qed.

Lemma start_ok db : engine_ok db (start db).
Proof using Type.
  split; simpl; [done|..].
  - intros t tx Ht. by rewrite lookup_empty in Ht.
  - intros t t' tx tx' _ Ht. by rewrite lookup_empty in Ht.
Qed.

End Invariant.
