(* ===== verification/Discipline.v ===== *)
(** The locking discipline of the store's transactions: each program of
    [Transactions] locks what it relies on before it relies on it, and commits
    its writes under the locks that cover them. *)
From S2P Require Import Prelude GoStrings GoTime Model StateMachine MemoryStore.
From S2P Require Import Database PgStore PgAtomic Transactions Interleaving.

(** ** Monotonicity *)

Lemma covered_mono L L' w : L ⊆ L' -> covered L w -> covered L' w.
Proof.
  intros HL. destruct w; simpl; try (intros; destruct_and?; split_and?; by auto).
  intros H. eapply Forall_impl; [done|]. auto.
Qed.

Lemma covered_all_mono L L' ws : L ⊆ L' -> Forall (covered L) ws -> Forall (covered L') ws.
Proof. intros HL H. eapply Forall_impl; [done|]. intros w. by apply covered_mono. Qed.

Lemma known_mono E E' db : E ⊆ E' -> known E' db -> known E db.
Proof. unfold known. rewrite !Forall_forall. auto. Qed.

Lemma disciplined_mono E E' L L' ws ws' p :
  E ⊆ E' -> L ⊆ L' ->
  (forall L2, L' ⊆ L2 -> Forall (covered L2) ws -> Forall (covered L2) ws') ->
  disciplined E L ws p -> disciplined E' L' ws' p.
Proof.
  revert E E' L L' ws ws'. induction p as [|e|X g s k IH]; intros E E' L L' ws ws' HE HL Hws Hp; simpl.
  - apply Hws; [done|]. by eapply covered_all_mono.
  - done.
  - intros db x ws1 ls Hk Hs.
    destruct (Hp db x ws1 ls) as (Hst & E1 & HE1 & Hd); [by eapply known_mono|done|].
    split.
    + intros db' HR. apply Hst. eapply Rely_mono; [|done]. set_solver.
    + exists E1. split; [done|]. eapply IH; [done| | |done]; [set_solver|].
      intros L2 HL2. rewrite !Forall_app. intros [H1 H2]. split; [|done].
      apply Hws; [set_solver|done].
Qed.

(** ** The rule for one statement *)

(** The outcome of the statement stays the same. *)
Definition stable {X} (E : list string) (L : list Lock) (s : Stmt X) : Prop :=
  forall db x ws ls, known E db -> s db = Ok (x, ws, ls) ->
    forall db', Rely (L ++ ls) db db' -> s db' = Ok (x, ws, ls).

(** What the statement lets the program know and hold, and its writes that are
    not yet covered, are the premise of the rest. *)
Lemma disciplined_exec {X} E L ws g (s : Stmt X) k :
  stable E L s ->
  (forall db x ws' ls, known E db -> s db = Ok (x, ws', ls) ->
     exists E' open, known E' (apply_writes ws' db)
       /\ (forall L', L ++ ls ⊆ L' -> Forall (covered L') open -> Forall (covered L') ws')
       /\ disciplined E' (L ++ ls) (ws ++ open) (k x)) ->
  disciplined E L ws (Exec g s k).
Proof.
  intros Hs Hk db x ws' ls HE E0. split; [by eapply Hs|].
  destruct (Hk _ _ _ _ HE E0) as (E' & open & HE' & Ho & Hd). exists E'. split; [done|].
  eapply disciplined_mono; [done..| |exact Hd]. intros L2 HL2.
  rewrite !Forall_app. intros [H1 H2]. auto.
Qed.

Lemma stable_labelled {X} E L label (s : Stmt X) : stable E L s -> stable E L (labelled label s).
Proof.
  intros Hs db x ws ls HE. unfold labelled. destruct (s db) as [[[]]|] eqn:E0; [|done].
  intros [= <- <- <-] db' HR. by rewrite (Hs _ _ _ _ HE E0 _ HR).
Qed.

Lemma labelled_ok {X} label (s : Stmt X) db r : labelled label s db = Ok r -> s db = Ok r.
Proof. unfold labelled. by destruct (s db). Qed.

Lemma stable_writing {X} E L (f : Database -> result (X * Database)) ws ls :
  (forall db x d db', known E db -> f db = Ok (x, d) -> Rely (L ++ ls db) db db' ->
     (exists d', f db' = Ok (x, d')) /\ ws db' = ws db /\ ls db' = ls db) ->
  stable E L (writing f ws ls).
Proof.
  intros H db x w l HE. unfold writing. destruct (f db) as [[y d]|] eqn:Ef; [|done].
  intros [= <- <- <-] db' HR. destruct (H _ _ _ _ HE Ef HR) as ((d' & ->) & -> & ->). done.
Qed.

Lemma stable_reading {X} E L (f : Database -> result X) ls :
  (forall db x db', known E db -> f db = Ok x -> Rely (L ++ ls db) db db' ->
     f db' = Ok x /\ ls db' = ls db) ->
  stable E L (reading f ls).
Proof.
  intros H. apply stable_writing. intros db x d db' HE Ef HR.
  destruct (f db) as [y|] eqn:Ef'; [|done]. injection Ef as <- <-.
  destruct (H _ _ _ HE Ef' HR) as [-> ->]. eauto.
Qed.

Lemma writing_ok {X} (f : Database -> result (X * Database)) ws ls db x w l :
  writing f ws ls db = Ok (x, w, l) ->
  w = ws db /\ l = ls db /\ exists d, f db = Ok (x, d).
Proof. unfold writing. destruct (f db) as [[]|]; naive_solver. Qed.

Lemma reading_ok {X} (f : Database -> result X) ls db x w l :
  reading f ls db = Ok (x, w, l) -> w = [] /\ l = ls db /\ f db = Ok x.
Proof.
  unfold reading. intros (-> & -> & d & H)%writing_ok. destruct (f db); naive_solver.
Qed.

(** The statement whose writes its own locks and those held cover. *)
Lemma disciplined_covered {X} E L ws g (s : Stmt X) k :
  stable E L s ->
  (forall db x ws' ls, known E db -> s db = Ok (x, ws', ls) ->
     Forall (covered (L ++ ls)) ws' /\
     exists E', known E' (apply_writes ws' db) /\ disciplined E' (L ++ ls) ws (k x)) ->
  disciplined E L ws (Exec g s k).
Proof.
  intros Hs Hk. apply disciplined_exec; [done|]. intros db x ws' ls HE E0.
  destruct (Hk _ _ _ _ HE E0) as (Hc & E' & HE' & Hd). exists E', [].
  rewrite app_nil_r. split; [done|]. split; [|done]. intros L' HL' _. by eapply covered_all_mono.
Qed.

(** Writes keep what is known of orders. *)
Lemma known_write E w db : known E db -> known E (apply_write w db).
Proof.
  intros H. eapply Forall_impl; [done|]. intros id Hid. destruct w; simpl; try done.
  - by apply grows_insert.
  - by apply grows_alter.
Qed.

Lemma known_writes E ws db : known E db -> known E (apply_writes ws db).
Proof. revert db. induction ws; intros db H; [done|]. by apply IHws, known_write. Qed.

(** The usual case: nothing new is known, the rest needs no lock by name. *)
Lemma disciplined_plain {X} E L ws g (s : Stmt X) k :
  stable E L s ->
  (forall db x ws' ls, known E db -> s db = Ok (x, ws', ls) -> Forall (covered (L ++ ls)) ws') ->
  (forall x, disciplined E L ws (k x)) ->
  disciplined E L ws (Exec g s k).
Proof.
  intros Hs Hc Hk. apply disciplined_covered; [done|]. intros db x ws' ls HE E0.
  split; [by eapply Hc|]. exists E. split; [by apply known_writes|].
  eapply disciplined_mono; [..|apply Hk]; [done|set_solver|done].
Qed.

(** ** The statements *)

(** What a statement that succeeded read, wrote and locked. *)
Ltac outcome H :=
  first [apply labelled_ok in H | idtac];
  unfold require_order, select_order_for_update, select_order, stmt_update_order,
    stmt_insert_order, stmt_insert_item, stmt_insert_key, stmt_upsert_merchant,
    stmt_update_items, stmt_release_items, stmt_insert_outbox, stmt_insert_audit, select_items,
    select_reservation, stmt_take_picked, stmt_upsert_reservation, stmt_release_inventory,
    stmt_release_reservations, stmt_void, stmt_upsert_authorization, stmt_upsert_shipment,
    stmt_upsert_notification, stmt_upsert_compensation, stmt_claim, stmt_publish,
    stmt_receive, stmt_forget in H;
  first [apply reading_ok in H as (-> & -> & H) | apply writing_ok in H as (-> & -> & ? & H)].

Section Statements.
Variable env : PgEnv.

Lemma lock_held {L : list Lock} {l ls} : l ∈ ls -> l ∈ L ++ ls.
Proof using Type. intros. apply elem_of_app. by right. Qed.

Lemma lock_kept {L : list Lock} {l ls} : l ∈ L -> l ∈ L ++ ls.
Proof using Type. intros. apply elem_of_app. by left. Qed.

(** *** Orders *)

Lemma require_order_rule E L ws g id k :
  disciplined (id :: E) L ws k -> disciplined E L ws (Exec g (require_order id) (fun _ => k)).
Proof using Type.
  intros Hk. apply disciplined_covered.
  - apply stable_reading. intros db x db' _ Ef HR.
    destruct (t_orders db !! id) as [r|] eqn:Er; [|done].
    destruct (ry_orders _ _ _ HR id) as [r' ->]; [by eexists|done].
  - intros db x w l HE Ef. outcome Ef. rewrite app_nil_r. split; [constructor|].
    exists (id :: E). split; [|done]. constructor; [simpl|done]. by destruct (t_orders db !! id).
Qed.

Lemma lock_rule E L ws id st k :
  disciplined (id :: E) (LOrder id :: L) ws k -> disciplined E L ws (lock_prog id st k).
Proof using Type.
  intros Hk. apply disciplined_covered.
  - apply stable_reading. intros db x db' _ Ef HR. split; [|done].
    by rewrite (ry_order _ _ _ HR id) by (apply lock_held; set_solver).
  - intros db r w l HE Ef. outcome Ef. split; [constructor|].
    exists (id :: E). split.
    + constructor; [simpl|done]. by destruct (t_orders db !! id).
    + destruct (ValidateOrderTransition _ _); [done|].
      eapply disciplined_mono; [..|exact Hk]; [done|set_solver|done].
Qed.

Lemma select_order_rule E L ws g id k :
  LOrder id ∈ L -> (forall r, disciplined E L ws (k r)) ->
  disciplined E L ws (Exec g (select_order id) k).
Proof using Type.
  intros Hl Hk. apply disciplined_plain; [|intros db r w l _ H; by outcome H|done].
  apply stable_reading. intros db x db' _ Ef HR. split; [|done].
  by rewrite (ry_order _ _ _ HR id) by by apply lock_kept.
Qed.

Lemma update_order_stable E L id f : id ∈ E -> stable E L (stmt_update_order env id f).
Proof using Type.
  intros Hid. apply stable_writing. intros db x d db' HE Ef HR.
  destruct (proj1 (Forall_forall _ _) HE id Hid) as [r Er]. unfold update_order in *.
  rewrite Er in *. rewrite (ry_order _ _ _ HR id), Er by (apply lock_held; set_solver).
  repeat case_match; naive_solver.
Qed.

Lemma update_order_cover E L id f db x ws ls :
  id ∈ E -> known E db -> stmt_update_order env id f db = Ok (x, ws, ls) ->
  Forall (covered (L ++ ls)) ws /\ LOrder id ∈ ls.
Proof using Type.
  intros Hid HE H. outcome H.
  destruct (proj1 (Forall_forall _ _) HE id Hid) as [r ->]. split; [|set_solver].
  repeat constructor. simpl. set_solver.
Qed.

Lemma update_rule E L ws label id f k :
  id ∈ E -> disciplined E (LOrder id :: L) ws k ->
  disciplined E L ws (update_prog env label id f k).
Proof using Type.
  intros Hid Hk. apply disciplined_covered; [by apply stable_labelled, update_order_stable|].
  intros db x w l HE H%labelled_ok. eapply (update_order_cover _ L) in H as [Hc Hl]; [|done..].
  split; [done|]. exists E. split; [by apply known_writes|].
  eapply disciplined_mono; [..|exact Hk]; [done|set_solver|done].
Qed.

Lemma update_checked_rule E L ws label id f k :
  id ∈ E -> disciplined E (LOrder id :: L) ws k ->
  disciplined E L ws (update_checked_prog env label id f k).
Proof using Type.
  intros Hid Hk. apply disciplined_covered; [by apply stable_labelled, update_order_stable|].
  intros db x w l HE H%labelled_ok. eapply (update_order_cover _ L) in H as [Hc Hl]; [|done..].
  split; [done|]. exists E. split; [by apply known_writes|]. destruct (x =? 0); [done|].
  eapply disciplined_mono; [..|exact Hk]; [done|set_solver|done].
Qed.

(** *** New orders *)

Lemma merchant_rule E L ws g label m k :
  disciplined E L ws k ->
  disciplined E L ws (Exec g (labelled label (stmt_upsert_merchant m)) (fun _ => k)).
Proof using Type.
  intros Hk. apply disciplined_plain; [|intros db x w l _ H; outcome H|done].
  - apply stable_labelled, stable_writing. intros db x d db' _ Ef HR.
    destruct (t_merchants db !! m) eqn:Em.
    + destruct (ry_merchants _ _ _ HR m) as [v ->]; [by eexists|]. injection Ef as <- <-. eauto.
    + rewrite (ry_merchant _ _ _ HR m), Em by (apply lock_held; set_solver). naive_solver.
  - destruct (t_merchants db !! m); [constructor|].
    repeat constructor. simpl. set_solver.
Qed.

Lemma external_exists_spec m e db :
  external_exists m e db = true
  <-> exists id r, t_orders db !! id = Some r /\ external_of r = (m, e).
Proof using Type.
  unfold external_exists, external_of. rewrite existsb_exists. split.
  - intros ([id r] & Hin & [H1%String.eqb_eq H2%String.eqb_eq]%andb_true_iff).
    apply list_elem_of_In, elem_of_map_to_list in Hin. exists id, r. simpl in *. by subst.
  - intros (id & r & Hr & [= <- <-]). exists (id, r). simpl. rewrite !String.eqb_refl.
    split; [|done]. by apply list_elem_of_In, elem_of_map_to_list.
Qed.

Lemma insert_order_stable E L m o : stable E L (stmt_insert_order env m o).
Proof using Type.
  apply stable_writing. intros db x d db' _ Ef HR. split; [|done].
  unfold insert_order_row in *. destruct (char3 (Order_Currency o)); [|by case_match].
  rewrite (ry_order _ _ _ HR) by (apply lock_held; set_solver).
  destruct (negb (chk_orders_status _)); [by case_match|].
  destruct (negb (chk_orders_payment_status _)); [by case_match|].
  destruct (bool_decide (is_Some (t_orders db !! _))); [by case_match|].
  destruct (external_exists m (Order_ExternalOrderID o) db) eqn:Ex; [by case_match|].
  assert (external_exists m (Order_ExternalOrderID o) db' = false) as ->.
  { apply not_true_iff_false. intros (id & r & Hr & Hx)%external_exists_spec.
    destruct (ry_external _ _ _ HR m (Order_ExternalOrderID o)
                ltac:(apply lock_held; set_solver) _ _ Hr Hx) as (r0 & Hr0 & Hx0).
    apply not_true_iff_false in Ex. apply Ex, external_exists_spec. eauto. }
  case_bool_decide as Hm; simpl in *; [|by case_match].
  rewrite bool_decide_eq_true_2 by by apply (ry_merchants _ _ _ HR). simpl. naive_solver.
Qed.

Lemma insert_order_rule E L ws g m o k :
  (forall L', L ⊆ L' -> LOrder (Order_OrderID o) ∈ L' -> disciplined (Order_OrderID o :: E) L' ws k) ->
  disciplined E L ws (Exec g (stmt_insert_order env m o) (fun _ => k)).
Proof using Type.
  intros Hk. apply disciplined_covered; [apply insert_order_stable|].
  intros db x w l HE Ef. outcome Ef. unfold insert_order_row in Ef.
  destruct (char3 _) as [cur|]; [|by case_match]. split.
  - repeat constructor; simpl; set_solver.
  - exists (Order_OrderID o :: E). split; [|apply Hk; set_solver].
    constructor; [simpl; rewrite lookup_insert_eq; by eexists|by apply known_writes].
Qed.

Lemma items_rule E L ws id items k :
  LOrder id ∈ L -> disciplined E L ws k -> disciplined E L ws (items_prog env id items k).
Proof using Type.
  intros Hl Hk. induction items as [|item items IH]; [done|]. cbn [items_prog].
  apply disciplined_plain; [|intros db x w l _ H; outcome H|done].
  - apply stable_labelled, stable_writing. intros db x d db' _ Ef HR. split; [|done].
    unfold insert_item_row in *. destruct (char3 _); [|done].
    rewrite (ry_items _ _ _ HR), (ry_order _ _ _ HR) by by apply lock_kept.
    repeat (case_match; [done|]). naive_solver.
  - destruct (char3 _); [|constructor].
    repeat constructor. simpl. set_solver.
Qed.

Lemma insert_key_rule E L ws g label m key o k :
  disciplined E L ws k ->
  disciplined E L ws (Exec g (labelled label (stmt_insert_key env m key o)) (fun _ => k)).
Proof using Type.
  intros Hk. apply disciplined_plain; [|intros db x w l _ H; outcome H|done].
  - apply stable_labelled, stable_writing. intros db x d db' _ Ef HR. split; [|done].
    unfold insert_idempotency_row in *.
    rewrite (ry_key _ _ _ HR) by (apply lock_held; set_solver). case_match; [done|].
    case_bool_decide as Ho; [|done]. simpl in *.
    rewrite bool_decide_eq_true_2 by by apply (ry_orders _ _ _ HR). simpl. naive_solver.
  - repeat constructor. simpl. set_solver.
Qed.

(** *** Events and audit *)

Lemma outbox_stable E L ev payload : stable E L (stmt_insert_outbox env ev payload).
Proof using Type.
  apply stable_writing. intros db x d db' _ Ef HR. split; [|done].
  unfold insert_outbox_row in *. destruct (pg_jsonb env payload); [|done].
  destruct (existsb _ (t_outbox_events db)) eqn:Ex; [done|].
  assert (existsb (fun r => String.eqb (out_message_id r) (Event_MessageID ev))
            (t_outbox_events db') = false) as ->.
  { apply not_true_iff_false. intros (r & Hr & Hx%String.eqb_eq)%existsb_exists.
    assert (r ∈ rows_of (Event_MessageID ev) db) as Hin.
    { rewrite <- (ry_message _ _ _ HR) by (apply lock_held; set_solver).
      apply list_elem_of_filter. split; [done|]. by apply list_elem_of_In. }
    apply list_elem_of_filter in Hin as [_ Hin]. apply not_true_iff_false in Ex. apply Ex.
    apply existsb_exists. exists r. split; [by apply list_elem_of_In|]. by apply String.eqb_eq. }
  destruct (t_orders db !! Event_OrderID ev) eqn:Eo; [|done].
  destruct (ry_orders _ _ _ HR (Event_OrderID ev)) as [r ->]; [by eexists|]. naive_solver.
Qed.

Lemma outbox_rule E L ws ev k :
  disciplined E L ws k -> disciplined E L ws (outbox_prog env ev k).
Proof using Type.
  intros Hk. unfold outbox_prog. destruct (pg_marshal env _); [|done].
  apply disciplined_plain; [apply stable_labelled, outbox_stable|intros db x w l _ H; outcome H|done].
  destruct (pg_jsonb env _); [|constructor]. repeat constructor. simpl. set_solver.
Qed.

Lemma audit_rule E L ws au k : disciplined E L ws k -> disciplined E L ws (audit_prog env au k).
Proof using Type.
  intros Hk. unfold audit_prog. destruct (pg_marshal_details env _); [|done].
  apply disciplined_plain; [apply stable_labelled, stable_writing|intros db x w l _ H; outcome H|done].
  - intros db x d db' _ Ef HR. split; [|done]. unfold insert_audit_row in *.
    destruct (pg_jsonb env _); naive_solver.
  - destruct (pg_jsonb env _); repeat constructor.
Qed.

(** *** Stock *)

Lemma select_items_rule E L ws g id k :
  LOrder id ∈ L -> (forall items, disciplined E L ws (k items)) ->
  disciplined E L ws (Exec g (select_items id) k).
Proof using Type.
  intros Hl Hk. apply disciplined_plain; [|intros db x w l _ H; by outcome H|done].
  apply stable_reading. intros db x db' _ Ef HR. split; [|done].
  by rewrite (ry_items _ _ _ HR id) by by apply lock_kept.
Qed.

Lemma update_items_rule E L ws g label id st k :
  LOrder id ∈ L -> disciplined E L ws k ->
  disciplined E L ws (Exec g (labelled label (stmt_update_items id st)) (fun _ => k)).
Proof using Type.
  intros Hl Hk. apply disciplined_plain; [|intros db x w l _ H; outcome H|done].
  - apply stable_labelled, stable_writing. intros db [] d db' _ _ HR. eauto.
  - repeat constructor. simpl. set_solver.
Qed.

Lemma select_reservation_rule E L ws g id sku k :
  LOrder id ∈ L -> (forall r, disciplined E L ws (k r)) ->
  disciplined E L ws (Exec g (select_reservation id sku) k).
Proof using Type.
  intros Hl Hk. apply disciplined_plain; [|intros db x w l _ H; by outcome H|done].
  apply stable_reading. intros db x db' _ Ef HR.
  by rewrite (ry_reservation _ _ _ HR id sku) by by apply lock_kept.
Qed.

Lemma candidate_rely L m sku q db db' row :
  Rely L db db' -> candidate m sku q db' row = candidate m sku q db row.
Proof using Type. intros HR. unfold candidate. by rewrite (ry_warehouses _ _ _ HR). Qed.

Lemma take_picked_rule E L ws g m item at_ pick k :
  (forall w, disciplined E L ws (k w)) ->
  disciplined E L ws (Exec g (stmt_take_picked env m item at_ pick) k).
Proof using Type.
  intros Hk. apply disciplined_plain; [|intros db x w l _ H; outcome H|done].
  - apply stable_writing. intros db x d db' _ Ef HR. destruct pick as [id|]; [|done].
    unfold take_picked, qualifies in *.
    rewrite (ry_stock _ _ _ HR id) by (apply lock_held; set_solver).
    destruct (t_inventory_items db !! id) as [row|]; [|done].
    rewrite (candidate_rely _ _ _ _ _ _ _ HR). split; [|done]. repeat case_match; naive_solver.
  - destruct pick as [id|]; [|constructor]. destruct (t_inventory_items db !! id); [|constructor].
    repeat constructor. simpl. set_solver.
Qed.

Lemma reserve_rule E L ws m id item at_ pick k :
  LOrder id ∈ L -> (forall w, disciplined E L ws (k w)) ->
  disciplined E L ws (reserve_prog env m id item at_ pick k).
Proof using Type.
  intros Hl Hk. apply select_reservation_rule; [done|]. intros [r|].
  - destruct (String.eqb _ _); [destruct (negb _); [done|apply Hk]|by apply take_picked_rule].
  - by apply take_picked_rule.
Qed.

Lemma upsert_reservation_rule E L ws g label id wh sku q at_ k :
  LOrder id ∈ L -> disciplined E L ws k ->
  disciplined E L ws
    (Exec g (labelled label (stmt_upsert_reservation env id wh sku q at_)) (fun _ => k)).
Proof using Type.
  intros Hl Hk. apply disciplined_plain; [|intros db x w l _ H; outcome H|done].
  - apply stable_labelled, stable_writing. intros db x d db' _ Ef HR.
    unfold upsert_reservation, upserted_reservation in *.
    rewrite (ry_reservation _ _ _ HR), (ry_items _ _ _ HR), (ry_warehouses _ _ _ HR)
      by by apply lock_kept.
    split; [|done]. repeat (destruct (if _ then _ else _) eqn:?; simplify_eq); try done.
    repeat case_match; naive_solver.
  - repeat constructor. simpl. set_solver.
Qed.

Lemma reserve_lines_rule E L ws src next items picks k :
  LOrder (Event_OrderID src) ∈ L -> (forall lines, disciplined E L ws (k lines)) ->
  disciplined E L ws (reserve_lines env src next items picks k).
Proof using Type.
  intros Hl. revert picks k. induction items as [|item items IH]; intros picks k Hk; [apply Hk|].
  cbn [reserve_lines]. apply reserve_rule; [done|]. intros w.
  apply upsert_reservation_rule; [done|]. by apply IH.
Qed.

Lemma holding_rely L id db db' row row' :
  Rely L db db' -> LOrder id ∈ L -> shelf_of row' = shelf_of row ->
  holding id db' row' = holding id db row.
Proof using Type.
  unfold holding, shelf_of. intros HR Hl [= -> ->]. by rewrite (ry_reservation _ _ _ HR).
Qed.

(** The rows that get stock back are those of the order's reservations, and
    locked. *)
Lemma returned_rely L id at_ db db' :
  Rely L db db' -> LOrder id ∈ L ->
  (forall i, i ∈ dom (returned_rows id at_ db) -> LStock i ∈ L) ->
  returned_rows id at_ db' = returned_rows id at_ db.
Proof using Type.
  intros HR Hl Hs. apply map_eq. intros i. unfold returned_rows. rewrite !lookup_omap.
  pose proof (ry_shelf _ _ _ HR i) as Hshelf.
  destruct (t_inventory_items db !! i) as [row|] eqn:Er,
    (t_inventory_items db' !! i) as [row'|] eqn:Er'; simpl in *; simplify_eq; try done.
  rewrite (holding_rely _ _ _ _ row row' HR) by (done || unfold shelf_of; congruence).
  destruct (holding id db row) as [q|] eqn:Eh; [|done].
  assert (LStock i ∈ L) as Hi.
  { apply Hs, elem_of_dom. unfold returned_rows. rewrite lookup_omap, Er. simpl. rewrite Eh. eauto. }
  pose proof (ry_stock _ _ _ HR i Hi) as Hsame. unfold same_at in Hsame. rewrite Er, Er' in Hsame.
  injection Hsame as ->. unfold give_back.
  by rewrite (holding_rely _ _ _ _ row row HR) by done.
Qed.

Lemma existsb_rows {K V} `{Countable K} (P : K * V -> bool) (m : gmap K V) :
  existsb P (map_to_list m) = false <-> forall k v, m !! k = Some v -> P (k, v) = false.
Proof using Type.
  rewrite <- not_true_iff_false, existsb_exists. split.
  - intros Hn k v Hkv. apply not_true_iff_false. intros HP. apply Hn. exists (k, v).
    split; [|done]. by apply list_elem_of_In, elem_of_map_to_list.
  - intros Hf ([k v] & Hin & HP). apply list_elem_of_In, elem_of_map_to_list in Hin.
    by rewrite (Hf _ _ Hin) in HP.
Qed.

Lemma returned_held id at_ db i row (L : list Lock) :
  (forall i, i ∈ dom (returned_rows id at_ db) -> LStock i ∈ L) ->
  t_inventory_items db !! i = Some row -> holding id db row <> None -> LStock i ∈ L.
Proof using Type.
  intros Hs Hi Hh. apply Hs, elem_of_dom. unfold returned_rows. rewrite lookup_omap, Hi. simpl.
  destruct (holding id db row); [by eexists|done].
Qed.

Lemma release_inventory_rely L id at_ db db' u d :
  Rely L db db' -> LOrder id ∈ L ->
  (forall i, i ∈ dom (returned_rows id at_ db) -> LStock i ∈ L) ->
  release_inventory env id at_ db = Ok (u, d) ->
  exists d', release_inventory env id at_ db' = Ok (u, d').
Proof using Type.
  intros HR Hl Hs. unfold release_inventory. destruct u.
  destruct (existsb _ (map_to_list (t_inventory_items db))) eqn:Ex; [done|]. intros _.
  rewrite existsb_rows in Ex.
  assert (existsb (fun kv => overflows id at_ db' (snd kv)) (map_to_list (t_inventory_items db'))
          = false) as ->; [|eauto].
  apply existsb_rows. intros i row' Hi'. simpl. pose proof (ry_shelf _ _ _ HR i) as Hshelf.
  rewrite Hi' in Hshelf. destruct (t_inventory_items db !! i) as [row|] eqn:Hi; [|done].
  injection Hshelf as Hw Hk. specialize (Ex _ _ Hi). simpl in Ex. unfold overflows, give_back in *.
  rewrite (holding_rely _ _ _ _ row row' HR) by (done || unfold shelf_of; congruence).
  destruct (holding id db row) as [q|] eqn:Eh; [|done].
  pose proof (ry_stock _ _ _ HR i (returned_held _ _ _ _ _ _ Hs Hi ltac:(by rewrite Eh))) as Hsame.
  unfold same_at in Hsame. rewrite Hi, Hi' in Hsame. by injection Hsame as ->.
Qed.

Lemma release_inventory_rule E L ws g label id at_ k :
  LOrder id ∈ L -> disciplined E L ws k ->
  disciplined E L ws (Exec g (labelled label (stmt_release_inventory env id at_)) (fun _ => k)).
Proof using Type.
  intros Hl Hk. apply disciplined_plain; [|intros db x w l _ H; outcome H|done].
  - apply stable_labelled, stable_writing. intros db x d db' _ Ef HR.
    assert (forall i, i ∈ dom (returned_rows id at_ db) ->
      LStock i ∈ L ++ map (fun kv => LStock (fst kv)) (map_to_list (returned_rows id at_ db))) as Hs.
    { intros i [row Hi]%elem_of_dom. apply lock_held, list_elem_of_fmap. exists (i, row).
      split; [done|]. by apply elem_of_map_to_list. }
    split; [by eapply release_inventory_rely; [done|by apply lock_kept|..]|].
    by rewrite (returned_rely _ _ _ _ _ HR) by (done || by apply lock_kept).
  - apply Forall_fmap, Forall_forall. intros kv Hkv. simpl. apply lock_held.
    apply list_elem_of_fmap. eauto.
Qed.

Lemma closed_rely L id at_ db db' :
  Rely L db db' -> LOrder id ∈ L -> closed_reservations id at_ db' = closed_reservations id at_ db.
Proof using Type.
  intros HR Hl. apply map_eq. intros [o sku]. unfold closed_reservations. rewrite !map_lookup_imap.
  destruct (String.eqb_spec o id) as [->|Hne].
  - by rewrite (ry_reservation _ _ _ HR id sku Hl).
  - simpl. apply String.eqb_neq in Hne. rewrite Hne. simpl.
    by destruct (t_stock_reservations db !! (o, sku)), (t_stock_reservations db' !! (o, sku)).
Qed.

Lemma release_reservations_rule E L ws g label id at_ k :
  LOrder id ∈ L -> disciplined E L ws k ->
  disciplined E L ws (Exec g (labelled label (stmt_release_reservations id at_)) (fun _ => k)).
Proof using Type.
  intros Hl Hk. apply disciplined_plain; [|intros db x w l _ H; outcome H|done].
  - apply stable_labelled, stable_writing. intros db [] d db' _ _ HR. split; [eauto|].
    by rewrite (closed_rely _ _ _ _ _ HR) by by apply lock_kept.
  - apply Forall_fmap, Forall_forall. intros [[o sku] r] Hr%elem_of_map_to_list. simpl.
    unfold closed_reservations in Hr. rewrite map_lookup_imap in Hr.
    destruct (t_stock_reservations db !! (o, sku)); [|done]. simpl in Hr.
    destruct (String.eqb_spec o id) as [->|]; [by apply lock_kept|done].
Qed.

Lemma release_items_rule E L ws g label id k :
  LOrder id ∈ L -> disciplined E L ws k ->
  disciplined E L ws (Exec g (labelled label (stmt_release_items id)) (fun _ => k)).
Proof using Type.
  intros Hl Hk. apply disciplined_plain; [|intros db x w l _ H; outcome H|done].
  - apply stable_labelled, stable_writing. intros db [] d db' _ _ HR. split; [eauto|].
    unfold reserved_items. by rewrite (ry_items _ _ _ HR) by by apply lock_kept.
  - repeat constructor. simpl. by apply lock_kept.
Qed.

Lemma release_rule E L ws id at_ k :
  LOrder id ∈ L -> disciplined E L ws k -> disciplined E L ws (release_prog env id at_ k).
Proof using Type.
  intros. by apply release_inventory_rule, release_reservations_rule, release_items_rule.
Qed.

(** *** Payments, shipments and projections *)

Lemma void_rule E L ws id at_ k :
  LOrder id ∈ L -> id ∈ E -> disciplined E L ws k -> disciplined E L ws (void_prog env id at_ k).
Proof using Type.
  intros Hl Hid Hk. apply disciplined_plain; [|intros db x w l _ H; outcome H|].
  - apply stable_labelled, stable_writing. intros db [] d db' _ _ HR. split; [eauto|].
    by rewrite (ry_authorization _ _ _ HR) by by apply lock_kept.
  - repeat constructor. simpl. by apply lock_kept.
  - intros _. apply update_rule; [done|]. eapply disciplined_mono; [..|exact Hk]; set_solver.
Qed.

Lemma effects_rule E L ws src at_ k :
  LOrder (Event_OrderID src) ∈ L -> Event_OrderID src ∈ E -> disciplined E L ws k ->
  disciplined E L ws (effects_prog env src at_ k).
Proof using Type.
  intros Hl Hid Hk. unfold effects_prog.
  assert (disciplined E L ws (if String.eqb (Event_EventType src) "shipment.failed"
            then void_prog env (Event_OrderID src) at_ k else k)) as Hv
    by (destruct (String.eqb _ _); [by apply void_rule|done]).
  destruct (one_of _ _); [by apply release_rule|done].
Qed.

(** A value no other row holds, in a column with a unique index. *)
Lemma unique_rely {K V} `{Countable K} (column : V -> string) x (k : K) (m m' : gmap K V) :
  no_new_holder column x m m' ->
  existsb (fun kv => String.eqb (column (snd kv)) x) (map_to_list (delete k m)) = false ->
  existsb (fun kv => String.eqb (column (snd kv)) x) (map_to_list (delete k m')) = false.
Proof using Type.
  rewrite !existsb_rows. intros Hn Hf i v [Hne Hv]%lookup_delete_Some. simpl.
  apply String.eqb_neq. intros Hx. destruct (Hn _ _ Hv Hx) as (v0 & Hv0 & Hx0).
  specialize (Hf i v0). rewrite lookup_delete_ne in Hf by done. specialize (Hf Hv0). simpl in Hf.
  by apply String.eqb_neq in Hf.
Qed.

Lemma upserted_authorization_id id row db :
  auth_authorization_id (upserted_authorization id row db) = auth_authorization_id row.
Proof using Type. unfold upserted_authorization. by destruct (_ !! _). Qed.

Lemma upsert_authorization_stable E L id row :
  LOrder id ∈ L -> stable E L (stmt_upsert_authorization env id row).
Proof using Type.
  intros Hl. apply stable_writing. intros db x d db' _ Ef HR. unfold upserted_authorization.
  rewrite (ry_authorization _ _ _ HR) by by apply lock_kept. split; [|done].
  unfold upsert_authorization in *. cbv zeta in *.
  rewrite (ry_authorization _ _ _ HR) by by apply lock_kept.
  set (row' := match t_payment_authorizations db !! id with None => _ | Some _ => _ end) in *.
  assert (auth_authorization_id row' = auth_authorization_id row) as Hid
    by by destruct (t_payment_authorizations db !! id).
  destruct (negb (chk_payment_authorizations_status _)); [done|].
  destruct (auth_amount row' <? 0); [done|]. rewrite Hid in *.
  destruct (existsb _ (map_to_list (delete id (t_payment_authorizations db)))) eqn:Ex; [done|].
  pose proof (ry_authorization_id _ _ _ HR (auth_authorization_id row) ltac:(apply lock_held; set_solver)) as HnEx.
  rewrite (unique_rely _ _ _ _ _ HnEx Ex).
  case_bool_decide as Ho; [|done]. simpl in *.
  rewrite bool_decide_eq_true_2 by by apply (ry_orders _ _ _ HR). simpl. naive_solver.
Qed.

Lemma upsert_authorization_rule E L ws g label id row k :
  LOrder id ∈ L -> disciplined E L ws k ->
  disciplined E L ws (Exec g (labelled label (stmt_upsert_authorization env id row)) (fun _ => k)).
Proof using Type.
  intros Hl Hk. apply disciplined_plain; [|intros db x w l _ H; outcome H|done].
  - by apply stable_labelled, upsert_authorization_stable.
  - repeat constructor; simpl; rewrite ?upserted_authorization_id; set_solver.
Qed.

Lemma upsert_shipment_stable E L id row :
  LOrder id ∈ L -> stable E L (stmt_upsert_shipment env id row).
Proof using Type.
  intros Hl. apply stable_writing. intros db x d db' _ Ef HR. unfold upserted_shipment.
  rewrite (ry_shipment _ _ _ HR) by by apply lock_kept. split; [|done].
  unfold upsert_shipment in *. cbv zeta in *.
  rewrite (ry_shipment _ _ _ HR) by by apply lock_kept.
  set (row' := match t_shipments db !! id with None => _ | Some _ => _ end) in *.
  assert (ship_shipment_id row' = ship_shipment_id row
          /\ ship_tracking_number row' = ship_tracking_number row) as [Hid Htr]
    by by destruct (t_shipments db !! id).
  destruct (negb (chk_shipments_status _)); [done|]. rewrite Hid, Htr in *.
  destruct (existsb (fun kv => String.eqb (ship_shipment_id _) _) _) eqn:Ex; [done|].
  pose proof (ry_shipment_id _ _ _ HR (ship_shipment_id row) ltac:(apply lock_held; set_solver)) as HnEx.
  rewrite (unique_rely _ _ _ _ _ HnEx Ex).
  destruct (existsb (fun kv => String.eqb (ship_tracking_number _) _)
              (map_to_list (delete id (t_shipments db)))) eqn:Et; [done|].
  pose proof (ry_tracking _ _ _ HR (ship_tracking_number row) ltac:(apply lock_held; set_solver)) as HnEt.
  rewrite (unique_rely _ _ _ _ _ HnEt Et).
  case_bool_decide as Ho; [|done]. simpl in *.
  rewrite bool_decide_eq_true_2 by by apply (ry_orders _ _ _ HR). simpl. naive_solver.
Qed.

Lemma upsert_shipment_rule E L ws g label id row k :
  LOrder id ∈ L -> disciplined E L ws k ->
  disciplined E L ws (Exec g (labelled label (stmt_upsert_shipment env id row)) (fun _ => k)).
Proof using Type.
  intros Hl Hk. apply disciplined_plain; [|intros db x w l _ H; outcome H|done].
  - by apply stable_labelled, upsert_shipment_stable.
  - constructor; [|constructor]. simpl. unfold upserted_shipment.
    destruct (t_shipments db !! id); simpl; set_solver.
Qed.

Lemma notification_rule E L ws g label src at_ k :
  disciplined E L ws k ->
  disciplined E L ws (Exec g (labelled label (stmt_upsert_notification env src at_)) (fun _ => k)).
Proof using Type.
  intros Hk. apply disciplined_plain; [|intros db x w l _ H; outcome H|done].
  - apply stable_labelled, stable_writing. intros db x d db' _ Ef HR.
    unfold upsert_notification, upserted_notification in *. cbv zeta in *.
    rewrite (ry_notification _ _ _ HR) by (apply lock_held; set_solver). split; [|done].
    case_bool_decide as Ho; [|done]. simpl in *.
    rewrite bool_decide_eq_true_2 by by apply (ry_orders _ _ _ HR). simpl. naive_solver.
  - repeat constructor. simpl. set_solver.
Qed.

Lemma compensation_rule E L ws g label src st au k :
  disciplined E L ws k ->
  disciplined E L ws (Exec g (labelled label (stmt_upsert_compensation env src st au)) (fun _ => k)).
Proof using Type.
  intros Hk. apply disciplined_plain; [|intros db x w l _ H; outcome H|done].
  - apply stable_labelled, stable_writing. intros db x d db' _ Ef HR.
    unfold upsert_compensation, upserted_compensation in *. cbv zeta in *.
    rewrite (ry_compensation _ _ _ HR) by (apply lock_held; set_solver). split; [|done].
    destruct (negb (IsValidOrderStatus st)); [done|].
    case_bool_decide as Ho; [|done]. simpl in *.
    rewrite bool_decide_eq_true_2 by by apply (ry_orders _ _ _ HR). simpl. naive_solver.
  - repeat constructor. simpl. set_solver.
Qed.

(** *** Outbox and inbox *)

Lemma claim_valid_rely L limit now ids db db' :
  Rely L db db' -> Forall (fun id => LMessage id ∈ L) ids ->
  claim_valid limit now ids db' = claim_valid limit now ids db.
Proof using Type.
  intros HR Hl. unfold claim_valid. f_equal. induction Hl as [|id ids Hid _ IH]; [done|]. simpl.
  rewrite IH. unfold claimable_id. by rewrite (ry_message _ _ _ HR id Hid).
Qed.

Lemma claim_rule E L ws g limit now ids k :
  disciplined E L ws k -> disciplined E L ws (Exec g (stmt_claim limit now ids) (fun _ => k)).
Proof using Type.
  assert (Forall (fun id => LMessage id ∈ L ++ map LMessage ids) ids) as Hids.
  { apply Forall_forall. intros id Hid. apply lock_held, list_elem_of_fmap. eauto. }
  intros Hk. apply disciplined_plain; [|intros db x w l _ H; outcome H|done].
  - apply stable_writing. intros db x d db' _ Ef HR. split; [|done].
    rewrite (claim_valid_rely _ _ _ _ _ _ HR) by done. destruct (claim_valid _ _ _ db); naive_solver.
  - by repeat constructor.
Qed.

Lemma marked_rows id db :
  filter (fun r => String.eqb (out_message_id r) id && row_pending r = true) (t_outbox_events db)
  = filter (fun r => row_pending r = true) (rows_of id db).
Proof using Type.
  unfold rows_of. rewrite list_filter_filter. apply filter_ext_in, Forall_forall. intros r _.
  rewrite andb_true_iff, String.eqb_eq. naive_solver.
Qed.

Lemma publish_rule E L ws g id at_ k :
  disciplined E L ws k -> disciplined E L ws (Exec g (stmt_publish id at_) (fun _ => k)).
Proof using Type.
  intros Hk. apply disciplined_plain; [|intros db x w l _ H; outcome H|done].
  - apply stable_writing. intros db x d db' _ Ef HR. split; [|done].
    unfold mark_published in *. rewrite marked_rows in *.
    rewrite (ry_message _ _ _ HR) by (apply lock_held; set_solver).
    destruct (_ =? 0); naive_solver.
  - repeat constructor. simpl. set_solver.
Qed.

Lemma idle_rule {X} E L ws g (x : X) k :
  disciplined E L ws (k x) ->
  disciplined E L ws (Exec g (reading (fun _ => Ok x) (fun _ => [])) k).
Proof using Type.
  intros Hk. apply disciplined_covered.
  - by apply stable_reading.
  - intros db y w l HE (-> & -> & [= <-])%reading_ok. rewrite app_nil_r. split; [constructor|].
    by exists E.
Qed.

Lemma receive_rule E L ws g consumer ev fresh k :
  disciplined E L ws k -> disciplined E L ws (Exec g (stmt_receive consumer ev fresh) (fun _ => k)).
Proof using Type.
  intros Hk. destruct fresh; [|by apply idle_rule].
  apply disciplined_plain; [|intros db x w l _ H; outcome H|done].
  - apply stable_writing. intros db x d db' _ Ef HR. split; [|done]. unfold insert_inbox_row in *.
    rewrite (ry_inbox _ _ _ HR) by (apply lock_held; set_solver).
    destruct (t_inbox_messages db !! _); naive_solver.
  - repeat constructor. simpl. set_solver.
Qed.

Lemma forget_rule E L ws g consumer ev found k :
  disciplined E L ws k -> disciplined E L ws (Exec g (stmt_forget consumer ev found) (fun _ => k)).
Proof using Type.
  intros Hk. destruct found; [|by apply idle_rule].
  apply disciplined_plain; [|intros db x w l _ H; outcome H|done].
  - apply stable_writing. intros db [] d db' _ _ HR. eauto.
  - repeat constructor. simpl. set_solver.
Qed.

(** ** The programs *)

Lemma done_rule E L : disciplined E L [] Done.
Proof using Type. constructor. Qed.

(** The items are marked before the order is locked: their write is covered by
    the lock the update of the order takes. *)
Lemma rejected_disciplined src next au : disciplined [] [] [] (rejected_prog env src next au).
Proof using Type.
  apply require_order_rule. apply disciplined_exec.
  - apply stable_labelled, stable_writing. intros db [] d db' _ _ HR. eauto.
  - intros db x w l HE H. outcome H.
    exists [Event_OrderID src], [WSetItems (Event_OrderID src) "rejected" None].
    split; [by apply known_writes|]. split; [done|].
    apply update_rule, outbox_rule, audit_rule; [set_solver|]. repeat constructor.
Qed.

Lemma insert_disciplined found m key o ev au :
  disciplined [] [] [] (insert_prog env found m key o ev au).
Proof using Type.
  apply idle_rule. destruct found as [id|]; [apply require_order_rule, done_rule|].
  apply merchant_rule, insert_order_rule. intros L HL Hl.
  by apply items_rule, insert_key_rule, outbox_rule, audit_rule, done_rule.
Qed.

End Statements.

(** Follow a program statement by statement. *)
Ltac discipline_step :=
  first
    [ apply done_rule | apply require_order_rule | apply lock_rule
    | apply select_order_rule; [set_solver|intros ?]
    | apply update_rule; [set_solver|] | apply update_checked_rule; [set_solver|]
    | apply outbox_rule | apply audit_rule
    | apply select_items_rule; [set_solver|intros ?]
    | apply update_items_rule; [set_solver|]
    | apply reserve_lines_rule; [set_solver|intros ?]
    | apply release_rule; [set_solver|] | apply void_rule; [set_solver..|]
    | apply effects_rule; [set_solver..|]
    | apply upsert_authorization_rule; [set_solver|] | apply upsert_shipment_rule; [set_solver|]
    | apply notification_rule | apply compensation_rule | apply claim_rule | apply publish_rule
    | apply receive_rule | apply forget_rule ].

Lemma programs_disciplined env t : disciplined [] [] [] (program env t).
Proof.
  destruct t; cbn [program]; try apply insert_disciplined; try apply rejected_disciplined;
    repeat discipline_step.
Qed.
