(* ===== verification/SerialRuns.v ===== *)
(** A transaction program that runs alone is the store's operation: its
    statements have the effects of [PgStore]'s statements, and the whole has the
    result and the effect of the operation. *)
From S2P Require Import Prelude GoStrings GoTime Model StateMachine MemoryStore MemoryInvariant.
From S2P Require Import Database PgStore PgAtomic PgStock PgOrders PgOutbox.
From S2P Require Import Transactions Interleaving Discipline.

(** ** Statements *)

(** The rows written are the effect of [PgStore]'s statement. *)
Definition performs {X} (f : Database -> result (X * Database)) (s : Stmt X) : Prop :=
  forall db, match s db with
             | Ok (x, ws, _) => f db = Ok (x, apply_writes ws db)
             | Err e => f db = Err e
             end.

Lemma performs_writing {X} (f : Database -> result (X * Database)) ws ls :
  (forall db x d, f db = Ok (x, d) -> apply_writes (ws db) db = d) -> performs f (writing f ws ls).
Proof.
  intros H db. unfold writing. destruct (f db) as [[x d]|] eqn:E; [|done]. by rewrite (H _ _ _ E).
Qed.

Lemma database_eta db : db = mkDatabase (t_merchants db) (t_orders db) (t_order_items db)
  (t_idempotency_keys db) (t_outbox_events db) (t_inbox_messages db) (t_audit_logs db)
  (t_stock_reservations db) (t_payment_authorizations db) (t_shipments db)
  (t_notification_events db) (t_compensation_events db) (t_warehouses db) (t_inventory_items db).
Proof. by destruct db. Qed.

(** Writing a row through its columns. *)
Lemma alter_insert {K V} `{Countable K} (f : V -> V) (m : gmap K V) k v v' :
  m !! k = Some v -> f v = v' -> alter f k m = <[k := v']> m.
Proof.
  intros Hk <-. apply map_eq. intros i. rewrite lookup_alter, lookup_insert.
  destruct (decide (k = i)) as [->|]; [by rewrite Hk|done].
Qed.

(** The updates of an order row that the store makes. *)
Definition keeps_identity (f : OrderRow -> OrderRow) : Prop := forall r, set_columns (f r) r = f r.

Lemma identity_status st at_ : keeps_identity (set_row_status st at_).
Proof. by intros []. Qed.

Lemma identity_touch at_ : keeps_identity (touch_row at_).
Proof. by intros []. Qed.

Lemma identity_void : keeps_identity void_row.
Proof. intros []. unfold void_row. by case_bool_decide. Qed.

(** *** Many rows in one statement *)

(** The quantities of one row in another. *)
Definition put_quantities (row : InventoryRow) : InventoryRow -> InventoryRow :=
  set_quantities (inv_available_quantity row) (inv_reserved_quantity row) (inv_updated_at row).

Lemma apply_stocks l db :
  apply_writes (map set_stock l) db
  = set_inventory_items
      (fold_left (fun m kv => alter (put_quantities (snd kv)) (fst kv) m) l
         (t_inventory_items db)) db.
Proof.
  revert db. induction l as [|kv l IH]; intros db; [by destruct db|]. simpl.
  unfold apply_writes in *. simpl. by rewrite IH.
Qed.

Lemma fold_alter_other {K V W} `{Countable K} (f : W -> V -> V) (l : list (K * W)) (m : gmap K V) i :
  i ∉ map fst l -> fold_left (fun m kv => alter (f (snd kv)) (fst kv) m) l m !! i = m !! i.
Proof.
  revert m. induction l as [|[k w] l IH]; intros m Hi; [done|]. simpl in *.
  rewrite not_elem_of_cons in Hi. destruct Hi. rewrite IH by done. by rewrite lookup_alter_ne.
Qed.

Lemma fold_alter_lookup {K V W} `{Countable K} (f : W -> V -> V) (l : list (K * W)) (m : gmap K V) i w :
  NoDup (map fst l) -> (i, w) ∈ l ->
  fold_left (fun m kv => alter (f (snd kv)) (fst kv) m) l m !! i = f w <$> m !! i.
Proof.
  revert m. induction l as [|[k w'] l IH]; intros m Hnd Hin; [by apply elem_of_nil in Hin|].
  simpl in *. apply NoDup_cons in Hnd as [Hk Hnd]. apply elem_of_cons in Hin as [[= -> ->]|Hin].
  - rewrite fold_alter_other by done. by rewrite lookup_alter_eq.
  - rewrite IH by done. rewrite lookup_alter_ne; [done|]. intros ->. apply Hk.
    apply list_elem_of_fmap. by exists (i, w).
Qed.

Lemma apply_reservations l db :
  apply_writes (map set_reservation l) db
  = set_stock_reservations (fold_left (fun m kv => <[fst kv := snd kv]> m) l (t_stock_reservations db)) db.
Proof.
  revert db. induction l as [|[[o sku] r] l IH]; intros db; [by destruct db|]. simpl.
  unfold apply_writes in *. simpl. by rewrite IH.
Qed.

Lemma fold_insert_lookup {K V} `{Countable K} (l : list (K * V)) (m : gmap K V) i :
  NoDup (map fst l) ->
  fold_left (fun m kv => <[fst kv := snd kv]> m) l m !! i
  = match (list_to_map l : gmap K V) !! i with Some v => Some v | None => m !! i end.
Proof.
  revert m. induction l as [|[k v] l IH]; intros m Hnd; simpl in *; [by rewrite lookup_empty|].
  apply NoDup_cons in Hnd as [Hk Hnd]. rewrite IH by done. rewrite !lookup_insert.
  destruct (decide (k = i)) as [->|]; [|done].
  by rewrite (not_elem_of_list_to_map_1 l i) by done.
Qed.

Section Statements.
Variable env : PgEnv.

Lemma performs_update id f :
  keeps_identity f -> performs (update_order env id f) (stmt_update_order env id f).
Proof using Type.
  intros Hf. apply performs_writing. intros db x d. unfold update_order.
  destruct (t_orders db !! id) as [r|] eqn:Er; [|by intros [= _ <-]].
  destruct (negb _); [done|]. destruct (negb _); [done|]. intros [= _ <-]. simpl.
  by rewrite (alter_insert _ _ _ r (f r)) by (done || apply Hf).
Qed.

Lemma performs_insert_order m o :
  performs (fun db => match insert_order_row env m o db with
                      | Err e => Err (if isUniqueViolation e then ErrDuplicateOrder
                                      else Wrap "insert order: " e "")
                      | ok => ok
                      end) (stmt_insert_order env m o).
Proof using Type.
  apply performs_writing. intros db x d. unfold insert_order_row.
  destruct (char3 _) as [cur|]; [|by case_match]. intros Hd. repeat case_match; by simplify_eq.
Qed.

Lemma performs_insert_item id item :
  performs (insert_item_row env id item) (stmt_insert_item env id item).
Proof using Type.
  apply performs_writing. intros db x d. unfold insert_item_row.
  destruct (char3 _) as [cur|]; [|done]. intros Hd. repeat case_match; by simplify_eq.
Qed.

Lemma performs_insert_key m k o :
  performs (insert_idempotency_row env m k o) (stmt_insert_key env m k o).
Proof using Type.
  apply performs_writing. intros db x d. unfold insert_idempotency_row.
  intros Hd. repeat case_match; by simplify_eq.
Qed.

Lemma performs_merchant m :
  performs (fun db => Ok (tt, match t_merchants db !! m with
                              | Some _ => db
                              | None => set_merchants (<[m := m]> (t_merchants db)) db
                              end)) (stmt_upsert_merchant m).
Proof using Type.
  apply performs_writing. intros db x d [= _ <-]. by destruct (t_merchants db !! m).
Qed.

Lemma performs_items id st :
  performs (fun db => Ok (tt, update_items id st (fun _ => true) db)) (stmt_update_items id st).
Proof using Type. apply performs_writing. by intros db x d [= _ <-]. Qed.

Lemma performs_release_items id :
  performs (fun db => Ok (tt, update_items id "released"
              (fun r => String.eqb (item_reservation_status r) "reserved") db))
    (stmt_release_items id).
Proof using Type. apply performs_writing. by intros db x d [= _ <-]. Qed.

Lemma performs_outbox ev payload :
  performs (insert_outbox_row env ev payload) (stmt_insert_outbox env ev payload).
Proof using Type.
  apply performs_writing. intros db x d. unfold insert_outbox_row.
  destruct (pg_jsonb env payload); [|done]. intros Hd. repeat case_match; by simplify_eq.
Qed.

Lemma performs_audit au details :
  performs (insert_audit_row env au details) (stmt_insert_audit env au details).
Proof using Type.
  apply performs_writing. intros db x d. unfold insert_audit_row.
  destruct (pg_jsonb env details); [|done]. by intros [= _ <-].
Qed.

Lemma performs_reservation id wh sku q at_ :
  performs (upsert_reservation env id wh sku q at_) (stmt_upsert_reservation env id wh sku q at_).
Proof using Type.
  apply performs_writing. intros db x d. unfold upsert_reservation. cbv zeta.
  destruct (negb (0 <? q)); [done|]. destruct (negb (existsb _ _)); [done|].
  destruct (match match wh with Some _ => _ | None => _ end with Some w => _ | None => false end);
    [done|]. by intros [= _ <-].
Qed.

Lemma give_back_quantities id at_ db row :
  put_quantities (give_back id at_ db row) row = give_back id at_ db row.
Proof using Type. unfold put_quantities, give_back. destruct (holding id db row); by destruct row. Qed.

Lemma performs_release_inventory id at_ :
  performs (release_inventory env id at_) (stmt_release_inventory env id at_).
Proof using Type.
  apply performs_writing. intros db x d. unfold release_inventory.
  destruct (existsb _ _); [done|]. intros [= _ <-]. rewrite apply_stocks. f_equal.
  apply map_eq. intros i. rewrite lookup_fmap.
  destruct (returned_rows id at_ db !! i) as [w|] eqn:Ew.
  - rewrite (fold_alter_lookup put_quantities _ _ i w) by (apply NoDup_fst_map_to_list || by apply elem_of_map_to_list).
    unfold returned_rows in Ew. rewrite lookup_omap in Ew.
    destruct (t_inventory_items db !! i) as [row|]; [|done]. simpl in *.
    destruct (holding id db row); [|done]. injection Ew as <-.
    by rewrite give_back_quantities.
  - rewrite (fold_alter_other put_quantities); [|intros ([? w] & -> & Hw%elem_of_map_to_list)%list_elem_of_fmap;
      simpl in *; congruence].
    unfold returned_rows in Ew. rewrite lookup_omap in Ew.
    destruct (t_inventory_items db !! i) as [row|]; [|done]. simpl in *. unfold give_back.
    by destruct (holding id db row).
Qed.

Lemma performs_release_reservations id at_ :
  performs (fun db => Ok (tt, set_stock_reservations
              (map_imap (fun k r => Some (release_reservation id at_ k r))
                 (t_stock_reservations db)) db))
    (stmt_release_reservations id at_).
Proof using Type.
  apply performs_writing. intros db x d [= _ <-]. rewrite apply_reservations. f_equal.
  apply map_eq. intros i. rewrite fold_insert_lookup by apply NoDup_fst_map_to_list.
  rewrite list_to_map_to_list. unfold closed_reservations. rewrite !map_lookup_imap.
  destruct (t_stock_reservations db !! i) as [r|]; [|done]. simpl. unfold release_reservation.
  by destruct (_ && _).
Qed.

Lemma performs_void id at_ :
  performs (fun db => Ok (tt, set_payment_authorizations
              (alter (void_authorization at_) id (t_payment_authorizations db)) db))
    (stmt_void id at_).
Proof using Type. apply performs_writing. by intros db x d [= _ <-]. Qed.

Lemma performs_authorization id row :
  performs (upsert_authorization env id row) (stmt_upsert_authorization env id row).
Proof using Type.
  apply performs_writing. intros db x d. unfold upsert_authorization. cbv zeta.
  fold (upserted_authorization id row db). intros Hd.
  repeat case_match; by simplify_eq.
Qed.

Lemma performs_shipment id row :
  performs (upsert_shipment env id row) (stmt_upsert_shipment env id row).
Proof using Type.
  apply performs_writing. intros db x d. unfold upsert_shipment. cbv zeta.
  fold (upserted_shipment id row db). intros Hd. repeat case_match; by simplify_eq.
Qed.

Lemma performs_notification src at_ :
  performs (upsert_notification env src at_) (stmt_upsert_notification env src at_).
Proof using Type.
  apply performs_writing. intros db x d. unfold upsert_notification. cbv zeta.
  fold (upserted_notification src at_ db). destruct (negb _); [done|]. by intros [= _ <-].
Qed.

Lemma performs_compensation src st au :
  performs (upsert_compensation env src st au) (stmt_upsert_compensation env src st au).
Proof using Type.
  apply performs_writing. intros db x d. unfold upsert_compensation. cbv zeta.
  fold (upserted_compensation src st au db). destruct (negb _); [done|]. destruct (negb _); [done|].
  by intros [= _ <-].
Qed.

Lemma performs_take m item at_ pick :
  performs (take_picked env m item at_ pick) (stmt_take_picked env m item at_ pick).
Proof using Type.
  apply performs_writing. intros db x d. unfold take_picked, qualifies. destruct pick as [id|]; [|done].
  destruct (t_inventory_items db !! id) as [row|] eqn:Er; [|done].
  destruct (candidate _ _ _ _ _); [|done]. cbv zeta.
  destruct (negb _); [done|]. destruct (_ <? 0); [done|]. intros [= _ <-]. simpl.
  by rewrite (alter_insert _ _ _ row (take_stock (reservation_quantity item) at_ row)) by done.
Qed.

End Statements.

(** ** Programs *)

(** What was read without a lock is right when nothing interferes. *)
Fixpoint guards_hold (p : Prog) (db : Database) : bool :=
  match p with
  | Done | Fail _ => true
  | Exec g s k =>
      g db && match s db with
              | Ok (x, ws, _) => guards_hold (k x) (apply_writes ws db)
              | Err _ => true
              end
  end.

(** The program has the effect and the error of a run of the store. *)
Definition agrees {A} (db : Database) (p : Prog) (out : result A * Conn) : Prop :=
  guards_hold p db = true /\
  match serial p db, out with
  | Ok db', (Ok _, s') => conn_db s' = db'
  | Err e, (Err e', _) => e' = e
  | _, _ => False
  end.

Section Agreement.
Variable env : PgEnv.
Notation env0 := (without_faults env).

(** A statement that writes. *)
Lemma agrees_call {X A} label f (st : Stmt X) g (k : X -> M Conn A) k' s :
  performs f st -> g (conn_db s) = true ->
  (forall x s', agrees (conn_db s') (k' x) (k x s')) ->
  agrees (conn_db s) (Exec g (labelled label st) k') (bind (annotate label (call env0 f)) k s).
Proof using Type.
  intros Hp Hg Hk. specialize (Hp (conn_db s)). unfold agrees, labelled, bind, annotate, call. simpl.
  rewrite Hg. simpl. destruct (st (conn_db s)) as [[[x ws] ls]|e]; rewrite Hp; [|done].
  exact (Hk x (mkConn (apply_writes ws (conn_db s)) _)).
Qed.

(** A step of the store that only reads. *)
Lemma agrees_read {X Y A} (m : M Conn Y) (st : Stmt X) g (k : Y -> M Conn A) k' s :
  g (conn_db s) = true ->
  match m s with
  | (Ok y, s1) =>
      conn_db s1 = conn_db s
      /\ exists x ls, st (conn_db s) = Ok (x, [], ls) /\ agrees (conn_db s1) (k' x) (k y s1)
  | (Err e, _) => st (conn_db s) = Err e
  end ->
  agrees (conn_db s) (Exec g st k') (bind m k s).
Proof using Type.
  intros Hg. unfold agrees, bind. simpl. rewrite Hg. destruct (m s) as [[y|e] s1].
  - intros (Es & x & ls & -> & Hk). simpl. by rewrite <- Es.
  - by intros ->.
Qed.

Lemma agrees_assoc {A B C} db p (m : M Conn A) (h : A -> M Conn B) (k : B -> M Conn C) s :
  agrees db p (bind m (fun a => bind (h a) k) s) -> agrees db p (bind (bind m h) k s).
Proof using Type. unfold bind. by destruct (m s) as [[]]. Qed.

Lemma agrees_ret {A} (a : A) s : agrees (conn_db s) Done (ret a s).
Proof using Type. done. Qed.

Lemma agrees_throw {A} e s : agrees (conn_db s) (Fail e) (@throw Conn A e s).
Proof using Type. done. Qed.

(** *** Orders *)

Lemma agrees_get {A} id g (k : Order -> M Conn A) p s :
  g (conn_db s) = true -> (forall o s', agrees (conn_db s') p (k o s')) ->
  agrees (conn_db s) (Exec g (require_order id) (fun _ => p)) (bind (getOrderTx env0 id) k s).
Proof using Type.
  intros Hg Hk. apply agrees_read; [done|].
  unfold getOrderTx, require_order, reading, writing, bind, annotate, iterate, query, call. simpl.
  destruct (t_orders (conn_db s) !! id); simpl; [|done]. split; [done|]. exists tt, []. split; [done|].
  apply (Hk _ (mkConn (conn_db s) _)).
Qed.

Lemma agrees_lock {A} id st (k : unit -> M Conn A) p s :
  (forall s', agrees (conn_db s') p (k tt s')) ->
  agrees (conn_db s) (lock_prog id st p) (bind (lock_and_validate env0 id st) k s).
Proof using Type.
  intros Hk. unfold lock_and_validate. apply agrees_assoc, agrees_read; [done|].
  unfold lockOrderStatusForUpdate, select_order_for_update, reading, writing, bind, annotate,
    query, call. simpl.
  destruct (t_orders (conn_db s) !! id) as [r|]; simpl; [|done]. split; [done|].
  exists r, [LOrder id]. split; [done|]. unfold require.
  destruct (ValidateOrderTransition _ _); [done|]. apply (Hk (mkConn (conn_db s) _)).
Qed.

Lemma agrees_update {A} label id f (k : Z -> M Conn A) p s :
  keeps_identity f -> (forall n s', agrees (conn_db s') p (k n s')) ->
  agrees (conn_db s) (update_prog env label id f p)
    (bind (annotate label (call env0 (update_order env0 id f))) k s).
Proof using Type. intros. apply agrees_call; [by exact (performs_update env _ _ H)|done|done]. Qed.

Lemma agrees_checked {A} label id st at_ (k : unit -> M Conn A) p s :
  (forall s', agrees (conn_db s') p (k tt s')) ->
  agrees (conn_db s) (update_checked_prog env label id (set_row_status st at_) p)
    (bind (update_status_checked env0 label id st at_) k s).
Proof using Type.
  intros Hk. apply agrees_assoc, agrees_call; [exact (performs_update env _ _ (identity_status _ _))|done|].
  intros n s'. destruct (n =? 0); [apply agrees_throw|apply Hk].
Qed.

(** *** Events and audit *)

Lemma agrees_outbox {A} ev (k : unit -> M Conn A) p s :
  (forall s', agrees (conn_db s') p (k tt s')) ->
  agrees (conn_db s) (outbox_prog env ev p) (bind (insertOutboxEvent env0 ev) k s).
Proof using Type.
  intros Hk. unfold outbox_prog, insertOutboxEvent. simpl. destruct (pg_marshal env _); [|done].
  apply agrees_call; [exact (performs_outbox env _ _)|done|]. by intros [].
Qed.

Lemma agrees_audit {A} au (k : unit -> M Conn A) p s :
  (forall s', agrees (conn_db s') p (k tt s')) ->
  agrees (conn_db s) (audit_prog env au p) (bind (insertAuditLog env0 au) k s).
Proof using Type.
  intros Hk. unfold audit_prog, insertAuditLog. simpl. destruct (pg_marshal_details env _); [|done].
  apply agrees_call; [exact (performs_audit env _ _)|done|]. by intros [].
Qed.

(** *** Stock, payments *)

Lemma agrees_release {A} id at_ (k : unit -> M Conn A) p s :
  (forall s', agrees (conn_db s') p (k tt s')) ->
  agrees (conn_db s) (release_prog env id at_ p) (bind (releaseReservedStock env0 id at_) k s).
Proof using Type.
  intros Hk. unfold releaseReservedStock, releaseInventoryItems, exec. apply agrees_assoc.
  apply agrees_call; [exact (performs_release_inventory env _ _)|done|]. intros _ s1. apply agrees_assoc.
  apply agrees_call; [apply performs_release_reservations|done|]. intros _ s2.
  apply agrees_call; [apply performs_release_items|done|]. by intros [].
Qed.

Lemma agrees_void {A} id at_ (k : unit -> M Conn A) p s :
  (forall s', agrees (conn_db s') p (k tt s')) ->
  agrees (conn_db s) (void_prog env id at_ p) (bind (voidAuthorizedPayment env0 id at_) k s).
Proof using Type.
  intros Hk. unfold voidAuthorizedPayment, exec. apply agrees_assoc.
  apply agrees_call; [apply performs_void|done|]. intros _ s1.
  apply agrees_assoc, agrees_update; [apply identity_void|]. intros n s2. apply Hk.
Qed.

Lemma agrees_effects {A} src at_ (k : unit -> M Conn A) p s :
  (forall s', agrees (conn_db s') p (k tt s')) ->
  agrees (conn_db s) (effects_prog env src at_ p) (bind (applyCompensationEffects env0 src at_) k s).
Proof using Type.
  intros Hk. unfold applyCompensationEffects, effects_prog. apply agrees_assoc.
  assert (forall s', agrees (conn_db s')
            (if String.eqb (Event_EventType src) "shipment.failed"
             then void_prog env (Event_OrderID src) at_ p else p)
            (bind (if String.eqb (Event_EventType src) "shipment.failed"
                   then voidAuthorizedPayment env0 (Event_OrderID src) at_ else ret tt) k s')) as Hv.
  { intros s'. destruct (String.eqb _ _); [by apply agrees_void|apply Hk]. }
  destruct (one_of _ _); [by apply agrees_release|apply Hv].
Qed.

(** *** New orders *)

Lemma agrees_insert_order {A} m o g (k : unit -> M Conn A) p s :
  g (conn_db s) = true -> (forall s', agrees (conn_db s') p (k tt s')) ->
  agrees (conn_db s) (Exec g (stmt_insert_order env m o) (fun _ => p))
    (bind (insert_order_checked env0 m o) k s).
Proof using Type.
  intros Hg Hk. pose proof (performs_insert_order env m o (conn_db s)) as Hp.
  unfold agrees, insert_order_checked, bind, attempt, call. simpl. rewrite Hg. simpl.
  change (insert_order_row env0 m o) with (insert_order_row env m o).
  destruct (stmt_insert_order env m o (conn_db s)) as [[[[] ws] ls]|e],
    (insert_order_row env m o (conn_db s)) as [[[] d]|e']; simplify_eq/=.
  - exact (Hk (mkConn (apply_writes ws (conn_db s)) _)).
  - by destruct (isUniqueViolation e').
Qed.

Lemma agrees_items {A} id items (k : unit -> M Conn A) p s :
  (forall s', agrees (conn_db s') p (k tt s')) ->
  agrees (conn_db s) (items_prog env id items p)
    (bind (for_each (fun item => annotate "insert order item: "
             (call env0 (insert_item_row env0 id item))) items) k s).
Proof using Type.
  intros Hk. revert s. induction items as [|item items IH]; intros s; [apply Hk|].
  cbn [for_each items_prog]. apply agrees_assoc, agrees_call; [|done|].
  - exact (performs_insert_item env id item).
  - intros _. apply IH.
Qed.

(** *** The reservation loop *)

Lemma pick_qualifies m sku q db id row :
  pick_stock m sku q db = Some (id, row) -> qualifies m sku q db id = Some row.
Proof using Type.
  unfold pick_stock, qualifies. intros H%best_of_member. destruct H as [H|H]; [|done].
  apply list_elem_of_filter in H as [Hc Hin%elem_of_map_to_list]. simpl in *.
  by rewrite Hin, Hc.
Qed.

(** The server's pick when nothing interferes: the best row. *)
Definition best_pick (m : string) (item : reservationItem) (db : Database) : option Z :=
  fst <$> pick_stock m (reservation_sku item) (reservation_quantity item) db.

Lemma take_best m item at_ s :
  reserve_from_stock env0 m item at_ s
  = match take_picked env m item at_ (best_pick m item (conn_db s)) (conn_db s) with
    | Ok (w, d) => (Ok w, mkConn d (Datatypes.S (conn_calls s)))
    | Err e => (Err e, mkConn (conn_db s) (Datatypes.S (conn_calls s)))
    end.
Proof using Type.
  unfold reserve_from_stock, take_picked, best_pick, reserve_candidate, bind, annotate, call. simpl.
  destruct (pick_stock _ _ _ _) as [[id row]|] eqn:Ep; simpl; [|done].
  rewrite (pick_qualifies _ _ _ _ _ _ Ep).
  destruct (negb _); [done|]. by destruct (_ <? 0).
Qed.

(** The payload entry of a reserved line. *)
Definition line_entry (item : reservationItem) (w : string) : any :=
  AMap [("quantity", AInt (reservation_quantity item)); ("sku", AStr (reservation_sku item));
        ("warehouse_id", AStr w)].

Definition upsert_line (src next : OutboxEvent) (item : reservationItem) (w : string) : Stmt unit :=
  labelled "upsert stock reservation: "
    (stmt_upsert_reservation env (Event_OrderID src) (nullableString w) (reservation_sku item)
       (reservation_quantity item) (Event_OccurredAt next)).

(** One statement, with its outcome. *)
Lemma agrees_do {X A} db g (st : Stmt X) k' x ws ls (out : result A * Conn) :
  g db = true -> st db = Ok (x, ws, ls) -> agrees (apply_writes ws db) (k' x) out ->
  agrees db (Exec g st k') out.
Proof using Type. intros Hg Hst Ha. unfold agrees. simpl. by rewrite Hg, Hst. Qed.

Lemma agrees_err {X A} db g (st : Stmt X) k' e (out : result A * Conn) :
  g db = true -> st db = Err e -> fst out = Err e -> agrees db (Exec g st k') out.
Proof using Type.
  intros Hg Hst Ho. unfold agrees. simpl. rewrite Hg, Hst. destruct out as [[] ?]; by simplify_eq/=.
Qed.

(** A line of the reservation, up to its upsert. *)
Definition line_upsert (src next : OutboxEvent) (item : reservationItem) (w : string)
    : M Conn any :=
  bind (annotate "upsert stock reservation: "
          (call env0 (upsert_reservation env0 (Event_OrderID src) (nullableString w)
             (reservation_sku item) (reservation_quantity item) (Event_OccurredAt next))))
    (fun _ => ret (line_entry item w)).

Lemma line_run src next item s :
  let old := t_stock_reservations (conn_db s) !! (Event_OrderID src, reservation_sku item) in
  let n := Datatypes.S (conn_calls s) in
  reserve_line env0 src next item s
  = match old with
    | Some r =>
        if String.eqb (res_status r) "reserved" then
          if negb (res_quantity r =? reservation_quantity item)
          then (Err (Text ("reservation quantity mismatch for sku " +:+ reservation_sku item)),
                mkConn (conn_db s) n)
          else line_upsert src next item (default "" (res_warehouse_id r)) (mkConn (conn_db s) n)
        else match take_picked env (Event_MerchantID src) item (Event_OccurredAt next)
                     (best_pick (Event_MerchantID src) item (conn_db s)) (conn_db s) with
             | Ok (w, d) => line_upsert src next item w (mkConn d (Datatypes.S n))
             | Err e => (Err e, mkConn (conn_db s) (Datatypes.S n))
             end
    | None =>
        match take_picked env (Event_MerchantID src) item (Event_OccurredAt next)
                (best_pick (Event_MerchantID src) item (conn_db s)) (conn_db s) with
        | Ok (w, d) => line_upsert src next item w (mkConn d (Datatypes.S n))
        | Err e => (Err e, mkConn (conn_db s) (Datatypes.S n))
        end
    end.
Proof using Type.
  intros old n. unfold reserve_line, reserveInventoryItem. unfold bind at 1, bind at 1.
  unfold annotate at 1, query, call at 1. simpl. fold old n.
  pose proof (take_best (Event_MerchantID src) item (Event_OccurredAt next) (mkConn (conn_db s) n))
    as Htake. simpl in Htake.
  destruct old as [r|]; [destruct (String.eqb _ _); [by destruct (negb _)|]|];
    rewrite Htake; by destruct (take_picked _ _ _ _ _ _) as [[]|].
Qed.

(** The upsert of a line, and picks for the lines after it. *)
Lemma agrees_upsert {A} src next item w (K : any -> M Conn A) k' s :
  (forall s1, exists picks, agrees (conn_db s1) (k' picks) (K (line_entry item w) s1)) ->
  exists picks : list (option Z),
    agrees (conn_db s) (Exec unguarded (upsert_line src next item w) (fun _ => k' picks))
      (bind (line_upsert src next item w) K s).
Proof using Type.
  intros Hk. set (n := Datatypes.S (conn_calls s)).
  pose proof (performs_reservation env (Event_OrderID src) (nullableString w)
    (reservation_sku item) (reservation_quantity item) (Event_OccurredAt next) (conn_db s)) as Hp.
  unfold agrees, upsert_line, line_upsert, labelled, bind, annotate, call, ret. simpl.
  change (upsert_reservation env0) with (upsert_reservation env).
  destruct (stmt_upsert_reservation env _ _ _ _ _ _) as [[[[] ws] ls]|e]; rewrite Hp;
    [|by exists []].
  destruct (Hk (mkConn (apply_writes ws (conn_db s)) n)) as [picks Ha]. by exists picks.
Qed.

(** A line that takes new stock, and picks for the lines after it. *)
Lemma agrees_take {A} src next item (K : any -> M Conn A) k' s :
  (forall w s1, exists picks, agrees (conn_db s1) (k' w picks) (bind (line_upsert src next item w) K s1)) ->
  exists pick (picks : list (option Z)),
    agrees (conn_db s)
      (Exec unguarded (stmt_take_picked env (Event_MerchantID src) item (Event_OccurredAt next) pick)
         (fun w => k' w picks))
      (bind (fun s =>
         match take_picked env (Event_MerchantID src) item (Event_OccurredAt next)
                 (best_pick (Event_MerchantID src) item (conn_db s)) (conn_db s) with
         | Ok (w, d) => line_upsert src next item w (mkConn d (Datatypes.S (Datatypes.S (conn_calls s))))
         | Err e => (Err e, mkConn (conn_db s) (Datatypes.S (Datatypes.S (conn_calls s))))
         end) K s).
Proof using Type.
  intros Hk. exists (best_pick (Event_MerchantID src) item (conn_db s)). unfold bind at 1.
  pose proof (performs_take env (Event_MerchantID src) item (Event_OccurredAt next)
    (best_pick (Event_MerchantID src) item (conn_db s)) (conn_db s)) as Hp.
  destruct (stmt_take_picked env _ item _ _ (conn_db s)) as [[[w ws] ls']|e] eqn:Est; rewrite Hp.
  - destruct (Hk w (mkConn (apply_writes ws (conn_db s))
                      (Datatypes.S (Datatypes.S (conn_calls s))))) as [picks Ha].
    exists picks. eapply agrees_do; [done|exact Est|exact Ha].
  - exists []. by eapply agrees_err.
Qed.

Lemma agrees_lines {A} src next items (K : list any -> M Conn A) k' s :
  (forall lines s1, agrees (conn_db s1) (k' lines) (K lines s1)) ->
  exists picks,
    agrees (conn_db s) (reserve_lines env src next items picks k')
      (bind (for_collect (reserve_line env0 src next) items) K s).
Proof using Type.
  revert s K k'. induction items as [|item items IH]; intros s K k' Hk; [exists []; apply Hk|].
  set (rest b := bind (for_collect (reserve_line env0 src next) items)
                   (fun bs => bind (ret (b :: bs)) K)).
  set (prog w picks := Exec unguarded (upsert_line src next item w) (fun _ =>
         reserve_lines env src next items picks (fun lines => k' (line_entry item w :: lines)))).
  assert (forall w s1, exists picks,
            agrees (conn_db s1) (prog w picks) (bind (line_upsert src next item w) rest s1)) as Htail.
  { intros w s1. apply (agrees_upsert src next item w rest (fun picks =>
      reserve_lines env src next items picks (fun lines => k' (line_entry item w :: lines)))).
    intros s2. apply IH. intros lines s3. apply Hk. }
  assert (forall picks, agrees (conn_db s) (reserve_lines env src next (item :: items) picks k')
            (bind (reserve_line env0 src next item) rest s) ->
          exists picks, agrees (conn_db s) (reserve_lines env src next (item :: items) picks k')
            (bind (for_collect (reserve_line env0 src next) (item :: items)) K s)) as Hgo.
  { intros picks Ha. exists picks. cbn [for_collect]. apply agrees_assoc.
    unfold bind at 1. unfold bind at 1 in Ha. destruct (reserve_line env0 src next item s) as [[b|e] s1];
      [|done]. by apply agrees_assoc. }
  destruct (agrees_take src next item rest prog s Htail) as (pick & picks & Ht).
  unfold bind at 1 in Ht. pose proof (line_run src next item s) as Hrun. cbv zeta in Hrun.
  destruct (t_stock_reservations (conn_db s) !! _) as [r|] eqn:Eold; cycle 1.
  { apply (Hgo (pick :: picks)). eapply agrees_do; [done|..].
    - unfold select_reservation, reading, writing. by rewrite Eold.
    - simpl. unfold bind at 1. rewrite Hrun. exact Ht. }
  destruct (String.eqb (res_status r) "reserved") eqn:Er; cycle 1.
  { apply (Hgo (pick :: picks)). eapply agrees_do; [done|..].
    - unfold select_reservation, reading, writing. by rewrite Eold.
    - simpl. rewrite Er. unfold bind at 1. rewrite Hrun. exact Ht. }
  destruct (Htail (default "" (res_warehouse_id r))
              (mkConn (conn_db s) (Datatypes.S (conn_calls s)))) as [picks' Ha].
  apply (Hgo (None :: picks')). eapply agrees_do; [done|..].
  - unfold select_reservation, reading, writing. by rewrite Eold.
  - simpl. rewrite Er. unfold bind at 1. rewrite Hrun. by destruct (negb _).
Qed.

End Agreement.

(** ** Operations *)

Section Operations.
Variable env : PgEnv.
Notation env0 := (without_faults env).

(** A transaction that runs alone: what was read unlocked was right, and the
    program ends as the operation does. *)
Definition runs_alone (t : Txn) (c : Conn) : Prop :=
  let out := pg_run env0 (txn_op t) c in
  guards_hold (program env t) (conn_db c) = true /\
  match serial (program env t) (conn_db c) with
  | Ok db' => conn_db (snd out) = db' /\ (transactional (txn_op t) = true -> fst out = Ok tt)
  | Err e => fst out = Err e /\ conn_db (snd out) = conn_db c
  end.

Lemma alone_at {A} t label (body : M Conn (string * A)) c :
  transactional (txn_op t) = true ->
  (forall s, pg_run env0 (txn_op t) s = discard (transaction env0 label body) s) ->
  agrees (conn_db c) (program env t) (body (mkConn (conn_db c) (Datatypes.S (conn_calls c)))) ->
  runs_alone t c.
Proof using Type.
  intros Ht Hrun [Hg Hs]. unfold runs_alone. rewrite Hrun. unfold discard, bind, transaction. simpl.
  split; [done|].
  destruct (serial (program env t) (conn_db c)) as [db'|e], (body _) as [[[l a]|e'] s'];
    simpl in *; by subst.
Qed.

Lemma alone_transaction {A} t label (body : M Conn (string * A)) c :
  transactional (txn_op t) = true ->
  (forall s, pg_run env0 (txn_op t) s = discard (transaction env0 label body) s) ->
  (forall s, conn_db s = conn_db c -> agrees (conn_db s) (program env t) (body s)) ->
  runs_alone t c.
Proof using Type.
  intros Ht Hrun Ha. eapply alone_at; [done..|].
  by apply (Ha (mkConn (conn_db c) (Datatypes.S (conn_calls c)))).
Qed.

(** Follow the two programs. *)
Ltac agree_step :=
  first
    [ apply agrees_ret | apply agrees_lock; intros ? | apply agrees_checked; intros ?
    | apply agrees_update; [first [apply identity_status|apply identity_touch|by intros []]|intros ? ?]
    | apply agrees_outbox; intros ? | apply agrees_audit; intros ?
    | apply agrees_get; [done|intros ? ?] | apply agrees_release; intros ?
    | apply agrees_void; intros ? | apply agrees_effects; intros ?
    | apply agrees_call; [|done|intros ? ?] ].

Lemma alone_update id st now ev au c : runs_alone (TUpdate id st now ev au) c.
Proof using Type. eapply alone_transaction; [done..|]. intros s _. simpl. repeat agree_step. Qed.

Lemma alone_unit_at t label (body : M Conn (string * unit)) c :
  transactional (txn_op t) = true ->
  (forall s, pg_run env0 (txn_op t) s = transaction env0 label body s) ->
  agrees (conn_db c) (program env t) (body (mkConn (conn_db c) (Datatypes.S (conn_calls c)))) ->
  runs_alone t c.
Proof using Type.
  intros Ht Hrun. apply (alone_at _ label); [done|]. intros s. rewrite Hrun.
  unfold discard, bind, ret. by destruct (transaction env0 label body s) as [[[]|]].
Qed.

Lemma alone_unit t label (body : M Conn (string * unit)) c :
  transactional (txn_op t) = true ->
  (forall s, pg_run env0 (txn_op t) s = transaction env0 label body s) ->
  (forall s, conn_db s = conn_db c -> agrees (conn_db s) (program env t) (body s)) ->
  runs_alone t c.
Proof using Type.
  intros Ht Hrun Ha. eapply alone_unit_at; [done..|].
  by apply (Ha (mkConn (conn_db c) (Datatypes.S (conn_calls c)))).
Qed.

Lemma alone_rejected src next au c : runs_alone (TRejected src next au) c.
Proof using Type.
  eapply alone_unit; [done..|]. intros s _. simpl. repeat agree_step. exact (performs_items _ _).
Qed.

Lemma alone_shipment_failed src next au c : runs_alone (TShipmentFailed src next au) c.
Proof using Type. eapply alone_unit; [done..|]. intros s _. simpl. repeat agree_step. Qed.

Lemma alone_cancelled src next au c : runs_alone (TCancelled src next au) c.
Proof using Type. eapply alone_unit; [done..|]. intros s _. simpl. repeat agree_step. Qed.

Lemma alone_audited au c : runs_alone (TAudited au) c.
Proof using Type. eapply alone_unit; [done..|]. intros s _. simpl. repeat agree_step. Qed.

Lemma alone_notified src au c : runs_alone (TNotified src au) c.
Proof using Type.
  eapply alone_unit; [done..|]. intros s _. simpl. repeat agree_step.
  exact (performs_notification env _ _).
Qed.

Lemma alone_compensated src st au c : runs_alone (TCompensated src st au) c.
Proof using Type.
  eapply alone_unit; [done..|]. intros s _. simpl. repeat agree_step.
  exact (performs_compensation env _ _ _).
Qed.

Lemma alone_shipped src next sh au c : runs_alone (TShipped src next sh au) c.
Proof using Type.
  eapply alone_unit; [done..|]. intros s _. simpl. repeat agree_step.
  exact (performs_shipment env _ _).
Qed.

Lemma agrees_select {A} label id g (k : OrderRow -> M Conn A) k' s :
  g (conn_db s) = true -> (forall r s', agrees (conn_db s') (k' r) (k r s')) ->
  agrees (conn_db s) (Exec g (select_order id) k')
    (bind (annotate label (query env0 (fun db => t_orders db !! id)))
       (fun row => match row with None => throw ErrNotFound | Some r => k r end) s).
Proof using Type.
  intros Hg Hk. unfold agrees, select_order, reading, writing, bind, annotate, query, call. simpl.
  rewrite Hg. destruct (t_orders (conn_db s) !! id) as [r|]; [|done].
  apply (Hk r (mkConn (conn_db s) _)).
Qed.

Lemma alone_authorized src next p au c : runs_alone (TAuthorized src next p au) c.
Proof using Type.
  eapply alone_unit; [done..|]. intros s _. simpl. apply agrees_lock. intros s1.
  apply agrees_select; [done|]. intros r s2. repeat agree_step.
  exact (performs_authorization env _ _).
Qed.

(** The provider read, when nothing interferes. *)
Definition provider_now (id : string) (db : Database) : string :=
  match t_orders db !! id with Some r => payment_provider_of "" r | None => "" end.

Lemma alone_payment_failed src next au c :
  runs_alone (TPaymentFailed (provider_now (Event_OrderID src) (conn_db c)) src next au) c.
Proof using Type.
  eapply alone_unit; [done..|]. intros s Es. unfold provider_now. rewrite <- Es. simpl.
  unfold payment_failed_prog. cbv zeta.
  destruct (t_orders (conn_db s) !! Event_OrderID src) as [r|] eqn:Er.
  - eapply (agrees_do _ _ _ _ tt []); [by rewrite Er, String.eqb_refl|
      unfold require_order, reading, writing; by rewrite Er|].
    unfold bind at 1, annotate at 1, query, call at 1. simpl. rewrite Er.
    set (s1 := mkConn (conn_db s) _). change (conn_db s) with (conn_db s1). repeat agree_step.
  - eapply agrees_err; [by rewrite Er|unfold require_order, reading, writing; by rewrite Er|].
    unfold bind at 1, annotate at 1, query, call at 1. simpl. by rewrite Er.
Qed.

Lemma alone_insert m k o ev au c :
  runs_alone (TInsert (t_idempotency_keys (conn_db c) !! (m, k)) m k o ev au) c.
Proof using Type.
  eapply alone_transaction; [done..|]. intros s Es. rewrite <- Es. cbn [program]. unfold insert_prog.
  eapply (agrees_do _ _ _ _ tt []); [by apply bool_decide_eq_true|done|].
  unfold bind at 1, orderByIdempotency, annotate at 1, query, call at 1. simpl.
  set (s1 := mkConn (conn_db s) _). change (conn_db s) with (conn_db s1).
  destruct (t_idempotency_keys (conn_db s1) !! (m, k)) as [id|]; [repeat agree_step|].
  unfold upsertMerchant, exec. apply agrees_call; [exact (performs_merchant m)|done|]. intros _ s2.
  apply agrees_insert_order; [done|]. intros s3. apply agrees_items. intros s4.
  apply agrees_call; [exact (performs_insert_key env _ _ _)|done|]. intros _ s5. repeat agree_step.
Qed.

(** The same steps when picks for later lines are still to be found. *)
Lemma agrees_lock_picks {A} id st (k : unit -> M Conn A) (p : list (option Z) -> Prog) s :
  (forall s', exists picks, agrees (conn_db s') (p picks) (k tt s')) ->
  exists picks, agrees (conn_db s) (lock_prog id st (p picks)) (bind (lock_and_validate env0 id st) k s).
Proof using Type.
  intros Hk. set (s1 := mkConn (conn_db s) (Datatypes.S (conn_calls s))).
  destruct (Hk s1) as [picks Ha]. exists picks. unfold agrees, lock_prog, select_order_for_update,
    reading, writing, lock_and_validate, lockOrderStatusForUpdate, bind, annotate, query, call in *.
  simpl in *. destruct (t_orders (conn_db s) !! id) as [r|]; simpl; [|done].
  unfold require. by destruct (ValidateOrderTransition _ _).
Qed.

Lemma agrees_items_picks {A} id (k : list reservationItem -> M Conn A)
    (p : list (option Z) -> list reservationItem -> Prog) s :
  (forall items s', exists picks, agrees (conn_db s') (p picks items) (k items s')) ->
  exists picks, agrees (conn_db s) (Exec unguarded (select_items id) (p picks))
                  (bind (orderItemsForReservation env0 id) k s).
Proof using Type.
  intros Hk. set (s1 := mkConn (conn_db s) (Datatypes.S (Datatypes.S (conn_calls s)))).
  destruct (Hk (map (fun r => mkReservationItem (item_sku r) (item_quantity r))
                  (items_of id (conn_db s))) s1) as [picks Ha].
  exists picks. unfold agrees, select_items, orderItemsForReservation, reading, writing, bind,
    annotate, query, iterate, call in *. simpl in *.
  by destruct (map _ (items_of id (conn_db s))) as [|i items].
Qed.

Lemma alone_reserved src next au c : exists picks, runs_alone (TReserved picks src next au) c.
Proof using Type.
  lazymatch eval unfold PgStore_RecordInventoryReserved in
    (PgStore_RecordInventoryReserved env0 src next au) with
  | transaction _ _ ?body =>
      assert (forall s, exists picks, agrees (conn_db s) (reserved_prog env picks src next au) (body s))
        as Hbody
  end.
  2: { destruct (Hbody (mkConn (conn_db c) (Datatypes.S (conn_calls c)))) as [picks Ha].
       exists picks. eapply alone_unit_at; [done..|exact Ha]. }
  intros s. apply (agrees_lock_picks _ _ _ (fun picks => Exec unguarded _ (fun items => _))). clear s.
  intros s. apply (agrees_items_picks _ _ (fun picks items => reserve_lines env src next items picks _)).
  clear s. intros items s. apply agrees_lines.
  intros lines s1. unfold exec. apply agrees_call; [exact (performs_items _ _)|done|]. intros _ s2.
  repeat agree_step.
Qed.

(** *** Outside transactions *)

(** The events a claim picks when no row is locked. *)
Definition picks_now (limit : Z) (c : Conn) : list string :=
  map out_message_id (picked_rows env (claim_limit limit) (claim_time env c) (conn_db c)).

Lemma picks_valid `{!PgOrdering env} limit c :
  claim_valid limit (claim_time env c) (picks_now limit c) (conn_db c) = true.
Proof using Type.
  unfold claim_valid, picks_now. rewrite length_map. fold (claim_limit limit).
  apply andb_true_iff. split.
  - apply Z.leb_le. unfold picked_rows. rewrite length_take.
    assert (0 <= claim_limit limit) by (unfold claim_limit; destruct (limit <=? 0) eqn:E; lia). lia.
  - apply forallb_forall. intros id Hid.
    apply list_elem_of_In, list_elem_of_fmap in Hid as (r & -> & Hr).
    destruct (picked_claimable env _ _ _ _ Hr) as [Hin Hcl]. apply existsb_exists. exists r. split; [|done].
    apply list_elem_of_In, list_elem_of_filter. done.
Qed.

Lemma claim_effect limit c :
  conn_db (snd (pg_run env0 (PgClaim limit) c))
  = apply_write (WClaim (picks_now limit c) (claim_time env c)) (conn_db c).
Proof using Type.
  assert (set_outbox_events
    (map (fun r => if is_picked env0 (claim_limit limit) (claim_time env c) (conn_db c) r
                   then set_claim (claim_time env c) r else r) (t_outbox_events (conn_db c)))
    (conn_db c) = apply_write (WClaim (picks_now limit c) (claim_time env c)) (conn_db c)) as <-.
  { simpl. f_equal. apply map_ext. intros r. unfold is_picked, picks_now.
    change (picked_rows env0) with (picked_rows env).
    induction (picked_rows env _ _ _) as [|p ps IH]; [done|]. simpl.
    rewrite String.eqb_sym. by destruct (String.eqb (out_message_id r) _). }
  unfold pg_run, discard, PgStore_PendingOutboxEvents, bind, annotate, iterate, query, call.
  simpl. unfold claim_limit, claim_time. by destruct (scan_events _ _).
Qed.

Lemma alone_claim `{!PgOrdering env} limit c :
  runs_alone (TClaim (claim_time env c) (picks_now limit c) limit) c.
Proof using Type.
  pose proof (claim_effect limit c) as He. unfold runs_alone. cbn [program guards_hold serial txn_op].
  unfold stmt_claim, writing. by rewrite picks_valid, He.
Qed.

Lemma unmarked id at_ rows :
  filter (fun r => String.eqb (out_message_id r) id && row_pending r = true) rows = [] ->
  map (mark_row id at_) rows = rows.
Proof using Type.
  induction rows as [|r rows IH]; [done|]. rewrite filter_cons. case_decide as Hd; [done|].
  intros H. simpl. rewrite IH by done. f_equal. unfold mark_row.
  by destruct (String.eqb _ _ && _).
Qed.

Lemma alone_published id at_ c : runs_alone (TPublished id at_) c.
Proof using Type.
  unfold runs_alone. simpl. unfold stmt_publish, writing, PgStore_MarkOutboxPublished, mark_published,
    bind, annotate, call. simpl.
  destruct (Z.of_nat (length _) =? 0) eqn:En; simpl; [|done]. split; [done|]. split; [done|].
  rewrite unmarked; [by destruct (conn_db c)|]. apply Z.eqb_eq in En.
  destruct (filter _ _); [done|]. simpl in En. lia.
Qed.

Lemma recorded_spec consumer ev db :
  recorded consumer ev db
  = match t_inbox_messages db !! (consumer, Event_MessageID ev) with Some _ => true | None => false end.
Proof using Type. unfold recorded. by destruct (_ !! _). Qed.

Lemma alone_received consumer ev c :
  runs_alone (TReceived (negb (recorded consumer ev (conn_db c))) consumer ev) c.
Proof using Type.
  unfold runs_alone. simpl.
  unfold discard, PgStore_RecordInboxMessage, insert_inbox_row, bind, annotate, call. simpl.
  rewrite recorded_spec. destruct (t_inbox_messages (conn_db c) !! _) as [x|] eqn:Ex; [done|].
  simpl. unfold writing, insert_inbox_row. by rewrite Ex.
Qed.

Lemma alone_released consumer ev c :
  runs_alone (TReleased (recorded consumer ev (conn_db c)) consumer ev) c.
Proof using Type.
  unfold runs_alone. simpl. unfold PgStore_ReleaseInboxMessage, exec, annotate, call. simpl.
  rewrite recorded_spec. destruct (t_inbox_messages (conn_db c) !! _) as [x|] eqn:Ex; [done|].
  simpl. split; [done|]. rewrite delete_id by done. by destruct (conn_db c).
Qed.

(** Run alone, a transaction program is the store's operation: for every
    operation and every database there are values for what it reads without a
    lock, right when they are read, with which the program has the effect of the
    operation, or its error. *)
Lemma operation_has_program `{!PgOrdering env} op c :
  exists t, txn_op t = op /\ runs_alone t c.
Proof using Type.
  destruct op.
  - eexists. split; [|apply alone_insert]. done.
  - eexists. split; [|apply alone_update]. done.
  - destruct (alone_reserved src next au c) as [picks H]. by exists (TReserved picks src next au).
  - eexists. split; [|apply alone_rejected]. done.
  - eexists. split; [|apply alone_authorized]. done.
  - eexists. split; [|apply alone_payment_failed]. done.
  - eexists. split; [|apply alone_shipped]. done.
  - eexists. split; [|apply alone_shipment_failed]. done.
  - eexists. split; [|apply alone_cancelled]. done.
  - eexists. split; [|apply alone_notified]. done.
  - eexists. split; [|apply alone_compensated]. done.
  - eexists. split; [|apply alone_audited]. done.
  - eexists. split; [|apply alone_claim]. done.
  - eexists. split; [|apply alone_published]. done.
  - eexists. split; [|apply alone_received]. done.
  - eexists. split; [|apply alone_released]. done.
Qed.

End Operations.
