(* ===== verification/Concurrency.v ===== *)
(** What holds whatever transactions of the store run at the same time: every
    commit is one operation of the store, up to what the code reads without a
    lock; with it the life cycle of orders, the stock ledger and the binding of
    idempotency keys. *)
From S2P Require Import Prelude GoStrings GoTime Model StateMachine MemoryStore MemoryInvariant.
From S2P Require Import Database PgStore PgAtomic PgStock PgOrders PgOutbox PgReplay.
From S2P Require Import Transactions Interleaving Discipline SerialRuns.

(** ** Serial runs, statement by statement *)

Lemma serial_exec {X} g (s : Stmt X) k db db' :
  serial (Exec g s k) db = Ok db' ->
  exists x ws ls, s db = Ok (x, ws, ls) /\ serial (k x) (apply_writes ws db) = Ok db'.
Proof. simpl. destruct (s db) as [[[x ws] ls]|]; naive_solver. Qed.

Lemma serial_labelled {X} g label (s : Stmt X) k db db' :
  serial (Exec g (labelled label s) k) db = Ok db' ->
  exists x ws ls, s db = Ok (x, ws, ls) /\ serial (k x) (apply_writes ws db) = Ok db'.
Proof. intros (x & ws & ls & H%labelled_ok & Hk)%serial_exec. eauto. Qed.

Lemma performs_ok {X} (f : Database -> result (X * Database)) s db x ws ls :
  performs f s -> s db = Ok (x, ws, ls) -> f db = Ok (x, apply_writes ws db).
Proof. intros Hp Hs. specialize (Hp db). by rewrite Hs in Hp. Qed.

Section Steps.
Variable env : PgEnv.

Lemma serial_outbox ev k db db' :
  serial (outbox_prog env ev k) db = Ok db' ->
  exists row, outbox_step env db (apply_write (WOutbox row) db)
              /\ serial k (apply_write (WOutbox row) db) = Ok db'.
Proof using Type.
  unfold outbox_prog. destruct (pg_marshal env _) as [p|] eqn:Em; [|done].
  intros (x & ws & ls & H & Hk)%serial_labelled. unfold stmt_insert_outbox in H.
  apply writing_ok in H as (-> & _ & d & H).
  pose proof (outbox_added env _ _ _ _ _ Em H) as Hadd. unfold insert_outbox_row in H.
  destruct (pg_jsonb env p) as [p'|]; [|done]. exists (outbox_row (WithEnvelopeDefaults ev) p').
  split; [|done]. destruct (existsb _ _); [done|]. destruct (t_orders db !! _); [|done].
  by injection H as _ <-.
Qed.

Lemma serial_audit au k db db' :
  serial (audit_prog env au k) db = Ok db' ->
  exists row, serial k (apply_write (WAudit row) db) = Ok db'.
Proof using Type.
  unfold audit_prog. destruct (pg_marshal_details env _); [|done].
  intros (x & ws & ls & H & Hk)%serial_labelled. unfold stmt_insert_audit in H.
  apply writing_ok in H as (-> & _ & d & H). unfold insert_audit_row in H.
  destruct (pg_jsonb env _); [|done]. eauto.
Qed.

Lemma serial_update label id f k db db' :
  keeps_identity f -> serial (update_prog env label id f k) db = Ok db' ->
  exists n d, update_order env id f db = Ok (n, d) /\ serial k d = Ok db'.
Proof using Type.
  intros Hf (n & ws & ls & H & Hk)%serial_labelled. eapply performs_ok in H; [|by apply performs_update].
  eauto.
Qed.

Lemma serial_lock id st k db db' :
  serial (lock_prog id st k) db = Ok db' ->
  (exists r, t_orders db !! id = Some r /\ ValidateOrderTransition (orders_status r) st = None)
  /\ serial k db = Ok db'.
Proof using Type.
  intros (r & ws & ls & H & Hk)%serial_exec. unfold select_order_for_update in H.
  apply reading_ok in H as (-> & _ & H). destruct (t_orders db !! id) as [r'|]; [|done].
  injection H as <-. destruct (ValidateOrderTransition _ _) eqn:E; [done|]. eauto.
Qed.

(** ** Stock taken by lines *)

Lemma take_picked_inv m item at_ pick db w d :
  take_picked env m item at_ pick db = Ok (w, d) ->
  exists id row, t_inventory_items db !! id = Some row
    /\ inv_sku row = reservation_sku item /\ w = inv_warehouse_id row
    /\ reservation_quantity item <= inv_available_quantity row
    /\ d = set_inventory_items
             (<[id := take_stock (reservation_quantity item) at_ row]> (t_inventory_items db)) db.
Proof using Type.
  unfold take_picked, qualifies. destruct pick as [id|]; [|done].
  destruct (t_inventory_items db !! id) as [row|] eqn:Er; [|done].
  destruct (candidate _ _ _ _ _) eqn:Ec; [|done]. cbv zeta.
  destruct (negb _); [done|]. destruct (_ <? 0); [done|]. intros [= <- <-].
  unfold candidate in Ec. destruct (t_warehouses db !! _); [|done]. string_tests.
  exists id, row. split_and!; try done. lia.
Qed.

(** The two statements of one line: the reservation is found or stock is taken,
    then the reservation is written. *)
Lemma serial_line src next item pick k db db' :
  serial (reserve_prog env (Event_MerchantID src) (Event_OrderID src) item (Event_OccurredAt next)
            pick (fun w => Exec unguarded (upsert_line env src next item w) (fun _ => k w))) db
  = Ok db' ->
  exists w d1 d2,
    ((exists r, t_stock_reservations db !! (Event_OrderID src, reservation_sku item) = Some r
        /\ res_status r = "reserved" /\ res_quantity r = reservation_quantity item
        /\ w = default "" (res_warehouse_id r) /\ d1 = db)
     \/ ((forall r, t_stock_reservations db !! (Event_OrderID src, reservation_sku item) = Some r ->
            res_status r <> "reserved")
         /\ take_picked env (Event_MerchantID src) item (Event_OccurredAt next) pick db = Ok (w, d1)))
    /\ upsert_reservation env (Event_OrderID src) (nullableString w) (reservation_sku item)
         (reservation_quantity item) (Event_OccurredAt next) d1 = Ok (tt, d2)
    /\ serial (k w) d2 = Ok db'.
Proof using Type.
  assert (forall w d1, serial (Exec unguarded (upsert_line env src next item w) (fun _ => k w)) d1
            = Ok db' -> exists d2,
            upsert_reservation env (Event_OrderID src) (nullableString w) (reservation_sku item)
              (reservation_quantity item) (Event_OccurredAt next) d1 = Ok (tt, d2)
            /\ serial (k w) d2 = Ok db') as Hup.
  { intros w d1 ([] & ws & ls & H & Hk)%serial_labelled.
    eapply performs_ok in H; [|by apply performs_reservation]. eauto. }
  unfold reserve_prog. cbv zeta. intros (old & ws & ls & H & Hk)%serial_exec.
  unfold select_reservation in H. apply reading_ok in H as (-> & _ & [= <-]).
  change (apply_writes [] db) with db in Hk.
  assert (serial (Exec unguarded (stmt_take_picked env (Event_MerchantID src) item
            (Event_OccurredAt next) pick)
            (fun w => Exec unguarded (upsert_line env src next item w) (fun _ => k w))) db = Ok db' ->
          exists w d1 d2,
            take_picked env (Event_MerchantID src) item (Event_OccurredAt next) pick db = Ok (w, d1)
            /\ upsert_reservation env (Event_OrderID src) (nullableString w) (reservation_sku item)
                 (reservation_quantity item) (Event_OccurredAt next) d1 = Ok (tt, d2)
            /\ serial (k w) d2 = Ok db') as Htake.
  { intros (w & ws & ls' & H & Hk')%serial_exec. eapply performs_ok in H; [|by apply performs_take].
    destruct (Hup _ _ Hk') as (d2 & ? & ?). eauto 10. }
  destruct (t_stock_reservations db !! _) as [r|] eqn:Er.
  - destruct (String.eqb (res_status r) "reserved") eqn:Est.
    + destruct (negb _) eqn:Eq; [done|]. apply String.eqb_eq in Est.
      destruct (Hup _ _ Hk) as (d2 & ? & ?). exists (default "" (res_warehouse_id r)), db, d2.
      split; [|done]. left. exists r. split_and!; try done. lia.
    + apply String.eqb_neq in Est. destruct (Htake Hk) as (w & d1 & d2 & ? & ? & ?).
      exists w, d1, d2. split; [|done]. right. split; [|done]. intros r' [= <-]. done.
  - destruct (Htake Hk) as (w & d1 & d2 & ? & ? & ?). exists w, d1, d2. split; [|done].
    right. by split.
Qed.

End Steps.

(** ** What every transaction keeps *)

(** Orders follow their life cycle, stock stays balanced, keys stay bound, and
    leases of events run on. *)
Record books_step (env : PgEnv) (db db' : Database) : Prop := {
  bs_orders : orders_step db db';
  bs_stock : stock_step db db';
  bs_keys : keys_grow db db';
  bs_outbox : outbox_steps env db db'
}.

#[export] Instance books_step_preorder env : PreOrder (books_step env).
Proof. split; [by intros db; split|]. intros a b c [] []. by split; etrans. Qed.

(** A change of other tables. *)
Lemma books_frame env db db' :
  t_orders db' = t_orders db -> t_inventory_items db' = t_inventory_items db ->
  t_stock_reservations db' = t_stock_reservations db ->
  t_idempotency_keys db' = t_idempotency_keys db ->
  t_outbox_events db' = t_outbox_events db -> books_step env db db'.
Proof.
  intros. split; [by apply same_orders_step|by apply stock_frame|by apply same_keys_grow|].
  by apply outbox_step_once, outbox_same.
Qed.

(** A change of the outbox. *)
Lemma books_outbox env db db' :
  t_orders db' = t_orders db -> t_inventory_items db' = t_inventory_items db ->
  t_stock_reservations db' = t_stock_reservations db ->
  t_idempotency_keys db' = t_idempotency_keys db ->
  outbox_steps env db db' -> books_step env db db'.
Proof.
  intros. split; [by apply same_orders_step|by apply stock_frame|by apply same_keys_grow|done].
Qed.

Section Kept.
Variable env : PgEnv.
Notation env0 := (without_faults env).

(** A program that ends as an operation of the store ends. *)
Lemma books_alone t c db' :
  runs_alone env t c -> transactional (txn_op t) = true ->
  serial (program env t) (conn_db c) = Ok db' -> books_step env (conn_db c) db'.
Proof using Type.
  intros [_ H] Ht Hs. rewrite Hs in H. destruct H as [<- Hok]. specialize (Hok Ht).
  split; [apply orders_run|apply stock_run|apply keys_run|].
  destruct (pg_run env0 (txn_op t) c) as [r c'] eqn:E. simpl in Hok. subst r.
  exact (outbox_transaction env (txn_op t) Ht _ _ _ E).
Qed.

Lemma books_line src next item pick k db db' :
  serial (reserve_prog env (Event_MerchantID src) (Event_OrderID src) item (Event_OccurredAt next)
            pick (fun w => Exec unguarded (upsert_line env src next item w) (fun _ => k w))) db
  = Ok db' ->
  exists w d, books_step env db d /\ t_orders d = t_orders db /\ serial (k w) d = Ok db'.
Proof using Type.
  intros (w & d1 & d2 & Hd1 & Hup & Hk)%serial_line. exists w, d2.
  assert (t_orders d2 = t_orders db /\ t_idempotency_keys d2 = t_idempotency_keys db
          /\ t_outbox_events d2 = t_outbox_events db) as (Eo & Ek & Ex).
  { assert (t_orders d2 = t_orders d1 /\ t_idempotency_keys d2 = t_idempotency_keys d1
            /\ t_outbox_events d2 = t_outbox_events d1) as (-> & -> & ->).
    { unfold upsert_reservation in Hup. repeat case_match; by simplify_eq. }
    destruct Hd1 as [(r & _ & _ & _ & _ & ->)|[_ (id & row & _ & _ & _ & _ & ->)%take_picked_inv]];
      done. }
  split; [|done].
  split; [by apply same_orders_step| |by apply same_keys_grow|by apply outbox_step_once, outbox_same].
  intros Hok.
  destruct Hd1 as [(r & Hr & Hst & Hq & -> & ->)|[Hidle (id & row & Hid & Hsku & -> & Hq & ->)%take_picked_inv]].
  - destruct (so_located _ Hok _ _ Hr Hst) as (id & row & Hrow & Hw & _).
    rewrite Hw in Hup. simpl in Hup. rewrite nullable_named in Hup by (by eapply so_named).
    apply upsert_reservation_ok in Hup as [_ ->]. rewrite <- Hq, <- Hw.
    by apply (stock_rereserve _ _ _ r).
  - rewrite nullable_named in Hup by (by eapply so_named).
    apply upsert_reservation_ok in Hup as [Hpos ->]. rewrite <- Hsku in *.
    by apply (stock_reserve _ id).
Qed.

Lemma books_lines src next items picks k db db' :
  serial (reserve_lines env src next items picks k) db = Ok db' ->
  exists lines d, books_step env db d /\ t_orders d = t_orders db /\ serial (k lines) d = Ok db'.
Proof using Type.
  revert picks k db. induction items as [|item items IH]; intros picks k db H.
  - exists [], db. done.
  - apply (books_line src next item (default None (head picks)) (fun w =>
      reserve_lines env src next items (tail picks) (fun lines => k (line_entry item w :: lines))))
      in H as (w & d & Hd & Eo & H).
    apply IH in H as (lines & d' & Hd' & Eo' & H). exists (line_entry item w :: lines), d'.
    split; [by etrans|]. split; [congruence|done].
Qed.

(** An update of the order row, after which nothing touches the books. *)
Lemma books_finish label id f ev au db db' :
  keeps_identity f ->
  (forall r, t_orders db !! id = Some r -> row_evolves r (f r)) ->
  serial (update_prog env label id f (outbox_prog env ev (audit_prog env au Done))) db = Ok db' ->
  books_step env db db'.
Proof using Type.
  intros Hf Hev (n & d & Hu & Hk)%serial_update; [|done].
  apply serial_outbox in Hk as (row & Hadd & Hk). apply serial_audit in Hk as (row' & Hk).
  injection Hk as <-. transitivity d.
  - assert (t_inventory_items d = t_inventory_items db
            /\ t_stock_reservations d = t_stock_reservations db
            /\ t_idempotency_keys d = t_idempotency_keys db
            /\ t_outbox_events d = t_outbox_events db) as (Ei & Er & Ek & Ex)
      by (unfold update_order in Hu; repeat case_match; by simplify_eq).
    split; [by eapply update_order_step|by apply stock_frame|by apply same_keys_grow|].
    by apply outbox_step_once, outbox_same.
  - transitivity (apply_write (WOutbox row) d); [|by apply books_frame].
    apply books_outbox; [done..|]. by apply outbox_step_once.
Qed.

Lemma books_reserved picks src next au db db' :
  serial (reserved_prog env picks src next au) db = Ok db' -> books_step env db db'.
Proof using Type.
  intros [(r & Hr & Hv) H]%serial_lock. apply serial_exec in H as (items & ws & ls & H & Hk).
  unfold select_items in H. apply reading_ok in H as (-> & _ & _).
  apply books_lines in Hk as (lines & d & Hd & Eo & Hk).
  apply serial_labelled in Hk as (u & ws & ls' & H & Hk). unfold stmt_update_items in H.
  apply writing_ok in H as (-> & _ & _). transitivity d; [done|].
  transitivity (apply_write (WSetItems (Event_OrderID src) "reserved" None) d);
    [by apply books_frame|].
  eapply books_finish; [apply identity_status| |exact Hk]. intros r' Hr'. simpl in Hr'.
  change (apply_writes [] db) with db in Eo. rewrite Eo, Hr in Hr'. injection Hr' as <-.
  split; simpl; [done|by apply allowed_moves|lia].
Qed.

Lemma books_payment_failed provider src next au db db' :
  serial (payment_failed_prog env provider src next au) db = Ok db' -> books_step env db db'.
Proof using Type.
  intros (u & ws & ls & H & Hk)%serial_exec. unfold require_order in H.
  apply reading_ok in H as (-> & _ & _). eapply books_finish; [| |exact Hk].
  - by intros [].
  - intros r _. split; simpl; [done|done|lia].
Qed.

(** The insert of a key succeeds only where the key is not bound. *)
Lemma serial_items id items k db db' :
  serial (items_prog env id items k) db = Ok db' ->
  exists d, t_idempotency_keys d = t_idempotency_keys db /\ serial k d = Ok db'.
Proof using Type.
  revert db. induction items as [|item items IH]; intros db H; [by exists db|].
  apply serial_labelled in H as (u & ws & ls & H & Hk). unfold stmt_insert_item in H.
  apply writing_ok in H as (-> & _ & _). apply IH in Hk as (d & Ed & Hk). exists d.
  split; [|done]. rewrite Ed. by destruct (char3 _).
Qed.

Lemma insert_binds m key o ev au db db' :
  serial (insert_prog env None m key o ev au) db = Ok db' ->
  t_idempotency_keys db !! (m, key) = None
  /\ t_idempotency_keys db' !! (m, key) = Some (Order_OrderID o).
Proof using Type.
  intros (u & ws & ls & H & Hk)%serial_exec. apply reading_ok in H as (-> & _ & _).
  change (apply_writes [] db) with db in Hk.
  apply serial_labelled in Hk as (u1 & ws & ls1 & H & Hk). unfold stmt_upsert_merchant in H.
  apply writing_ok in H as (-> & _ & _). apply serial_exec in Hk as (u2 & ws & ls2 & H & Hk).
  unfold stmt_insert_order in H. apply writing_ok in H as (-> & _ & _).
  apply serial_items in Hk as (d & Ed & Hk).
  apply serial_labelled in Hk as (u3 & ws & ls3 & H & Hk).
  eapply performs_ok in H; [|apply performs_insert_key]. apply serial_outbox in Hk as (row & _ & Hk).
  apply serial_audit in Hk as (row' & Hk). injection Hk as <-. simpl.
  assert (t_idempotency_keys d = t_idempotency_keys db) as Ek.
  { rewrite Ed. by destruct (char3 _), (t_merchants db !! m). }
  unfold insert_idempotency_row in H. case_bool_decide as Hnew; [done|].
  destruct (negb _); [done|]. injection H as _ Hd. rewrite Ek in Hnew. split.
  - destruct (t_idempotency_keys db !! (m, key)); [|done]. by destruct Hnew.
  - rewrite <- Hd. simpl. by rewrite lookup_insert_eq.
Qed.

Lemma books_insert found m key o ev au db db' :
  serial (insert_prog env found m key o ev au) db = Ok db' -> books_step env db db'.
Proof using Type.
  intros Hs. destruct found as [id|].
  - apply serial_exec in Hs as (u & ws & ls & H & Hk). apply reading_ok in H as (-> & _ & _).
    apply serial_exec in Hk as (u' & ws & ls' & H & Hk). unfold require_order in H.
    apply reading_ok in H as (-> & _ & _). injection Hk as <-. reflexivity.
  - destruct (insert_binds _ _ _ _ _ _ _ Hs) as [Hnew _].
    apply (books_alone (TInsert None m key o ev au) (mkConn db 0)); [|done|done].
    rewrite <- Hnew. apply (alone_insert env m key o ev au (mkConn db 0)).
Qed.

(** With unique message ids, the rows a claim picks are claimable. *)
Lemma claimed_row limit now ids db r :
  claim_valid limit now ids db = true -> NoDup (map out_message_id (t_outbox_events db)) ->
  r ∈ t_outbox_events db -> out_message_id r ∈ ids -> row_claimable now r = true.
Proof using Type.
  intros [_ Hv]%andb_true_iff Hu Hr Hid. rewrite forallb_forall in Hv.
  apply list_elem_of_In, Hv, existsb_exists in Hid as (r' & Hr'%list_elem_of_In & Hc).
  apply list_elem_of_filter in Hr' as [Eid Hr'].
  by rewrite <- (unique_key out_message_id _ r' r Hu Hr' Hr Eid).
Qed.

Lemma picked_id r ids : existsb (String.eqb (out_message_id r)) ids = true <-> out_message_id r ∈ ids.
Proof using Type.
  rewrite existsb_exists, list_elem_of_In. split.
  - by intros (x & Hx & ->%String.eqb_eq).
  - intros H. exists (out_message_id r). by rewrite String.eqb_refl.
Qed.

Lemma lease_claim limit now ids db :
  claim_valid limit now ids db = true -> outbox_steps env db (apply_write (WClaim ids now) db).
Proof using Type.
  intros Hv Hc Hok. eapply outbox_step_once; [|done..]. eapply outbox_map; [done|].
  intros r Hr. simpl. destruct (existsb _ ids) eqn:Ep; [|done]. apply picked_id in Ep.
  pose proof (claimed_row _ _ _ _ _ Hv (oo_unique _ _ Hok) Hr Ep) as Hcl.
  split_and!; [done..|]. intros t. unfold row_blocked, row_claimable, set_claim, AddD, second in *.
  simpl. destruct (out_published_at r); [done|]. destruct (out_claimed_until r); [|done]. lia.
Qed.

(** One statement that writes the outbox or the inbox. *)
Lemma books_single {X} g (s : Stmt X) db db' :
  (forall x ws ls, s db = Ok (x, ws, ls) -> books_step env db (apply_writes ws db)) ->
  serial (Exec g s (fun _ => Done)) db = Ok db' -> books_step env db db'.
Proof using Type. intros H (x & ws & ls & Hs & [= <-])%serial_exec. by eapply H. Qed.

Lemma books_txn t db db' : serial (program env t) db = Ok db' -> books_step env db db'.
Proof using Type.
  intros Hs. set (c := mkConn db 0).
  destruct t; cbn [program] in Hs.
  - by eapply books_insert.
  - by apply (books_alone _ c _ (alone_update env id st now ev au c) eq_refl).
  - by eapply books_reserved.
  - by apply (books_alone _ c _ (alone_rejected env src next au c) eq_refl).
  - by apply (books_alone _ c _ (alone_authorized env src next p au c) eq_refl).
  - by eapply books_payment_failed.
  - by apply (books_alone _ c _ (alone_shipped env src next sh au c) eq_refl).
  - by apply (books_alone _ c _ (alone_shipment_failed env src next au c) eq_refl).
  - by apply (books_alone _ c _ (alone_cancelled env src next au c) eq_refl).
  - by apply (books_alone _ c _ (alone_notified env src au c) eq_refl).
  - by apply (books_alone _ c _ (alone_compensated env src st au c) eq_refl).
  - by apply (books_alone _ c _ (alone_audited env au c) eq_refl).
  - eapply books_single; [|exact Hs]. intros x ws ls H. unfold stmt_claim in H.
    apply writing_ok in H as (-> & _ & d & H). destruct (claim_valid limit now ids db) eqn:Ev; [|done].
    apply books_outbox; [done..|]. by eapply lease_claim.
  - eapply books_single; [|exact Hs]. intros x ws ls H. unfold stmt_publish in H.
    apply writing_ok in H as (-> & _ & _). apply books_outbox; [done..|].
    by eapply (mark_keeps env id at_ db).
  - eapply books_single; [|exact Hs]. intros x ws ls H. unfold stmt_receive in H.
    destruct fresh; [apply writing_ok in H as (-> & _ & _)|apply reading_ok in H as (-> & _ & _)];
      by apply books_frame.
  - eapply books_single; [|exact Hs]. intros x ws ls H. unfold stmt_forget in H.
    destruct found; [apply writing_ok in H as (-> & _ & _)|apply reading_ok in H as (-> & _ & _)];
      by apply books_frame.
Qed.

Lemma books_runs ts db db' : serial_runs env ts db = Ok db' -> books_step env db db'.
Proof using Type.
  revert db. induction ts as [|t ts IH]; simpl; intros db; [intros [= <-]; reflexivity|].
  destruct (serial (program env t) db) as [d|] eqn:E; [|done]. intros H.
  transitivity d; [by eapply books_txn|by apply IH].
Qed.

(** *** What a commit does *)

(** The events and audit entries of a transaction do not depend on the columns of
    an order. *)
Lemma serial_tail_orders id r1 r2 ev au db db' :
  serial (outbox_prog env ev (audit_prog env au Done))
    (set_orders (<[id := r1]> (t_orders db)) db) = Ok db' ->
  t_orders db' = <[id := r1]> (t_orders db)
  /\ serial (outbox_prog env ev (audit_prog env au Done))
       (set_orders (<[id := r2]> (t_orders db)) db)
     = Ok (set_orders (<[id := r2]> (t_orders db)) db').
Proof using Type.
  unfold outbox_prog. destruct (pg_marshal env _) as [p|]; [|done]. simpl.
  unfold labelled, stmt_insert_outbox, writing, insert_outbox_row.
  destruct (pg_jsonb env p) as [p'|]; [|done]. simpl. destruct (existsb _ _); [done|].
  rewrite !lookup_insert. destruct (decide _); [|destruct (t_orders db !! _); [|done]].
  all: unfold audit_prog; destruct (pg_marshal_details env _) as [det|]; [|done]; simpl.
  all: unfold labelled, stmt_insert_audit, writing, insert_audit_row.
  all: destruct (pg_jsonb env det); [|done]; simpl; by intros [= <-].
Qed.

Lemma set_orders_same db : set_orders (t_orders db) db = db.
Proof using Type. by destruct db. Qed.

Lemma serial_update_intro label id f k db n d db' :
  keeps_identity f -> update_order env id f db = Ok (n, d) -> serial k d = Ok db' ->
  serial (update_prog env label id f k) db = Ok db'.
Proof using Type.
  intros Hf Hu Hk. pose proof (performs_update env id f Hf db) as Hp. unfold update_prog. simpl.
  unfold labelled. destruct (stmt_update_order env id f db) as [[[x ws] ls]|e]; [|congruence].
  rewrite Hu in Hp. by injection Hp as -> ->.
Qed.

(** The provider of an order, and nothing else, as it was read. *)
Definition set_provider (id provider : string) (db : Database) : Database :=
  set_orders (alter (fun r => set_row_payment (Some provider) (orders_payment_status r)
                                (orders_payment_authorization_id r) r) id (t_orders db)) db.

(** A commit of [t]: on the database it finds, the operation run alone, without
    failures, with these exceptions, which are what [t] read without a lock.
    A submission that found its key bound, and an inbox statement that found
    nothing to do, changes nothing.  A payment failure writes back the provider it
    had read.  A reservation takes its lines from the stock rows that were picked,
    each checked again; a claim takes the events that were picked, each checked
    again. *)
Definition commit_effect (t : Txn) (db db' : Database) : Prop :=
  let out := pg_run (without_faults env) (txn_op t) (mkConn db 0) in
  match t with
  | TInsert (Some _) _ _ _ _ _ | TReceived false _ _ | TReleased false _ _ => db' = db
  | TPaymentFailed provider src _ _ =>
      fst out = Ok tt /\ db' = set_provider (Event_OrderID src) provider (conn_db (snd out))
  | TReserved picks src next au => serial (reserved_prog env picks src next au) db = Ok db'
  | TClaim now ids limit =>
      claim_valid limit now ids db = true /\ db' = apply_write (WClaim ids now) db
  | _ => conn_db (snd out) = db' /\ (transactional (txn_op t) = true -> fst out = Ok tt)
  end.

Lemma alone_effect t db db' :
  runs_alone env t (mkConn db 0) -> serial (program env t) db = Ok db' ->
  let out := pg_run (without_faults env) (txn_op t) (mkConn db 0) in
  conn_db (snd out) = db' /\ (transactional (txn_op t) = true -> fst out = Ok tt).
Proof using Type. intros [_ H] Hs. simpl in H. by rewrite Hs in H. Qed.

Lemma payment_failed_effect provider src next au db db' :
  serial (payment_failed_prog env provider src next au) db = Ok db' ->
  commit_effect (TPaymentFailed provider src next au) db db'.
Proof using Type.
  set (id := Event_OrderID src). intros (u & ws & ls & H & Hk)%serial_exec.
  unfold require_order in H. apply reading_ok in H as (-> & _ & H).
  destruct (t_orders db !! Event_OrderID src) as [r|] eqn:Er; [|done].
  apply serial_update in Hk as (n & d & Hu & Hk); [|by intros []].
  change (apply_writes [] db) with db in Hu. unfold update_order in Hu. rewrite Er in Hu.
  destruct (negb (chk_orders_status _)) eqn:Hc1; [discriminate Hu|].
  destruct (negb (chk_orders_payment_status _)) eqn:Hc2; [discriminate Hu|].
  pose proof (f_equal (fun x => match x with Ok (_, y) => y | Err _ => db end) Hu) as Ed. simpl in Ed. subst d.
  apply (serial_tail_orders _ _ (touch_row (Event_OccurredAt next)
    (set_row_payment (Some (provider_now id db)) (Some "failed") None r))) in Hk as [Eo Hk].
  assert (Hs : serial (program env (TPaymentFailed (provider_now id db) src next au)) db
    = Ok (set_orders (<[id := touch_row (Event_OccurredAt next)
        (set_row_payment (Some (provider_now id db)) (Some "failed") None r)]> (t_orders db)) db')).
  { cbn [program]. unfold payment_failed_prog. cbn [serial]. unfold require_order at 1, reading, writing.
    rewrite Er. eapply serial_update_intro; [by intros []| |exact Hk].
    change (apply_writes [] db) with db. unfold update_order. rewrite Er.
    match type of Hc1 with ?c = _ =>
      match goal with |- (if ?c' then _ else _) = _ => change c' with c end end. rewrite Hc1.
    match type of Hc2 with ?c = _ =>
      match goal with |- (if ?c' then _ else _) = _ => change c' with c end end. by rewrite Hc2. }
  apply alone_effect in Hs as [He Hok]; [|apply (alone_payment_failed env src next au (mkConn db 0))].
  unfold commit_effect. cbv zeta. cbn [txn_op] in *. split; [by apply Hok|]. rewrite He.
  unfold set_provider. cbn [t_orders set_orders]. fold id.
  rewrite (alter_insert _ _ _ _ _ (lookup_insert_eq _ _ _) eq_refl), insert_insert_eq.
  rewrite <- (set_orders_same db') at 1. by rewrite Eo.
Qed.

Lemma commit_effects t db db' : serial (program env t) db = Ok db' -> commit_effect t db db'.
Proof using Type.
  intros Hs. destruct t as [[id|]| | | | | | | | | | | | | |[]|[]].
  all: try (by eapply alone_effect; [|exact Hs]; first
    [ apply alone_update | apply alone_rejected | apply alone_authorized | apply alone_shipped
    | apply alone_shipment_failed | apply alone_cancelled | apply alone_notified
    | apply alone_compensated | apply alone_audited | apply alone_published ]).
  - apply serial_exec in Hs as (u & ws & ls & H & Hk). apply reading_ok in H as (-> & _ & _).
    apply serial_exec in Hk as (u' & ws & ls' & H & Hk). unfold require_order in H.
    apply reading_ok in H as (-> & _ & _). by injection Hk as <-.
  - destruct (insert_binds _ _ _ _ _ _ _ Hs) as [Hnew _]. eapply alone_effect; [|exact Hs].
    rewrite <- Hnew. apply (alone_insert env _ _ _ _ _ (mkConn db 0)).
  - done.
  - by apply payment_failed_effect.
  - apply serial_exec in Hs as (u & ws & ls & H & [= <-]). unfold stmt_claim in H.
    apply writing_ok in H as (-> & _ & d & H). unfold commit_effect.
    by destruct (claim_valid limit now ids db).
  - eapply alone_effect; [|exact Hs]. apply serial_exec in Hs as (u & ws & ls & H & _).
    unfold stmt_receive in H. apply writing_ok in H as (_ & _ & d & H).
    pose proof (alone_received env consumer ev (mkConn db 0)) as Ha.
    rewrite recorded_spec in Ha. unfold insert_inbox_row in H. simpl in Ha.
    by destruct (t_inbox_messages db !! _).
  - apply serial_exec in Hs as (u & ws & ls & H & [= <-]). unfold stmt_receive in H.
    by apply reading_ok in H as (-> & _ & _).
  - apply serial_exec in Hs as (u & ws & ls & H & [= <-]). unfold stmt_forget in H.
    by apply writing_ok in H as (-> & _ & _).
  - apply serial_exec in Hs as (u & ws & ls & H & [= <-]). unfold stmt_forget in H.
    by apply reading_ok in H as (-> & _ & _).
Qed.

(** The committed transactions, each with its effect on what the one before it
    left. *)
Inductive history : Database -> list Txn -> Database -> Prop :=
| history_nil db : history db [] db
| history_cons db t db1 ts db' :
    commit_effect t db db1 -> history db1 ts db' -> history db (t :: ts) db'.

Lemma history_inv db t ts db' :
  history db (t :: ts) db' -> exists db1, commit_effect t db db1 /\ history db1 ts db'.
Proof using Type. inversion 1; subst; eauto. Qed.

Lemma history_end db db' : history db [] db' -> db' = db.
Proof using Type. by inversion 1. Qed.

Lemma serial_history ts db db' : serial_runs env ts db = Ok db' -> history db ts db'.
Proof using Type.
  revert db. induction ts as [|t ts IH]; simpl; intros db; [intros [= <-]; constructor|].
  destruct (serial (program env t) db) as [d|] eqn:E; [|done]. intros H.
  econstructor; [by apply commit_effects|by apply IH].
Qed.

End Kept.

(** ** Interleaved executions *)

Section Interleaved.
Variable env : PgEnv.

Lemma run_invariant db es w : run env (start db) es = Some w -> engine_ok env db w.
Proof using Type.
  intros H. eapply run_ok; [apply programs_disciplined|apply start_ok|done].
Qed.

(** C3: under concurrency a committed transaction still is one operation of the
    store.  Transactions run at the same time, statement by statement and in any
    interleaving, with waits for locks, refused statements and lost connections.
    The committed database is the result of the committed transactions in the
    order of their commits, each of which has, on the database the one before it
    left, exactly the effect of the store's operation run alone there, and its
    success.  The exceptions are what the code reads without a lock: a submission
    that found its key bound, and an inbox statement that found nothing to do,
    changes nothing; a payment failure has the effect of its operation but for the
    order's provider, which it sets to the value it had read, however old that is;
    a reservation or a claim works on the stock rows or events the server picked,
    each checked again.  No two transactions under way hold the same lock. *)
Theorem commits_are_operations db es w :
  run env (start db) es = Some w ->
  history env db (w_history w) (w_committed w)
  /\ forall t t' tx tx', t <> t' -> w_active w !! t = Some tx -> w_active w !! t' = Some tx' ->
       disjoint_locks (tx_held tx) (tx_held tx').
Proof using Type.
  intros H%run_invariant. split; [by apply serial_history, H|].
  intros t t' tx tx' Hne. by apply (wo_locks _ _ _ H).
Qed.

(** C8: the life cycle and the stock ledger hold under concurrency: whatever
    interleaving of transactions ran, an order that was there is still there,
    with its identity, and its status has moved along the life cycle only; the
    stock is conserved row by row, never negative, and reserved stock is exactly
    the sum of the active reservations. *)
Theorem concurrent_books db es w :
  run env (start db) es = Some w ->
  (forall id r, t_orders db !! id = Some r ->
     exists r', t_orders (w_committed w) !! id = Some r'
       /\ row_snapshot r' = row_snapshot r /\ rtc Moves (orders_status r) (orders_status r'))
  /\ (stock_ok db ->
      stock_ok (w_committed w)
      /\ forall id row, t_inventory_items db !! id = Some row ->
           exists row', t_inventory_items (w_committed w) !! id = Some row'
             /\ 0 <= inv_available_quantity row'
             /\ inv_available_quantity row' + inv_reserved_quantity row'
                = inv_available_quantity row + inv_reserved_quantity row).
Proof using Type.
  intros H%run_invariant. destruct (books_runs _ _ _ _ (wo_history _ _ _ H)) as [Ho Hst _ _]. split.
  - intros id r Hr. destruct (Ho _ _ Hr) as (r' & Hr' & [? ? ?]). eauto.
  - intros Hok. destruct (Hst Hok) as [Hok' Hkept]. split; [done|]. intros id row Hid.
    specialize (Hkept id). rewrite Hid in Hkept.
    destruct (t_inventory_items (w_committed w) !! id) as [row'|] eqn:E; [|inversion Hkept].
    inversion Hkept as [? ? (Hw & Hs & Ht)|]; subst. exists row'.
    split_and!; [done|by eapply so_available|done].
Qed.

Lemma serial_runs_split ts1 t ts2 db db' :
  serial_runs env (ts1 ++ t :: ts2) db = Ok db' ->
  exists d d', serial_runs env ts1 db = Ok d /\ serial (program env t) d = Ok d'
               /\ serial_runs env ts2 d' = Ok db'.
Proof using Type.
  revert db. induction ts1 as [|t1 ts1 IH]; simpl; intros db.
  - destruct (serial (program env t) db) as [d'|] eqn:E; [|done]. eauto.
  - destruct (serial (program env t1) db) as [d|]; [|done]. intros (d1 & d2 & -> & ? & ?)%IH. eauto.
Qed.

(** C9: submissions that race under one idempotency key create one order: of all
    the transactions that committed, at most one inserted an order under a given
    merchant and key, and the key is bound to that order for good. *)
Theorem one_order_per_key db es w h1 h2 m k o ev au :
  run env (start db) es = Some w ->
  w_history w = h1 ++ TInsert None m k o ev au :: h2 ->
  t_idempotency_keys (w_committed w) !! (m, k) = Some (Order_OrderID o)
  /\ t_idempotency_keys db !! (m, k) = None
  /\ forall o' ev' au', TInsert None m k o' ev' au' ∉ h1 /\ TInsert None m k o' ev' au' ∉ h2.
Proof using Type.
  intros H%run_invariant Eh. pose proof (wo_history _ _ _ H) as Hs. rewrite Eh in Hs.
  apply serial_runs_split in Hs as (d & d' & H1 & Ht & H2).
  destruct (insert_binds _ _ _ _ _ _ _ _ Ht) as [Hd Hd'].
  pose proof (bs_keys _ _ _ (books_runs _ _ _ _ H2)) as Hgrow.
  pose proof (bs_keys _ _ _ (books_runs _ _ _ _ H1)) as Hgrow1.
  split; [by apply Hgrow|]. split.
  { destruct (t_idempotency_keys db !! (m, k)) eqn:Ek; [|done]. by rewrite (Hgrow1 _ _ Ek) in Hd. }
  intros o' ev' au'. split; intros (l1 & l2 & ->)%list_elem_of_split.
  - apply serial_runs_split in H1 as (a & a' & _ & Ha & Hl).
    destruct (insert_binds _ _ _ _ _ _ _ _ Ha) as [_ Hb].
    rewrite (bs_keys _ _ _ (books_runs _ _ _ _ Hl) _ _ Hb) in Hd. done.
  - apply serial_runs_split in H2 as (a & a' & Hl & Ha & _).
    destruct (insert_binds _ _ _ _ _ _ _ _ Ha) as [Hb _].
    rewrite (bs_keys _ _ _ (books_runs _ _ _ _ Hl) _ _ Hd') in Hb. done.
Qed.

(** A claim blocks what it picks until its lease is over. *)
Lemma claim_blocks limit now ids db id t :
  claim_valid limit now ids db = true -> outbox_ok env db -> id ∈ ids -> t < now + 30 * second ->
  message_blocked id t (apply_write (WClaim ids now) db).
Proof using Type.
  intros Hv Hok Hid Ht. pose proof Hv as [_ Hall]%andb_true_iff. rewrite forallb_forall in Hall.
  specialize (Hall id (proj1 (list_elem_of_In _ _) Hid)).
  apply existsb_exists in Hall as (r & Hr%list_elem_of_In & Hc).
  apply list_elem_of_filter in Hr as [<- Hr].
  split; simpl.
  - eexists. split; [by apply list_elem_of_fmap_2|]. apply claimed_id.
  - intros r' (r0 & -> & Hr0)%list_elem_of_fmap Eid. rewrite claimed_id in Eid.
    rewrite (unique_key out_message_id _ r0 r (oo_unique _ _ Hok) Hr0 Hr Eid).
    rewrite (proj2 (picked_id r ids) Hid). unfold row_claimable in Hc. unfold row_blocked, set_claim.
    simpl. destruct (out_published_at r); [done|]. unfold AddD. lia.
Qed.

Lemma blocked_not_picked limit now ids db id :
  claim_valid limit now ids db = true -> message_blocked id now db -> id ∉ ids.
Proof using Type.
  intros [_ Hall]%andb_true_iff [_ Hb] Hid. rewrite forallb_forall in Hall.
  specialize (Hall id (proj1 (list_elem_of_In _ _) Hid)).
  apply existsb_exists in Hall as (r & Hr%list_elem_of_In & Hc).
  apply list_elem_of_filter in Hr as [Eid Hr]. specialize (Hb r Hr Eid).
  by rewrite blocked_not_claimable, Hc in Hb.
Qed.

Lemma claim_serial now ids limit db db' :
  serial (program env (TClaim now ids limit)) db = Ok db' ->
  claim_valid limit now ids db = true /\ db' = apply_write (WClaim ids now) db.
Proof using Type.
  intros (u & ws & ls & H & [= <-])%serial_exec. unfold stmt_claim in H.
  apply writing_ok in H as (-> & _ & d & H). by destruct (claim_valid limit now ids db).
Qed.

(** C10: relays that claim at the same time never share an event: of the claims
    that committed, whatever ran with them, two that are less than the thirty
    seconds of a lease apart picked disjoint sets of events, although a claim
    takes no more than the row locks of the events it picks. *)
Theorem concurrent_claims_disjoint db es w h1 h2 now ids limit now' ids' limit' :
  codec_keeps_id env -> outbox_ok env db ->
  run env (start db) es = Some w ->
  w_history w = h1 ++ TClaim now ids limit :: h2 -> TClaim now' ids' limit' ∈ h2 ->
  now' < now + 30 * second -> forall id, id ∈ ids -> id ∉ ids'.
Proof using Type.
  intros Hcodec Hok H%run_invariant Eh (l1 & l2 & ->)%list_elem_of_split Ht id Hid.
  pose proof (wo_history _ _ _ H) as Hs. rewrite Eh in Hs.
  apply serial_runs_split in Hs as (d & d' & H1 & [Hv ->]%claim_serial & H2).
  apply serial_runs_split in H2 as (a & a' & Hl & [Hv' _]%claim_serial & _).
  destruct (bs_outbox _ _ _ (books_runs _ _ _ _ H1) Hcodec Hok) as [Hokd _].
  destruct (lease_claim env _ _ _ _ Hv Hcodec Hokd) as [Hokd' _].
  destruct (bs_outbox _ _ _ (books_runs _ _ _ _ Hl) Hcodec Hokd') as [_ Hkeep].
  eapply blocked_not_picked; [done|]. apply Hkeep. by eapply claim_blocks.
Qed.

End Interleaved.
