(* ===== verification/ConcurrencySamples.v ===== *)
(** Interleavings of concrete transactions: two submissions that race, a
    statement that waits, and two workers on one order.  The theorems of
    [Concurrency] are exercised on them, and two of the interleavings have
    outcomes that no order of the operations has when each runs alone. *)
From S2P Require Import Prelude GoStrings GoTime Model StateMachine MemoryStore MemoryInvariant.
From S2P Require Import Service MemoryQueries.
From S2P Require Import Database PgStore PgAtomic PgStock PgOrders PgOutbox PgSamples.
From S2P Require Import Transactions Interleaving Discipline SerialRuns Concurrency.

(** ** Two submissions under one key *)

(** The same order, submitted again before the first submission is committed. *)
Definition second_order : Order :=
  mkOrder "ord_2" (Order_MerchantID sample_order) (Order_ExternalOrderID sample_order)
    (Order_Status sample_order) (Order_Currency sample_order) (Order_Totals sample_order)
    (Order_Items sample_order) (Order_Payment sample_order) (Order_Shipment sample_order)
    (Order_ShippingAddressRef sample_order) (Order_CreatedAt sample_order)
    (Order_UpdatedAt sample_order).

Definition second_created : OutboxEvent :=
  mkOutboxEvent "msg_9" "order.created" 1 1000 "" "mer_1" "ord_2" "cor_2" "msg_9" ∅.

Definition first_submission : Txn :=
  TInsert None "mer_1" "idem-key-0001" sample_order (pg_event "msg_1" "order.created") pg_audit.

Definition second_submission : Txn :=
  TInsert None "mer_1" "idem-key-0001" second_order second_created pg_audit.

(** Both find the key free, then the first goes on to its commit. *)
Definition race : list Event :=
  [Begin 0 first_submission; Begin 1 second_submission; Next 0; Next 1] ++ repeat (Next 0) 6.

(** While the first is under way, the second waits for the entry of the external
    order id. *)
Example second_waits :
  run pg_sample (start catalogue) (race ++ [Next 1; Next 1]) = None.
Proof. vm_compute. reflexivity. Qed.

Definition raced : option Engine :=
  run pg_sample (start catalogue) (race ++ [Commit 0; Next 1; Next 1]).

Definition results_of (w : option Engine) : option (list (nat * result unit)) := w_results <$> w.

(** The second submission is refused as a duplicate where, a moment later, it
    would get the first order back. *)
Theorem racing_submission_refused :
  results_of raced = Some [(0%nat, Ok tt); (1%nat, Err ErrDuplicateOrder)]
  /\ (raced ≫= fun w => t_idempotency_keys (w_committed w) !! ("mer_1", "idem-key-0001"))
     = Some "ord_1"
  /\ match fst (PgStore_InsertOrder pg_sample "mer_1" "idem-key-0001" second_order second_created
                  pg_audit pg_inserted) with
     | Ok (o, replayed) => Some (Order_OrderID <$> o, replayed)
     | Err _ => None
     end = Some (Some "ord_1", true).
Proof. split_and!; vm_compute; reflexivity. Qed.

(** ** Two workers on one order *)

(** The authorization by one payment worker, the failure seen by another. *)
Definition authorize : PgOp :=
  PgAuthorized (pg_event "msg_2" "inventory.reserved") (pg_event "msg_5" "payment.authorized")
    (mkPayment "adyen" "authorized" "auth_1" "") pg_audit.

Definition decline : PgOp :=
  PgPaymentFailed (pg_event "msg_2" "inventory.reserved") (pg_event "msg_6" "payment.failed") pg_audit.

Definition authorizing : Txn :=
  TAuthorized (pg_event "msg_2" "inventory.reserved") (pg_event "msg_5" "payment.authorized")
    (mkPayment "adyen" "authorized" "auth_1" "") pg_audit.

Definition declining : Txn :=
  TPaymentFailed (provider_now "ord_1" (conn_db pg_reserved)) (pg_event "msg_2" "inventory.reserved")
    (pg_event "msg_6" "payment.failed") pg_audit.

(** The provider is read, the other transaction commits, the provider is written. *)
Definition crossing : list Event :=
  [Begin 0 declining; Next 0; Begin 1 authorizing] ++ repeat (Next 1) 6 ++ [Commit 1]
  ++ repeat (Next 0) 3 ++ [Commit 0].

Definition crossed : option Engine := run pg_sample (start (conn_db pg_reserved)) crossing.

Definition provider_of (db : Database) : option (option string) :=
  orders_payment_provider <$> t_orders db !! "ord_1".

(** The provider of the authorization is lost, which it is not when the two
    operations run one after another, whichever comes first. *)
Theorem provider_overwritten :
  results_of crossed = Some [(1%nat, Ok tt); (0%nat, Ok tt)]
  /\ (provider_of ∘ w_committed <$> crossed) = Some (Some (Some "stripe"))
  /\ map (fun ops => provider_of (conn_db (pg_runs pg_sample ops pg_reserved)))
       [[authorize; decline]; [decline; authorize]]
     = [Some (Some "adyen"); Some (Some "adyen")].
Proof. split_and!; vm_compute; reflexivity. Qed.

(** ** The theorems at work *)

Definition raced_world : Engine := default (start catalogue) raced.

Definition is_some {A} (o : option A) : bool := match o with Some _ => true | None => false end.

Lemma default_some {A} (d : A) (o : option A) : is_some o = true -> o = Some (default d o).
Proof. by destruct o. Qed.

Lemma raced_runs : run pg_sample (start catalogue) (race ++ [Commit 0; Next 1; Next 1]) = Some raced_world.
Proof. apply default_some. vm_compute. reflexivity. Qed.

Lemma raced_history : w_history raced_world = [] ++ first_submission :: [].
Proof. vm_compute. reflexivity. Qed.

Lemma one_order_per_key_witness :
  t_idempotency_keys (w_committed raced_world) !! ("mer_1", "idem-key-0001") = Some "ord_1".
Proof. exact (proj1 (one_order_per_key pg_sample _ _ _ _ _ _ _ _ _ _ raced_runs raced_history)). Defined.

Definition crossed_world : Engine := default (start catalogue) crossed.

Lemma crossed_runs : run pg_sample (start (conn_db pg_reserved)) crossing = Some crossed_world.
Proof. apply default_some. vm_compute. reflexivity. Qed.

Lemma crossed_history : w_history crossed_world = [authorizing; declining].
Proof. vm_compute. reflexivity. Qed.

Lemma two_commits db db' provider :
  history pg_sample db
    [authorizing; TPaymentFailed provider (pg_event "msg_2" "inventory.reserved")
                    (pg_event "msg_6" "payment.failed") pg_audit] db' ->
  let alone op db := pg_run (without_faults pg_sample) op (mkConn db 0) in
  let db1 := conn_db (snd (alone authorize db)) in
  fst (alone authorize db) = Ok tt /\ fst (alone decline db1) = Ok tt
  /\ db' = set_provider "ord_1" provider (conn_db (snd (alone decline db1))).
Proof.
  intros (db1 & [<- H1] & (db2 & [H2 ->] & ->%history_end)%history_inv)%history_inv.
  exact (conj (H1 eq_refl) (conj H2 eq_refl)).
Qed.

(** The authorization is the operation; the payment failure is, on what it left,
    the operation but for the provider. *)
Lemma commits_are_operations_witness :
  let alone op db := pg_run (without_faults pg_sample) op (mkConn db 0) in
  let db1 := conn_db (snd (alone authorize (conn_db pg_reserved))) in
  fst (alone authorize (conn_db pg_reserved)) = Ok tt /\ fst (alone decline db1) = Ok tt
  /\ w_committed crossed_world
     = set_provider "ord_1" (provider_now "ord_1" (conn_db pg_reserved))
         (conn_db (snd (alone decline db1))).
Proof.
  pose proof (proj1 (commits_are_operations pg_sample _ _ _ crossed_runs)) as H.
  rewrite crossed_history in H. exact (two_commits _ _ _ H).
Defined.

Lemma reserved_stock : stock_ok (conn_db pg_reserved).
Proof. exact (proj1 (stock_runs pg_sample [pg_insert; pg_reserve] pg_start catalogue_stock)). Qed.

Lemma reserved_chairs :
  t_inventory_items (conn_db pg_reserved) !! 1
  = Some (default chairs (t_inventory_items (conn_db pg_reserved) !! 1)).
Proof. vm_compute. reflexivity. Qed.

Lemma concurrent_books_witness :
  exists row', t_inventory_items (w_committed crossed_world) !! 1 = Some row'
    /\ 0 <= inv_available_quantity row'
    /\ inv_available_quantity row' + inv_reserved_quantity row' = 10.
Proof.
  destruct (proj2 (concurrent_books pg_sample _ _ _ crossed_runs) reserved_stock) as [_ H].
  exact (H 1 _ reserved_chairs).
Defined.

(** ** Two relays *)

Definition noon : Time := time_Unix 1780056000.

Definition relay_claim (at_ : Time) (ids : list string) : Txn := TClaim at_ ids 1.

(** The second relay cannot take the event whose row the first has locked; it
    takes the next one. *)
Example locked_event_skipped :
  map (fun ids => is_some (run pg_sample (start (conn_db pg_reserved))
         [Begin 0 (relay_claim noon ["msg_1"]); Next 0; Begin 1 (relay_claim noon ids); Next 1;
          Commit 0; Commit 1])) [["msg_1"]; ["msg_2"]] = [false; true].
Proof. vm_compute. reflexivity. Qed.

Definition two_claims : list Event :=
  [Begin 0 (relay_claim noon ["msg_1"]); Next 0; Begin 1 (relay_claim noon ["msg_2"]); Next 1;
   Commit 0; Commit 1].

Definition claims_world : Engine :=
  default (start catalogue) (run pg_sample (start (conn_db pg_reserved)) two_claims).

Lemma claims_run : run pg_sample (start (conn_db pg_reserved)) two_claims = Some claims_world.
Proof. apply default_some. vm_compute. reflexivity. Qed.

Lemma claims_history :
  w_history claims_world = [] ++ relay_claim noon ["msg_1"] :: [relay_claim noon ["msg_2"]].
Proof. vm_compute. reflexivity. Qed.

Lemma concurrent_claims_disjoint_witness :
  w_history claims_world = [relay_claim noon ["msg_1"]; relay_claim noon ["msg_2"]]
  /\ forall id, id ∈ ["msg_1"] -> id ∉ ["msg_2"].
Proof.
  split; [exact claims_history|]. intros id.
  exact (concurrent_claims_disjoint pg_sample _ _ _ _ _ _ _ _ _ _ _ pg_sample_codec reserved_outbox
           claims_run claims_history (list_elem_of_here _ _) eq_refl id).
Defined.
