(* ===== verification/OrderBook.v ===== *)
(** An abstract order book: what both stores promise, without their
    representations.

    A book is five observations: the order behind an identifier, the order an
    idempotency key of a merchant is bound to, whether an external order id of a
    merchant is taken, the outbox messages in the order they were written, and
    the number of audit entries.  [perform] says what a request does to it, or
    that it refuses the request.  An implementation refines the book when each
    of its operations does what [perform] says ([BookImpl]); what is proved of
    the book then holds of every implementation ([impl_history]). *)
From S2P Require Import Prelude GoStrings GoTime Model StateMachine MemoryInvariant.

(** ** Books *)

Record Entry := mkEntry {
  e_merchant : string;
  e_external : string;
  e_total : Z;
  e_status : OrderStatus
}.

Record Book := mkBook {
  bk_order : string -> option Entry;
  bk_key : string -> string -> option string;
  bk_taken : string -> string -> bool;
  bk_messages : list string;
  bk_audits : nat
}.

(** Books with the same observations. *)
#[export] Instance book_equiv : Equiv Book := fun b b' =>
  (forall id, bk_order b id = bk_order b' id)
  /\ (forall m k, bk_key b m k = bk_key b' m k)
  /\ (forall m x, bk_taken b m x = bk_taken b' m x)
  /\ bk_messages b = bk_messages b' /\ bk_audits b = bk_audits b'.

#[export] Instance book_equivalence : Equivalence (≡@{Book}).
Proof.
  split.
  - by intros b.
  - intros b b' (H1 & H2 & H3 & H4 & H5). by split_and!.
  - intros a b c (H1 & H2 & H3 & H4 & H5) (K1 & K2 & K3 & K4 & K5).
    split_and!; intros; etrans; eauto.
Qed.

(** ** Requests *)

Inductive Request : Type :=
(** a submission under an idempotency key *)
| Submit (k id : string) (e : Entry) (message : string)
(** a change of status, with an event or without *)
| Move (id : string) (st : OrderStatus) (message : option string)
(** something recorded about an order *)
| Note (id : string) (message : option string)
(** an audit entry of its own *)
| Audit
(** what the book does not show: claims, publications, inbox entries *)
| Housekeeping.

(** The book with an audit entry, and the message that goes with it. *)
Definition logged (message : option string) (b : Book) : Book :=
  mkBook (bk_order b) (bk_key b) (bk_taken b)
    (bk_messages b ++ match message with None => [] | Some msg => [msg] end)
    (Datatypes.S (bk_audits b)).

Definition with_entry (id : string) (e : Entry) (b : Book) : Book :=
  mkBook (fun id' => if String.eqb id' id then Some e else bk_order b id')
    (bk_key b) (bk_taken b) (bk_messages b) (bk_audits b).

Definition placed (k id : string) (e : Entry) (b : Book) : Book :=
  let m := e_merchant e in
  mkBook (fun id' => if String.eqb id' id then Some e else bk_order b id')
    (fun m' k' => if String.eqb m' m && String.eqb k' k then Some id else bk_key b m' k')
    (fun m' x' => String.eqb m' m && String.eqb x' (e_external e) || bk_taken b m' x')
    (bk_messages b) (bk_audits b).

Definition set_status (st : OrderStatus) (e : Entry) : Entry :=
  mkEntry (e_merchant e) (e_external e) (e_total e) st.

(** The book after a request, unless it refuses it. *)
Definition perform (req : Request) (b : Book) : option Book :=
  match req with
  | Submit k id e message =>
      match bk_key b (e_merchant e) k with
      | Some _ => Some b
      | None =>
          if bk_taken b (e_merchant e) (e_external e) then None
          else match bk_order b id with
               | Some _ => None
               | None => Some (logged (Some message) (placed k id e b))
               end
      end
  | Move id st message =>
      match bk_order b id with
      | None => None
      | Some e => match ValidateOrderTransition (e_status e) st with
                  | Some _ => None
                  | None => Some (logged message (with_entry id (set_status st e) b))
                  end
      end
  | Note id message =>
      match bk_order b id with
      | None => None
      | Some _ => Some (logged message b)
      end
  | Audit => Some (logged None b)
  | Housekeeping => Some b
  end.

Fixpoint perform_all (reqs : list Request) (b : Book) : option Book :=
  match reqs with
  | [] => Some b
  | req :: reqs => match perform req b with None => None | Some b => perform_all reqs b end
  end.

(** ** Requests do not see more than the observations *)

#[export] Instance logged_proper message : Proper ((≡) ==> (≡)) (logged message).
Proof. intros b b' (? & ? & ? & E & E'). split_and!; simpl; try done; congruence. Qed.

#[export] Instance with_entry_proper id e : Proper ((≡) ==> (≡)) (with_entry id e).
Proof.
  intros b b' (Ho & ? & ? & ? & ?). split_and!; simpl; try done. intros id'. by rewrite Ho.
Qed.

#[export] Instance placed_proper k id e : Proper ((≡) ==> (≡)) (placed k id e).
Proof.
  intros b b' (Ho & Hk & Ht & ? & ?). split_and!; simpl; try done; intros.
  - by rewrite Ho.
  - by rewrite Hk.
  - by rewrite Ht.
Qed.

#[export] Instance perform_proper req : Proper ((≡) ==> option_Forall2 (≡)) (perform req).
Proof.
  intros b b' Hb. pose proof Hb as (Ho & Hk & Ht & _ & _).
  destruct req as [k id e message|id st message|id message| |]; simpl.
  - rewrite <- Hk, <- Ht, <- Ho. repeat case_match; constructor; [done|]. by rewrite Hb.
  - rewrite <- Ho. repeat case_match; constructor. by rewrite Hb.
  - rewrite <- Ho. case_match; constructor. by rewrite Hb.
  - constructor. by rewrite Hb.
  - by constructor.
Qed.

Lemma perform_equiv req b b' c :
  b ≡ b' -> perform req b = Some c -> exists c', perform req b' = Some c' /\ c ≡ c'.
Proof. intros Hb Hc. pose proof (perform_proper req b b' Hb) as H. rewrite Hc in H. inv H. eauto. Qed.

Lemma perform_all_equiv reqs b b' c :
  b ≡ b' -> perform_all reqs b = Some c -> exists c', perform_all reqs b' = Some c' /\ c ≡ c'.
Proof.
  revert b b'. induction reqs as [|req reqs IH]; simpl; intros b b' Hb H.
  - simplify_eq. by eexists.
  - destruct (perform req b) as [d|] eqn:Hd; [|done].
    destruct (perform_equiv _ _ _ _ Hb Hd) as (d' & -> & Hdd). by eapply IH.
Qed.

Lemma perform_all_app reqs1 reqs2 b :
  perform_all (reqs1 ++ reqs2) b
  = match perform_all reqs1 b with None => None | Some b => perform_all reqs2 b end.
Proof. revert b. induction reqs1 as [|req reqs1 IH]; simpl; intros b; [done|]. by destruct (perform req b). Qed.

(** ** The history of a book *)

(** What no request takes back: orders keep their merchant, external id and
    total and move along the life cycle; keys and external ids stay bound;
    messages and audit entries are only added, a message never without an audit
    entry. *)
Record book_extends (b b' : Book) : Prop := {
  be_order id e : bk_order b id = Some e ->
    exists e', bk_order b' id = Some e' /\ e_merchant e' = e_merchant e
      /\ e_external e' = e_external e /\ e_total e' = e_total e
      /\ rtc Moves (e_status e) (e_status e');
  be_key m k id : bk_key b m k = Some id -> bk_key b' m k = Some id;
  be_taken m x : bk_taken b m x = true -> bk_taken b' m x = true;
  be_messages : exists new, bk_messages b' = bk_messages b ++ new
    /\ (length new + bk_audits b <= bk_audits b')%nat
}.

#[export] Instance book_extends_preorder : PreOrder book_extends.
Proof.
  split.
  - intros b. split; [|done..|].
    + intros id e He. exists e. split_and!; [done..|]. apply rtc_refl.
    + exists []. split; [by rewrite app_nil_r|]. simpl. lia.
  - intros a b c [O1 K1 T1 (n1 & M1 & L1)] [O2 K2 T2 (n2 & M2 & L2)]. split; [|by eauto..|].
    + intros id e He. destruct (O1 _ _ He) as (e1 & H1 & E1 & E2 & E3 & S1).
      destruct (O2 _ _ H1) as (e2 & H2 & F1 & F2 & F3 & S2). exists e2.
      split_and!; [done|congruence..|by etrans].
    + exists (n1 ++ n2). rewrite M2, M1, app_assoc, length_app. split; [done|lia].
Qed.

#[export] Instance book_extends_proper : Proper ((≡) ==> (≡) ==> iff) book_extends.
Proof.
  assert (forall a a' b b' : Book, a ≡ a' -> b ≡ b' -> book_extends a b -> book_extends a' b') as H.
  { intros a a' b b' (A1 & A2 & A3 & A4 & A5) (B1 & B2 & B3 & B4 & B5) [O K T M]. split.
    - intros id e. rewrite <- A1, <- B1. apply O.
    - intros m k id. rewrite <- A2, <- B2. apply K.
    - intros m x. rewrite <- A3, <- B3. apply T.
    - by rewrite <- A4, <- A5, <- B4, <- B5. }
  intros a a' Ha b b' Hb. split; apply H; done.
Qed.

Lemma logged_extends message b : book_extends b (logged message b).
Proof.
  split; simpl; [|done..|].
  - intros id e He. exists e. split_and!; [done..|]. apply rtc_refl.
  - eexists. split; [done|]. destruct message; simpl; lia.
Qed.

Lemma perform_extends req b b' : perform req b = Some b' -> book_extends b b'.
Proof.
  destruct req as [k id e message|id st message|id message| |]; simpl.
  - destruct (bk_key b _ k) eqn:Hk; [by intros [= <-]|].
    destruct (bk_taken b _ _) eqn:Ht; [done|]. destruct (bk_order b id) eqn:Ho; [done|].
    intros [= <-]. etransitivity; [|apply logged_extends]. split; simpl.
    + intros id' e' He'. exists e'. destruct (String.eqb_spec id' id); [congruence|].
      split_and!; [done..|]. apply rtc_refl.
    + intros m' k' id' Hb. destruct (String.eqb_spec m' (e_merchant e)), (String.eqb_spec k' k);
        simpl; congruence.
    + intros m' x' ->. apply orb_true_r.
    + exists []. split; [by rewrite app_nil_r|]. simpl. lia.
  - destruct (bk_order b id) as [e|] eqn:Ho; [|done].
    destruct (ValidateOrderTransition _ _) eqn:Hv; [done|]. intros [= <-].
    etransitivity; [|apply logged_extends]. split; simpl; [|done..|].
    + intros id' e' He'. destruct (String.eqb_spec id' id) as [->|].
      * exists (set_status st e). rewrite Ho in He'. injection He' as ->.
        split_and!; [done..|]. by apply allowed_moves.
      * exists e'. split_and!; [done..|]. apply rtc_refl.
    + exists []. split; [by rewrite app_nil_r|]. simpl. lia.
  - destruct (bk_order b id); [|done]. intros [= <-]. apply logged_extends.
  - intros [= <-]. apply logged_extends.
  - by intros [= <-].
Qed.

Lemma perform_all_extends reqs b b' : perform_all reqs b = Some b' -> book_extends b b'.
Proof.
  revert b. induction reqs as [|req reqs IH]; simpl; intros b; [by intros [= <-]|].
  destruct (perform req b) as [d|] eqn:Hd; [|done]. intros H%IH.
  etransitivity; [by eapply perform_extends|done].
Qed.

(** ** Implementations *)

(** A store with its operations: a run says whether it was accepted.  An
    accepted operation does to the book what [perform] says.  One that was not
    has left the book alone, unless the answer of the server was lost, and then
    it may have been performed as a whole. *)
Class BookImpl (S Op : Type) := {
  impl_run : Op -> S -> bool * S;
  impl_request : Op -> Request;
  impl_book : S -> Book;
  (** what clients promise *)
  impl_pre : S -> Op -> Prop;
  impl_accepted s op s' :
    impl_pre s op -> impl_run op s = (true, s') ->
    exists b, perform (impl_request op) (impl_book s) = Some b /\ impl_book s' ≡ b;
  impl_failed s op s' :
    impl_pre s op -> impl_run op s = (false, s') ->
    impl_book s' ≡ impl_book s
    \/ exists b, perform (impl_request op) (impl_book s) = Some b /\ impl_book s' ≡ b
}.

Section Implementation.
Context {S Op : Type} `{BookImpl S Op}.

(** The states clients can bring about. *)
Inductive impl_steps : S -> list Op -> S -> Prop :=
| impl_stop s : impl_steps s [] s
| impl_next s op ops s' :
    impl_pre s op -> impl_steps (snd (impl_run op s)) ops s' -> impl_steps s (op :: ops) s'.

(** A run of operations performs some of their requests, in their order. *)
Lemma impl_steps_perform s ops s' :
  impl_steps s ops s' ->
  exists reqs b, sublist reqs (map impl_request ops)
    /\ perform_all reqs (impl_book s) = Some b /\ impl_book s' ≡ b.
Proof.
  induction 1 as [s|s op ops s' Hpre Hrun (reqs & b & Hsub & Hb & Heq)].
  { exists [], (impl_book s). split_and!; [constructor|done|done]. }
  destruct (impl_run op s) as [ok s1] eqn:E. simpl in *.
  assert (impl_book s1 ≡ impl_book s
          \/ exists b, perform (impl_request op) (impl_book s) = Some b /\ impl_book s1 ≡ b)
    as [Hsame|(d & Hd & Hs1)].
  { destruct ok; [right; by eapply impl_accepted|by eapply impl_failed]. }
  - destruct (perform_all_equiv _ _ _ _ Hsame Hb) as (b' & Hb' & Hbb). exists reqs, b'.
    split_and!; [by apply sublist_cons|done|]. by rewrite Heq.
  - destruct (perform_all_equiv _ _ _ _ Hs1 Hb) as (b' & Hb' & Hbb).
    exists (impl_request op :: reqs), b'. split_and!; [by apply sublist_skip| |by rewrite Heq].
    simpl. by rewrite Hd.
Qed.

(** What holds of books holds of every implementation. *)
Theorem impl_history s ops s' :
  impl_steps s ops s' -> book_extends (impl_book s) (impl_book s').
Proof.
  intros (reqs & b & _ & Hb & ->)%impl_steps_perform. by eapply perform_all_extends.
Qed.

(** Runs in which every operation is accepted. *)
Inductive impl_accepts : S -> list Op -> S -> Prop :=
| accepts_stop s : impl_accepts s [] s
| accepts_next s op ops s1 s' :
    impl_pre s op -> impl_run op s = (true, s1) -> impl_accepts s1 ops s' ->
    impl_accepts s (op :: ops) s'.

Lemma impl_accepts_perform s ops s' :
  impl_accepts s ops s' ->
  exists b, perform_all (map impl_request ops) (impl_book s) = Some b /\ impl_book s' ≡ b.
Proof.
  induction 1 as [s|s op ops s1 s' Hpre Hrun _ (b & Hb & Heq)]; [by eexists|].
  destruct (impl_accepted s op s1 Hpre Hrun) as (d & Hd & Hs1).
  destruct (perform_all_equiv _ _ _ _ Hs1 Hb) as (b' & Hb' & Hbb).
  exists b'. simpl. rewrite Hd. by rewrite Heq.
Qed.

End Implementation.
