(* ===== verification/BookMemory.v ===== *)
(** The in-memory store refines the order book of [OrderBook]. *)
From S2P Require Import Prelude GoStrings GoStringsFacts GoTime Model StateMachine.
From S2P Require Import MemoryStore MemoryInvariant MemoryLaws MemoryQueries OrderBook.

Definition order_entry (o : Order) : Entry :=
  mkEntry (Order_MerchantID o) (Order_ExternalOrderID o)
    (Money_Amount (Totals_Total (Order_Totals o))) (Order_Status o).

(** The scoped keys of merchants without a colon in their identifier; those of
    others can coincide, so the book does not speak about them. *)
Definition scoped {A} (index : gmap string A) (m v : string) : option A :=
  if has_char ":"%char m then None else index !! scopedKey m v.

Definition memory_book (s : MemoryStore) : Book :=
  mkBook (fun id => order_entry <$> ms_orders s !! id)
    (scoped (ms_ordersByIdempotency s))
    (fun m x => bool_decide (is_Some (scoped (ms_ordersByExternal s) m x)))
    (map Event_MessageID (ms_outbox s)) (length (ms_auditLogs s)).

Definition memory_request (op : StoreOp) : Request :=
  match op with
  | OpInsert m k o ev _ => Submit k (Order_OrderID o) (order_entry o) (Event_MessageID ev)
  | OpUpdate id st _ ev _ => Move id st (Some (Event_MessageID ev))
  | OpReserved src next _ =>
      Move (Event_OrderID src) StatusInventoryReserved (Some (Event_MessageID next))
  | OpAuthorized src next _ _ =>
      Move (Event_OrderID src) StatusPaymentAuthorized (Some (Event_MessageID next))
  | OpShipped src next _ _ =>
      Move (Event_OrderID src) StatusShipmentCreated (Some (Event_MessageID next))
  | OpCancelled src next _ =>
      Move (Event_OrderID src) StatusCancelled (Some (Event_MessageID next))
  | OpCompensated src st _ => Move (Event_OrderID src) st None
  | OpRejected src next _ | OpPaymentFailed src next _ | OpShipmentFailed src next _ =>
      Note (Event_OrderID src) (Some (Event_MessageID next))
  | OpNotified src _ => Note (Event_OrderID src) None
  | OpClaim _ _ | OpPublished _ _ => Housekeeping
  end.

(** What the service guarantees ([op_pre]), for merchants the keys keep
    apart. *)
Definition memory_pre (s : MemoryStore) (op : StoreOp) : Prop :=
  op_pre s op
  /\ match op with OpInsert m _ _ _ _ => has_char ":"%char m = false | _ => True end.

(** ** The mutations on the book *)

Lemma book_audit a s : memory_book (append_audit a s) ≡ logged None (memory_book s).
Proof. split_and!; try done; simpl; [by rewrite app_nil_r|rewrite length_app; simpl; lia]. Qed.

Lemma book_event_audit e a s :
  memory_book (append_audit a (appendOutboxEvent e s))
  ≡ logged (Some (Event_MessageID e)) (memory_book s).
Proof.
  split_and!; try done; simpl; [|rewrite length_app; simpl; lia].
  destruct (envelope_fields e) as (HM & _). rewrite map_app. simpl. by rewrite HM.
Qed.

Lemma book_put id o s : memory_book (put_order id o s) ≡ with_entry id (order_entry o) (memory_book s).
Proof.
  split_and!; try done. intros id'. simpl. rewrite lookup_insert.
  destruct (String.eqb_spec id' id) as [->|]; case_decide; try done; congruence.
Qed.

(** Putting an order back with the same entry changes nothing. *)
Lemma book_put_same id o o' s :
  ms_orders s !! id = Some o -> order_entry o' = order_entry o ->
  memory_book (put_order id o' s) ≡ memory_book s.
Proof.
  intros Ho E. rewrite book_put. split_and!; try done. intros id'. simpl.
  destruct (String.eqb_spec id' id) as [->|]; [|done]. by rewrite Ho, E.
Qed.

Lemma scoped_insert {A} (index : gmap string A) m v a m' v' :
  has_char ":"%char m = false ->
  scoped (<[scopedKey m v := a]> index) m' v'
  = if String.eqb m' m && String.eqb v' v then Some a else scoped index m' v'.
Proof.
  intros Hm. unfold scoped. destruct (has_char ":"%char m') eqn:Hm'.
  - destruct (String.eqb_spec m' m) as [->|]; [congruence|done].
  - rewrite lookup_insert. case_decide as E.
    + apply scoped_key_separates in E as [-> ->]; [|done..]. by rewrite !String.eqb_refl.
    + destruct (String.eqb_spec m' m) as [->|], (String.eqb_spec v' v) as [->|]; done.
Qed.

Lemma book_inserted m k o ev au s :
  has_char ":"%char m = false -> Order_MerchantID o = m ->
  memory_book (inserted m k o ev au s)
  ≡ logged (Some (Event_MessageID ev)) (placed k (Order_OrderID o) (order_entry o) (memory_book s)).
Proof.
  intros Hm Ho. unfold inserted. rewrite book_event_audit. apply logged_proper.
  split_and!; try done; simpl.
  - intros id'. rewrite lookup_insert.
    destruct (String.eqb_spec id' (Order_OrderID o)) as [->|]; case_decide; try done; congruence.
  - intros m' k'. rewrite scoped_insert, Ho by done. done.
  - intros m' x'. rewrite scoped_insert, Ho by done.
    destruct (String.eqb m' m && String.eqb x' _); [|done]. by rewrite bool_decide_eq_true_2.
Qed.

(** ** The operations *)

Definition performed (s : MemoryStore) (req : Request) (s' : MemoryStore) : Prop :=
  exists b, perform req (memory_book s) = Some b /\ memory_book s' ≡ b.

(** An order that exists is given a new status. *)
Lemma performed_move id st o o' e msg a s :
  Event_MessageID e = msg ->
  ms_orders s !! id = Some o -> ValidateOrderTransition (Order_Status o) st = None ->
  order_entry o' = set_status st (order_entry o) ->
  performed s (Move id st (Some msg))
    (append_audit a (appendOutboxEvent e (put_order id o' s))).
Proof.
  intros <- Ho Hv E. eexists. simpl. rewrite Ho. simpl. rewrite Hv. split; [done|].
  by rewrite book_event_audit, book_put, E.
Qed.

Lemma performed_move_silent id st o o' a s :
  ms_orders s !! id = Some o -> ValidateOrderTransition (Order_Status o) st = None ->
  order_entry o' = set_status st (order_entry o) ->
  performed s (Move id st None) (append_audit a (put_order id o' s)).
Proof.
  intros Ho Hv E. eexists. simpl. rewrite Ho. simpl. rewrite Hv. split; [done|].
  by rewrite book_audit, book_put, E.
Qed.

(** Something is recorded about an order, which keeps its entry. *)
Lemma performed_note id o o' e msg a s :
  Event_MessageID e = msg ->
  ms_orders s !! id = Some o -> order_entry o' = order_entry o ->
  performed s (Note id (Some msg))
    (append_audit a (appendOutboxEvent e (put_order id o' s))).
Proof.
  intros <- Ho E. eexists. simpl. rewrite Ho. split; [done|].
  by rewrite book_event_audit, (book_put_same id o o' s Ho E).
Qed.

Lemma performed_note_silent id o a s :
  ms_orders s !! id = Some o -> performed s (Note id None) (append_audit a s).
Proof. intros Ho. eexists. simpl. rewrite Ho. split; [done|]. apply book_audit. Qed.

Lemma performed_insert m k o ev au s :
  ms_orders s !! Order_OrderID o = None -> Order_MerchantID o = m ->
  has_char ":"%char m = false -> is_ok (fst (MemoryStore_InsertOrder m k o ev au s)) = true ->
  performed s (Submit k (Order_OrderID o) (order_entry o) (Event_MessageID ev))
    (snd (MemoryStore_InsertOrder m k o ev au s)).
Proof.
  intros Hnew Ho Hm. rewrite insert_run. unfold performed. simpl. rewrite Ho, Hnew. unfold scoped.
  rewrite Hm. destruct (ms_ordersByIdempotency s !! _); [by eexists|].
  destruct (ms_ordersByExternal s !! _); [done|]. simpl. intros _. eexists. split; [done|].
  by apply book_inserted.
Qed.

Ltac open_op :=
  unfold run_op, discard, MemoryStore_UpdateOrderStatus, MemoryStore_RecordInventoryReserved,
    MemoryStore_RecordInventoryRejected, MemoryStore_RecordPaymentAuthorized,
    MemoryStore_RecordPaymentFailed, MemoryStore_RecordShipmentCreated,
    MemoryStore_RecordShipmentFailed, MemoryStore_RecordOrderCancelled,
    MemoryStore_RecordNotificationQueued, MemoryStore_RecordCompensation,
    bind, lookup_order, require, modify, ret;
  simpl;
  match goal with
  | |- context [ms_orders ?s !! ?id] => destruct (ms_orders s !! id) as [o|] eqn:Ho
  end; simpl;
  try (match goal with
       | |- context [ValidateOrderTransition ?a ?b] =>
           destruct (ValidateOrderTransition a b) eqn:Hv
       end; simpl).

(** Open one operation and apply the lemma of its kind. *)
Ltac perform_op :=
  open_op; try done; intros _;
  first [ eapply performed_move | eapply performed_move_silent
        | eapply performed_note | eapply performed_note_silent ]; try done;
  by repeat case_match.

Lemma memory_accepted op s :
  memory_pre s op -> is_ok (fst (run_op op s)) = true ->
  performed s (memory_request op) (snd (run_op op s)).
Proof.
  intros [Hpre Hm]. destruct op; try perform_op; simpl in *.
  - destruct Hpre as (Hnew & Ho & _). intros Hok. unfold discard, bind, ret in *.
    pose proof (performed_insert m k o ev au s Hnew Ho Hm) as H.
    destruct (MemoryStore_InsertOrder m k o ev au s) as [[|] s']; [by apply H|done].
  - intros _. eexists. split; [done|]. unfold discard, MemoryStore_PendingOutboxEvents, bind, ret.
    by destruct (claim_loop _ _ _ _ _ _ _).
  - intros _. by eexists.
Qed.

(** An operation fails only where the book refuses its request. *)
Lemma memory_refused op s :
  memory_pre s op -> is_ok (fst (run_op op s)) = false ->
  perform (memory_request op) (memory_book s) = None.
Proof.
  intros [Hpre Hm]. destruct op; try (by open_op); simpl in *.
  - destruct Hpre as (Hnew & Ho & _). unfold discard, bind, ret. rewrite insert_run.
    rewrite Ho. unfold scoped. rewrite Hm.
    destruct (ms_ordersByIdempotency s !! _); [done|]. by destruct (ms_ordersByExternal s !! _).
  - unfold discard, MemoryStore_PendingOutboxEvents, bind, ret. by destruct (claim_loop _ _ _ _ _ _ _).
  - done.
Qed.

#[export] Instance memory_impl : BookImpl MemoryStore StoreOp.
Proof.
  refine {| impl_run op s := (is_ok (fst (run_op op s)), snd (run_op op s));
            impl_request := memory_request; impl_book := memory_book; impl_pre := memory_pre |}.
  - intros s op s' Hpre [= Hok <-]. by apply memory_accepted.
  - intros s op s' Hpre [= Hok <-]. left.
    destruct (run_op op s) as [[|e] s'] eqn:E; [done|]. simpl.
    by rewrite (run_op_error_unchanged _ _ _ _ E).
Defined.

(** C7: the in-memory store is the abstract order book.  Every operation is
    accepted exactly when the book accepts its request; it then does to the
    orders, keys, external ids, outbox messages and audit entries what the book
    does, and otherwise it changes nothing at all. *)
Theorem memory_refines_book op s :
  memory_pre s op ->
  match run_op op s with
  | (Ok _, s') => exists b, perform (memory_request op) (memory_book s) = Some b
                            /\ memory_book s' ≡ b
  | (Err _, s') => perform (memory_request op) (memory_book s) = None /\ s' = s
  end.
Proof.
  intros Hpre. pose proof (memory_accepted op s Hpre) as Ha.
  pose proof (memory_refused op s Hpre) as Hr.
  destruct (run_op op s) as [[[]|e] s'] eqn:E; simpl in *; [by apply Ha|].
  split; [by apply Hr|]. by eapply run_op_error_unchanged.
Qed.

(** The sample submission on the empty store. *)
Lemma memory_refines_book_witness :
  exists b, perform (memory_request sample_insert) (memory_book NewMemoryStore) = Some b
            /\ memory_book sample_store ≡ b.
Proof.
  assert (Hpre : memory_pre NewMemoryStore sample_insert) by (by repeat split).
  pose proof (memory_refines_book sample_insert NewMemoryStore Hpre) as H.
  unfold sample_store. destruct (run_op sample_insert NewMemoryStore) as [[u|e] s'] eqn:E.
  - exact H.
  - vm_compute in E. discriminate E.
Defined.
