(* ===== verification/BookPg.v ===== *)
(** The PostgreSQL store refines the order book of [OrderBook]: each of its
    transactions run alone, its operations under failures of the connection,
    and any interleaving of its transactions. *)
From S2P Require Import Prelude GoStrings GoTime Model StateMachine MemoryStore MemoryInvariant.
From S2P Require Import Database PgStore PgAtomic PgStock PgOrders PgOutbox PgReplay PgSamples.
From S2P Require Import Transactions Interleaving Discipline SerialRuns Concurrency.
From S2P Require Import ConcurrencySamples OrderBook.

(** ** The book of a database *)

Definition row_entry (r : OrderRow) : Entry :=
  mkEntry (orders_merchant_id r) (orders_external_order_id r) (orders_total_amount r)
    (orders_status r).

Definition db_book (db : Database) : Book :=
  mkBook (fun id => row_entry <$> t_orders db !! id)
    (fun m k => t_idempotency_keys db !! (m, k))
    (fun m x => external_exists m x db)
    (map out_message_id (t_outbox_events db)) (length (t_audit_logs db)).

Definition pg_request (op : PgOp) : Request :=
  match op with
  | PgInsert m k o ev _ =>
      Submit k (Order_OrderID o)
        (mkEntry m (Order_ExternalOrderID o) (Money_Amount (Totals_Total (Order_Totals o)))
           (Order_Status o)) (Event_MessageID ev)
  | PgUpdate id st _ ev _ => Move id st (Some (Event_MessageID ev))
  | PgReserved src next _ =>
      Move (Event_OrderID src) StatusInventoryReserved (Some (Event_MessageID next))
  | PgAuthorized src next _ _ =>
      Move (Event_OrderID src) StatusPaymentAuthorized (Some (Event_MessageID next))
  | PgShipped src next _ _ =>
      Move (Event_OrderID src) StatusShipmentCreated (Some (Event_MessageID next))
  | PgCancelled src next _ =>
      Move (Event_OrderID src) StatusCancelled (Some (Event_MessageID next))
  | PgCompensated src st _ => Move (Event_OrderID src) st None
  | PgRejected src next _ | PgPaymentFailed src next _ | PgShipmentFailed src next _ =>
      Note (Event_OrderID src) (Some (Event_MessageID next))
  | PgNotified src _ => Note (Event_OrderID src) None
  | PgAudited _ => Audit
  | PgClaim _ | PgPublished _ _ | PgReceived _ _ | PgReleased _ _ => Housekeeping
  end.

(** The request of a transaction; a submission that found its key only reads. *)
Definition txn_request (t : Txn) : Request :=
  match t with
  | TInsert (Some _) _ _ _ _ _ => Housekeeping
  | _ => pg_request (txn_op t)
  end.

(** ** What leaves the book alone *)

Record same_book (db d : Database) : Prop := {
  sb_orders : t_orders d = t_orders db;
  sb_keys : t_idempotency_keys d = t_idempotency_keys db;
  sb_messages : map out_message_id (t_outbox_events d) = map out_message_id (t_outbox_events db);
  sb_audits : length (t_audit_logs d) = length (t_audit_logs db)
}.

#[export] Instance same_book_preorder : PreOrder same_book.
Proof. split; [by split|]. intros a b c [] []. split; congruence. Qed.

Lemma external_same m x db d : t_orders d = t_orders db -> external_exists m x d = external_exists m x db.
Proof. unfold external_exists. by intros ->. Qed.

Lemma same_book_equiv db d : same_book db d -> db_book d ≡ db_book db.
Proof.
  intros [Eo Ek Em Ea]. split_and!; simpl; try done; intros.
  - by rewrite Eo.
  - by rewrite Ek.
  - by apply external_same.
Qed.

(** Writes outside the book. *)
Definition quiet (w : Write) : bool :=
  match w with
  | WNewOrder _ _ | WSetOrder _ _ | WKey _ _ _ | WOutbox _ | WAudit _ => false
  | _ => true
  end.

Lemma quiet_write w db : quiet w = true -> same_book db (apply_write w db).
Proof.
  destruct w; intros Hq; try done; split; try done; simpl; rewrite map_map; apply map_ext;
    intros r; [by destruct (existsb _ _)|]. unfold mark_row. by destruct (_ && _).
Qed.

Lemma quiet_writes ws db : Forall (fun w => quiet w = true) ws -> same_book db (apply_writes ws db).
Proof.
  intros Hws. revert db. induction Hws as [|w ws Hw _ IH]; intros db; [done|].
  etransitivity; [by apply quiet_write|]. apply IH.
Qed.

Definition quiet_stmt {X} (s : Stmt X) : Prop :=
  forall db x ws ls, s db = Ok (x, ws, ls) -> Forall (fun w => quiet w = true) ws.

Lemma quiet_writing {X} (f : Database -> result (X * Database)) ws ls :
  (forall db, Forall (fun w => quiet w = true) (ws db)) -> quiet_stmt (writing f ws ls).
Proof. intros H db x w l (-> & _ & _)%writing_ok. apply H. Qed.

Lemma quiet_reading {X} (f : Database -> result X) ls : quiet_stmt (reading f ls).
Proof. intros db x w l (-> & _ & _)%reading_ok. constructor. Qed.

Lemma quiet_labelled {X} label (s : Stmt X) : quiet_stmt s -> quiet_stmt (labelled label s).
Proof. intros Hs db x w l H%labelled_ok. by eapply Hs. Qed.

Ltac quiet_stmt :=
  try apply quiet_labelled;
  first [ apply quiet_reading
        | apply quiet_writing; intros ?;
          first [ by repeat constructor | by repeat case_match; repeat constructor
                | by apply Forall_map, Forall_true ] ].

(** ** Programs and the book *)

(** Whenever the program succeeds on [db], it leaves the book [b]. *)
Definition turns (p : Prog) (db : Database) (b : Book) : Prop :=
  forall db', serial p db = Ok db' -> db_book db' ≡ b.

Lemma turns_done db b : db_book db ≡ b -> turns Done db b.
Proof. by intros H db' [= <-]. Qed.

Lemma turns_fail e db b : turns (Fail e) db b.
Proof. done. Qed.

(** A statement that leaves the book alone. *)
Lemma turns_quiet {X} g (s : Stmt X) k db b :
  quiet_stmt s ->
  (forall x ws ls d, s db = Ok (x, ws, ls) -> same_book db d -> turns (k x) d b) ->
  turns (Exec g s k) db b.
Proof.
  intros Hq Hk db' (x & ws & ls & H & Hrun)%serial_exec.
  refine (Hk x ws ls _ H _ db' Hrun). by apply quiet_writes; eapply Hq.
Qed.

Lemma with_entry_twice id e e' b : with_entry id e' (with_entry id e b) ≡ with_entry id e' b.
Proof. split_and!; try done. intros id'. simpl. by destruct (String.eqb id' id). Qed.

Lemma with_entry_same id e b : bk_order b id = Some e -> with_entry id e b ≡ b.
Proof.
  intros He. split_and!; try done. intros id'. simpl. by destruct (String.eqb_spec id' id) as [->|].
Qed.

Lemma external_iff m x db :
  external_exists m x db = true <->
  exists id r, t_orders db !! id = Some r
    /\ orders_merchant_id r = m /\ orders_external_order_id r = x.
Proof. rewrite external_exists_spec. unfold external_of. naive_solver. Qed.

(** An order row rewritten under the same merchant and external id. *)
Lemma book_set_row id r r' db d :
  t_orders db !! id = Some r ->
  orders_merchant_id r' = orders_merchant_id r ->
  orders_external_order_id r' = orders_external_order_id r ->
  d = set_orders (<[id := r']> (t_orders db)) db ->
  db_book d ≡ with_entry id (row_entry r') (db_book db).
Proof.
  intros Hr Em Ex ->. split_and!; try done; simpl.
  - intros id'. rewrite lookup_insert. destruct (String.eqb_spec id' id) as [->|];
      case_decide; try done; congruence.
  - intros m x. apply eq_true_iff_eq. rewrite !external_iff. simpl. split.
    + intros (id' & q & [[<- <-]|[_ Hq]]%lookup_insert_Some & H1 & H2); [|by eauto].
      exists id, r. split_and!; congruence.
    + intros (id' & q & Hq & H1 & H2). destruct (decide (id = id')) as [<-|Hne].
      * exists id, r'. rewrite lookup_insert_eq. split_and!; congruence.
      * exists id', q. by rewrite lookup_insert_ne.
Qed.

(** A new order row, under a merchant and external id that are free. *)
Lemma book_new_row id r k db d :
  t_orders db !! id = None -> t_orders d = <[id := r]> (t_orders db) ->
  t_idempotency_keys d = <[(orders_merchant_id r, k) := id]> (t_idempotency_keys db) ->
  map out_message_id (t_outbox_events d) = map out_message_id (t_outbox_events db) ->
  length (t_audit_logs d) = length (t_audit_logs db) ->
  db_book d ≡ placed k id (row_entry r) (db_book db).
Proof.
  intros Hnew Eo Ek Em Ea. split_and!; try done; simpl.
  - intros id'. rewrite Eo, lookup_insert. destruct (String.eqb_spec id' id) as [->|];
      case_decide; try done; congruence.
  - intros m' k'. rewrite Ek, lookup_insert. destruct (String.eqb_spec m' (orders_merchant_id r)),
      (String.eqb_spec k' k); simpl; case_decide; try done; congruence.
  - intros m' x'. apply eq_true_iff_eq. rewrite orb_true_iff, andb_true_iff, !String.eqb_eq, !external_iff, Eo.
    simpl. split.
    + intros (id' & q & [[<- <-]|[_ Hq]]%lookup_insert_Some & H1 & H2); [by left|]. right. eauto.
    + intros [[-> ->]|(id' & q & Hq & H1 & H2)].
      * exists id, r. by rewrite lookup_insert_eq.
      * exists id', q. rewrite lookup_insert_ne by congruence. done.
Qed.

Section Programs.
Variable env : PgEnv.

Lemma identity_keeps_keys f r :
  keeps_identity f -> orders_merchant_id (f r) = orders_merchant_id r
                      /\ orders_external_order_id (f r) = orders_external_order_id r
                      /\ orders_total_amount (f r) = orders_total_amount r.
Proof using Type. intros Hf. by rewrite <- (Hf r). Qed.

Lemma turns_update label id f k db b r :
  keeps_identity f -> t_orders db !! id = Some r ->
  (forall d, t_orders d !! id = Some (f r) ->
     db_book d ≡ with_entry id (row_entry (f r)) (db_book db) -> turns k d b) ->
  turns (update_prog env label id f k) db b.
Proof using Type.
  intros Hf Hr Hk db' (n & d & Hu & Hrun)%serial_update; [|done].
  apply update_order_ok in Hu. rewrite Hr in Hu. destruct Hu as [_ Ed].
  destruct (identity_keeps_keys f r Hf) as (Em & Ex & _).
  refine (Hk d _ _ db' Hrun); [by rewrite Ed; simpl; rewrite lookup_insert_eq|].
  by eapply book_set_row.
Qed.

Lemma turns_update_checked label id f k db b r :
  keeps_identity f -> t_orders db !! id = Some r ->
  (forall d, t_orders d !! id = Some (f r) ->
     db_book d ≡ with_entry id (row_entry (f r)) (db_book db) -> turns k d b) ->
  turns (update_checked_prog env label id f k) db b.
Proof using Type.
  intros Hf Hr Hk db' (n & ws & ls & H & Hrun)%serial_labelled.
  eapply performs_ok in H; [|by apply performs_update]. apply update_order_ok in H.
  rewrite Hr in H. destruct H as [-> Ed]. simpl in Hrun.
  destruct (identity_keeps_keys f r Hf) as (Em & Ex & _).
  refine (Hk _ _ _ db' Hrun); [by rewrite Ed; simpl; rewrite lookup_insert_eq|].
  by eapply book_set_row.
Qed.

(** An update that shows nothing in the book. *)
Lemma turns_touch label id f k db b r :
  keeps_identity f -> t_orders db !! id = Some r -> row_entry (f r) = row_entry r ->
  (forall d, t_orders d !! id = Some (f r) -> db_book d ≡ db_book db -> turns k d b) ->
  turns (update_prog env label id f k) db b.
Proof using Type.
  intros Hf Hr E Hk. eapply turns_update; [done..|]. intros d Hd Hb. apply Hk; [done|].
  rewrite Hb, E. apply with_entry_same. simpl. by rewrite Hr.
Qed.

(** The order locked and its move allowed. *)
Lemma turns_lock id st k db b :
  (forall r, t_orders db !! id = Some r -> ValidateOrderTransition (orders_status r) st = None ->
     turns k db b) ->
  turns (lock_prog id st k) db b.
Proof using Type. intros Hk db' [(r & Hr & Hv) Hrun]%serial_lock. by eapply Hk. Qed.

Lemma turns_audit au k db b :
  (forall d, t_orders d = t_orders db -> db_book d ≡ logged None (db_book db) -> turns k d b) ->
  turns (audit_prog env au k) db b.
Proof using Type.
  intros Hk db' (row & Hrun)%serial_audit. refine (Hk _ _ _ db' Hrun); [done|].
  split_and!; try done; simpl; [by rewrite app_nil_r|rewrite length_app; simpl; lia].
Qed.

(** The event and the audit entry that end most transactions. *)
Lemma turns_event ev au k db b :
  (forall d, t_orders d = t_orders db ->
     db_book d ≡ logged (Some (Event_MessageID ev)) (db_book db) -> turns k d b) ->
  turns (outbox_prog env ev (audit_prog env au k)) db b.
Proof using Type.
  intros Hk db'. unfold outbox_prog. destruct (pg_marshal env _) as [p|]; [|done].
  intros (x & ws & ls & H & Hrun)%serial_labelled. unfold stmt_insert_outbox in H.
  apply writing_ok in H as (-> & _ & d & H). unfold insert_outbox_row in H.
  destruct (pg_jsonb env p) as [p'|]; [|done]. revert db' Hrun. apply turns_audit.
  intros d' Ed' Hd'. apply Hk; [done|]. rewrite Hd'. destruct (envelope_fields ev) as (HM & _).
  split_and!; try done; simpl. rewrite app_nil_r, map_app. simpl. by rewrite HM.
Qed.

(** ** The transactions *)

(** The transaction does to the book what its request says. *)
Definition carried_out (req : Request) (p : Prog) (db : Database) : Prop :=
  forall db', serial p db = Ok db' ->
  exists b, perform req (db_book db) = Some b /\ db_book db' ≡ b.

Lemma carried_move id st message p db :
  (forall r, t_orders db !! id = Some r ->
     turns p db (logged message (with_entry id (set_status st (row_entry r)) (db_book db)))) ->
  carried_out (Move id st message) (lock_prog id st p) db.
Proof using Type.
  intros Hp db' [(r & Hr & Hv) Hrun]%serial_lock. simpl. rewrite Hr. simpl. rewrite Hv.
  eexists. split; [done|]. by apply (Hp r Hr).
Qed.

Lemma carried_note g id message p db :
  (forall r, t_orders db !! id = Some r -> turns p db (logged message (db_book db))) ->
  carried_out (Note id message) (Exec g (require_order id) (fun _ => p)) db.
Proof using Type.
  intros Hp db' (x & ws & ls & H & Hrun)%serial_exec. unfold require_order in H.
  apply reading_ok in H as (-> & _ & H). destruct (t_orders db !! id) as [r|] eqn:Hr; [|done].
  simpl. rewrite Hr. eexists. split; [done|]. by apply (Hp r eq_refl).
Qed.

Lemma carried_silent p db : turns p db (db_book db) -> carried_out Housekeeping p db.
Proof using Type. intros Hp db' Hrun. eexists. split; [done|]. by apply Hp. Qed.

(** Following a transaction to the book it leaves. *)
Ltac row_known :=
  repeat match goal with
  | H : same_book ?a ?d |- context [t_orders ?d] => rewrite (sb_orders _ _ H)
  | H : t_orders ?d = _ |- context [t_orders ?d] => rewrite H
  end; eassumption.

Ltac book_known :=
  repeat match goal with
  | H : db_book ?d ≡ _ |- context [db_book ?d] => rewrite H; clear H
  | H : same_book ?a ?d |- context [db_book ?d] => rewrite (same_book_equiv _ _ H); clear H
  end; rewrite ?with_entry_twice; done.

Ltac identity := first [apply identity_status|apply identity_touch|apply identity_void|by intros []].

Ltac turn :=
  cbv zeta;
  lazymatch goal with
  | |- turns Done _ _ => apply turns_done; book_known
  | |- turns (Fail _) _ _ => apply turns_fail
  | |- turns (update_checked_prog _ _ _ _ _) _ _ =>
      eapply turns_update_checked; [identity|row_known|intros]
  | |- turns (update_prog _ _ _ _ _) _ _ =>
      first [eapply turns_touch; [identity|row_known|reflexivity|intros]
            |eapply turns_update; [identity|row_known|intros]]
  | |- turns (outbox_prog _ _ _) _ _ => apply turns_event; intros
  | |- turns (audit_prog _ _ _) _ _ => apply turns_audit; intros
  | |- turns (Exec _ _ _) _ _ => apply turns_quiet; [quiet_stmt|intros]
  end.

Lemma turns_reserve m id item at_ pick (k : string -> Prog) db b :
  (forall w d, same_book db d -> turns (k w) d b) ->
  turns (reserve_prog env m id item at_ pick k) db b.
Proof using Type.
  intros Hk. unfold reserve_prog.
  assert (forall d, same_book db d ->
            turns (Exec unguarded (stmt_take_picked env m item at_ pick) k) d b) as Htake.
  { intros d Hd. turn. apply Hk. by etrans. }
  apply turns_quiet; [apply quiet_reading|]. intros existing ws ls d _ Hd.
  destruct existing as [r|]; [|by apply Htake].
  destruct (String.eqb (res_status r) "reserved"); [|by apply Htake].
  destruct (negb _); [apply turns_fail|by apply Hk].
Qed.

Lemma turns_lines src next items picks (k : list any -> Prog) db b :
  (forall lines d, same_book db d -> turns (k lines) d b) ->
  turns (reserve_lines env src next items picks k) db b.
Proof using Type.
  revert picks k db. induction items as [|item items IH]; intros picks k db Hk; [by apply Hk|].
  apply turns_reserve. intros w d Hd. turn. apply IH. intros lines d2 Hd2. apply Hk.
  by do 2 (etrans; [eassumption|]).
Qed.

Lemma turns_release id at_ k db b :
  (forall d, same_book db d -> turns k d b) -> turns (release_prog env id at_ k) db b.
Proof using Type.
  intros Hk. unfold release_prog. do 3 turn. apply Hk. by do 2 (etrans; [eassumption|]).
Qed.

Lemma void_row_entry r : row_entry (void_row r) = row_entry r.
Proof using Type. unfold void_row. by case_bool_decide. Qed.

Lemma turns_void id at_ k db b r :
  t_orders db !! id = Some r ->
  (forall d r', t_orders d !! id = Some r' -> row_entry r' = row_entry r ->
     db_book d ≡ db_book db -> turns k d b) ->
  turns (void_prog env id at_ k) db b.
Proof using Type.
  intros Hr Hk. unfold void_prog. turn.
  eapply turns_touch; [apply identity_void|row_known|apply void_row_entry|].
  intros d' Hd' Hb. eapply Hk; [exact Hd'|apply void_row_entry|]. book_known.
Qed.

Lemma turns_effects src at_ k db b r :
  t_orders db !! Event_OrderID src = Some r ->
  (forall d, db_book d ≡ db_book db -> turns k d b) ->
  turns (effects_prog env src at_ k) db b.
Proof using Type.
  intros Hr Hk. unfold effects_prog.
  assert (forall d, same_book db d ->
            turns (if String.eqb (Event_EventType src) "shipment.failed"
                   then void_prog env (Event_OrderID src) at_ k else k) d b) as Hvoid.
  { intros d Hd. destruct (String.eqb _ "shipment.failed").
    - eapply turns_void; [row_known|]. intros. apply Hk. book_known.
    - apply Hk. book_known. }
  destruct (one_of _ _); [by apply turns_release|by apply Hvoid].
Qed.

Lemma turns_items id items k db b :
  (forall d, same_book db d -> turns k d b) -> turns (items_prog env id items k) db b.
Proof using Type.
  revert db. induction items as [|item items IH]; intros db Hk; [by apply Hk|]. simpl. turn.
  apply IH. intros d' Hd'. apply Hk. by etrans.
Qed.

Lemma turns_key g label m key id k db b :
  (forall d, d = set_idempotency_keys (<[(m, key) := id]> (t_idempotency_keys db)) db ->
     turns k d b) ->
  turns (Exec g (labelled label (stmt_insert_key env m key id)) (fun _ => k)) db b.
Proof using Type.
  intros Hk db' (u & ws & ls & H & Hrun)%serial_labelled.
  eapply performs_ok in H; [|apply performs_insert_key]. unfold insert_idempotency_row in H.
  case_bool_decide; [done|]. destruct (negb _); [done|]. injection H as _ E.
  by apply (Hk _ (eq_sym E)).
Qed.

Lemma insert_carried m k o ev au db :
  carried_out (pg_request (PgInsert m k o ev au)) (insert_prog env None m k o ev au) db.
Proof using Type.
  intros db' Hrun. destruct (insert_binds env m k o ev au db db' Hrun) as [Hkey _].
  apply serial_exec in Hrun as (u & ws & ls & H & Hrun). apply reading_ok in H as (-> & _ & _).
  change (apply_writes [] db) with db in Hrun.
  apply serial_labelled in Hrun as (u1 & ws & ls1 & H & Hrun).
  assert (same_book db (apply_writes ws db)) as H1.
  { apply quiet_writes. revert H. assert (quiet_stmt (stmt_upsert_merchant m)) as Hq by quiet_stmt.
    apply Hq. }
  set (d1 := apply_writes ws db) in *. clearbody d1.
  apply serial_exec in Hrun as (u2 & ws2 & ls2 & H2 & Hrun).
  eapply performs_ok in H2; [|apply performs_insert_order]. simpl in H2.
  destruct (insert_order_row env m o d1) as [[u3 d2]|] eqn:Hins; [|done]. injection H2 as _ E2.
  apply insert_order_row_ok in Hins as (cur & _ & Hnew & Hext & Ed2). rewrite <- E2 in Hrun.
  simpl. rewrite Hkey. pose proof (sb_orders _ _ H1) as E1.
  rewrite <- (external_same m (Order_ExternalOrderID o) db d1 E1), Hext, <- E1, Hnew.
  eexists. split; [done|].
  revert db' Hrun. apply (turns_items (Order_OrderID o) (Order_Items o)). intros d3 H3.
  apply turns_key. intros d4 E4. apply turns_event. intros d _ Hb. apply turns_done.
  rewrite Hb. apply logged_proper. subst d4 d2.
  apply (book_new_row (Order_OrderID o) (order_row m cur o) k); simpl.
  - by rewrite <- E1.
  - by rewrite (sb_orders _ _ H3), <- E1.
  - rewrite (sb_keys _ _ H3). simpl. by rewrite (sb_keys _ _ H1).
  - rewrite (sb_messages _ _ H3). simpl. by apply sb_messages.
  - rewrite (sb_audits _ _ H3). simpl. by apply sb_audits.
Qed.

Lemma txn_carried t db : carried_out (txn_request t) (program env t) db.
Proof using Type.
  destruct t as [[id|] m k o ev au|id st now ev au|picks src next au|src next au|src next p au
    |provider src next au|src next sh au|src next au|src next au|src au|src st au|au
    |now ids limit|id at_|fresh consumer ev|found consumer ev]; cbn [txn_request txn_op pg_request program].
  - apply carried_silent. unfold insert_prog. repeat turn.
  - apply insert_carried.
  - apply carried_move. intros r Hr. repeat turn.
  - apply carried_move. intros r Hr. apply turns_quiet; [apply quiet_reading|]. intros items ws ls d _ Hd.
    apply turns_lines. intros lines d' Hd'. repeat turn.
  - apply carried_note. intros r Hr. repeat turn.
  - apply carried_move. intros r Hr. repeat turn.
  - apply carried_note. intros r Hr. repeat turn.
  - apply carried_move. intros r Hr. repeat turn.
  - apply carried_note. intros r Hr. repeat turn.
  - apply carried_move. intros r Hr. turn. apply turns_release. intros d' Hd'.
    eapply turns_void; [row_known|]. intros. repeat turn.
  - apply carried_note. intros r Hr. repeat turn.
  - apply carried_move. intros r Hr. turn. eapply turns_effects; [row_known|]. intros. repeat turn.
  - intros db' Hrun. eexists. split; [done|]. revert db' Hrun. change (turns (audit_prog env au Done) db
      (logged None (db_book db))). repeat turn.
  - apply carried_silent. repeat turn.
  - apply carried_silent. repeat turn.
  - apply carried_silent. destruct fresh; repeat turn.
  - apply carried_silent. destruct found; repeat turn.
Qed.

(** A list of transactions performs the list of their requests. *)
Lemma runs_carried ts db db' :
  serial_runs env ts db = Ok db' ->
  exists b, perform_all (map txn_request ts) (db_book db) = Some b /\ db_book db' ≡ b.
Proof using Type.
  revert db. induction ts as [|t ts IH]; simpl; intros db.
  { intros [= <-]. by eexists. }
  destruct (serial (program env t) db) as [d|] eqn:E; [|done]. intros (b & Hb & Hdb)%IH.
  destruct (txn_carried t db d E) as (c & -> & Hc).
  destruct (perform_all_equiv _ _ _ _ Hc Hb) as (c' & Hc' & Hcc). exists c'. by rewrite Hdb.
Qed.

(** ** Operations *)

Definition pg_performed (c : Conn) (req : Request) (c' : Conn) : Prop :=
  exists b, perform req (db_book (conn_db c)) = Some b /\ db_book (conn_db c') ≡ b.

(** What a transaction that runs alone requests is what its operation requests:
    the key that a submission found is bound. *)
Lemma alone_request t c db' :
  runs_alone env t c -> serial (program env t) (conn_db c) = Ok db' ->
  exists b, perform (pg_request (txn_op t)) (db_book (conn_db c)) = Some b /\ db_book db' ≡ b.
Proof using Type.
  intros [Hg _] Hs. pose proof (txn_carried t (conn_db c) db' Hs) as H.
  destruct t as [[id|] m k o ev au| | | | | | | | | | | | | | |]; try exact H.
  apply andb_true_iff in Hg as [Hfound%bool_decide_eq_true _]. simpl in *. by rewrite Hfound.
Qed.

(** An operation without failures is performed, or refused and without effect. *)
Lemma operation_carried `{!PgOrdering env} op c :
  let out := pg_run (without_faults env) op c in
  pg_performed c (pg_request op) (snd out)
  \/ is_ok (fst out) = false /\ conn_db (snd out) = conn_db c.
Proof using Type.
  intros out. destruct (operation_has_program env op c) as (t & <- & Ht).
  pose proof Ht as [_ H]. fold out in H.
  destruct (serial (program env t) (conn_db c)) as [db'|e] eqn:E.
  - left. destruct H as [Hdb _]. unfold pg_performed. rewrite Hdb. by eapply alone_request.
  - right. destruct H as [-> Hdb]. done.
Qed.

(** The same under failures of the connection. *)
Lemma faulty_carried `{!PgOrdering env} op c :
  let out := pg_run env op c in
  pg_performed c (pg_request op) (snd out)
  \/ is_ok (fst out) = false /\ conn_db (snd out) = conn_db c.
Proof using Type.
  intros out. destruct (operation_carried op c) as [(b & Hb & Hc)|[Hok Hc]];
    destruct (faulty_run env op c) as [[E1 E2]|[E1 [E2|E2]]]; fold out in E1, E2.
  all: try (right; split; congruence).
  all: left; exists b; split; [done|]; by rewrite E2.
Qed.

(** C6: the PostgreSQL store is the abstract order book, the connection failing
    at any call: an operation the book refuses reports an error and changes
    nothing; one the book accepts does to the orders, keys, external ids, outbox
    messages and audit entries what the book does, or reports an error and
    changes nothing. *)
Theorem pg_refines_book `{!PgOrdering env} op c :
  let out := pg_run env op c in
  match perform (pg_request op) (db_book (conn_db c)) with
  | None => is_ok (fst out) = false /\ conn_db (snd out) = conn_db c
  | Some b =>
      db_book (conn_db (snd out)) ≡ b
      \/ is_ok (fst out) = false /\ conn_db (snd out) = conn_db c
  end.
Proof using Type.
  intros out. destruct (faulty_carried op c) as [(b & -> & Hb)|H]; [by left|].
  destruct (perform _ _); [by right|done].
Qed.

(** C5: whatever transactions run at the same time, in any interleaving, the
    committed database shows the book after the requests of the transactions that
    committed, performed one by one in the order of their commits; in
    particular orders keep their merchant, external id and total and move along
    the life cycle, keys stay bound, and every message has its audit entry. *)
Theorem concurrent_refines_book db es w :
  run env (start db) es = Some w ->
  (exists b, perform_all (map txn_request (w_history w)) (db_book db) = Some b
             /\ db_book (w_committed w) ≡ b)
  /\ book_extends (db_book db) (db_book (w_committed w)).
Proof using Type.
  intros H%run_invariant. pose proof (runs_carried _ _ _ (wo_history _ _ _ H)) as (b & Hb & Hw).
  split; [by eexists|]. rewrite Hw. by eapply perform_all_extends.
Qed.

End Programs.

(** ** The implementation of the book *)

#[export] Instance pg_impl env `{!PgOrdering env} : BookImpl Conn PgOp.
Proof.
  refine {| impl_run op c := (is_ok (fst (pg_run env op c)), snd (pg_run env op c));
            impl_request := pg_request; impl_book c := db_book (conn_db c);
            impl_pre _ _ := True |}.
  - intros c op c' _ [= Hok <-]. destruct (faulty_carried env op c) as [H|[Hno _]]; [done|congruence].
  - intros c op c' _ [= Hno <-]. destruct (faulty_carried env op c) as [H|[_ ->]]; [by right|by left].
Defined.

(** Any operations with any failures are a run of the implementation, so the
    book's history holds of PostgreSQL. *)
Lemma pg_runs_steps env `{!PgOrdering env} ops c :
  @impl_steps Conn PgOp (pg_impl env) c ops (pg_runs env ops c).
Proof.
  revert c. induction ops as [|op ops IH]; intros c; [apply impl_stop|].
  apply (impl_next (H := pg_impl env)); [done|]. apply IH.
Qed.

Theorem pg_book_history env `{!PgOrdering env} ops c :
  book_extends (db_book (conn_db c)) (db_book (conn_db (pg_runs env ops c))).
Proof. exact (impl_history _ _ _ (pg_runs_steps env ops c)). Qed.

(** ** Samples *)

(** The reservation of the sample order. *)
Lemma sample_reserve_ok : is_ok (fst (pg_run pg_sample pg_reserve pg_inserted)) = true.
Proof. vm_compute. reflexivity. Qed.

Lemma pg_refines_book_witness :
  exists b, perform (pg_request pg_reserve) (db_book (conn_db pg_inserted)) = Some b
            /\ db_book (conn_db (snd (pg_run pg_sample pg_reserve pg_inserted))) ≡ b.
Proof.
  pose proof (pg_refines_book pg_sample pg_reserve pg_inserted) as H. cbv zeta in H.
  rewrite sample_reserve_ok in H.
  destruct (perform (pg_request pg_reserve) (db_book (conn_db pg_inserted))) as [b|].
  - exists b. split; [reflexivity|]. by destruct H as [H|[H _]].
  - destruct H as [H _]. discriminate H.
Defined.

Lemma concurrent_refines_book_witness :
  book_extends (db_book catalogue) (db_book (w_committed raced_world)).
Proof. exact (proj2 (concurrent_refines_book pg_sample _ _ _ raced_runs)). Defined.
