(* ===== verification/StoresAgree.v ===== *)
(** The two stores are interchangeable: what PostgreSQL accepts, the in-memory
    store accepts, and they show the same order book. *)
From S2P Require Import Prelude GoStrings GoStringsFacts GoTime Model StateMachine Service.
From S2P Require Import MemoryStore MemoryInvariant MemoryQueries.
From S2P Require Import Database PgStore PgAtomic PgStock PgOrders PgOutbox PgReplay PgSamples.
From S2P Require Import OrderBook BookMemory BookPg.

(** The call of the store interface, made on PostgreSQL. *)
Definition pg_op (op : StoreOp) : PgOp :=
  match op with
  | OpInsert m k o ev au => PgInsert m k o ev au
  | OpUpdate id st now ev au => PgUpdate id st now ev au
  | OpReserved src next au => PgReserved src next au
  | OpRejected src next au => PgRejected src next au
  | OpAuthorized src next p au => PgAuthorized src next p au
  | OpPaymentFailed src next au => PgPaymentFailed src next au
  | OpShipped src next sh au => PgShipped src next sh au
  | OpShipmentFailed src next au => PgShipmentFailed src next au
  | OpCancelled src next au => PgCancelled src next au
  | OpNotified src au => PgNotified src au
  | OpCompensated src st au => PgCompensated src st au
  | OpClaim limit _ => PgClaim limit
  | OpPublished id at_ => PgPublished id at_
  end.

(** Both stores ask the same of the book. *)
Lemma same_request s op : memory_pre s op -> pg_request (pg_op op) = memory_request op.
Proof. by destruct op; intros [(_ & <- & _) _] || intros _. Qed.

(** An accepted request is never refused by the in-memory store. *)
Lemma memory_accepts_performed op s b :
  memory_pre s op -> perform (memory_request op) (memory_book s) = Some b ->
  impl_run op s = (true, snd (run_op op s)).
Proof.
  intros Hpre Hb. simpl. destruct (is_ok (fst (run_op op s))) eqn:E; [done|].
  by rewrite (memory_refused op s Hpre E) in Hb.
Qed.

Section Agreement.
Context (env : PgEnv) `{!PgOrdering env}.

Notation pg_accepts := (@impl_accepts Conn PgOp (pg_impl env)).

Lemma pg_impl_run op c :
  is_ok (fst (pg_run env op c)) = true ->
  @impl_run Conn PgOp (pg_impl env) op c = (true, snd (pg_run env op c)).
Proof using All.
  intros H. change (impl_run op c) with (is_ok (fst (pg_run env op c)), snd (pg_run env op c)).
  by rewrite H.
Qed.

Lemma operation_agrees op s c c' :
  memory_pre s op -> memory_book s ≡ db_book (conn_db c) ->
  pg_run env (pg_op op) c = (Ok tt, c') ->
  impl_run op s = (true, snd (run_op op s))
  /\ memory_book (snd (run_op op s)) ≡ db_book (conn_db c').
Proof using All.
  intros Hpre Hbook Hrun.
  destruct (faulty_carried env (pg_op op) c) as [(b & Hb & Hc)|[Hno _]]; [|by rewrite Hrun in Hno].
  rewrite Hrun in Hc. rewrite (same_request s op Hpre) in Hb.
  destruct (perform_equiv _ _ _ _ (symmetry Hbook) Hb) as (b' & Hb' & Hbb).
  pose proof (memory_accepts_performed op s b' Hpre Hb') as Hok. split; [done|].
  injection Hok as Hok. destruct (memory_accepted op s Hpre Hok) as (d & Hd & Hs).
  rewrite Hb' in Hd. injection Hd as <-. by rewrite Hs, Hc.
Qed.

(** C4: the in-memory store is a faithful stand-in for PostgreSQL: starting from
    the same book, every sequence of calls that PostgreSQL accepts is accepted
    call by call by the in-memory store too, and at the end both have the same
    orders with the same status and totals, the same bound keys and external ids,
    the same outbox messages in the same order, and as many audit entries. *)
Theorem stores_agree ops s s' c c' :
  impl_steps s ops s' -> memory_book s ≡ db_book (conn_db c) ->
  pg_accepts c (map pg_op ops) c' ->
  impl_accepts s ops s' /\ memory_book s' ≡ db_book (conn_db c').
Proof using All.
  intros Hsteps. revert c. induction Hsteps as [s|s op ops s' Hpre _ IH]; intros c Hbook Hpg.
  { inversion Hpg; subst. split; [constructor|done]. }
  inversion Hpg as [|? ? ? c1 ? _ Hrun Hrest]; subst. simpl in Hrun.
  destruct (pg_run env (pg_op op) c) as [[[]|] d] eqn:E; [|done]. injection Hrun as ->.
  destruct (operation_agrees op s c c1 Hpre Hbook E) as [Hok Hb].
  destruct (IH c1 Hb Hrest) as [Hacc Hfin]. split; [|done]. by eapply accepts_next.
Qed.

End Agreement.

(** ** Samples *)

(** The sample order, submitted and reserved. *)
Definition sample_calls : list StoreOp :=
  [OpInsert "mer_1" "idem-key-0001" sample_order (pg_event "msg_1" "order.created") pg_audit;
   OpReserved (pg_event "msg_1" "order.created") (pg_event "msg_2" "inventory.reserved") pg_audit].

Definition sample_end : MemoryStore :=
  fold_left (fun s op => snd (run_op op s)) sample_calls NewMemoryStore.

Lemma empty_books : memory_book NewMemoryStore ≡ db_book (conn_db pg_start).
Proof.
  split_and!; try done; intros m k; simpl; unfold scoped; by destruct (has_char _ m).
Qed.

Lemma sample_steps : impl_steps NewMemoryStore sample_calls sample_end.
Proof. repeat (econstructor; [by repeat split|]). apply impl_stop. Qed.

Lemma calls_accepted :
  is_ok (fst (pg_run pg_sample pg_insert pg_start)) = true
  /\ is_ok (fst (pg_run pg_sample pg_reserve pg_inserted)) = true.
Proof. vm_compute. by split. Qed.

Lemma sample_pg_accepts :
  @impl_accepts Conn PgOp (pg_impl pg_sample) pg_start (map pg_op sample_calls) pg_reserved.
Proof.
  destruct calls_accepted as [H1 H2].
  eapply (accepts_next (H := pg_impl pg_sample)); [exact I|exact (pg_impl_run pg_sample _ _ H1)|].
  eapply (accepts_next (H := pg_impl pg_sample)); [exact I|exact (pg_impl_run pg_sample _ _ H2)|].
  apply accepts_stop.
Qed.

Lemma stores_agree_witness :
  memory_book sample_end ≡ db_book (conn_db pg_reserved).
Proof.
  exact (proj2 (stores_agree pg_sample sample_calls NewMemoryStore sample_end pg_start pg_reserved
                  sample_steps empty_books sample_pg_accepts)).
Defined.
