(* ===== verification/Tracing.v ===== *)
(** The process-wide tracing configuration, [internal/observability/tracing.go],
    with the globals of the tracing library it sets. *)
From S2P Require Import Prelude GoStrings GoTime Service Telemetry Settings.

(** The globals: the propagators in their order, and the provider of tracers. *)
Inductive Provider : Type :=
(** what the library starts with *)
| DefaultProvider
| NoopProvider
(** a batching provider over an exporter, for a service *)
| BatchProvider (exporter serviceName : string).

Record OtelGlobals := mkOtelGlobals {
  og_propagators : list string;
  og_provider : Provider
}.

(** What is returned to be called at exit. *)
Inductive Shutdown : Type :=
| ShutdownNothing
| ShutdownProvider (p : Provider).

(** [getenv] and [logger] may be nil; the log is what the logger was given. *)
Definition configure_tracing (getenv : option (string -> string)) (env : Env)
    (build : string -> result unit) (logger : bool) (defaultServiceName : string)
    : M (OtelGlobals * list LogEntry) Shutdown :=
  match getenv with
  | None => throw (Text "getenv is required")
  | Some getenv =>
      let! _ := modify (fun st => (mkOtelGlobals ["tracecontext"; "baggage"] (og_provider (fst st)),
                                   snd st)) in
      let exporterName := ToLower env (TrimSpace (getenv "OTEL_TRACES_EXPORTER")) in
      if String.eqb exporterName "" || String.eqb exporterName "none" then
        let! _ := modify (fun st => (mkOtelGlobals (og_propagators (fst st)) NoopProvider, snd st)) in
        ret ShutdownNothing
      else
        let serviceName := TrimSpace (getenv "OTEL_SERVICE_NAME") in
        let serviceName := if String.eqb serviceName "" then defaultServiceName else serviceName in
        if String.eqb serviceName "" then throw (Text "service name is required") else
        match newTraceExporter build exporterName with
        | Err e => throw e
        | Ok _ =>
            let provider := BatchProvider exporterName serviceName in
            let! _ := modify (fun st => (mkOtelGlobals (og_propagators (fst st)) provider, snd st)) in
            let! _ := if logger then modify (fun st => (fst st, snd st
                        ++ [mkLogEntry LevelInfo "otel tracing enabled"
                              [("exporter", AttrString exporterName);
                               ("service_name", AttrString serviceName)]]))
                      else ret tt in
            ret (ShutdownProvider provider)
        end
  end.

Definition provider_of_mode (mode : TraceMode) : Provider :=
  match mode with TracingOff => NoopProvider | TracingOn e s => BatchProvider e s end.

(** The outcome is the mode the processes start with.  With it the provider is
    set, and what is shut down at exit is that provider; with an error the provider
    is as before, while the propagators are set all the same, so that contexts of
    messages are passed on. *)
Theorem configure_tracing_outcome getenv env build logger name st :
  match ConfigureTracing getenv env build name,
        configure_tracing (Some getenv) env build logger name st with
  | Ok mode, (Ok shutdown, (g, _)) =>
      og_provider g = provider_of_mode mode
      /\ shutdown = match mode with
                    | TracingOff => ShutdownNothing
                    | TracingOn _ _ => ShutdownProvider (og_provider g)
                    end
  | Err e, (Err e', (g, log)) => e = e' /\ og_provider g = og_provider (fst st) /\ log = snd st
  | _, _ => False
  end
  /\ og_propagators (fst (snd (configure_tracing (Some getenv) env build logger name st)))
     = ["tracecontext"; "baggage"].
Proof.
  unfold ConfigureTracing, configure_tracing, bind, modify, ret, throw.
  destruct (String.eqb _ "" || String.eqb _ "none"); [done|].
  destruct (String.eqb (if String.eqb _ "" then name else _) ""); [done|].
  destruct (newTraceExporter build _); [|done]. by destruct logger.
Qed.
