(* ===== verification/Spans.v ===== *)
(** Spans: the calls the program makes on the tracing library, as a log beside
    the state of the traced code.

    Code passes the span it is in through its [context.Context]; here that is an
    argument [ctx].  A traced program is related to the program without its spans
    ([traces]): it has the same results and the same effects, and its calls on the
    library are well nested.  The relation is proved combinator by combinator. *)
From S2P Require Import Prelude GoStrings Telemetry.

(** ** Calls on the library *)

(** The span of a [context.Context]: none, one of another process that came with
    a message, or one of this process. *)
Inductive Parent (SC : Type) : Type :=
| NoSpan
| Remote (sc : SC)
| Child (span : nat).

Arguments NoSpan {SC}.
Arguments Remote {SC} sc.
Arguments Child {SC} span.

(** Spans are numbered in the order of their starts. *)
Inductive TraceCall (SC : Type) : Type :=
| CallStart (span : nat) (ctx : Parent SC) (name : string) (attrs : list Attr)
| CallSetAttributes (span : nat) (attrs : list Attr)
| CallRecordError (span : nat) (e : error)
| CallSetStatus (span : nat) (description : string)
| CallEnd (span : nat).

Arguments CallStart {SC}.
Arguments CallSetAttributes {SC}.
Arguments CallRecordError {SC}.
Arguments CallSetStatus {SC}.
Arguments CallEnd {SC}.

Record Traced (SC S : Type) := mkTraced {
  tr_state : S;
  tr_calls : list (TraceCall SC);
  tr_next : nat
}.

Arguments mkTraced {SC S}.
Arguments tr_state {SC S}.
Arguments tr_calls {SC S}.
Arguments tr_next {SC S}.

Section Calls.
Context {SC S : Type}.

Definition trace_call (call : TraceCall SC) : M (Traced SC S) unit :=
  fun t => (Ok tt, mkTraced (tr_state t) (tr_calls t ++ [call]) (tr_next t)).

(** [tracer.Start(ctx, name, trace.WithAttributes(attrs...))] *)
Definition start_span (ctx : Parent SC) (name : string) (attrs : list Attr)
    : M (Traced SC S) nat :=
  fun t => (Ok (tr_next t),
            mkTraced (tr_state t) (tr_calls t ++ [CallStart (tr_next t) ctx name attrs])
              (Datatypes.S (tr_next t))).

Definition set_span_attributes (span : nat) (attrs : list Attr) : M (Traced SC S) unit :=
  trace_call (CallSetAttributes span attrs).

(** [span.RecordError(err); span.SetStatus(codes.Error, description)] *)
Definition fail_span (span : nat) (description : string) (e : error) : M (Traced SC S) unit :=
  let! _ := trace_call (CallRecordError span e) in
  trace_call (CallSetStatus span description).

Definition end_span (span : nat) : M (Traced SC S) unit := trace_call (CallEnd span).

(** What makes no calls on the library. *)
Definition untraced {B} (f : S -> B * S) : Traced SC S -> B * Traced SC S :=
  fun t => let (b, s) := f (tr_state t) in (b, mkTraced s (tr_calls t) (tr_next t)).

Definition error_of {A} (r : result A) : option error :=
  match r with Ok _ => None | Err e => Some e end.

(** [defer finish(&err)]: [finish] sees the error that is returned and does not
    change it. *)
Definition deferring {B} (err : B -> option error) (finish : option error -> M (Traced SC S) unit)
    (body : Traced SC S -> B * Traced SC S) : Traced SC S -> B * Traced SC S :=
  fun t => let (b, t) := body t in (b, snd (finish (err b) t)).

(** The [finishSpan] of the store and the [finishConsumerSpan] of the consumer. *)
Definition finishSpan (span : nat) (description : string) (err : option error)
    : M (Traced SC S) unit :=
  let! _ := match err with None => ret tt | Some e => fail_span span description e end in
  end_span span.

(** [ctx, span := tracer.Start(ctx, name, ...); defer finish(span, &err)] around
    a body that is given the span. *)
Definition with_span {B} (err : B -> option error) (finish : nat -> option error -> M (Traced SC S) unit)
    (ctx : Parent SC) (name : string) (attrs : list Attr)
    (body : nat -> Traced SC S -> B * Traced SC S) : Traced SC S -> B * Traced SC S :=
  fun t => deferring err (finish (tr_next t)) (body (tr_next t)) (snd (start_span ctx name attrs t)).

(** Another part of the state, with the same log. *)
Definition zoom {T B} (get : S -> T) (put : T -> S -> S) (f : Traced SC T -> B * Traced SC T)
    : Traced SC S -> B * Traced SC S :=
  fun t => let (b, t') := f (mkTraced (get (tr_state t)) (tr_calls t) (tr_next t)) in
           (b, mkTraced (put (tr_state t') (tr_state t)) (tr_calls t') (tr_next t')).

End Calls.

(** ** Well-nested calls *)

Section Nesting.
Context {SC : Type}.

(** The calls between [Start] and [End] that are about the span itself. *)
Definition about (span : nat) (call : TraceCall SC) : bool :=
  match call with
  | CallSetAttributes span' _ | CallRecordError span' _ | CallSetStatus span' _ =>
      Nat.eqb span' span
  | CallStart _ _ _ _ | CallEnd _ => false
  end.

(** [nested ctx n calls n']: made under [ctx], the calls start the spans from [n]
    up to [n'], each under the span it was started in, end each of them after
    those started in it, and speak about a span only while it is the current
    one. *)
Inductive nested : Parent SC -> nat -> list (TraceCall SC) -> nat -> Prop :=
| nested_nil ctx n : nested ctx n [] n
| nested_own span n call calls n' :
    about span call = true -> nested (Child span) n calls n' ->
    nested (Child span) n (call :: calls) n'
| nested_span ctx n name attrs body n1 calls n2 :
    nested (Child n) (Datatypes.S n) body n1 -> nested ctx n1 calls n2 ->
    nested ctx n (CallStart n ctx name attrs :: body ++ CallEnd n :: calls) n2.

Lemma nested_app ctx n calls1 n1 calls2 n2 :
  nested ctx n calls1 n1 -> nested ctx n1 calls2 n2 -> nested ctx n (calls1 ++ calls2) n2.
Proof.
  induction 1 as [ctx n|span n call calls n' Hc _ IH|ctx n name attrs body n1' calls n2' Hb _ _ IH];
    simpl; intros H2; [done|by constructor; [|apply IH]|].
  rewrite <- app_assoc. simpl. econstructor; [done|by apply IH].
Qed.

Lemma nested_one span n call : about span call = true -> nested (Child span) n [call] n.
Proof. intros H. constructor; [done|constructor]. Qed.

Lemma nested_le ctx n calls n' : nested ctx n calls n' -> (n <= n')%nat.
Proof. induction 1; lia. Qed.

(** What [f] says about each call. *)
Fixpoint pick {B} (f : TraceCall SC -> option B) (calls : list (TraceCall SC)) : list B :=
  match calls with
  | [] => []
  | call :: calls => match f call with None => pick f calls | Some b => b :: pick f calls end
  end.

Lemma pick_app {B} (f : TraceCall SC -> option B) calls1 calls2 :
  pick f (calls1 ++ calls2) = pick f calls1 ++ pick f calls2.
Proof. induction calls1 as [|call calls1 IH]; simpl; [done|]. destruct (f call); simpl; by rewrite IH. Qed.

(** The spans started and ended, in the order of the calls. *)
Definition start_of (call : TraceCall SC) : option nat :=
  match call with CallStart span _ _ _ => Some span | _ => None end.

Definition end_of (call : TraceCall SC) : option nat :=
  match call with CallEnd span => Some span | _ => None end.

(** The error status a span is given. *)
Definition status_of (span : nat) (call : TraceCall SC) : option string :=
  match call with
  | CallSetStatus span' d => if Nat.eqb span' span then Some d else None
  | _ => None
  end.

Notation statuses span calls := (pick (status_of span) calls).

(** Every span is started once and ended once. *)
Lemma nested_started ctx n calls n' : nested ctx n calls n' -> pick start_of calls = seq n (n' - n).
Proof.
  induction 1 as [ctx n|span n call calls n' Hc _ IH|ctx n name attrs body n1 calls n2 Hb IHb Hn IH];
    simpl.
  - by rewrite Nat.sub_diag.
  - by destruct call.
  - apply nested_le in Hb, Hn. rewrite pick_app. simpl. rewrite IHb, IH.
    replace (n2 - n)%nat with (Datatypes.S (n1 - Datatypes.S n + (n2 - n1))) by lia. simpl.
    rewrite seq_app. do 3 f_equal. lia.
Qed.

Lemma nested_ended ctx n calls n' : nested ctx n calls n' -> pick end_of calls ≡ₚ seq n (n' - n).
Proof.
  induction 1 as [ctx n|span n call calls n' Hc _ IH|ctx n name attrs body n1 calls n2 Hb IHb Hn IH];
    simpl.
  - by rewrite Nat.sub_diag.
  - by destruct call.
  - apply nested_le in Hb, Hn. rewrite pick_app. simpl. rewrite IHb, IH, <- Permutation_middle.
    replace (n2 - n)%nat with (Datatypes.S (n1 - Datatypes.S n + (n2 - n1))) by lia. simpl.
    rewrite seq_app. replace (Datatypes.S n + (n1 - Datatypes.S n))%nat with n1 by lia. done.
Qed.

(** Calls under another span do not speak about an earlier one. *)
Lemma nested_statuses ctx n calls n' span :
  nested ctx n calls n' -> ctx <> Child span -> (span < n)%nat -> statuses span calls = [].
Proof.
  induction 1 as [ctx n|span' n call calls n' Hc _ IH|ctx n name attrs body n1 calls n2 Hb IHb Hn IH];
    simpl; intros Hctx Hlt; [done|..].
  - destruct call as [| | |span2 d|]; simpl in *; try (by apply IH).
    apply Nat.eqb_eq in Hc as ->. destruct (Nat.eqb_spec span' span); [congruence|by apply IH].
  - apply nested_le in Hb. rewrite pick_app. simpl. rewrite IHb, IH; [done|done|lia| |lia].
    intros [= ->]. lia.
Qed.

End Nesting.

Notation statuses span calls := (pick (status_of span) calls).

(** ** Traced programs *)

Section Relation.
Context {SC : Type}.

(** A span that is current was started before. *)
Definition below (ctx : Parent SC) (n : nat) : Prop :=
  match ctx with Child span => (span < n)%nat | _ => True end.

(** The calls leave the status of the current span alone. *)
Definition silent (ctx : Parent SC) (calls : list (TraceCall SC)) : Prop :=
  match ctx with Child span => statuses span calls = [] | _ => True end.

(** The traced program has the results and the effects of the program without
    its spans, and its calls are well nested. *)
Definition traces {S B} (ctx : Parent SC) (f : Traced SC S -> B * Traced SC S) (f0 : S -> B * S)
    : Prop :=
  forall t, below ctx (tr_next t) ->
  let '(b, t') := f t in
  f0 (tr_state t) = (b, tr_state t')
  /\ exists calls, tr_calls t' = tr_calls t ++ calls
       /\ nested ctx (tr_next t) calls (tr_next t') /\ silent ctx calls.

(** The run from [t] has one span, within which all its calls are, and whose
    status says whether it failed: [ok] relates the error returned to the statuses
    given. *)
Definition reports_at {S B} (err : B -> option error) (ok : option error -> list string -> Prop)
    (ctx : Parent SC) (name : string) (f : Traced SC S -> B * Traced SC S) (f0 : S -> B * S)
    (t : Traced SC S) : Prop :=
  let '(b, t') := f t in
  f0 (tr_state t) = (b, tr_state t')
  /\ exists attrs calls,
       tr_calls t' = tr_calls t ++ CallStart (tr_next t) ctx name attrs :: calls
                                   ++ [CallEnd (tr_next t)]
       /\ nested (Child (tr_next t)) (Datatypes.S (tr_next t)) calls (tr_next t')
       /\ ok (err b) (statuses (tr_next t) calls).

Definition reports {S B} (err : B -> option error) (ok : option error -> list string -> Prop)
    (ctx : Parent SC) (name : string) (f : Traced SC S -> B * Traced SC S) (f0 : S -> B * S)
    : Prop :=
  forall t, below ctx (tr_next t) -> reports_at err ok ctx name f f0 t.

(** The status of [finishSpan]. *)
Definition described (description : string) (err : option error) (given : list string) : Prop :=
  given = match err with None => [] | Some _ => [description] end.

Lemma silent_app ctx calls1 calls2 : silent ctx calls1 -> silent ctx calls2 -> silent ctx (calls1 ++ calls2).
Proof. destruct ctx; simpl; [done..|]. rewrite pick_app. by intros -> ->. Qed.

Lemma nested_silent ctx ctx' n calls n' :
  nested ctx n calls n' -> ctx <> ctx' -> below ctx' n -> silent ctx' calls.
Proof. destruct ctx'; simpl; try done. intros Hn Hne Hlt. by eapply nested_statuses. Qed.

Lemma reports_traces {S B} err ok ctx name (f : Traced SC S -> B * Traced SC S) f0 :
  reports err ok ctx name f f0 -> traces ctx f f0.
Proof.
  intros H t Ht. specialize (H t Ht). unfold reports_at in H. destruct (f t) as [b t'].
  destruct H as (H0 & attrs & calls & Hc & Hn & _). split; [done|]. eexists. split; [exact Hc|].
  split; [by eapply nested_span, nested_nil|].
  assert (silent ctx (calls ++ [CallEnd (tr_next t)])) as Hs.
  { apply silent_app; [|by destruct ctx]. eapply nested_silent; [exact Hn|intros <-; simpl in Ht; lia|].
    destruct ctx; simpl in *; try done; lia. }
  destruct ctx; done.
Qed.

(** Every span that is started is ended, once. *)
Lemma reports_ends {S B} err ok ctx name (f : Traced SC S -> B * Traced SC S) f0 t :
  reports_at err ok ctx name f f0 t ->
  let t' := snd (f t) in
  exists calls, tr_calls t' = tr_calls t ++ calls
    /\ pick start_of calls = seq (tr_next t) (tr_next t' - tr_next t)
    /\ pick end_of calls ≡ₚ seq (tr_next t) (tr_next t' - tr_next t).
Proof.
  unfold reports_at. destruct (f t) as [b t']. intros (_ & attrs & calls & Hc & Hn & _).
  eexists. split; [exact Hc|].
  assert (nested ctx (tr_next t) (CallStart (tr_next t) ctx name attrs :: calls ++ [CallEnd (tr_next t)])
            (tr_next t')) as H by (eapply nested_span; [exact Hn|constructor]).
  split; [by apply nested_started in H|by apply nested_ended in H].
Qed.

(** ** Combinators *)

Lemma traces_untraced {S B} ctx (f0 : S -> B * S) : traces ctx (untraced f0) f0.
Proof.
  intros t Ht. unfold untraced. destruct (f0 (tr_state t)) as [b s]. split; [done|]. exists [].
  simpl. rewrite app_nil_r. split_and!; [done|constructor|by destruct ctx].
Qed.

Lemma traces_ret {S A} ctx (a : A) : traces ctx (ret a : M (Traced SC S) A) (ret a).
Proof. exact (traces_untraced ctx (ret a)). Qed.

Lemma traces_throw {S A} ctx e : traces ctx (throw e : M (Traced SC S) A) (throw e).
Proof. exact (traces_untraced ctx (throw e)). Qed.

Lemma below_mono (ctx : Parent SC) n n' : below ctx n -> (n <= n')%nat -> below ctx n'.
Proof. destruct ctx; simpl; lia. Qed.

Lemma traces_bind {S A B} ctx (m : M (Traced SC S) A) m0 (k : A -> M (Traced SC S) B) k0 :
  traces ctx m m0 -> (forall a, traces ctx (k a) (k0 a)) -> traces ctx (bind m k) (bind m0 k0).
Proof.
  intros Hm Hk t Ht. specialize (Hm t Ht). unfold bind.
  destruct (m t) as [[a|e] t1]; destruct Hm as (H0 & calls & Hc & Hn & Hs); rewrite H0;
    [|split; [done|]; by exists calls].
  specialize (Hk a t1 (below_mono _ _ _ Ht (nested_le _ _ _ _ Hn))). destruct (k a t1) as [b t2].
  destruct Hk as (K0 & calls' & Kc & Kn & Ks). split; [done|]. exists (calls ++ calls').
  rewrite Kc, Hc, app_assoc. split_and!; [done|by eapply nested_app|by apply silent_app].
Qed.

Lemma traces_attempt {S A} ctx (m : M (Traced SC S) A) m0 :
  traces ctx m m0 -> traces ctx (attempt m) (attempt m0).
Proof.
  intros Hm t Ht. specialize (Hm t Ht). unfold attempt. destruct (m t) as [r t1].
  destruct Hm as (H0 & H1). by rewrite H0.
Qed.

Lemma traces_annotate {S A} ctx pre (m : M (Traced SC S) A) m0 :
  traces ctx m m0 -> traces ctx (annotate pre m) (annotate pre m0).
Proof.
  intros Hm t Ht. specialize (Hm t Ht). unfold annotate.
  destruct (m t) as [[a|e] t1]; destruct Hm as (H0 & H1); by rewrite H0.
Qed.

Lemma traces_require {S} ctx check : traces ctx (require check : M (Traced SC S) unit) (require check).
Proof. destruct check; [apply traces_throw|apply traces_ret]. Qed.

Lemma traces_ext {S B} ctx (f : Traced SC S -> B * Traced SC S) f0 f1 :
  (forall s, f0 s = f1 s) -> traces ctx f f0 -> traces ctx f f1.
Proof.
  intros E H t Ht. specialize (H t Ht). destruct (f t). by rewrite <- E.
Qed.

(** Attributes of the current span. *)
Lemma traces_attributes {S B} span attrs (k : M (Traced SC S) B) k0 :
  traces (Child span) k k0 ->
  traces (Child span) (let! _ := set_span_attributes span attrs in k) k0.
Proof.
  intros Hk t Ht. unfold bind, set_span_attributes, trace_call.
  specialize (Hk (mkTraced (tr_state t) (tr_calls t ++ [CallSetAttributes span attrs]) (tr_next t)) Ht).
  destruct (k _) as [b t']. destruct Hk as (H0 & calls & Hc & Hn & Hs). split; [done|].
  exists (CallSetAttributes span attrs :: calls). rewrite Hc. simpl. rewrite <- app_assoc.
  split_and!; [done| |done]. constructor; [apply Nat.eqb_refl|done].
Qed.

(** A span that is ended by [finishSpan] when its body returns. *)
Lemma reports_span {S B} err ctx name attrs description (body : nat -> Traced SC S -> B * Traced SC S)
    (f0 : S -> B * S) :
  (forall span, traces (Child span) (body span) f0) ->
  reports err (described description) ctx name
    (with_span err (fun span => finishSpan span description) ctx name attrs body) f0.
Proof.
  intros Hb t Ht. unfold reports_at, with_span, start_span, deferring. simpl.
  set (t1 := mkTraced _ _ _). specialize (Hb (tr_next t) t1 (Nat.lt_succ_diag_r _)).
  destruct (body (tr_next t) t1) as [b t2]. destruct Hb as (H0 & calls & Hc & Hn & Hs). simpl in *.
  assert (finishSpan (tr_next t) description (err b) t2
          = (Ok tt, mkTraced (tr_state t2)
               (tr_calls t2 ++ match err b with
                               | None => []
                               | Some e => [CallRecordError (tr_next t) e;
                                            CallSetStatus (tr_next t) description]
                               end ++ [CallEnd (tr_next t)]) (tr_next t2))) as ->.
  { unfold finishSpan, bind, fail_span, trace_call, end_span. destruct (err b); simpl; [|done].
    unfold bind, trace_call. simpl. by rewrite <- !app_assoc. }
  simpl. split; [done|]. exists attrs, (calls ++ match err b with
    | None => []
    | Some e => [CallRecordError (tr_next t) e; CallSetStatus (tr_next t) description] end).
  rewrite Hc. simpl. rewrite <- !app_assoc. split_and!; [done| |].
  - eapply nested_app; [done|]. destruct (err b); [|constructor].
    do 2 (constructor; [apply Nat.eqb_refl|]). constructor.
  - unfold described. rewrite pick_app, Hs. destruct (err b); simpl; [|done]. by rewrite Nat.eqb_refl.
Qed.

(** A body that gives its span a status itself, once when it fails and not
    otherwise. *)
Definition failed_once (err : option error) (given : list string) : Prop :=
  length given = match err with None => 0%nat | Some _ => 1%nat end.

Definition fails_once_at {S B} (err : B -> option error) (span : nat)
    (f : Traced SC S -> B * Traced SC S) (f0 : S -> B * S) (t : Traced SC S) : Prop :=
  let '(b, t') := f t in
  f0 (tr_state t) = (b, tr_state t')
  /\ exists calls, tr_calls t' = tr_calls t ++ calls
       /\ nested (Child span) (tr_next t) calls (tr_next t')
       /\ failed_once (err b) (statuses span calls).

Lemma reports_failing {S B} err ctx name attrs (body : nat -> Traced SC S -> B * Traced SC S)
    (f0 : S -> B * S) t :
  fails_once_at err (tr_next t) (body (tr_next t)) f0 (snd (start_span ctx name attrs t)) ->
  reports_at err failed_once ctx name
    (with_span err (fun span _ => end_span span) ctx name attrs body) f0 t.
Proof.
  unfold reports_at, with_span, start_span, deferring, fails_once_at. simpl.
  destruct (body _ _) as [b t2]. intros (H0 & calls & Hc & Hn & Hs). simpl in *. split; [done|].
  exists attrs, calls. rewrite Hc. simpl. rewrite <- !app_assoc. done.
Qed.

(** Part of the state. *)
Lemma traces_zoom {S T B} ctx (get : S -> T) put (f : Traced SC T -> B * Traced SC T) f0 :
  traces ctx f f0 ->
  traces ctx (zoom get put f) (fun s => let (b, x) := f0 (get s) in (b, put x s)).
Proof.
  intros Hf t Ht. unfold zoom. specialize (Hf (mkTraced (get (tr_state t)) (tr_calls t) (tr_next t)) Ht).
  destruct (f _) as [b t']. destruct Hf as (H0 & H1). simpl in H0. rewrite H0. done.
Qed.

End Relation.

(** The rules, for following a traced program. *)
Create HintDb spans discriminated.
#[export] Hint Resolve traces_untraced traces_ret traces_throw traces_require : spans.
#[export] Hint Resolve traces_bind traces_attempt traces_annotate traces_attributes : spans.
