(* ===== verification/PgSpans.v ===== *)
(** The spans of the PostgreSQL store, [internal/postgres/store.go]: every
    operation runs in a span of its own, ended by [finishSpan]. *)
From S2P Require Import Prelude GoStrings GoTime Model StateMachine Store Topology Handlers.
From S2P Require Import Database PgStore Telemetry Spans.

Section Operations.
Context {SC : Type}.
Variable env : PgEnv.
Variable ctx : Parent SC.

Notation T := (Traced SC Conn).

(** The span of an operation.  [late] are the attributes it sets once it has
    succeeded, from the database it began with and its result. *)
Definition store_span {A} (name : string) (attrs : list Attr) (description : string)
    (late : Conn -> A -> list Attr) (op : M Conn A) : M T A :=
  with_span error_of (fun span => finishSpan span description) ctx name
    (("db.system.name", AttrString "postgresql") :: attrs) (fun span =>
    let! c := untraced getS in
    let! a := untraced op in
    match late c a with
    | [] => ret a
    | attrs => let! _ := set_span_attributes span attrs in ret a
    end).

Definition none {A} (_ : Conn) (_ : A) : list Attr := [].

Definition order_and_merchant (source : OutboxEvent) : list Attr :=
  [("fulfillhub.order_id", AttrString (Event_OrderID source));
   ("fulfillhub.merchant_id", AttrString (Event_MerchantID source))].

Definition traced_InsertOrder (merchantID idempotencyKey : string) (order : Order)
    (event : OutboxEvent) (audit : AuditLog) : M T (option Order * bool) :=
  store_span "postgres.insert_order"
    [("fulfillhub.merchant_id", AttrString merchantID);
     ("fulfillhub.order_id", AttrString (Order_OrderID order));
     ("fulfillhub.external_order_id", AttrString (Order_ExternalOrderID order))]
    "insert order" (fun _ r => [("fulfillhub.idempotent_replay", AttrBool (snd r))])
    (PgStore_InsertOrder env merchantID idempotencyKey order event audit).

Definition traced_GetOrder (orderID : string) : M T Order :=
  store_span "postgres.get_order" [("fulfillhub.order_id", AttrString orderID)] "get order" none
    (PgStore_GetOrder env orderID).

Definition traced_GetShipment (shipmentID : string) : M T ShipmentRecord :=
  store_span "postgres.get_shipment" [("fulfillhub.shipment_id", AttrString shipmentID)]
    "get shipment" none (PgStore_GetShipment env shipmentID).

Definition traced_UpdateOrderStatus (orderID : string) (status : OrderStatus) (now : Time)
    (event : OutboxEvent) (audit : AuditLog) : M T Order :=
  store_span "postgres.update_order_status"
    [("fulfillhub.order_id", AttrString orderID); ("fulfillhub.order_status", AttrString status)]
    "update order status" none (PgStore_UpdateOrderStatus env orderID status now event audit).

Definition traced_RecordInventoryReserved (source next : OutboxEvent) (audit : AuditLog) : M T unit :=
  store_span "postgres.record_inventory_reserved"
    (order_and_merchant source
     ++ [("fulfillhub.source_event_type", AttrString (Event_EventType source));
         ("fulfillhub.next_event_type", AttrString (Event_EventType next))])
    "record inventory reservation"
    (fun c _ => [("fulfillhub.reserved_item_count",
                  AttrInt (Z.of_nat (length (items_of (Event_OrderID source) (conn_db c)))))])
    (PgStore_RecordInventoryReserved env source next audit).

Definition traced_RecordInventoryRejected (source next : OutboxEvent) (audit : AuditLog) : M T unit :=
  store_span "postgres.record_inventory_rejected" (order_and_merchant source)
    "record inventory rejection" none (PgStore_RecordInventoryRejected env source next audit).

Definition traced_RecordPaymentAuthorized (source next : OutboxEvent) (payment : Payment)
    (audit : AuditLog) : M T unit :=
  store_span "postgres.record_payment_authorized"
    (order_and_merchant source
     ++ [("fulfillhub.payment_authorization_id", AttrString (Payment_AuthorizationID payment))])
    "record payment authorization" none
    (PgStore_RecordPaymentAuthorized env source next payment audit).

Definition traced_RecordPaymentFailed (source next : OutboxEvent) (audit : AuditLog) : M T unit :=
  store_span "postgres.record_payment_failed" (order_and_merchant source) "record payment failure"
    none (PgStore_RecordPaymentFailed env source next audit).

Definition traced_RecordShipmentCreated (source next : OutboxEvent) (shipment : Shipment)
    (audit : AuditLog) : M T unit :=
  store_span "postgres.record_shipment_created"
    (order_and_merchant source
     ++ [("fulfillhub.shipment_id", AttrString (Shipment_ShipmentID shipment))])
    "record shipment" none (PgStore_RecordShipmentCreated env source next shipment audit).

Definition traced_RecordShipmentFailed (source next : OutboxEvent) (audit : AuditLog) : M T unit :=
  store_span "postgres.record_shipment_failed" (order_and_merchant source)
    "record shipment failure" none (PgStore_RecordShipmentFailed env source next audit).

Definition traced_RecordOrderCancelled (source next : OutboxEvent) (audit : AuditLog) : M T unit :=
  store_span "postgres.record_order_cancelled"
    (order_and_merchant source
     ++ [("fulfillhub.source_event_type", AttrString (Event_EventType source))])
    "record order cancellation" none (PgStore_RecordOrderCancelled env source next audit).

Definition traced_RecordNotificationQueued (source : OutboxEvent) (audit : AuditLog) : M T unit :=
  store_span "postgres.record_notification_queued"
    (("messaging.message.id", AttrString (Event_MessageID source)) :: order_and_merchant source
     ++ [("fulfillhub.source_event_type", AttrString (Event_EventType source))])
    "record notification" none (PgStore_RecordNotificationQueued env source audit).

Definition traced_RecordCompensation (source : OutboxEvent) (status : OrderStatus)
    (audit : AuditLog) : M T unit :=
  store_span "postgres.record_compensation"
    (("messaging.message.id", AttrString (Event_MessageID source)) :: order_and_merchant source
     ++ [("fulfillhub.source_event_type", AttrString (Event_EventType source));
         ("fulfillhub.target_order_status", AttrString status)])
    "record compensation" none (PgStore_RecordCompensation env source status audit).

Definition traced_RecordAuditLog (audit : AuditLog) : M T unit :=
  store_span "postgres.record_audit_log"
    [("fulfillhub.audit_action", AttrString (Audit_Action audit));
     ("fulfillhub.actor_type", AttrString (Audit_ActorType audit));
     ("fulfillhub.actor_id", AttrString (Audit_ActorID audit));
     ("fulfillhub.correlation_id", AttrString (Audit_CorrelationID audit))]
    "record audit log" none (PgStore_RecordAuditLog env audit).

Definition traced_PendingOutboxEvents (limit : Z) : M T (list OutboxEvent) :=
  store_span "postgres.pending_outbox_events" [("fulfillhub.outbox.limit", AttrInt limit)]
    "load pending outbox events"
    (fun _ events => [("fulfillhub.outbox.pending_count", AttrInt (Z.of_nat (length events)))])
    (PgStore_PendingOutboxEvents env limit).

Definition traced_PendingOutboxCount : M T Z :=
  store_span "postgres.pending_outbox_count" [] "count pending outbox events"
    (fun _ count => [("fulfillhub.outbox.pending_count", AttrInt count)])
    (PgStore_PendingOutboxCount env).

Definition traced_OldestPendingOutboxAge : M T Duration :=
  store_span "postgres.oldest_pending_outbox_age" [] "measure oldest pending outbox age"
    (fun _ age => [("fulfillhub.outbox.oldest_pending_age_seconds", AttrSeconds age)])
    (PgStore_OldestPendingOutboxAge env).

Definition traced_OrderStatusCounts : M T (gmap string Z) :=
  store_span "postgres.order_status_counts" [] "count orders by status" none
    (PgStore_OrderStatusCounts env).

Definition traced_MarkOutboxPublished (messageID : string) (publishedAt : Time) : M T unit :=
  store_span "postgres.mark_outbox_published" [("messaging.message.id", AttrString messageID)]
    "mark outbox published" none (PgStore_MarkOutboxPublished env messageID publishedAt).

Definition inbox_attrs (consumerName : string) (event : OutboxEvent) : list Attr :=
  [("messaging.message.id", AttrString (Event_MessageID event));
   ("fulfillhub.consumer_name", AttrString consumerName);
   ("fulfillhub.correlation_id", AttrString (Event_CorrelationID event))].

Definition traced_RecordInboxMessage (consumerName : string) (event : OutboxEvent) : M T bool :=
  store_span "postgres.record_inbox_message" (inbox_attrs consumerName event)
    "record inbox message"
    (fun _ recorded => [("fulfillhub.inbox_recorded", AttrBool recorded)])
    (PgStore_RecordInboxMessage env consumerName event).

Definition traced_ReleaseInboxMessage (consumerName : string) (event : OutboxEvent) : M T unit :=
  store_span "postgres.release_inbox_message" (inbox_attrs consumerName event)
    "release inbox message" none (PgStore_ReleaseInboxMessage env consumerName event).

(** Whatever the operation, its span reports its error and changes nothing. *)
Lemma store_span_reports {A} name attrs description (late : Conn -> A -> list Attr) op :
  reports error_of (described description) ctx name (store_span name attrs description late op) op.
Proof using Type.
  apply reports_span. intros span. eapply (traces_ext _ _ (bind getS (fun _ => bind op ret))).
  { intros c. unfold bind, getS, ret. by destruct (op c) as [[]]. }
  apply traces_bind; [apply traces_untraced|intros c].
  apply traces_bind; [apply traces_untraced|intros a].
  destruct (late c a); [apply traces_ret|]. apply traces_attributes, traces_ret.
Qed.

Lemma store_span_traces {A} name attrs description (late : Conn -> A -> list Attr) op :
  traces ctx (store_span name attrs description late op) op.
Proof using Type. eapply reports_traces, store_span_reports. Qed.

End Operations.

#[export] Hint Resolve store_span_traces : spans.
