(* ===== verification/MessageSpans.v ===== *)
(** The spans of the messaging code, [internal/messaging]: the relay's around a
    batch and around every event, the publisher's around a message, the
    consumer's around a delivery. *)
From S2P Require Import Prelude GoStrings GoTime Model Topology Amqp Consumer Relay Dlq TraceHeaders.
From S2P Require Import Telemetry Spans.

Definition event_attrs (event : OutboxEvent) : list Attr :=
  [("fulfillhub.event_type", AttrString (Event_EventType event));
   ("fulfillhub.correlation_id", AttrString (Event_CorrelationID event));
   ("fulfillhub.causation_id", AttrString (Event_CausationID event));
   ("fulfillhub.order_id", AttrString (Event_OrderID event));
   ("fulfillhub.merchant_id", AttrString (Event_MerchantID event))].

(** ** The relay *)

Section RelaySpans.
Context {SC S P : Type}.
(** the source and the publisher, in the context they are called with *)
Variable source : Parent SC -> OutboxSource (Traced SC S).
Variable publisher : Parent SC -> Publisher (Traced SC P).
Variable clock : nat -> Time.

Notation T := (Traced SC (RelayState S P)).

Definition zoom_source {A} (c : M (Traced SC S) A) : M T A :=
  zoom rs_source (fun s st => mkRelayState s (rs_publisher st) (rs_ticks st)) c.

Definition zoom_publisher {A} (c : M (Traced SC P) A) : M T A :=
  zoom rs_publisher (fun p st => mkRelayState (rs_source st) p (rs_ticks st)) c.

(** A turn of the loop: a failure is reported on the span of the event, which is
    ended, and on the span of the batch. *)
Definition traced_relay_event (span : nat) (event : OutboxEvent) : M T unit :=
  let! publishSpan := start_span (Child span) "outbox.publish"
                        (("messaging.message.id", AttrString (Event_MessageID event))
                         :: event_attrs event) in
  let! published := attempt (zoom_publisher (Publish (publisher (Child publishSpan)) event)) in
  match published with
  | Err e =>
      let! _ := fail_span publishSpan "publish outbox event" e in
      let! _ := end_span publishSpan in
      let! _ := fail_span span "publish outbox event" e in
      throw (Wrap ("publish " +:+ Event_MessageID event +:+ ": ") e "")
  | Ok _ =>
      let! now := untraced (relay_clock clock) in
      let! marked := attempt (zoom_source (MarkOutboxPublished (source (Child publishSpan))
                                             (Event_MessageID event) now)) in
      match marked with
      | Err e =>
          let! _ := fail_span publishSpan "mark outbox event published" e in
          let! _ := end_span publishSpan in
          let! _ := fail_span span "mark outbox event published" e in
          throw (Wrap ("mark " +:+ Event_MessageID event +:+ " published: ") e "")
      | Ok _ => end_span publishSpan
      end
  end.

Fixpoint traced_relay_loop (span : nat) (published : Z) (events : list OutboxEvent) (t : T)
    : (Z * option error) * T :=
  match events with
  | [] => ((published, None),
           snd (set_span_attributes span
                  [("fulfillhub.outbox.published_count", AttrInt published)] t))
  | event :: rest =>
      match traced_relay_event span event t with
      | (Err e, t) => ((published, Some e), t)
      | (Ok _, t) => traced_relay_loop span (published + 1) rest t
      end
  end.

Definition traced_RunOnce (ctx : Parent SC) (limit : Z) : T -> (Z * option error) * T :=
  with_span snd (fun span _ => end_span span) ctx "outbox.relay.run_once"
    [("fulfillhub.outbox.limit", AttrInt limit)] (fun span t =>
    match zoom_source (PendingOutboxEvents (source (Child span)) limit) t with
    | (Err e, t) => ((0, Some (Wrap "load pending outbox events: " e "")),
                     snd (fail_span span "load pending outbox events" e t))
    | (Ok events, t) =>
        traced_relay_loop span 0 events
          (snd (set_span_attributes span
                  [("fulfillhub.outbox.pending_count", AttrInt (Z.of_nat (length events)))] t))
    end).

End RelaySpans.

(** ** The publisher *)

Section PublisherSpans.
Context {SC B : Type} `{!TracePropagator SC}.
(** the contexts the tracer gives its spans *)
Variable span_context : nat -> SC.
Variable marshal : OutboxEvent -> result string.
Variable PublishWithContext : string -> string -> Publishing -> M B unit.
Variable waitForPublishOutcome : string -> M B unit.

Definition failing {A} (span : nat) (description : string) (c : M (Traced SC B) A)
    : M (Traced SC B) A :=
  let! r := attempt c in
  match r with
  | Err e => let! _ := fail_span span description e in throw e
  | Ok a => ret a
  end.

Definition traced_Publish (ctx : Parent SC) (now : Time) (event : OutboxEvent)
    : M (Traced SC B) unit :=
  let event := WithEnvelopeDefaults event in
  let key := RoutingKey (Event_EventType event) in
  with_span error_of (fun span _ => end_span span) ctx "rabbitmq.publish"
    ([("messaging.system", AttrString "rabbitmq");
      ("messaging.destination.name", AttrString DomainExchange);
      ("messaging.rabbitmq.routing_key", AttrString key);
      ("messaging.message.id", AttrString (Event_MessageID event))] ++ event_attrs event)
    (fun span =>
    match marshal event with
    | Err e => let! _ := fail_span span "marshal event" e in throw (Wrap "marshal event: " e "")
    | Ok body =>
        let! _ := failing span "publish rabbitmq message"
                    (untraced (PublishWithContext DomainExchange key
                       (event_publishing (injectTraceHeaders (span_context span)) event body now))) in
        failing span "confirm rabbitmq message"
          (untraced (waitForPublishOutcome (Event_MessageID event)))
    end).

End PublisherSpans.

(** ** The consumer *)

Section ConsumerSpans.
Context {SC I H B : Type} `{!TracePropagator SC}.
Variable unmarshal : string -> result OutboxEvent.
Variables Ack Nack : Delivery -> M B unit.
(** the consumer, with its inbox and its handler in the context they are called
    with *)
Variable c : Consumer I H B.
Variable inbox : Parent SC -> Inbox (Traced SC I).
Variable handler : Parent SC -> OutboxEvent -> M (Traced SC H) unit.

Notation W := (World I H B).
Notation T := (Traced SC W).

Definition zoom_inbox {A} (a : Action) (m : M (Traced SC I) A) : M T A :=
  zoom w_inbox (fun i w => mkWorld i (w_app w) (w_broker w) (w_log w ++ [a])) m.

Definition zoom_app {A} (a : Action) (m : M (Traced SC H) A) : M T A :=
  zoom w_app (fun h w => mkWorld (w_inbox w) h (w_broker w) (w_log w ++ [a])) m.

Definition traced_releaseInbox (span : nat) (event : OutboxEvent) : M T unit :=
  match Inbox_Release (inbox (Child span)) with
  | None => ret tt
  | Some release =>
      annotate "release inbox message: "
        (zoom_inbox (DidRelease (Event_MessageID event)) (release (consumerName c) event))
  end.

Definition settle_failed (errs : list error) (d : Delivery) : M T unit :=
  untraced (join_after errs (nackDelivery Nack d)).

Definition traced_handle_failed (span : nat) (d : Delivery) (event : OutboxEvent) (e : error)
    : M T unit :=
  let herr := Wrap "handle delivery: " e "" in
  let! released := attempt (traced_releaseInbox span event) in
  match released with
  | Err releaseErr => settle_failed [herr; releaseErr] d
  | Ok _ =>
      match Consumer_Retry c with
      | Some publish_retry =>
          if shouldRetry c d then
            let n := wrap64 (retryAttempt (Delivery_Headers d) + 1) in
            let! retried := attempt (untraced (in_broker (DidRetry n) (publish_retry d event n))) in
            match retried with
            | Err retryErr => settle_failed [herr; Wrap "publish retry: " retryErr ""] d
            | Ok _ =>
                let! _ := set_span_attributes span [("fulfillhub.retry_attempt", AttrInt n)] in
                untraced (join_after [herr] (ackDelivery Ack d))
            end
          else settle_failed [herr] d
      | None => settle_failed [herr] d
      end
  end.

Definition traced_process (span : nat) (d : Delivery) : M T unit :=
  match decodeDelivery unmarshal d with
  | Err e => settle_failed [Wrap "decode delivery: " e ""] d
  | Ok event =>
      let name := consumerName c in
      let! _ := set_span_attributes span (event_attrs event) in
      let! recorded := attempt (zoom_inbox (DidRecord (inbox_key name event) (Event_MessageID event))
                                  (Inbox_Record (inbox (Child span)) name event)) in
      match recorded with
      | Err e => settle_failed [Wrap "record inbox message: " e ""] d
      | Ok recorded =>
          let! _ := set_span_attributes span [("fulfillhub.inbox_recorded", AttrBool recorded)] in
          if negb recorded then untraced (ackDelivery Ack d) else
          let! handled := attempt (zoom_app (DidHandle event) (handler (Child span) event)) in
          match handled with
          | Err e => traced_handle_failed span d event e
          | Ok _ => untraced (ackDelivery Ack d)
          end
      end
  end.

(** The context of the message takes the place of the caller's. *)
Definition delivery_context (ctx : Parent SC) (d : Delivery) : Parent SC :=
  match extractTraceHeaders (Delivery_Headers d) with Some sc => Remote sc | None => ctx end.

Definition finishConsumerSpan (span : nat) (err : option error) : M T unit :=
  finishSpan span "process rabbitmq delivery" err.

Definition traced_ProcessDelivery (ctx : Parent SC) (d : Delivery) : M T unit :=
  match Consumer_validate c with
  | Some e => throw e
  | None =>
      with_span error_of finishConsumerSpan (delivery_context ctx d) "rabbitmq.consume"
        [("messaging.system", AttrString "rabbitmq");
         ("messaging.destination.name", AttrString (Consumer_Queue c));
         ("messaging.operation", AttrString "process");
         ("messaging.rabbitmq.routing_key", AttrString (Delivery_RoutingKey d));
         ("messaging.message.id", AttrString (Delivery_MessageId d));
         ("fulfillhub.consumer_name", AttrString (consumerName c))]
        (fun span => traced_process span d)
  end.

End ConsumerSpans.

(** ** Facts *)

Section RelayFacts.
Context {SC S P : Type}.
Variable source : Parent SC -> OutboxSource (Traced SC S).
Variable publisher : Parent SC -> Publisher (Traced SC P).
Variable clock : nat -> Time.
(** the source and the publisher without their spans *)
Variable source0 : OutboxSource S.
Variable publisher0 : Publisher P.
Hypothesis source_pending : forall ctx limit,
  traces ctx (PendingOutboxEvents (source ctx) limit) (PendingOutboxEvents source0 limit).
Hypothesis source_mark : forall ctx id at_,
  traces ctx (MarkOutboxPublished (source ctx) id at_) (MarkOutboxPublished source0 id at_).
Hypothesis publisher_publish : forall ctx event,
  traces ctx (Publish (publisher ctx) event) (Publish publisher0 event).

Notation T := (Traced SC (RelayState S P)).

(** The calls of a turn between the start of its span and its end; when one fails, the description of the failure, the text
    it is returned with, and the error. *)
Definition relay_calls (ctx : Parent SC) (event : OutboxEvent)
    : M T (option (string * string * error)) :=
  let! published := attempt (zoom_publisher (Publish (publisher ctx) event)) in
  match published with
  | Err e => ret (Some ("publish outbox event", "publish " +:+ Event_MessageID event +:+ ": ", e))
  | Ok _ =>
      let! now := untraced (relay_clock clock) in
      let! marked := attempt (zoom_source (MarkOutboxPublished (source ctx)
                                             (Event_MessageID event) now)) in
      ret match marked with
          | Err e => Some ("mark outbox event published",
                           "mark " +:+ Event_MessageID event +:+ " published: ", e)
          | Ok _ => None
          end
  end.

Lemma traced_relay_event_calls span event t :
  traced_relay_event source publisher clock span event t
  = (let! publishSpan := start_span (Child span) "outbox.publish"
                           (("messaging.message.id", AttrString (Event_MessageID event))
                            :: event_attrs event) in
     let! failed := relay_calls (Child publishSpan) event in
     match failed with
     | Some (description, pre, e) =>
         let! _ := fail_span publishSpan description e in
         let! _ := end_span publishSpan in
         let! _ := fail_span span description e in
         throw (Wrap pre e "")
     | None => end_span publishSpan
     end) t.
Proof using Type.
  unfold traced_relay_event, relay_calls, bind, attempt. simpl.
  destruct (zoom_publisher _ _) as [[u|e] t1]; [|done]. simpl.
  by destruct (zoom_source _ _) as [[u'|e] t3].
Qed.

(** The calls of a turn without their spans. *)
Definition plain_calls (event : OutboxEvent) : M (RelayState S P) (option (string * string * error)) :=
  let! published := attempt (on_publisher (Publish publisher0 event)) in
  match published with
  | Err e => ret (Some ("publish outbox event", "publish " +:+ Event_MessageID event +:+ ": ", e))
  | Ok _ =>
      let! now := relay_clock clock in
      let! marked := attempt (on_source (MarkOutboxPublished source0 (Event_MessageID event) now)) in
      ret match marked with
          | Err e => Some ("mark outbox event published",
                           "mark " +:+ Event_MessageID event +:+ " published: ", e)
          | Ok _ => None
          end
  end.

Lemma relay_event_calls event st :
  relay_event source0 publisher0 clock event st
  = (let! failed := plain_calls event in
     match failed with Some (_, pre, e) => throw (Wrap pre e "") | None => ret tt end) st.
Proof using Type.
  unfold relay_event, plain_calls, bind, attempt, annotate, ret, throw.
  destruct (on_publisher _ st) as [[[]|e] st1]; [|done]. simpl.
  by destruct (on_source _ _) as [[[]|e] st2].
Qed.

Lemma relay_calls_traced ctx event :
  traces ctx (relay_calls ctx event) (plain_calls event).
Proof using source_mark publisher_publish.
  apply traces_bind; [apply traces_attempt, traces_zoom, publisher_publish|].
  intros [[]|e]; [|apply traces_ret]. apply traces_bind; [apply traces_untraced|intros now].
  apply traces_bind; [apply traces_attempt, traces_zoom, source_mark|]. intros. apply traces_ret.
Qed.

Lemma plain_calls_ok event st : exists failed, fst (plain_calls event st) = Ok failed.
Proof using Type.
  unfold plain_calls, bind, attempt, ret.
  destruct (on_publisher _ st) as [[[]|e] st1]; simpl; [|eauto].
  destruct (on_source _ _) as [r st2]. simpl. eauto.
Qed.

Lemma relay_event_once span event (t : T) :
  (span < tr_next t)%nat ->
  fails_once_at error_of span (traced_relay_event source publisher clock span event)
    (relay_event source0 publisher0 clock event) t.
Proof using source_mark publisher_publish.
  intros Ht. unfold fails_once_at. rewrite traced_relay_event_calls. unfold bind at 1. simpl.
  set (n := tr_next t). set (t1 := mkTraced _ _ _). rewrite relay_event_calls.
  pose proof (relay_calls_traced (Child n) event t1 (Nat.lt_succ_diag_r _)) as H.
  destruct (plain_calls_ok event (tr_state t1)) as [failed Hf]. unfold bind at 1.
  destruct (relay_calls (Child n) event t1) as [r t2]. destruct H as (H0 & calls & Hc & Hn & Hs).
  change (tr_state t1) with (tr_state t) in *. unfold bind at 4. rewrite H0 in Hf |- *. simpl in Hf.
  subst r.
  assert (statuses span calls = []) as Hq.
  { eapply nested_statuses; [exact Hn|intros [= Heq]; lia|simpl; lia]. }
  destruct failed as [[[description pre] e]|]; unfold bind, fail_span, end_span, trace_call, throw, ret;
    simpl; (split; [done|]); rewrite Hc; simpl; rewrite <- !app_assoc.
  - eexists (_ :: (calls ++ [CallRecordError n e; CallSetStatus n description])
                    ++ CallEnd n :: [CallRecordError span e; CallSetStatus span description]).
    split_and!.
    + simpl. by rewrite <- !app_assoc.
    + eapply nested_span; [eapply nested_app; [exact Hn|]|];
        do 2 (constructor; [apply Nat.eqb_refl|]); constructor.
    + unfold failed_once. simpl. rewrite !pick_app, Hq. simpl. rewrite Nat.eqb_refl.
      by destruct (Nat.eqb_spec n span); [lia|].
  - eexists. split_and!; [done|eapply nested_span; [exact Hn|constructor]|].
    unfold failed_once. simpl. rewrite pick_app, Hq. done.
Qed.

(** The loop: the batch's span is given a status by the turn that fails. *)
Lemma relay_loop_once span events k (t : T) :
  (span < tr_next t)%nat ->
  fails_once_at snd span (traced_relay_loop source publisher clock span k events)
    (relay_loop source0 publisher0 clock k events) t.
Proof using source_mark publisher_publish.
  revert k t. induction events as [|event events IH]; intros k t Ht; unfold fails_once_at; simpl.
  { split; [done|]. eexists. split; [done|]. split; [apply nested_one, Nat.eqb_refl|done]. }
  pose proof (relay_event_once span event t Ht) as H. unfold fails_once_at in H.
  destruct (traced_relay_event _ _ _ span event t) as [[u|e] t1];
    destruct H as (H0 & calls & Hc & Hn & Hs); rewrite H0.
  - specialize (IH (k + 1) t1 ltac:(apply nested_le in Hn; lia)). unfold fails_once_at in IH.
    destruct (traced_relay_loop _ _ _ span (k + 1) events t1) as [b t2].
    destruct IH as (I0 & calls' & Ic & In & Is). split; [done|]. exists (calls ++ calls').
    rewrite Ic, Hc, app_assoc. split_and!; [done|by eapply nested_app|].
    apply length_zero_iff_nil in Hs. unfold failed_once in *. by rewrite pick_app, Hs.
  - split; [done|]. exists calls. done.
Qed.

Lemma run_once_reports ctx limit :
  reports snd failed_once ctx "outbox.relay.run_once"
    (traced_RunOnce source publisher clock ctx limit) (RunOnce source0 publisher0 clock limit).
Proof using source_pending source_mark publisher_publish.
  intros t Ht. apply reports_failing. set (n := tr_next t). set (t1 := snd _).
  unfold fails_once_at, RunOnce.
  pose proof (traces_zoom (Child n) rs_source (fun s (st : RelayState S P) =>
    mkRelayState s (rs_publisher st) (rs_ticks st)) _ _ (source_pending (Child n) limit) t1
    (Nat.lt_succ_diag_r _)) as H.
  fold (zoom_source (P := P) (PendingOutboxEvents (source (Child n)) limit) t1) in H.
  unfold on_source.
  destruct (zoom_source _ t1) as [[events|e] t2]; destruct H as (H0 & calls & Hc & Hn & Hs); rewrite H0.
  - set (t3 := snd _). pose proof (relay_loop_once n events 0 t3) as Hl. unfold fails_once_at in Hl.
    destruct (traced_relay_loop _ _ _ n 0 events t3) as [b t4].
    destruct Hl as (L0 & calls' & Lc & Ln & Ls); [apply nested_le in Hn; simpl in *; lia|].
    split; [done|].
    exists (calls ++ CallSetAttributes n [("fulfillhub.outbox.pending_count",
              AttrInt (Z.of_nat (length events)))] :: calls').
    rewrite Lc. unfold t3. simpl. rewrite Hc. unfold t1. simpl. rewrite <- !app_assoc. split_and!; [done| |].
    + eapply nested_app; [done|]. constructor; [apply Nat.eqb_refl|done].
    + unfold failed_once in *. rewrite pick_app, Hs. done.
  - split; [done|]. unfold fail_span, bind, trace_call. simpl. rewrite Hc. unfold t1. simpl.
    exists (calls ++ [CallRecordError n e; CallSetStatus n "load pending outbox events"]).
    rewrite <- !app_assoc. split_and!; [done| |].
    + eapply nested_app; [done|]. do 2 (constructor; [apply Nat.eqb_refl|]). constructor.
    + unfold failed_once. rewrite pick_app, Hs. simpl. by rewrite Nat.eqb_refl.
Qed.

End RelayFacts.

Section PublisherFacts.
Context {SC B : Type} `{!TracePropagator SC}.
Variable span_context : nat -> SC.
Variable marshal : OutboxEvent -> result string.
Variable PublishWithContext : string -> string -> Publishing -> M B unit.
Variable waitForPublishOutcome : string -> M B unit.

(** A run that fails after it gave its span a status, or succeeds. *)
Ltac fails_once :=
  unfold fails_once_at, fail_span, bind, trace_call, throw, ret; simpl; split; [done|];
  first
    [ exists []; rewrite app_nil_r; split_and!; [done|constructor|done]
    | eexists [CallRecordError _ _; CallSetStatus _ _]; rewrite <- app_assoc; split_and!;
      [done|do 2 (constructor; [apply Nat.eqb_refl|]); constructor
      |unfold failed_once; simpl; by rewrite Nat.eqb_refl] ].

(** The publisher's span reports its failure, and the message carries the context
    of that very span. *)
Lemma publish_reports ctx event now (t : Traced SC B) :
  reports_at error_of failed_once ctx "rabbitmq.publish"
    (traced_Publish span_context marshal PublishWithContext waitForPublishOutcome ctx now event)
    (RabbitPublisher_Publish marshal (injectTraceHeaders (span_context (tr_next t)))
       PublishWithContext waitForPublishOutcome now event) t.
Proof using Type.
  apply reports_failing. unfold RabbitPublisher_Publish. set (n := tr_next t).
  set (e := WithEnvelopeDefaults event). generalize (snd (start_span ctx "rabbitmq.publish"
    ([("messaging.system", AttrString "rabbitmq");
      ("messaging.destination.name", AttrString DomainExchange);
      ("messaging.rabbitmq.routing_key", AttrString (RoutingKey (Event_EventType e)));
      ("messaging.message.id", AttrString (Event_MessageID e))] ++ event_attrs e) t)) as t1.
  intros t1. destruct (marshal e) as [body|err]; [|fails_once].
  unfold fails_once_at, failing, bind, attempt, untraced.
  destruct (PublishWithContext _ _ _ (tr_state t1)) as [[u|err] b1]; [|fails_once].
  simpl. destruct (waitForPublishOutcome _ b1) as [[u'|err] b2]; fails_once.
Qed.

(** The publisher the relay is wired with; it reads the clock when it sends. *)
Variable now : B -> Time.

Definition rabbit_publisher : Publisher B :=
  mkPublisher (fun event b =>
    RabbitPublisher_Publish marshal (fun headers => headers) PublishWithContext
      waitForPublishOutcome (now b) event b).

Definition traced_rabbit_publisher (ctx : Parent SC) : Publisher (Traced SC B) :=
  mkPublisher (fun event t =>
    traced_Publish span_context marshal PublishWithContext waitForPublishOutcome ctx
      (now (tr_state t)) event t).

(** To a broker that is blind to it, the context makes no difference. *)
Lemma injection_blind sc at_ event b :
  blind PublishWithContext ->
  RabbitPublisher_Publish marshal (injectTraceHeaders sc) PublishWithContext waitForPublishOutcome
    at_ event b
  = RabbitPublisher_Publish marshal (fun headers => headers) PublishWithContext
      waitForPublishOutcome at_ event b.
Proof using Type.
  intros Hb. unfold RabbitPublisher_Publish. destruct (marshal _) as [body|]; [|done].
  unfold bind. by rewrite (Hb _ _ _ _ b (injected_same sc (WithEnvelopeDefaults event) body at_)).
Qed.

Lemma rabbit_publisher_traces ctx event :
  blind PublishWithContext ->
  traces ctx (Publish (traced_rabbit_publisher ctx) event) (Publish rabbit_publisher event).
Proof using Type.
  intros Hb. apply (reports_traces error_of failed_once ctx "rabbitmq.publish"). intros t _.
  pose proof (publish_reports ctx event (now (tr_state t)) t) as H. unfold reports_at in *. simpl.
  destruct (traced_Publish _ _ _ _ ctx _ event t) as [r t']. destruct H as (H0 & H1).
  by rewrite injection_blind in H0.
Qed.

End PublisherFacts.

Section ConsumerFacts.
Context {SC I H B : Type} `{!TracePropagator SC}.
Variable unmarshal : string -> result OutboxEvent.
Variables Ack Nack : Delivery -> M B unit.
Variable c : Consumer I H B.
Variable inbox : Parent SC -> Inbox (Traced SC I).
Variable handler : Parent SC -> OutboxEvent -> M (Traced SC H) unit.
(** the inbox and the handler without their spans *)
Variable inbox0 : Inbox I.
Variable handler0 : OutboxEvent -> M H unit.
Hypothesis c_inbox : Consumer_Inbox c = Some inbox0.
Hypothesis c_handler : Consumer_Handler c = Some handler0.
Hypothesis inbox_record : forall ctx name event,
  traces ctx (Inbox_Record (inbox ctx) name event) (Inbox_Record inbox0 name event).
Hypothesis inbox_release : forall ctx name event,
  option_Forall2 (fun r r0 => traces ctx (r name event) (r0 name event))
    (Inbox_Release (inbox ctx)) (Inbox_Release inbox0).
Hypothesis handler_handle : forall ctx event, traces ctx (handler ctx event) (handler0 event).

Ltac follow :=
  repeat first
    [ apply traces_untraced | apply traces_ret | apply traces_throw | apply traces_attributes
    | apply traces_annotate | apply traces_attempt
    | apply traces_bind; [|intros [] || intros ?]
    | match goal with
      | |- traces _ (match ?x with _ => _ end) (match ?x with _ => _ end) => destruct x
      end ].

Lemma release_traced span event :
  traces (Child span) (traced_releaseInbox (H := H) c inbox span event)
    (releaseInbox inbox0 (consumerName c) event).
Proof using inbox_release.
  unfold traced_releaseInbox, releaseInbox.
  destruct (inbox_release (Child span) (consumerName c) event) as [r r0 Hr|]; [|apply traces_ret].
  apply traces_annotate. by apply traces_zoom.
Qed.

Lemma handle_failed_traced span d event e :
  traces (Child span) (traced_handle_failed Ack Nack c inbox span d event e)
    (handle_failed Ack Nack c inbox0 d event e).
Proof using inbox_release.
  unfold traced_handle_failed, handle_failed, settle_failed.
  apply traces_bind; [apply traces_attempt, release_traced|]. intros [u|e']; follow.
Qed.

Lemma process_traced span d :
  traces (Child span) (traced_process unmarshal Ack Nack c inbox handler span d)
    (ProcessDelivery unmarshal Ack Nack c d).
Proof using All.
  unfold traced_process, ProcessDelivery, settle_failed. rewrite c_inbox, c_handler.
  destruct (decodeDelivery unmarshal d) as [event|e]; [|apply traces_untraced].
  apply traces_attributes. apply traces_bind; [by apply traces_attempt, traces_zoom|].
  intros [recorded|e]; [|apply traces_untraced]. apply traces_attributes.
  destruct (negb recorded); [apply traces_untraced|].
  apply traces_bind; [by apply traces_attempt, traces_zoom|].
  intros [u|e]; [apply traces_untraced|apply handle_failed_traced].
Qed.

(** A delivery is one span under the context of its message; the span reports
    the error of the delivery. *)
Lemma delivery_reports ctx d :
  reports error_of (described "process rabbitmq delivery") (delivery_context ctx d)
    "rabbitmq.consume" (traced_ProcessDelivery unmarshal Ack Nack c inbox handler ctx d)
    (ProcessDelivery unmarshal Ack Nack c d).
Proof using All.
  unfold traced_ProcessDelivery, Consumer_validate. rewrite c_inbox, c_handler.
  apply reports_span. intros span. apply process_traced.
Qed.

End ConsumerFacts.
