(* ===== verification/WorkerSpans.v ===== *)
(** The worker process with its spans: handlers, inbox and consumer as
    [cmd/fulfillhub-worker] wires them over the PostgreSQL store, every store
    operation traced, and the relay over the same store. *)
From S2P Require Import Prelude GoStrings GoTime Model StateMachine Topology Amqp Consumer Relay Dlq.
From S2P Require Import TraceHeaders Handlers Providers Database PgStore PgSamples WorkerProcess.
From S2P Require Import Saga RelayProcess Telemetry Spans PgSpans MessageSpans.

(** ** Handlers over a traced store *)

Section Packing.
Context {SC S P : Type}.

(** A handler over the traced store, with the log beside the handler's world. *)
Definition pack {A} (m : M (HWorld (Traced SC S) P) A) : M (Traced SC (HWorld S P)) A :=
  fun t =>
    let w := tr_state t in
    let (r, w) := m (mkHWorld (mkTraced (hw_store w) (tr_calls t) (tr_next t)) (hw_ext w)
                       (hw_ticks w) (hw_draws w)) in
    let store := hw_store w in
    (r, mkTraced (mkHWorld (tr_state store) (hw_ext w) (hw_ticks w) (hw_draws w))
          (tr_calls store) (tr_next store)).

Lemma pack_bind {A B} (m : M (HWorld (Traced SC S) P) A) (k : A -> M (HWorld (Traced SC S) P) B) t :
  pack (bind m k) t = bind (pack m) (fun a => pack (k a)) t.
Proof using Type.
  unfold pack, bind. destruct (m _) as [[a|e] w]; [|done]. simpl.
  by destruct w as [[] ? ? ?].
Qed.

Definition htraces {A} (ctx : Parent SC) (m : M (HWorld (Traced SC S) P) A)
    (m0 : M (HWorld S P) A) : Prop := traces ctx (pack m) m0.

Lemma htraces_bind {A B} ctx (m : M (HWorld (Traced SC S) P) A) m0
    (k : A -> M (HWorld (Traced SC S) P) B) k0 :
  htraces ctx m m0 -> (forall a, htraces ctx (k a) (k0 a)) -> htraces ctx (bind m k) (bind m0 k0).
Proof using Type.
  intros Hm Hk t Ht. rewrite pack_bind. by apply (traces_bind ctx _ _ _ _ Hm Hk).
Qed.

(** Values of the two sides that correspond. *)
Lemma htraces_value {A A0 B} ctx (a : A) (a0 : A0) (k : A -> M (HWorld (Traced SC S) P) B) k0 :
  htraces ctx (k a) (k0 a0) -> htraces ctx (bind (ret a) k) (bind (ret a0) k0).
Proof using Type. done. Qed.

Lemma htraces_pure {A} ctx (m : M (HWorld (Traced SC S) P) A) m0 :
  (forall w s, m w = (fst (m0 (mkHWorld s (hw_ext w) (hw_ticks w) (hw_draws w))),
     let w0 := snd (m0 (mkHWorld s (hw_ext w) (hw_ticks w) (hw_draws w))) in
     mkHWorld (hw_store w) (hw_ext w0) (hw_ticks w0) (hw_draws w0))
     /\ hw_store (snd (m0 (mkHWorld s (hw_ext w) (hw_ticks w) (hw_draws w)))) = s) ->
  htraces ctx m m0.
Proof using Type.
  intros H t Ht. unfold pack. destruct t as [[s x n d] calls next]. simpl.
  destruct (H (mkHWorld (mkTraced s calls next) x n d) s) as [-> Hs]. simpl in *.
  destruct (m0 (mkHWorld s x n d)) as [r [s' x' n' d']]. simpl in *. subst s'. split; [done|].
  exists []. rewrite app_nil_r. split_and!; [done|constructor|by destruct ctx].
Qed.

Lemma htraces_ret {A} ctx (a : A) : htraces ctx (ret a) (ret a).
Proof using Type. apply htraces_pure. by intros [] s. Qed.

Lemma htraces_throw {A} ctx e : htraces ctx (throw e : M _ A) (throw e).
Proof using Type. apply htraces_pure. by intros [] s. Qed.

Lemma htraces_require ctx check : htraces ctx (require check) (require check).
Proof using Type. destruct check; [apply htraces_throw|apply htraces_ret]. Qed.

Lemma htraces_clock env ctx : htraces ctx (Clock env) (Clock env).
Proof using Type. apply htraces_pure. by intros [] s. Qed.

Lemma htraces_entropy env ctx : htraces ctx (entropy env) (entropy env).
Proof using Type. apply htraces_pure. by intros [] s. Qed.

Lemma htraces_ext {A} ctx (c : M P A) : htraces ctx (in_ext c) (in_ext c).
Proof using Type. apply htraces_pure. intros [st x n d] s. unfold in_ext. simpl. by destruct (c x). Qed.

Lemma htraces_attempt {A} ctx (m : M (HWorld (Traced SC S) P) A) m0 :
  htraces ctx m m0 -> htraces ctx (attempt m) (attempt m0).
Proof using Type.
  intros Hm t Ht. pose proof (traces_attempt ctx _ _ Hm t Ht) as H.
  unfold pack, attempt in *. by destruct (m _).
Qed.

Lemma htraces_store {A} ctx (c : M (Traced SC S) A) c0 :
  traces ctx c c0 -> htraces ctx (in_store c) (in_store c0).
Proof using Type.
  intros Hc t Ht. unfold pack, in_store. simpl.
  specialize (Hc (mkTraced (hw_store (tr_state t)) (tr_calls t) (tr_next t)) Ht). simpl in Hc.
  destruct (c _) as [r t']. destruct Hc as (H0 & H1). simpl. rewrite H0. done.
Qed.

End Packing.

(** ** The wiring *)

Section Wiring.
Context {SC P : Type}.
Variable env : PgEnv.
Variable henv : HEnv.
Variable ctx : Parent SC.

Definition traced_projector : Projector (Traced SC Conn) :=
  mkProjector (traced_RecordInventoryReserved env ctx) (traced_RecordInventoryRejected env ctx)
    (traced_RecordPaymentAuthorized env ctx) (traced_RecordPaymentFailed env ctx)
    (traced_RecordShipmentCreated env ctx) (traced_RecordShipmentFailed env ctx)
    (traced_RecordOrderCancelled env ctx) (traced_RecordNotificationQueued env ctx)
    (traced_RecordCompensation env ctx).

Definition traced_orders : OrderStatusUpdater (Traced SC Conn) :=
  mkOrderStatusUpdater (traced_GetOrder env ctx) (traced_UpdateOrderStatus env ctx).

Definition traced_worker_dependencies : Dependencies (Traced SC Conn) P :=
  mkDependencies (Some traced_projector) (Some traced_orders) None
    (Some (ProviderPaymentAuthorizer_AuthorizePayment (Some (traced_GetOrder env ctx))
             (Some FakePaymentProvider)))
    (Some (ProviderShipmentCreator_CreateShipment henv (Some (traced_GetOrder env ctx))
             (Some FakeShipmentProvider)))
    None.

Definition traced_inbox : Inbox (Traced SC Conn) :=
  persistent_inbox (Some (traced_RecordInboxMessage env ctx,
                          Some (traced_ReleaseInboxMessage env ctx))).

Notation tdeps := traced_worker_dependencies.
Notation deps := (pg_worker_dependencies env henv).

(** Follow a handler on both sides. *)
Ltac handler_step :=
  cbv zeta;
  lazymatch goal with
  | |- htraces _ (bind (ret _) _) (bind (ret _) _) => apply htraces_value
  | |- htraces _ (bind _ _) _ => apply htraces_bind; [|intros ?]
  | |- htraces _ (ret _) _ => apply htraces_ret
  | |- htraces _ (throw _) _ => apply htraces_throw
  | |- htraces _ (require _) _ => apply htraces_require
  | |- htraces _ (Clock _) _ => apply htraces_clock
  | |- htraces _ (entropy _) _ => apply htraces_entropy
  | |- htraces _ (in_ext _) _ => apply htraces_ext
  | |- htraces _ (attempt _) _ => apply htraces_attempt
  | |- htraces _ (in_store _) _ => apply htraces_store, store_span_traces
  | |- htraces _ (match ?x with _ => _ end) (match ?x with _ => _ end) => destruct x
  end.

Ltac handler := repeat handler_step.

Lemma authorizer_traced event :
  htraces ctx (ProviderPaymentAuthorizer_AuthorizePayment (P := P)
                 (Some (traced_GetOrder env ctx)) (Some FakePaymentProvider) event)
    (ProviderPaymentAuthorizer_AuthorizePayment (Some (PgStore_GetOrder env))
       (Some FakePaymentProvider) event).
Proof using Type. unfold ProviderPaymentAuthorizer_AuthorizePayment, required. handler. Qed.

Lemma creator_traced event :
  htraces ctx (ProviderShipmentCreator_CreateShipment (P := P) henv
                 (Some (traced_GetOrder env ctx)) (Some FakeShipmentProvider) event)
    (ProviderShipmentCreator_CreateShipment henv (Some (PgStore_GetOrder env))
       (Some FakeShipmentProvider) event).
Proof using Type. unfold ProviderShipmentCreator_CreateShipment, required. handler. Qed.

(** The fresh identifiers and the events made from them. *)
Lemma new_id_traced prefix : htraces ctx (NewID henv tdeps prefix) (NewID henv deps prefix).
Proof using Type. unfold NewID. simpl. handler. Qed.

Lemma next_traced event ty now :
  htraces ctx (nextEventAt henv tdeps event ty now) (nextEventAt henv deps event ty now).
Proof using Type. unfold nextEventAt. apply htraces_bind; [apply new_id_traced|]. intros. handler. Qed.

Lemma shipment_traced sh now :
  htraces ctx (normalizedShipment henv tdeps sh now) (normalizedShipment henv deps sh now).
Proof using Type.
  unfold normalizedShipment. apply htraces_bind; [|intros; handler].
  destruct (String.eqb _ ""); [apply new_id_traced|handler].
Qed.

Ltac handler' :=
  repeat first
    [ apply next_traced | apply new_id_traced | apply shipment_traced | apply authorizer_traced
    | apply creator_traced | handler_step ].

Lemma handlers_traced queue :
  match HandlerForQueue henv tdeps queue, HandlerForQueue henv deps queue with
  | Ok handler, Ok handler0 => forall event, htraces ctx (handler event) (handler0 event)
  | Err e, Err e0 => e = e0
  | _, _ => False
  end.
Proof using Type.
  unfold HandlerForQueue. repeat case_match; simplify_eq; try done; intros event;
    unfold reserveInventory, authorizePayment, createShipment, completeOrder, cancelOrder,
      queueNotification, recordCompensation, recordInventoryRejected, try_reserve, projector, orders;
    simpl; handler'.
Qed.

End Wiring.

(** ** The worker *)

Section Worker.
Context {SC P B : Type} `{!TracePropagator SC}.
Variable env : PgEnv.
Variable henv : HEnv.
Variable unmarshal : string -> result OutboxEvent.
Variables Ack Nack : Delivery -> M B unit.
Variable publish_retry : Delivery -> OutboxEvent -> Z -> M B unit.

(** The consumer [worker_start] makes for a queue. *)
Definition worker_consumer (queue name : string) (handler : OutboxEvent -> M (HWorld Conn P) unit)
    : Consumer Conn (HWorld Conn P) B :=
  mkConsumer queue name (Some (pg_inbox env)) (Some handler) (Some publish_retry) 0.

(** The handler of the queue, in the context it is called with. *)
Definition traced_handler (queue : string) (ctx : Parent SC) (event : OutboxEvent)
    : M (Traced SC (HWorld Conn P)) unit :=
  match HandlerForQueue henv (traced_worker_dependencies env henv ctx) queue with
  | Ok handler => pack (handler event)
  | Err e => throw e
  end.

Lemma traced_handler_traces queue handler ctx event :
  HandlerForQueue henv (pg_worker_dependencies env henv) queue = Ok handler ->
  traces ctx (traced_handler queue ctx event) (handler event).
Proof using Type.
  intros Hh. pose proof (handlers_traced (P := P) env henv ctx queue) as H. unfold traced_handler.
  rewrite Hh in H. destruct (HandlerForQueue henv (traced_worker_dependencies _ _ _) queue); [apply H|done].
Qed.

(** The spans of a delivery: those of the consumer, and within them those of
    every store operation its inbox and its handler run. *)
Definition traced_delivery (queue name : string) (handler : OutboxEvent -> M (HWorld Conn P) unit)
    : Parent SC -> Delivery -> M (Traced SC (World Conn (HWorld Conn P) B)) unit :=
  traced_ProcessDelivery unmarshal Ack Nack (worker_consumer queue name handler)
    (traced_inbox env) (traced_handler queue).

Lemma worker_reports queue name handler ctx d :
  HandlerForQueue henv (pg_worker_dependencies env henv) queue = Ok handler ->
  reports error_of (described "process rabbitmq delivery") (delivery_context ctx d)
    "rabbitmq.consume" (traced_delivery queue name handler ctx d)
    (ProcessDelivery unmarshal Ack Nack (worker_consumer queue name handler) d).
Proof using Type.
  intros Hh. apply (delivery_reports unmarshal Ack Nack _ _ _ (pg_inbox env) handler); try done.
  - intros. apply store_span_traces.
  - intros. constructor. apply store_span_traces.
  - intros. by apply traced_handler_traces.
Qed.

Lemma context_below ctx d n : below (SC := SC) ctx n -> below (delivery_context ctx d) n.
Proof using Type. unfold delivery_context. by destruct (extractTraceHeaders _). Qed.

(** C37: tracing does not change what a worker does, and every span is accounted
    for: a delivery processed by the wired worker, with the spans of the consumer
    and of every store operation, has the result and the effects it has without
    them; its spans are one tree under the context of the message, every span
    started is ended exactly once and within the span it was started in, and the
    delivery's span has an error status exactly when the delivery failed. *)
Theorem worker_delivery_traced queue name handler ctx d t :
  HandlerForQueue henv (pg_worker_dependencies env henv) queue = Ok handler ->
  below ctx (tr_next t) ->
  let '(r, t') := traced_delivery queue name handler ctx d t in
  ProcessDelivery unmarshal Ack Nack (worker_consumer queue name handler) d (tr_state t)
  = (r, tr_state t')
  /\ exists attrs calls,
       tr_calls t' = tr_calls t
         ++ CallStart (tr_next t) (delivery_context ctx d) "rabbitmq.consume" attrs
         :: calls ++ [CallEnd (tr_next t)]
       /\ nested (Child (tr_next t)) (Datatypes.S (tr_next t)) calls (tr_next t')
       /\ pick end_of calls ≡ₚ pick start_of calls
       /\ statuses (tr_next t) calls = if is_ok r then [] else ["process rabbitmq delivery"].
Proof using Type.
  intros Hh Ht. pose proof (worker_reports queue name handler ctx d Hh t (context_below _ _ _ Ht)) as H.
  unfold reports_at in H. destruct (traced_delivery queue name handler ctx d t) as [r t'].
  destruct H as (H0 & attrs & calls & Hc & Hn & Hs). split; [done|]. exists attrs, calls.
  split_and!; [done|done| |].
  - by rewrite (nested_started _ _ _ _ Hn), (nested_ended _ _ _ _ Hn).
  - rewrite Hs. by destruct r.
Qed.

(** C39: a message joins the trace it was published in.  The publisher sends the
    event with the context of the span it starts for the publication; a delivery of
    that message is processed in a span started under that very span, however often
    the message was retried, dead-lettered or replayed on its way. *)
Theorem message_joins_trace {Br} (span_context : nat -> SC) marshal
    (PublishWithContext : string -> string -> Publishing -> M Br unit) waitForPublishOutcome
    pctx now event body (tp : Traced SC Br) queue name handler ctx exchange key hops t :
  let span := tr_next tp in
  let inject := injectTraceHeaders (span_context span) in
  let d := fold_left hop hops
             (deliver exchange key (event_publishing inject (WithEnvelopeDefaults event) body now)) in
  tp_valid (span_context span) -> Forall broker_adds hops -> below ctx (tr_next t) ->
  HandlerForQueue henv (pg_worker_dependencies env henv) queue = Ok handler ->
  reports_at error_of failed_once pctx "rabbitmq.publish"
    (traced_Publish span_context marshal PublishWithContext waitForPublishOutcome pctx now event)
    (RabbitPublisher_Publish marshal inject PublishWithContext waitForPublishOutcome now event) tp
  /\ exists attrs calls,
       tr_calls (snd (traced_delivery queue name handler ctx d t))
       = tr_calls t ++ CallStart (tr_next t) (Remote (span_context span)) "rabbitmq.consume" attrs
                       :: calls.
Proof using Type.
  intros span inject d Hv Hb Ht Hh. split; [apply publish_reports|].
  pose proof (worker_reports queue name handler ctx d Hh t (context_below _ _ _ Ht)) as H.
  unfold reports_at in H. destruct (traced_delivery queue name handler ctx d t) as [r t'].
  destruct H as (_ & attrs & calls & Hc & _). exists attrs, (calls ++ [CallEnd (tr_next t)]).
  simpl. rewrite Hc. unfold delivery_context, d, inject. by rewrite context_arrives.
Qed.

End Worker.

(** ** The relay *)

Definition traced_source {SC} (env : PgEnv) (ctx : Parent SC) : OutboxSource (Traced SC Conn) :=
  mkOutboxSource (traced_PendingOutboxEvents env ctx) (traced_MarkOutboxPublished env ctx).

(** C38: tracing does not change what the relay does, but for the trace headers of
    the messages.  The relay is wired as the process wires it: over the PostgreSQL
    store, every operation traced, and with the RabbitMQ publisher, which injects
    the context of its own span into every message.  For a broker that does not
    look at the propagator's fields, whose state is taken without them, a batch has
    the count, the error and the effects it has without spans and without injected
    contexts; its spans are one tree, every span started is ended exactly once,
    also on the paths that leave the loop early, and the batch's span has one error
    status exactly when the batch failed. *)
Theorem relay_batch_traced {SC B} `{!TracePropagator SC} (env : PgEnv) (span_context : nat -> SC)
    marshal (PublishWithContext : string -> string -> Publishing -> M B unit)
    waitForPublishOutcome now clock ctx limit (t : Traced SC (RelayState Conn B)) :
  blind PublishWithContext -> below ctx (tr_next t) ->
  let '(b, t') :=
    traced_RunOnce (traced_source env)
      (traced_rabbit_publisher span_context marshal PublishWithContext waitForPublishOutcome now)
      clock ctx limit t in
  RunOnce (pg_source env)
    (rabbit_publisher marshal PublishWithContext waitForPublishOutcome now) clock limit (tr_state t)
  = (b, tr_state t')
  /\ exists attrs calls,
       tr_calls t' = tr_calls t ++ CallStart (tr_next t) ctx "outbox.relay.run_once" attrs
                                   :: calls ++ [CallEnd (tr_next t)]
       /\ nested (Child (tr_next t)) (Datatypes.S (tr_next t)) calls (tr_next t')
       /\ pick end_of calls ≡ₚ pick start_of calls
       /\ length (statuses (tr_next t) calls) = match snd b with None => 0%nat | Some _ => 1%nat end.
Proof.
  intros Hb Ht.
  pose proof (run_once_reports (traced_source env)
    (traced_rabbit_publisher span_context marshal PublishWithContext waitForPublishOutcome now)
    clock (pg_source env) (rabbit_publisher marshal PublishWithContext waitForPublishOutcome now)
    (fun ctx limit => store_span_traces ctx _ _ _ _ _)
    (fun ctx id at_ => store_span_traces ctx _ _ _ _ _)
    (fun ctx event => rabbit_publisher_traces _ _ _ _ _ ctx event Hb) ctx limit t Ht) as H.
  unfold reports_at in H. destruct (traced_RunOnce _ _ _ _ _ t) as [b t'].
  destruct H as (H0 & attrs & calls & Hc & Hn & Hs). split; [done|]. exists attrs, calls.
  split_and!; [done|done| |done].
  by rewrite (nested_started _ _ _ _ Hn), (nested_ended _ _ _ _ Hn).
Qed.

(** ** Samples *)

#[local] Existing Instance text_propagator.

(** The submission of the sample order, delivered to the inventory worker. *)
Definition created_message : OutboxEvent := pg_event "msg_1" "order.created".

Definition created_delivery : Delivery :=
  deliver DomainExchange "order.created"
    (event_publishing (injectTraceHeaders "00-4bf92f35-00f067aa-01") created_message "{}" 0).

Definition reserve_handler : OutboxEvent -> M (HWorld Conn unit) unit :=
  reserveInventory sample_henv (pg_worker_dependencies pg_sample sample_henv).

Definition idle_worker : Traced string (World Conn (HWorld Conn unit) unit) :=
  mkTraced (mkWorld pg_inserted (mkHWorld pg_inserted tt 0 0) tt []) [] 0.

Definition reserve_delivery :=
  traced_delivery (SC := string) (B := unit) pg_sample sample_henv (fun _ => Ok created_message)
    (fun _ => ret tt) (fun _ => ret tt) (fun _ _ _ => ret tt)
    InventoryReserveQueue "inventory" reserve_handler.

(** The name, the parent and the number of the spans that were started. *)
Definition span_starts {SC} (calls : list (TraceCall SC)) : list (nat * Parent SC * string) :=
  pick (fun c => match c with CallStart n ctx name _ => Some (n, ctx, name) | _ => None end) calls.

Example reservation_spans :
  span_starts (tr_calls (snd (reserve_delivery NoSpan created_delivery idle_worker)))
  = [(0%nat, Remote "00-4bf92f35-00f067aa-01", "rabbitmq.consume");
     (1%nat, Child 0, "postgres.record_inbox_message");
     (2%nat, Child 0, "postgres.record_inventory_reserved")].
Proof. vm_compute. reflexivity. Qed.

Lemma reserve_queue_handler :
  HandlerForQueue sample_henv (pg_worker_dependencies pg_sample sample_henv) InventoryReserveQueue
  = Ok reserve_handler.
Proof. reflexivity. Qed.

Lemma worker_delivery_traced_witness :
  let '(r, t') := reserve_delivery NoSpan created_delivery idle_worker in
  exists calls, tr_calls t' = calls ++ [CallEnd 0] /\ statuses 0 (skipn 1 calls)
    = if is_ok r then [] else ["process rabbitmq delivery"].
Proof.
  pose proof (worker_delivery_traced pg_sample sample_henv (fun _ => Ok created_message)
    (fun _ => ret tt) (fun _ => ret tt) (fun _ _ _ => ret tt) InventoryReserveQueue "inventory"
    reserve_handler NoSpan created_delivery idle_worker reserve_queue_handler I) as H.
  unfold reserve_delivery.
  destruct (traced_delivery _ _ _ _ _ _ _ _ _ _ _ _) as [r t'].
  destruct H as (_ & attrs & calls & Hc & _ & _ & Hs).
  exists (CallStart 0 (delivery_context NoSpan created_delivery) "rabbitmq.consume" attrs :: calls).
  split; [exact Hc|exact Hs].
Defined.

Lemma sample_context_valid : tp_valid "00-4bf92f35-00f067aa-01".
Proof. simpl. discriminate. Qed.

Lemma message_joins_trace_witness :
  exists attrs calls,
    tr_calls (snd (reserve_delivery NoSpan
      (deliver DomainExchange "order.created"
         (event_publishing (injectTraceHeaders "00-4bf92f35-00f067aa-01")
            (WithEnvelopeDefaults created_message) "{}" 0)) idle_worker))
    = [] ++ CallStart 0 (Remote "00-4bf92f35-00f067aa-01") "rabbitmq.consume" attrs :: calls.
Proof.
  exact (proj2 (message_joins_trace pg_sample sample_henv (fun _ => Ok created_message)
    (fun _ => ret tt) (fun _ => ret tt) (fun _ _ _ => ret tt)
    (fun _ => "00-4bf92f35-00f067aa-01") (fun _ => Ok "{}") (fun _ _ _ => ret tt) (fun _ => ret tt)
    NoSpan 0 created_message "{}" (mkTraced tt [] 0) InventoryReserveQueue "inventory"
    reserve_handler NoSpan DomainExchange "order.created" [] idle_worker
    sample_context_valid (List.Forall_nil _) I reserve_queue_handler)).
Defined.

(** A broker that keeps the messages it took without their trace headers, and
    refuses the second one. *)
Definition without_trace (p : Publishing) : Publishing :=
  mkPublishing (Publishing_ContentType p) (Publishing_MessageId p) (Publishing_CorrelationId p)
    (Publishing_Timestamp p) (Publishing_Type p)
    (delete "traceparent" (delete "tracestate" (Publishing_Headers p))) (Publishing_Body p).

Definition one_message_broker (exchange key : string) (p : Publishing) : M (list Publishing) unit :=
  fun sent => match sent with
              | [] => (Ok tt, [without_trace p])
              | _ => (Err (Text "refused"), sent)
              end.

Lemma one_message_blind : blind one_message_broker.
Proof.
  intros exchange key p p' sent (H1 & H2 & H3 & H4 & H5 & H6 & H7). unfold one_message_broker.
  destruct sent; [|done]. unfold without_trace. rewrite H1, H2, H3, H4, H5, H6. do 3 f_equal.
  apply map_eq. intros field.
  destruct (decide (field = "traceparent")) as [->|]; [by rewrite !lookup_delete_eq|].
  destruct (decide (field = "tracestate")) as [->|].
  { by rewrite !(lookup_delete_ne _ "traceparent"), !lookup_delete_eq. }
  rewrite !lookup_delete_ne by done. apply H7. set_solver.
Defined.

Definition relay_batch : (Z * option error) * Traced string (RelayState Conn (list Publishing)) :=
  traced_RunOnce (traced_source pg_sample)
    (traced_rabbit_publisher (fun _ => "00-4bf92f35-00f067aa-01") (fun _ => Ok "{}")
       one_message_broker (fun _ => ret tt) (fun _ => 0))
    (fun _ => 0) NoSpan 10 (mkTraced (mkRelayState pg_reserved [] 0%nat) [] 0).

(** The second event is refused by the broker: its span, the publisher's and the
    batch's have an error status. *)
Example relay_spans :
  span_starts (tr_calls (snd relay_batch))
  = [(0%nat, NoSpan, "outbox.relay.run_once"); (1%nat, Child 0, "postgres.pending_outbox_events");
     (2%nat, Child 0, "outbox.publish"); (3%nat, Child 2, "rabbitmq.publish");
     (4%nat, Child 2, "postgres.mark_outbox_published");
     (5%nat, Child 0, "outbox.publish"); (6%nat, Child 5, "rabbitmq.publish")]
  /\ map (fun n => statuses n (tr_calls (snd relay_batch))) [0; 2; 5; 6]%nat
     = [["publish outbox event"]; []; ["publish outbox event"]; ["publish rabbitmq message"]].
Proof. vm_compute. split; reflexivity. Qed.

Lemma relay_batch_traced_witness :
  let '(b, t') := relay_batch in
  RunOnce (pg_source pg_sample)
    (rabbit_publisher (fun _ => Ok "{}") one_message_broker (fun _ => ret tt) (fun _ => 0))
    (fun _ => 0) 10 (mkRelayState pg_reserved [] 0%nat) = (b, tr_state t')
  /\ exists attrs calls,
       tr_calls t' = [] ++ CallStart 0 NoSpan "outbox.relay.run_once" attrs :: calls ++ [CallEnd 0]
       /\ pick end_of calls ≡ₚ pick start_of calls
       /\ length (statuses 0 calls) = match snd b with None => 0%nat | Some _ => 1%nat end.
Proof.
  pose proof (relay_batch_traced pg_sample (fun _ => "00-4bf92f35-00f067aa-01") (fun _ => Ok "{}")
    one_message_broker (fun _ => ret tt) (fun _ => 0) (fun _ => 0) NoSpan 10
    (mkTraced (mkRelayState pg_reserved [] 0%nat) [] 0) one_message_blind I) as H.
  unfold relay_batch. destruct (traced_RunOnce _ _ _ _ _ _) as [b t'].
  destruct H as (H0 & attrs & calls & Hc & _ & He & Hs). split; [exact H0|].
  exists attrs, calls. exact (conj Hc (conj He Hs)).
Defined.
