(* ===== verification/PgTotal.v ===== *)
(** Total correctness of the PostgreSQL store: what an operation does when no
    call fails and no constraint is in its way.

    [does m db a db'] says that the program [m], started on the database [db],
    returns [a] and leaves [db'], however many calls were made before.  The rules
    follow a program statement by statement and keep the database exact.  The
    second half says when the operations of the saga succeed. *)
From S2P Require Import Prelude GoStrings GoStringsFacts GoTime Model StateMachine MemoryStore.
From S2P Require Import Database PgStore PgAtomic PgStock PgOrders.

Definition does {A} (m : M Conn A) (db : Database) (a : A) (db' : Database) : Prop :=
  forall n, exists n', m (mkConn db n) = (Ok a, mkConn db' n').

(** ** Rules *)

Lemma does_ret {A} (a : A) db : does (ret a) db a db.
Proof. intros n. by exists n. Qed.

Lemma does_bind {A B} (m : M Conn A) (k : A -> M Conn B) db a db1 b db2 :
  does m db a db1 -> does (k a) db1 b db2 -> does (bind m k) db b db2.
Proof.
  intros Hm Hk n. destruct (Hm n) as [n1 E1]. destruct (Hk n1) as [n2 E2]. exists n2.
  unfold bind. by rewrite E1.
Qed.

Lemma does_annotate {A} l (m : M Conn A) db a db' : does m db a db' -> does (annotate l m) db a db'.
Proof. intros Hm n. destruct (Hm n) as [n' E]. exists n'. unfold annotate. by rewrite E. Qed.

Lemma does_require db check : check = None -> does (require check) db tt db.
Proof. intros -> n. by exists n. Qed.

Section Rules.
Variable env : PgEnv.
Hypothesis Hrel : reliable env.

Lemma does_call {A} (f : Database -> result (A * Database)) db a db' :
  f db = Ok (a, db') -> does (call env f) db a db'.
Proof using Hrel. intros E n. eexists. by apply call_reliable. Qed.

Lemma does_query {A} (f : Database -> A) db : does (query env f) db (f db) db.
Proof using Hrel. by apply does_call. Qed.

Lemma does_exec f db : does (exec env f) db tt (f db).
Proof using Hrel. by apply does_call. Qed.

Lemma does_transaction {A} l lab (body : M Conn (string * A)) db a db' :
  does body db (lab, a) db' -> does (transaction env l body) db a db'.
Proof using Hrel.
  intros Hb n. destruct (Hb (Datatypes.S n)) as [n' E]. eexists. unfold transaction. simpl.
  rewrite Hrel, E. simpl. by rewrite Hrel.
Qed.

(** ** Statements *)

Lemma does_get_order id db o : stored_order db id = Some o -> does (getOrderTx env id) db o db.
Proof using Hrel.
  intros Ho n. destruct (get_order_reliable env id (mkConn db n) Hrel) as [n' E]. exists n'.
  rewrite E. simpl. by rewrite Ho.
Qed.

Lemma does_lock id st r db :
  t_orders db !! id = Some r -> ValidateOrderTransition (orders_status r) st = None ->
  does (lock_and_validate env id st) db tt db.
Proof using Hrel.
  intros Hr Hv. eapply does_bind; [|by apply does_require].
  eapply does_bind; [apply does_annotate, does_query|]. simpl. rewrite Hr. apply does_ret.
Qed.

(** A row as the statements that update an order leave it. *)
Definition row_allowed (r : OrderRow) : bool :=
  chk_orders_status (orders_status r) && chk_orders_payment_status (orders_payment_status r).

Lemma update_order_total id f r db :
  t_orders db !! id = Some r -> row_allowed (f r) = true ->
  update_order env id f db = Ok (1, set_orders (<[id := f r]> (t_orders db)) db).
Proof using Type.
  intros Hr [H1 H2]%andb_true_iff. unfold update_order. by rewrite Hr, H1, H2.
Qed.

Lemma does_update l id f r db :
  t_orders db !! id = Some r -> row_allowed (f r) = true ->
  does (annotate l (call env (update_order env id f))) db 1
    (set_orders (<[id := f r]> (t_orders db)) db).
Proof using Hrel. intros. by apply does_annotate, does_call, update_order_total. Qed.

Lemma does_status l id st at_ r db :
  t_orders db !! id = Some r -> row_allowed (set_row_status st at_ r) = true ->
  does (update_status_checked env l id st at_) db tt
    (set_orders (<[id := set_row_status st at_ r]> (t_orders db)) db).
Proof using Hrel. intros. eapply does_bind; [by eapply does_update|apply does_ret]. Qed.

End Rules.

(** ** JSON

    What the store and the messages need of [encoding/json] and of [JSONB]: an
    event whose texts are printable ASCII and whose time has a four-digit year is
    written, and read back with the same envelope and the same payload keys.
    Numbers of a payload come back as floating-point values, so its values are not
    promised. *)

Definition printable (c : Ascii.ascii) : bool := (32 <=? byte_of c) && (byte_of c <? 127).

Definition plain (s : string) : bool := all_chars printable s.

Fixpoint plain_any (a : any) : bool :=
  match a with
  | AStr s => plain s
  | AInt _ => true
  | AMap entries => forallb (fun kv => plain (fst kv) && plain_any (snd kv)) entries
  | AList elems => forallb plain_any elems
  end.

Definition plain_payload (p : gmap string any) : Prop :=
  map_Forall (fun k v => plain k && plain_any v = true) p.

(** Before the year 10000. *)
Definition datable (t : Time) : Prop := 0 <= t < 315537897600 * second.

Record encodable (e : OutboxEvent) : Prop := {
  en_texts : Forall (fun s => plain s = true)
    [Event_MessageID e; Event_EventType e; Event_Producer e; Event_MerchantID e; Event_OrderID e;
     Event_CorrelationID e; Event_CausationID e];
  en_time : datable (Event_OccurredAt e);
  en_payload : plain_payload (Event_Payload e)
}.

(** The envelope is the same and the payload has the same keys. *)
Record same_envelope (e e' : OutboxEvent) : Prop := {
  sv_id : Event_MessageID e' = Event_MessageID e;
  sv_type : Event_EventType e' = Event_EventType e;
  sv_version : Event_SchemaVersion e' = Event_SchemaVersion e;
  sv_time : Event_OccurredAt e' = Event_OccurredAt e;
  sv_producer : Event_Producer e' = Event_Producer e;
  sv_merchant : Event_MerchantID e' = Event_MerchantID e;
  sv_order : Event_OrderID e' = Event_OrderID e;
  sv_correlation : Event_CorrelationID e' = Event_CorrelationID e;
  sv_causation : Event_CausationID e' = Event_CausationID e;
  sv_keys : dom (Event_Payload e') = dom (Event_Payload e)
}.

#[export] Instance same_envelope_equivalence : Equivalence same_envelope.
Proof.
  split.
  - intros e. by split.
  - intros e e' []. by split.
  - intros a b c [] []. split; congruence.
Qed.

Class JsonCodec (env : PgEnv) : Prop := {
  jc_event e : encodable e -> exists text stored,
    pg_marshal env e = Ok text /\ pg_jsonb env text = Ok stored /\ stored <> ""
    /\ (exists e', pg_unmarshal env stored = Ok e' /\ same_envelope e e' /\ encodable e')
    /\ (exists e', pg_unmarshal env text = Ok e' /\ same_envelope e e' /\ encodable e');
  jc_details d : map_Forall (fun k v => plain k && plain v = true) d -> exists text stored,
    pg_marshal_details env d = Ok text /\ pg_jsonb env text = Ok stored
}.

(** *** Texts the sources produce are plain *)

Lemma plain_app a b : plain (a +:+ b) = plain a && plain b.
Proof. apply all_chars_app. Qed.

Lemma plain_itoa z : plain (Itoa z) = true.
Proof.
  eapply all_chars_impl; [|apply itoa_numeric]. intros c Hc%numeric_graphic.
  unfold graphic, printable in *. lia.
Qed.

Lemma plain_hex s : plain (hex_encode s) = true.
Proof.
  eapply all_chars_impl; [|apply hex_encode_hexadecimal]. intros c Hc%hexadecimal_graphic.
  unfold graphic, printable in *. lia.
Qed.

Lemma plain_pad w z : plain (pad w z) = true.
Proof.
  unfold pad. rewrite plain_app, plain_itoa, andb_true_r.
  induction (w - String.length (Itoa z))%nat; by simpl.
Qed.

Lemma plain_strip fuel w n : plain (strip_zeros fuel w n) = true.
Proof.
  revert w n. induction fuel as [|fuel IH]; intros w n; simpl; [apply plain_pad|].
  destruct (_ =? _); [apply IH|apply plain_pad].
Qed.

Lemma plain_format t : plain (FormatRFC3339Nano t) = true.
Proof.
  unfold FormatRFC3339Nano. destruct (civil_of_days _) as [[y m] d].
  rewrite !plain_app, !plain_pad. simpl. rewrite andb_true_r. unfold fraction.
  destruct (_ =? _); [done|]. by rewrite plain_app, plain_strip.
Qed.

Lemma plain_producer ty : plain (ProducerForEventType ty) = true.
Proof. unfold ProducerForEventType. repeat case_match; done. Qed.

(** A payload built entry by entry. *)
Lemma plain_insert k v p :
  plain k && plain_any v = true -> plain_payload p -> plain_payload (<[k := v]> p).
Proof. intros. by apply map_Forall_insert_2. Qed.

Lemma plain_single k v : plain k && plain_any v = true -> plain_payload {[k := v]}.
Proof. intros. by apply map_Forall_singleton. Qed.

#[export] Hint Resolve plain_insert plain_single plain_itoa plain_hex plain_format plain_producer : plain.

Lemma default_payload_plain e : plain_payload (DefaultEventPayload e).
Proof.
  unfold DefaultEventPayload, status_payload.
  repeat match goal with |- context [if ?b then _ else _] => destruct b end;
    first [by apply plain_single|apply map_Forall_empty|idtac];
    try (apply plain_insert; [simpl; by rewrite plain_format|by apply plain_single]).
  apply plain_single. unfold failure_stage. by repeat case_match.
Qed.

Lemma encodable_defaults e : encodable e -> encodable (WithEnvelopeDefaults e).
Proof.
  intros [Ht Htime Hp].
  destruct (envelope_fields e) as (HM & HT & HO & HMe & HOr & HC & HCa & _ & HP & HPl).
  rewrite !Forall_cons in Ht. destruct Ht as (T1 & T2 & T3 & T4 & T5 & T6 & T7 & _).
  split.
  - rewrite HM, HT, HMe, HOr, HC, HCa, HP, !Forall_cons.
    split_and!; try done; [by destruct (String.eqb (Event_Producer e) ""); [apply plain_producer|]|
                                by destruct (String.eqb (Event_CausationID e) "")].
  - by rewrite HO.
  - rewrite HPl. case_match; [apply default_payload_plain|done].
Qed.

Lemma envelope_size e e' : same_envelope e e' -> size (Event_Payload e') = size (Event_Payload e).
Proof. intros H. by rewrite <- !size_dom, (sv_keys _ _ H). Qed.

Lemma envelope_defaults e e' :
  same_envelope e e' -> same_envelope (WithEnvelopeDefaults e) (WithEnvelopeDefaults e').
Proof.
  intros H. pose proof (envelope_size _ _ H) as Hsize.
  destruct H as [H1 H2 H3 H4 H5 H6 H7 H8 H9 H10].
  destruct (envelope_fields e) as (M1 & T1 & O1 & Me1 & Or1 & C1 & Ca1 & S1 & P1 & Pl1).
  destruct (envelope_fields e') as (M2 & T2 & O2 & Me2 & Or2 & C2 & Ca2 & S2 & P2 & Pl2).
  split; [congruence|congruence|by rewrite S1, S2, H3|congruence|by rewrite P1, P2, H5, H2|congruence|congruence|congruence
         |by rewrite Ca1, Ca2, H9, H1|].
  rewrite Pl1, Pl2, Hsize. destruct (Nat.eqb _ 0); [|done]. by rewrite (default_payload_ext e' e).
Qed.

(** What is read instead of a normalized event. *)
Lemma envelope_reread e e' :
  normalized e -> same_envelope e e' -> same_envelope e (WithEnvelopeDefaults e').
Proof. intros Hn H%envelope_defaults. by rewrite Hn in H. Qed.

Section Codec.
Context (env : PgEnv) {Hjson : JsonCodec env} (Hrel : reliable env).

(** A row that was written for an event and reads back as it. *)
Record written (ev : OutboxEvent) (row : OutboxRow) : Prop := {
  wr_row : exists stored, row = outbox_row (WithEnvelopeDefaults ev) stored;
  wr_scan : exists e, scanOutboxEvent env row = Ok e
                      /\ same_envelope (WithEnvelopeDefaults ev) e /\ encodable e
}.

Lemma or_else_idem f : or_else f f = f.
Proof using Type. unfold or_else. by destruct (String.eqb_spec f ""). Qed.

Lemma scan_written e stored e' :
  stored <> "" -> pg_unmarshal env stored = Ok e' -> normalized e -> same_envelope e e' ->
  encodable e' ->
  exists e2, scanOutboxEvent env (outbox_row e stored) = Ok e2 /\ same_envelope e e2 /\ encodable e2.
Proof using Type.
  intros Hs Hu Hn [H1 H2 H3 H4 H5 H6 H7 H8 H9 H10] Hen. unfold scanOutboxEvent. simpl.
  apply String.eqb_neq in Hs. rewrite Hs, Hu. eexists. split; [reflexivity|].
  rewrite H1, H2, H6, H7, H8, H9, H4, !or_else_idem.
  assert ((if IsZero (Event_OccurredAt e) then timestamptz (Event_OccurredAt e)
           else Event_OccurredAt e) = Event_OccurredAt e) as ->.
  { destruct (IsZero _) eqn:E; [|done]. apply Z.eqb_eq in E. by rewrite E. }
  split; [apply envelope_reread; [done|by split]|].
  apply encodable_defaults. destruct Hen as [Ht Htime Hp]. rewrite H1, H2, H5, H6, H7, H8, H9 in Ht.
  split; simpl; [by rewrite H5|by rewrite <- H4|done].
Qed.

Lemma does_outbox ev db :
  encodable ev -> is_Some (t_orders db !! Event_OrderID ev) ->
  Event_MessageID ev ∉ map out_message_id (t_outbox_events db) ->
  exists row, written ev row
    /\ does (insertOutboxEvent env ev) db tt (set_outbox_events (t_outbox_events db ++ [row]) db).
Proof using All.
  intros Hen [r Hr] Hnew.
  destruct (jc_event _ (encodable_defaults _ Hen)) as (text & stored & Hm & Hj & Hne & (e' & Hu & Hs & He) & _).
  exists (outbox_row (WithEnvelopeDefaults ev) stored). split.
  - split; [by exists stored|]. eapply scan_written; try done. apply envelope_normalized.
  - unfold insertOutboxEvent. rewrite Hm. apply does_annotate, does_call; [done|].
    unfold insert_outbox_row. rewrite Hj.
    destruct (envelope_fields ev) as (HM & _ & _ & _ & HO & _). rewrite HM, HO, Hr.
    destruct (existsb _ _) eqn:E; [|done]. destruct Hnew.
    apply existsb_exists in E as (x & Hx%list_elem_of_In & Ex%String.eqb_eq).
    rewrite <- Ex. by apply list_elem_of_fmap_2.
Qed.

Lemma does_audit au db :
  map_Forall (fun k v => plain k && plain v = true) (Audit_Details au) ->
  exists row, does (insertAuditLog env au) db tt (set_audit_logs (t_audit_logs db ++ [row]) db).
Proof using All.
  intros Hd. destruct (jc_details _ Hd) as (text & stored & Hm & Hj).
  exists (audit_row au stored). unfold insertAuditLog. rewrite Hm.
  apply does_annotate, does_call; [done|]. unfold insert_audit_row. by rewrite Hj.
Qed.

(** ** Reserving stock *)

(** The stock that lets a line of the order be reserved. *)
Record stocked (m id : string) (db : Database) (item : reservationItem) : Prop := {
  sk_positive : 0 < reservation_quantity item;
  sk_candidate : exists i row, t_inventory_items db !! i = Some row
    /\ candidate m (reservation_sku item) (reservation_quantity item) db row = true;
  sk_room : forall i row, t_inventory_items db !! i = Some row -> inv_sku row = reservation_sku item ->
    0 <= inv_reserved_quantity row /\ inv_reserved_quantity row + reservation_quantity item < 2 ^ 31;
  sk_new : t_stock_reservations db !! (id, reservation_sku item) = None;
  sk_line : existsb (fun r => String.eqb (item_sku r) (reservation_sku item)) (items_of id db) = true
}.

Lemma best_of_some l b : exists x, fold_left best_of l (Some b) = Some x.
Proof using Type.
  revert b. induction l as [|y l IH]; intros b; [by exists b|]. simpl.
  destruct (preferred y b); apply IH.
Qed.

Lemma pick_exists m sku q db i row :
  t_inventory_items db !! i = Some row -> candidate m sku q db row = true ->
  exists id best, pick_stock m sku q db = Some (id, best).
Proof using Type.
  intros Hi Hc. unfold pick_stock.
  assert ((i, row) ∈ filter (fun kv => candidate m sku q db (snd kv) = true)
                       (map_to_list (t_inventory_items db))) as Hin
    by (apply list_elem_of_filter; split; [done|by apply elem_of_map_to_list]).
  destruct (filter _ _) as [|y l]; [by apply elem_of_nil in Hin|]. simpl.
  destruct (best_of_some l y) as [[id best] H]. eauto.
Qed.

Lemma pick_warehouse m sku q db id row :
  pick_stock m sku q db = Some (id, row) -> is_Some (t_warehouses db !! inv_warehouse_id row).
Proof using Type.
  intros [[Hc _]%list_elem_of_filter|]%best_of_member; [|done]. simpl in Hc. unfold candidate in Hc.
  destruct (t_warehouses db !! _); [by eexists|done].
Qed.

(** The database after one line. *)
Definition line_taken (id sku w : string) (q : Z) (at_ : Time) (i : Z) (row : InventoryRow)
    (db : Database) : Database :=
  set_stock_reservations
    (<[(id, sku) := mkReservationRow (nullableString w) q "reserved" (timestamptz at_) None]>
       (t_stock_reservations db))
    (set_inventory_items (<[i := take_stock q at_ row]> (t_inventory_items db)) db).

Lemma does_line src next item db :
  stocked (Event_MerchantID src) (Event_OrderID src) db item ->
  exists i row w,
    t_inventory_items db !! i = Some row /\ inv_sku row = reservation_sku item
    /\ is_Some (t_warehouses db !! w)
    /\ does (reserve_line env src next item) db
         (AMap [("quantity", AInt (reservation_quantity item)); ("sku", AStr (reservation_sku item));
                ("warehouse_id", AStr w)])
         (line_taken (Event_OrderID src) (reservation_sku item) w (reservation_quantity item)
            (Event_OccurredAt next) i row db).
Proof using Hrel.
  intros [Hpos (i0 & row0 & Hi0 & Hc0) Hroom Hnew Hline].
  destruct (pick_exists _ _ _ _ _ _ Hi0 Hc0) as (i & row & Hpick).
  destruct (pick_stock_spec _ _ _ _ _ _ Hpick) as (Hi & Hsku & _).
  pose proof (pick_warehouse _ _ _ _ _ _ Hpick) as Hwh.
  exists i, row, (inv_warehouse_id row). split_and!; try done.
  destruct (Hroom i row Hi Hsku) as [Hr0 Hr1].
  unfold reserve_line. eapply does_bind.
  { unfold reserveInventoryItem. eapply does_bind; [apply does_annotate, does_query; done|].
    simpl. rewrite Hnew. unfold reserve_from_stock. eapply does_bind.
    - apply does_annotate, does_call; [done|]. unfold reserve_candidate. rewrite Hpick. simpl.
      assert (int4 (inv_reserved_quantity row + reservation_quantity item) = true) as ->
        by (unfold int4; lia).
      assert ((inv_reserved_quantity row + reservation_quantity item <? 0) = false) as -> by lia.
      reflexivity.
    - apply does_ret. }
  eapply does_bind; [|apply does_ret]. apply does_annotate, does_call; [done|].
  unfold upsert_reservation. simpl. rewrite Hnew, (proj2 (Z.ltb_lt _ _) Hpos).
  unfold items_of in *. simpl. rewrite Hline. simpl.
  unfold line_taken. destruct (nullableString (inv_warehouse_id row)) as [w|] eqn:Ew; [|done].
  assert (w = inv_warehouse_id row) as -> by (unfold nullableString in Ew; by case_match; simplify_eq).
  by rewrite bool_decide_true.
Qed.

(** Lines of other products are as they were. *)
Lemma stocked_after m id db item sku w q at_ i row :
  stocked m id db item -> reservation_sku item <> sku ->
  t_inventory_items db !! i = Some row -> inv_sku row = sku ->
  stocked m id (line_taken id sku w q at_ i row db) item.
Proof using Type.
  intros [Hpos (j & r & Hj & Hc) Hroom Hnew Hline] Hne Hi Hsku. split; try done.
  - exists j, r. split; [|done]. simpl. rewrite lookup_insert_ne; [done|]. intros ->. simplify_eq.
    unfold candidate in Hc. destruct (t_warehouses db !! _); [|done]. by string_tests.
  - intros k x. simpl. destruct (decide (i = k)) as [->|Hk].
    + rewrite lookup_insert_eq. intros [= <-]. simpl. congruence.
    + rewrite lookup_insert_ne by done. apply Hroom.
  - simpl. rewrite lookup_insert_ne by congruence. done.
Qed.

Definition plain_warehouses (db : Database) : Prop :=
  map_Forall (fun w _ => plain w = true) (t_warehouses db).

Lemma does_lines src next items db :
  NoDup (map reservation_sku items) ->
  Forall (stocked (Event_MerchantID src) (Event_OrderID src) db) items ->
  Forall (fun i => plain (reservation_sku i) = true) items -> plain_warehouses db ->
  exists inv res lines,
    does (for_collect (reserve_line env src next) items) db lines
      (set_stock_reservations res (set_inventory_items inv db))
    /\ plain_any (AList lines) = true.
Proof using Hrel.
  revert db. induction items as [|item items IH]; intros db Hnd Hst Hpl Hw.
  { exists (t_inventory_items db), (t_stock_reservations db), []. split; [|done].
    replace (set_stock_reservations _ _) with db by (by destruct db). apply does_ret. }
  apply NoDup_cons in Hnd as [Hnew Hnd]. apply Forall_cons in Hst as [Hs Hst].
  apply Forall_cons in Hpl as [Hp Hpl].
  destruct (does_line src next item db Hs) as (i & row & w & Hi & Hsku & [wr Hwr] & Hd).
  set (db1 := line_taken _ _ _ _ _ _ _ _) in Hd.
  destruct (IH db1 Hnd) as (inv & res & lines & Hrest & Hlines); [|done|done|].
  { rewrite Forall_forall in *. intros x Hx. apply stocked_after; auto. intros E. apply Hnew.
    rewrite <- E. by apply list_elem_of_fmap_2. }
  exists inv, res. eexists. split.
  - cbn [for_collect]. eapply does_bind; [exact Hd|]. eapply does_bind; [exact Hrest|apply does_ret].
  - cbn [plain_any forallb] in *. rewrite Hlines, andb_true_r. simpl. rewrite Hp.
    by rewrite (Hw _ _ Hwr).
Qed.

End Codec.

(** ** Operations *)

Section Operations.
Context (env : PgEnv) {Hjson : JsonCodec env} (Hrel : reliable env).

(** One event and one audit entry more. *)
Definition logged (row : OutboxRow) (arow : AuditRow) (db : Database) : Database :=
  set_audit_logs (t_audit_logs db ++ [arow])
    (set_outbox_events (t_outbox_events db ++ [row]) db).

(** What an operation needs to append its event and its audit entry. *)
Record appendable (id : string) (next : OutboxEvent) (au : AuditLog) (db : Database) : Prop := {
  ap_event : encodable next;
  ap_order : Event_OrderID next = id;
  ap_fresh : Event_MessageID next ∉ map out_message_id (t_outbox_events db);
  ap_details : map_Forall (fun k v => plain k && plain v = true) (Audit_Details au)
}.

Lemma encodable_payload p e : encodable e -> plain_payload p -> encodable (set_Event_Payload p e).
Proof using Type. intros [Ht Htime _] Hp. by split. Qed.

Lemma does_append id p next au db :
  appendable id next au db -> plain_payload p -> is_Some (t_orders db !! id) ->
  exists row arow, written env (set_Event_Payload p next) row /\
    does (insertOutboxEvent env (set_Event_Payload p next)) db tt
      (set_outbox_events (t_outbox_events db ++ [row]) db)
    /\ does (insertAuditLog env au) (set_outbox_events (t_outbox_events db ++ [row]) db) tt
         (logged row arow db).
Proof using All.
  intros [He Ho Hf Hd] Hp Hid.
  destruct (does_outbox env Hrel (set_Event_Payload p next) db) as (row & Hw & Hdo);
    [by apply encodable_payload|simpl; by rewrite Ho|done|].
  destruct (does_audit env Hrel au (set_outbox_events (t_outbox_events db ++ [row]) db) Hd) as [arow Ha].
  by exists row, arow.
Qed.

Lemma does_tail {A} id p next au (lab : string) (a : A) db :
  appendable id next au db -> plain_payload p -> is_Some (t_orders db !! id) ->
  exists row arow, written env (set_Event_Payload p next) row /\
    does (let! _ := insertOutboxEvent env (set_Event_Payload p next) in
          let! _ := insertAuditLog env au in ret (lab, a)) db (lab, a) (logged row arow db).
Proof using All.
  intros Ha Hp Hid. destruct (does_append id p next au db Ha Hp Hid) as (row & arow & Hw & H1 & H2).
  exists row, arow. split; [done|]. eapply does_bind; [exact H1|].
  eapply does_bind; [exact H2|apply does_ret].
Qed.

(** [RecordInventoryReserved] with stock for every line. *)
Definition reservation_of (r : ItemRow) : reservationItem :=
  mkReservationItem (item_sku r) (item_quantity r).

Record reservable (m id : string) (db : Database) : Prop := {
  rv_lines : items_of id db <> [];
  rv_distinct : NoDup (map item_sku (items_of id db));
  rv_stocked : Forall (fun r => stocked m id db (reservation_of r)) (items_of id db);
  rv_plain : Forall (fun r => plain (item_sku r) = true) (items_of id db);
  rv_warehouses : plain_warehouses db
}.

(** The database after the reservation; [inv] and [res] are the stock and the
    reservations it leaves. *)
Definition reserved_db (id : string) (at_ : Time) (r : OrderRow) inv res (db : Database) : Database :=
  set_orders (<[id := set_row_status StatusInventoryReserved at_ r]> (t_orders db))
    (update_items id "reserved" (fun _ => true)
       (set_stock_reservations res (set_inventory_items inv db))).

Lemma does_items m id db :
  reservable m id db ->
  does (orderItemsForReservation env id) db (map reservation_of (items_of id db)) db.
Proof using Hrel.
  intros Hr. eapply does_bind; [apply does_annotate, does_query; done|].
  eapply does_bind; [apply does_annotate, does_query; done|].
  change (fun r : ItemRow => mkReservationItem (item_sku r) (item_quantity r)) with reservation_of.
  pose proof (rv_lines _ _ _ Hr). destruct (items_of id db); [done|]. apply does_ret.
Qed.

Lemma does_reserved src next au r db :
  let id := Event_OrderID src in
  t_orders db !! id = Some r -> orders_status r = StatusPendingFulfillment ->
  chk_orders_payment_status (orders_payment_status r) = true ->
  reservable (Event_MerchantID src) id db -> appendable id next au db ->
  exists inv res p row arow, written env (set_Event_Payload p next) row /\
    does (PgStore_RecordInventoryReserved env src next au) db tt
      (logged row arow (reserved_db id (Event_OccurredAt next) r inv res db)).
Proof using All.
  intros id Hr Hst Hpay Hrv Hap.
  destruct (does_lines env Hrel src next (map reservation_of (items_of id db)) db)
    as (inv & res & lines & Hlines & Hplain).
  { rewrite map_map. apply (rv_distinct _ _ _ Hrv). }
  { apply Forall_fmap, (rv_stocked _ _ _ Hrv). }
  { apply Forall_fmap, (rv_plain _ _ _ Hrv). }
  { apply (rv_warehouses _ _ _ Hrv). }
  set (p := <["order_status" := AStr StatusInventoryReserved]> {["reservations" := AList lines]}
         : gmap string any).
  destruct (does_tail id p next au "commit record inventory reservation: " tt
              (reserved_db id (Event_OccurredAt next) r inv res db)) as (row & arow & Hw & Htail).
  { destruct Hap. by split. }
  { apply plain_insert; [done|]. by apply plain_single. }
  { simpl. rewrite lookup_insert_eq. by eexists. }
  exists inv, res, p, row, arow. split; [done|]. unfold PgStore_RecordInventoryReserved.
  eapply does_transaction; [done|].
  eapply does_bind; [eapply does_lock; [done|exact Hr|by rewrite Hst]|].
  eapply does_bind; [by eapply does_items|]. eapply does_bind; [exact Hlines|].
  eapply does_bind; [apply does_annotate, does_exec; done|].
  eapply does_bind; [eapply (does_update env Hrel _ _ _ r); [exact Hr|]|exact Htail].
  unfold row_allowed. simpl. by rewrite Hpay.
Qed.

(** A value no other row of a table has. *)
Definition unused {R} (f : R -> string) (id x : string) (table : gmap string R) : Prop :=
  forall k row, k <> id -> table !! k = Some row -> f row <> x.

Lemma unused_others {R} (f : R -> string) id x (table : gmap string R) :
  unused f id x table ->
  existsb (fun kv => String.eqb (f (snd kv)) x) (map_to_list (delete id table)) = false.
Proof using Type.
  intros H. apply not_true_iff_false. intros ([k row] & Hin%list_elem_of_In & E%String.eqb_eq)%existsb_exists.
  apply elem_of_map_to_list, lookup_delete_Some in Hin as [Hne Hin]. by apply (H k row).
Qed.

(** [RecordPaymentAuthorized] of an authorized payment. *)
Definition authorized_row (provider authorization : string) (at_ : Time) (r : OrderRow) : OrderRow :=
  set_row_status StatusPaymentAuthorized at_
    (set_row_payment (Some provider) (Some "authorized") (Some authorization) r).

Definition authorized_db (id provider authorization : string) (at_ : Time) (r : OrderRow)
    (a : AuthorizationRow) (db : Database) : Database :=
  set_orders (<[id := authorized_row provider authorization at_ r]> (t_orders db))
    (set_payment_authorizations (<[id := a]> (t_payment_authorizations db)) db).

Lemma upsert_authorization_total id row r db :
  t_orders db !! id = Some r -> auth_status row = "authorized" -> 0 <= auth_amount row ->
  unused auth_authorization_id id (auth_authorization_id row) (t_payment_authorizations db) ->
  exists a, upsert_authorization env id row db
    = Ok (tt, set_payment_authorizations (<[id := a]> (t_payment_authorizations db)) db).
Proof using Type.
  intros Hr Hs Ha Hu. unfold upsert_authorization. apply unused_others in Hu. apply Z.ltb_ge in Ha.
  destruct (t_payment_authorizations db !! id) as [old|]; simpl;
    rewrite Hs, Ha, Hu, Hr, bool_decide_true by (by eexists); by eexists.
Qed.

Lemma does_authorized src next payment au r db :
  let id := Event_OrderID src in
  t_orders db !! id = Some r -> orders_status r = StatusInventoryReserved ->
  Payment_Status payment = "authorized" -> Payment_Provider payment <> "" ->
  0 <= orders_total_amount r ->
  unused auth_authorization_id id (Payment_AuthorizationID payment) (t_payment_authorizations db) ->
  forallb plain [Payment_Provider payment; Payment_AuthorizationID payment; orders_currency r] = true ->
  appendable id next au db ->
  exists a p row arow, written env (set_Event_Payload p next) row /\
    does (PgStore_RecordPaymentAuthorized env src next payment au) db tt
      (logged row arow (authorized_db id (Payment_Provider payment) (Payment_AuthorizationID payment)
                          (Event_OccurredAt next) r a db)).
Proof using All.
  intros id Hr Hst Hps Hpr Htot Hun Hplain Hap.
  destruct (upsert_authorization_total id
              (mkAuthorizationRow (Payment_AuthorizationID payment) (Event_MerchantID src)
                 (Payment_Provider payment) (Payment_Status payment) (orders_total_amount r)
                 (orders_currency r) (timestamptz (Event_OccurredAt next)) None) r db)
    as [a Ha]; [done..|].
  set (p := <["order_status" := AStr StatusPaymentAuthorized]>
         {["payment" := AMap [("amount", AInt (orders_total_amount r));
                              ("authorization_id", AStr (Payment_AuthorizationID payment));
                              ("currency", AStr (orders_currency r));
                              ("provider", AStr (Payment_Provider payment))]]} : gmap string any).
  destruct (does_tail id p next au "commit record payment authorization: " tt
              (authorized_db id (Payment_Provider payment) (Payment_AuthorizationID payment)
                 (Event_OccurredAt next) r a db)) as (row & arow & Hw & Htail).
  { destruct Hap. by split. }
  { simpl in Hplain. apply plain_insert; [done|]. apply plain_single. simpl.
    repeat (apply andb_true_iff in Hplain as [? Hplain]). by repeat (apply andb_true_iff; split). }
  { simpl. rewrite lookup_insert_eq. by eexists. }
  exists a, p, row, arow. split; [done|]. unfold PgStore_RecordPaymentAuthorized.
  eapply does_transaction; [done|].
  eapply does_bind; [eapply does_lock; [done|exact Hr|by rewrite Hst]|].
  eapply does_bind; [apply does_annotate, does_query; done|]. fold id. cbv beta. rewrite Hr.
  assert (payment_provider_of (Payment_Provider payment) r = Payment_Provider payment) as ->
    by (unfold payment_provider_of; by rewrite nullable_named).
  eapply does_bind; [by apply does_annotate, does_call; [|exact Ha]|].
  eapply does_bind; [|exact Htail]. rewrite Hps.
  apply (does_update env Hrel _ id (authorized_row (Payment_Provider payment)
           (Payment_AuthorizationID payment) (Event_OccurredAt next)) r
           (set_payment_authorizations (<[id := a]> (t_payment_authorizations db)) db)); done.
Qed.

(** [RecordShipmentCreated] of a booking. *)
Definition shipped_db (id : string) (at_ : Time) (r : OrderRow) (sh : ShipmentRow) (db : Database)
    : Database :=
  set_orders (<[id := set_row_status StatusShipmentCreated at_ r]> (t_orders db))
    (set_shipments (<[id := sh]> (t_shipments db)) db).

Lemma upsert_shipment_total id row r db :
  t_orders db !! id = Some r -> t_shipments db !! id = None -> ship_status row = "created" ->
  unused ship_shipment_id id (ship_shipment_id row) (t_shipments db) ->
  unused ship_tracking_number id (ship_tracking_number row) (t_shipments db) ->
  upsert_shipment env id row db
    = Ok (tt, set_shipments (<[id := row]> (t_shipments db)) db).
Proof using Type.
  intros Hr Hn Hs Hu1 Hu2. unfold upsert_shipment. apply unused_others in Hu1, Hu2.
  by rewrite Hn, Hs, Hu1, Hu2, Hr, bool_decide_true.
Qed.

Lemma does_shipped src next shipment au r db :
  let id := Event_OrderID src in
  let at_ := timestamptz (Event_OccurredAt next) in
  t_orders db !! id = Some r -> orders_status r = StatusPaymentAuthorized ->
  chk_orders_payment_status (orders_payment_status r) = true ->
  t_shipments db !! id = None -> Shipment_Status shipment = "created" ->
  unused ship_shipment_id id (Shipment_ShipmentID shipment) (t_shipments db) ->
  unused ship_tracking_number id (Shipment_TrackingNumber shipment) (t_shipments db) ->
  forallb plain [Shipment_Carrier shipment; Shipment_ShipmentID shipment;
                 Shipment_TrackingNumber shipment] = true ->
  appendable id next au db ->
  exists p row arow, written env (set_Event_Payload p next) row /\
    does (PgStore_RecordShipmentCreated env src next shipment au) db tt
      (logged row arow
         (shipped_db id (Event_OccurredAt next) r
            (mkShipmentRow (Shipment_ShipmentID shipment) (Event_MerchantID src)
               (Shipment_Carrier shipment) (Shipment_TrackingNumber shipment) "created" at_ at_) db)).
Proof using All.
  intros id at_ Hr Hst Hpay Hn Hss Hu1 Hu2 Hplain Hap.
  set (sh := mkShipmentRow _ _ _ _ _ _ _).
  set (p := <["order_status" := AStr StatusShipmentCreated]>
         {["shipment" := AMap [("carrier", AStr (Shipment_Carrier shipment));
                               ("shipment_id", AStr (Shipment_ShipmentID shipment));
                               ("tracking_number", AStr (Shipment_TrackingNumber shipment))]]}
         : gmap string any).
  destruct (does_tail id p next au "commit record shipment: " tt
              (shipped_db id (Event_OccurredAt next) r sh db)) as (row & arow & Hw & Htail).
  { destruct Hap. by split. }
  { simpl in Hplain. apply plain_insert; [done|]. apply plain_single. simpl.
    repeat (apply andb_true_iff in Hplain as [? Hplain]). by repeat (apply andb_true_iff; split). }
  { simpl. rewrite lookup_insert_eq. by eexists. }
  exists p, row, arow. split; [done|]. unfold PgStore_RecordShipmentCreated.
  eapply does_transaction; [done|].
  eapply does_bind; [eapply does_lock; [done|exact Hr|by rewrite Hst]|].
  eapply does_bind; [apply does_get_order; [done|]; unfold stored_order; fold id; by rewrite Hr|].
  eapply does_bind.
  { apply does_annotate, does_call; [done|]. fold id at_. rewrite Hss.
    apply (upsert_shipment_total id sh r db); done. }
  eapply does_bind; [|exact Htail].
  apply (does_update env Hrel _ id (set_row_status StatusShipmentCreated (Event_OccurredAt next)) r
           (set_shipments (<[id := sh]> (t_shipments db)) db)); [done|].
  unfold row_allowed. simpl. by rewrite Hpay.
Qed.

(** [UpdateOrderStatus] along an allowed move. *)
Lemma does_update_status id st now ev au r db :
  t_orders db !! id = Some r -> ValidateOrderTransition (orders_status r) st = None ->
  row_allowed (set_row_status st now r) = true ->
  plain_payload (OrderStatusEventPayload st now au (Event_Payload ev)) -> appendable id ev au db ->
  exists o p row arow, written env (set_Event_Payload p ev) row /\
    does (PgStore_UpdateOrderStatus env id st now ev au) db o
      (logged row arow (set_orders (<[id := set_row_status st now r]> (t_orders db)) db)).
Proof using All.
  intros Hr Hv Hok Hp Hap.
  destruct (does_append id _ ev au (set_orders (<[id := set_row_status st now r]> (t_orders db)) db)
              ltac:(destruct Hap; by split) Hp) as (row & arow & Hw & H1 & H2).
  { simpl. rewrite lookup_insert_eq. by eexists. }
  assert (exists o, stored_order (logged row arow
            (set_orders (<[id := set_row_status st now r]> (t_orders db)) db)) id = Some o) as [o Ho].
  { unfold stored_order. simpl. rewrite lookup_insert_eq. by eexists. }
  exists o. do 3 eexists. split; [exact Hw|]. unfold PgStore_UpdateOrderStatus.
  eapply does_transaction; [done|]. eapply does_bind; [by eapply does_lock|].
  eapply does_bind; [by eapply does_status|]. eapply does_bind; [exact H1|].
  eapply does_bind; [exact H2|]. eapply does_bind; [by apply does_get_order|apply does_ret].
Qed.

(** [RecordNotificationQueued]. *)
Lemma does_notified src au db :
  is_Some (t_orders db !! Event_OrderID src) ->
  map_Forall (fun k v => plain k && plain v = true) (Audit_Details au) ->
  exists ntf arow, ntf_status ntf = "queued" /\
    does (PgStore_RecordNotificationQueued env src au) db tt
      (set_audit_logs (t_audit_logs db ++ [arow])
         (set_notification_events (<[Event_MessageID src := ntf]> (t_notification_events db)) db)).
Proof using All.
  intros [r Hr] Hd.
  set (ntf := match t_notification_events db !! Event_MessageID src with
              | None => mkNotificationRow (Event_OrderID src) (Event_MerchantID src)
                          (Event_EventType src) "email" "queued" (Event_CorrelationID src)
                          (timestamptz (Audit_CreatedAt au))
              | Some old => mkNotificationRow (ntf_order_id old) (ntf_merchant_id old)
                              (ntf_source_event_type old) (ntf_channel old) "queued"
                              (Event_CorrelationID src) (timestamptz (Audit_CreatedAt au))
              end).
  destruct (does_audit env Hrel au
              (set_notification_events (<[Event_MessageID src := ntf]> (t_notification_events db)) db) Hd)
    as [arow Ha].
  exists ntf, arow. split; [unfold ntf; by case_match|]. eapply does_transaction; [done|].
  eapply does_bind; [apply does_get_order; [done|]; unfold stored_order; by rewrite Hr|].
  eapply does_bind; [|eapply does_bind; [exact Ha|apply does_ret]].
  apply does_annotate, does_call; [done|]. unfold upsert_notification. by rewrite Hr, bool_decide_true.
Qed.

(** [RecordInboxMessage] of a message not seen before. *)
Lemma does_inbox consumer ev db :
  t_inbox_messages db !! (consumer, Event_MessageID ev) = None ->
  does (PgStore_RecordInboxMessage env consumer ev) db true
    (set_inbox_messages (<[(consumer, Event_MessageID ev) := Event_CorrelationID ev]>
                           (t_inbox_messages db)) db).
Proof using Hrel.
  intros Hn. eapply (does_bind _ _ _ 1); [|apply (does_ret true)].
  apply does_annotate, does_call; [done|]. unfold insert_inbox_row. by rewrite Hn.
Qed.

End Operations.

(** ** A single event in the outbox *)

(** Every earlier event is published, and [row] waits unclaimed. *)
Record waiting (db : Database) (old : list OutboxRow) (row : OutboxRow) : Prop := {
  wt_rows : t_outbox_events db = old ++ [row];
  wt_old : Forall (fun r => row_pending r = false) old;
  wt_new : out_message_id row ∉ map out_message_id old;
  wt_pending : out_published_at row = None;
  wt_unclaimed : out_claimed_until row = None
}.

Definition published_row (at_ : Time) (row : OutboxRow) : OutboxRow :=
  mkOutboxRow (out_message_id row) (out_correlation_id row) (out_causation_id row)
    (out_event_type row) (out_order_id row) (out_merchant_id row) (out_payload row)
    (out_occurred_at row) (Some (timestamptz at_)) None None.

Section Single.
Context (env : PgEnv) {Hord : PgOrdering env} (Hrel : reliable env).

Lemma not_claimable now r : row_pending r = false -> row_claimable now r = false.
Proof using Type. unfold row_pending, row_claimable. by destruct (out_published_at r). Qed.

Lemma filter_none {A} (P : A -> Prop) `{!forall x, Decision (P x)} l :
  Forall (fun x => ~ P x) l -> filter P l = [].
Proof using Type. induction 1 as [|x l Hx _ IH]; [done|]. by rewrite filter_cons_False. Qed.

Lemma picked_waiting limit now db old row :
  waiting db old row -> 0 < limit -> picked_rows env limit now db = [row].
Proof using Hord.
  intros [Hrows Hold Hnew Hp Hc] Hl. unfold picked_rows. rewrite Hrows, filter_app.
  assert (filter (fun r => row_claimable now r = true) old = []) as ->.
  { apply filter_none. eapply Forall_impl; [exact Hold|]. simpl. intros r Hr%(not_claimable now).
    by rewrite Hr. }
  rewrite filter_cons_True by (unfold row_claimable; by rewrite Hp, Hc). simpl.
  destruct (pg_sorted_rows [row]) as [Hperm _]. symmetry in Hperm.
  apply Permutation_singleton_l in Hperm. rewrite filter_nil, <- Hperm.
  destruct (Z.to_nat limit) eqn:E; [lia|]. simpl. by rewrite take_nil.
Qed.

Lemma is_picked_waiting limit now db old row r :
  waiting db old row -> 0 < limit ->
  is_picked env limit now db r = String.eqb (out_message_id row) (out_message_id r).
Proof using Hord.
  intros Hw Hl. unfold is_picked. rewrite (picked_waiting _ _ _ _ _ Hw Hl). simpl. by rewrite orb_false_r.
Qed.

(** No row of [old] is touched by what concerns the waiting one. *)
Lemma old_ids old row r : out_message_id row ∉ map out_message_id old -> r ∈ old ->
  String.eqb (out_message_id row) (out_message_id r) = false.
Proof using Type.
  intros Hnew Hr. apply String.eqb_neq. intros E. apply Hnew. rewrite E. by apply list_elem_of_fmap_2.
Qed.

Lemma map_old {A} (f g : A -> A) l : (forall x, x ∈ l -> f x = g x) -> map f l = map g l.
Proof using Type. intros H. apply map_ext_in. intros x Hx. by apply H, list_elem_of_In. Qed.

Lemma claim_single limit db old row e n :
  waiting db old row -> 0 < limit -> scanOutboxEvent env row = Ok e ->
  exists now n', PgStore_PendingOutboxEvents env limit (mkConn db n)
    = (Ok [WithEnvelopeDefaults e],
       mkConn (set_outbox_events (old ++ [set_claim now row]) db) n').
Proof using All.
  intros Hw Hl Hs. pose proof Hw as [Hrows Hold Hnew Hp Hc]. unfold PgStore_PendingOutboxEvents.
  rewrite (proj2 (Z.leb_gt limit 0)) by lia. set (now := timestamptz _).
  assert (claim_rows env limit now db
          = Ok ([set_claim now row], set_outbox_events (old ++ [set_claim now row]) db)) as Hclaim.
  { unfold claim_rows. f_equal. f_equal.
    - rewrite Hrows, filter_app.
      assert (filter (fun r => is_picked env limit now db r = true) old = []) as ->.
      { apply filter_none, Forall_forall. intros r Hr.
        by rewrite (is_picked_waiting _ _ _ _ _ _ Hw Hl), (old_ids old row). }
      rewrite filter_cons_True by (by rewrite (is_picked_waiting _ _ _ _ _ _ Hw Hl), String.eqb_refl).
      rewrite filter_nil. simpl.
      pose proof (pg_returned_rows [set_claim now row]) as Hperm. symmetry in Hperm.
      by apply Permutation_singleton_l in Hperm.
    - rewrite Hrows, map_app. f_equal. f_equal.
      + rewrite <- (map_id old) at 2. apply map_old. intros r Hr.
        by rewrite (is_picked_waiting _ _ _ _ _ _ Hw Hl), (old_ids old row).
      + simpl. by rewrite (is_picked_waiting _ _ _ _ _ _ Hw Hl), String.eqb_refl. }
  exists now. eexists. unfold bind, annotate. erewrite call_reliable by (done || exact Hclaim).
  assert (scan_events env [set_claim now row] = Ok [WithEnvelopeDefaults e]) as ->.
  { change (scan_events env [set_claim now row])
      with (match scanOutboxEvent env row with Ok e => Ok [WithEnvelopeDefaults e] | Err e => Err e end).
    by rewrite Hs. }
  unfold iterate. by rewrite query_reliable.
Qed.

Lemma does_mark at_ db old row now :
  Forall (fun r => row_pending r = false) old -> out_published_at row = None ->
  out_message_id row ∉ map out_message_id old -> t_outbox_events db = old ++ [set_claim now row] ->
  does (PgStore_MarkOutboxPublished env (out_message_id row) at_) db tt
    (set_outbox_events (old ++ [published_row at_ row]) db).
Proof using Hrel.
  intros Hold Hp Hnew Hrows. eapply (does_bind _ _ _ 1); [|apply does_ret].
  apply does_annotate, does_call; [done|]. unfold mark_published. rewrite Hrows. f_equal. f_equal.
  - rewrite filter_app.
    assert (filter (fun r => String.eqb (out_message_id r) (out_message_id row) && row_pending r = true)
              old = []) as ->.
    { apply filter_none. eapply Forall_impl; [exact Hold|]. simpl. intros r ->. by rewrite andb_false_r. }
    rewrite filter_cons_True; [done|]. simpl. rewrite String.eqb_refl. unfold row_pending. simpl.
    by rewrite Hp.
  - f_equal. rewrite map_app. f_equal.
    + rewrite <- (map_id old) at 2. apply map_old. intros r Hr. unfold mark_row.
      rewrite Forall_forall in Hold. by rewrite (Hold r Hr), andb_false_r.
    + simpl. unfold mark_row, row_pending. simpl. by rewrite String.eqb_refl, Hp.
Qed.

End Single.
