(* ===== verification/PgSaga.v ===== *)
(** The handlers of the happy path over the PostgreSQL store, with the
    dependencies [cmd/fulfillhub-worker] wires: when each of them succeeds, the
    rows it writes and the event it appends. *)
From S2P Require Import Prelude GoStrings GoStringsFacts GoTime Model StateMachine.
From S2P Require Import Topology Handlers Providers Workers Saga.
From S2P Require Import Database PgStore PgOrders PgTotal WorkerProcess.

Section PgSaga.
Context {P : Type} (env : PgEnv) (henv : HEnv).
Context {Hjson : JsonCodec env} (Hrel : reliable env).
Hypothesis Hclock : forall n, datable (he_clock henv n).

Notation W := (HWorld Conn P).
Notation deps := (pg_worker_dependencies (P := P) env henv).

(** ** Identifiers *)

Definition message_id (b : string) : string := "msg" +:+ "_" +:+ hex_encode b.

(** The entropy source has not given these bytes before: from the draw [k] on,
    every draw succeeds, no two are the same, and no message of the store or of
    the inbox bears an identifier made of one. *)
Record fresh_ids (k : nat) (outbox : list OutboxRow) (inbox : gmap (string * string) string) : Prop := {
  fi_draw i : (k <= i)%nat -> exists b, he_entropy henv i = Some b
    /\ message_id b ∉ map out_message_id outbox /\ forall c, inbox !! (c, message_id b) = None;
  fi_distinct i j b : (k <= i)%nat -> (k <= j)%nat ->
    he_entropy henv i = Some b -> he_entropy henv j = Some b -> i = j
}.

Lemma message_id_inj a b : message_id a = message_id b -> a = b.
Proof using Type.
  unfold message_id. intros [= H]. change (hex_encode a = hex_encode b) in H.
  apply (f_equal hex_decode) in H. rewrite !hex_roundtrip in H.
  congruence.
Qed.

(** The next identifier was drawn and given to an event; meanwhile a message
    that is in the store was recorded. *)
Lemma fresh_next k outbox inbox b row rows consumer id corr :
  fresh_ids k outbox inbox -> he_entropy henv k = Some b -> out_message_id row = message_id b ->
  map out_message_id rows = map out_message_id (outbox ++ [row]) ->
  id ∈ map out_message_id outbox ->
  fresh_ids (Datatypes.S k) rows (<[(consumer, id) := corr]> inbox).
Proof using Type.
  intros [Hd Hu] Hb Hrow Hrows Hid. split.
  - intros i Hi. destruct (Hd i) as (bi & Hbi & Hn & Hin); [lia|]. exists bi. split_and!; [done|..].
    + rewrite Hrows, map_app, elem_of_app. intros [H|H]; [done|].
      apply list_elem_of_singleton in H. rewrite Hrow in H. apply message_id_inj in H as ->.
      enough (i = k) by lia. eapply Hu; eauto with lia.
    + intros c. rewrite lookup_insert_ne; [apply Hin|]. intros [= _ ->]. done.
  - intros i j b' Hi Hj. apply Hu; lia.
Qed.

(** The event that continues another. *)
Definition next_event (e : OutboxEvent) (ty b : string) (now : Time) : OutboxEvent :=
  mkOutboxEvent (message_id b) ty 0 now "" (Event_MerchantID e) (Event_OrderID e)
    (Event_CorrelationID e) (Event_MessageID e) ∅.

Lemma next_event_run e ty now (w : W) b :
  he_entropy henv (hw_draws w) = Some b ->
  nextEventAt henv deps e ty now w
  = (Ok (next_event e ty b now),
     mkHWorld (hw_store w) (hw_ext w) (hw_ticks w) (Datatypes.S (hw_draws w))).
Proof using Type. intros Hb. unfold nextEventAt, NewID, bind, entropy. simpl. by rewrite Hb. Qed.

(** An event a worker may be given about an order. *)
Record about (id m ty : string) (e : OutboxEvent) : Prop := {
  ab_type : Event_EventType e = ty;
  ab_identity : validateEventIdentity e = None;
  ab_order : Event_OrderID e = id;
  ab_merchant : Event_MerchantID e = m;
  ab_encodable : encodable e
}.

Lemma about_valid id m ty e : about id m ty e -> validateEvent e ty = None.
Proof using Type. intros [Ht Hi _ _ _]. unfold validateEvent. by rewrite Ht, String.eqb_refl. Qed.

Lemma audit_plain id m ty action now e :
  about id m ty e ->
  map_Forall (fun k v => plain k && plain v = true) (Audit_Details (systemAudit e action now)).
Proof using Type.
  intros [_ _ _ _ [Ht _ _]]. rewrite !Forall_cons in Ht. destruct Ht as (T1 & T2 & _).
  simpl. apply map_Forall_insert_2; [by rewrite T1|]. by apply map_Forall_singleton; rewrite T2.
Qed.

Lemma next_appendable id m ty e ty' b n action now db :
  about id m ty e -> plain ty' = true ->
  message_id b ∉ map out_message_id (t_outbox_events db) ->
  appendable id (next_event e ty' b (he_clock henv n)) (systemAudit e action now) db.
Proof using Hclock.
  intros Hab Hty Hf. pose proof (audit_plain _ _ _ action now _ Hab) as Hau.
  destruct Hab as [_ _ Ho _ [Ht _ _]]. rewrite !Forall_cons in Ht.
  destruct Ht as (T1 & T2 & T3 & T4 & T5 & T6 & T7 & _). split; try done. split.
  - simpl. unfold message_id. rewrite !Forall_cons, !plain_app, plain_hex. split_and!; try done.
  - apply Hclock.
  - apply map_Forall_empty.
Qed.

(** ** Running on the store *)

Lemma in_store_does {A} (m : M Conn A) db a db' (w : W) :
  does m db a db' -> conn_db (hw_store w) = db ->
  exists n, in_store m w = (Ok a, mkHWorld (mkConn db' n) (hw_ext w) (hw_ticks w) (hw_draws w)).
Proof using Type.
  intros Hm <-. destruct (Hm (conn_calls (hw_store w))) as [n E]. exists n. unfold in_store.
  destruct (hw_store w). simpl in *. by rewrite E.
Qed.

(** A handler's run: it succeeds, leaves [db'] and has drawn one identifier. *)
Definition handled (m : M W unit) (w : W) (db' : Database) : Prop :=
  exists w', m w = (Ok tt, w') /\ conn_db (hw_store w') = db'
             /\ hw_draws w' = Datatypes.S (hw_draws w).

Lemma reserve_handler id m e (w : W) r b :
  let db := conn_db (hw_store w) in
  about id m "order.created" e -> he_entropy henv (hw_draws w) = Some b ->
  message_id b ∉ map out_message_id (t_outbox_events db) ->
  t_orders db !! id = Some r -> orders_status r = StatusPendingFulfillment ->
  chk_orders_payment_status (orders_payment_status r) = true -> reservable m id db ->
  exists at_ p inv res row arow,
    written env (set_Event_Payload p (next_event e "inventory.reserved" b at_)) row
    /\ handled (reserveInventory henv deps e) w (logged row arow (reserved_db id at_ r inv res db)).
Proof using All.
  intros db Hab Hb Hf Hr Hst Hpay Hrv. set (at_ := he_clock henv (hw_ticks w)).
  pose proof (next_appendable id m _ e "inventory.reserved" b (hw_ticks w) "inventory.reserved"
                at_ db Hab eq_refl Hf) as Hap.
  destruct (does_reserved env Hrel e (next_event e "inventory.reserved" b at_)
              (systemAudit e "inventory.reserved" at_) r db) as (inv & res & p & row & arow & Hw & Hdo);
    rewrite ?(ab_order _ _ _ _ Hab), ?(ab_merchant _ _ _ _ Hab); try done.
  exists at_, p, inv, res, row, arow. split; [done|].
  unfold handled, reserveInventory, projector, bind at 1. simpl.
  rewrite (about_valid _ _ _ _ Hab). unfold bind at 1, require, ret. simpl.
  unfold bind at 1, Clock. simpl. fold at_. set (w1 := mkHWorld _ _ _ _).
  unfold bind at 1, try_reserve. simpl. unfold bind at 1. rewrite (next_event_run _ _ _ w1 b Hb).
  unfold bind at 1, attempt.
  destruct (in_store_does _ _ _ _ (mkHWorld (hw_store w1) (hw_ext w1) (hw_ticks w1)
              (Datatypes.S (hw_draws w1))) Hdo eq_refl) as [n Hrun].
  simpl in Hrun. cbn [hw_store hw_ext hw_ticks hw_draws w1] in *. simpl. rewrite Hrun.
  eexists. split; [reflexivity|]. simpl. by rewrite (ab_order _ _ _ _ Hab).
Qed.

(** ** Payment *)

(** What the payment adapter returns for an order with a credential. *)
Lemma pg_authorizer_run id m ty e (w : W) r provider credential :
  about id m ty e -> t_orders (conn_db (hw_store w)) !! id = Some r ->
  orders_payment_provider r = Some provider -> orders_payment_credential_ref r = Some credential ->
  credential <> "" ->
  exists n, ProviderPaymentAuthorizer_AuthorizePayment (Some (PgStore_GetOrder env))
              (Some FakePaymentProvider) e w
    = (Ok (mkPayment provider "authorized" ("pay_fake_" +:+ id) credential),
       mkHWorld (mkConn (conn_db (hw_store w)) n) (hw_ext w) (hw_ticks w) (hw_draws w)).
Proof using Hrel.
  intros Hab Hr Hp Hc Hne. unfold ProviderPaymentAuthorizer_AuthorizePayment, required, bind at 1 2.
  simpl. unfold bind at 1. rewrite (ab_order _ _ _ _ Hab).
  destruct (in_store_does (PgStore_GetOrder env id) _
              (scan_order id r (items_of id (conn_db (hw_store w)))
                 (t_shipments (conn_db (hw_store w)) !! id)) _ w
              ltac:(apply does_get_order; [done|]; unfold stored_order; by rewrite Hr) eq_refl) as [n ->].
  simpl. unfold scan_payment. rewrite Hp, Hc. simpl. apply String.eqb_neq in Hne. rewrite Hne.
  unfold bind, in_ext. simpl. unfold FakePaymentProvider_Authorize. simpl. rewrite Hne. by exists n.
Qed.

Lemma authorize_handler id m e (w : W) r b provider credential :
  let db := conn_db (hw_store w) in
  about id m "inventory.reserved" e -> he_entropy henv (hw_draws w) = Some b ->
  message_id b ∉ map out_message_id (t_outbox_events db) ->
  t_orders db !! id = Some r -> orders_status r = StatusInventoryReserved ->
  orders_payment_provider r = Some provider -> orders_payment_credential_ref r = Some credential ->
  provider <> "" -> credential <> "" -> 0 <= orders_total_amount r ->
  unused auth_authorization_id id ("pay_fake_" +:+ id) (t_payment_authorizations db) ->
  forallb plain [provider; orders_currency r; id] = true ->
  exists at_ p a row arow,
    written env (set_Event_Payload p (next_event e "payment.authorized" b at_)) row
    /\ handled (authorizePayment henv deps e) w
         (logged row arow (authorized_db id provider ("pay_fake_" +:+ id) at_ r a db)).
Proof using All.
  intros db Hab Hb Hf Hr Hst Hprov Hcred Hp Hc Htot Hun Hplain. set (at_ := he_clock henv (hw_ticks w)).
  pose proof (next_appendable id m _ e "payment.authorized" b (hw_ticks w) "payment.authorized"
                at_ db Hab eq_refl Hf) as Hap.
  set (pay := mkPayment provider "authorized" ("pay_fake_" +:+ id) credential).
  simpl in Hplain. apply andb_true_iff in Hplain as [P1 Hplain].
  apply andb_true_iff in Hplain as [P2 Hplain]. apply andb_true_iff in Hplain as [P3 _].
  destruct (does_authorized env Hrel e (next_event e "payment.authorized" b at_) pay
              (systemAudit e "payment.authorized" at_) r db) as (a & p & row & arow & Hw & Hdo);
    rewrite ?(ab_order _ _ _ _ Hab); try done.
  { simpl. by rewrite P1, P2, plain_app, P3. }
  exists at_, p, a, row, arow. split; [done|].
  unfold handled, authorizePayment, projector, bind at 1. simpl.
  rewrite (about_valid _ _ _ _ Hab). unfold bind at 1, require, ret. simpl.
  unfold bind at 1, Clock. simpl. fold at_. set (w1 := mkHWorld _ _ _ _). unfold bind at 1, attempt.
  destruct (pg_authorizer_run id m _ e w1 r provider credential Hab Hr Hprov Hcred Hc) as [n1 ->].
  fold pay. assert (normalizedPayment pay = pay) as ->.
  { unfold normalizedPayment, pay. simpl. by apply String.eqb_neq in Hp as ->. }
  assert (String.eqb (Payment_AuthorizationID pay) "" = false) as -> by done.
  unfold bind at 1, ret. unfold bind at 1, w1. cbn [hw_store hw_ext hw_ticks hw_draws]. fold db.
  rewrite (next_event_run e "payment.authorized" at_
             (mkHWorld (mkConn db n1) (hw_ext w) (Datatypes.S (hw_ticks w)) (hw_draws w)) b Hb).
  destruct (in_store_does _ _ _ _ (mkHWorld (mkConn db n1) (hw_ext w) (Datatypes.S (hw_ticks w))
              (Datatypes.S (hw_draws w))) Hdo eq_refl) as [n Hrun].
  simpl in Hrun. simpl. fold db. rewrite Hrun.
  eexists. split; [reflexivity|]. simpl. by rewrite (ab_order _ _ _ _ Hab).
Qed.

(** ** Shipment *)

Lemma pg_creator_run id m ty e (w : W) r :
  about id m ty e -> t_orders (conn_db (hw_store w)) !! id = Some r ->
  default "" (orders_shipping_address_ref r) <> "" ->
  exists n at_, ProviderShipmentCreator_CreateShipment henv (Some (PgStore_GetOrder env))
                  (Some FakeShipmentProvider) e w
    = (Ok (mkShipment ("shp_fake_" +:+ id) "created" "fake-carrier" ("TRACK-" +:+ id)
             [mkShipmentEvent at_ "created" "Shipment booking created by provider adapter."]),
       mkHWorld (mkConn (conn_db (hw_store w)) n) (hw_ext w) (Datatypes.S (hw_ticks w)) (hw_draws w)).
Proof using Hrel.
  intros Hab Hr Ha. unfold ProviderShipmentCreator_CreateShipment, required, bind at 1 2.
  simpl. unfold bind at 1. rewrite (ab_order _ _ _ _ Hab).
  destruct (in_store_does (PgStore_GetOrder env id) _
              (scan_order id r (items_of id (conn_db (hw_store w)))
                 (t_shipments (conn_db (hw_store w)) !! id)) _ w
              ltac:(apply does_get_order; [done|]; unfold stored_order; by rewrite Hr) eq_refl) as [n ->].
  simpl. apply String.eqb_neq in Ha. rewrite Ha. unfold bind, in_ext. simpl.
  unfold FakeShipmentProvider_CreateShipment. simpl. rewrite Ha. simpl. eauto.
Qed.

(** The row of the booking. *)
Definition booked_row (id m : string) (at_ : Time) : ShipmentRow :=
  mkShipmentRow ("shp_fake_" +:+ id) m "fake-carrier" ("TRACK-" +:+ id) "created"
    (timestamptz at_) (timestamptz at_).

Lemma shipment_handler id m e (w : W) r b :
  let db := conn_db (hw_store w) in
  about id m "payment.authorized" e -> he_entropy henv (hw_draws w) = Some b ->
  message_id b ∉ map out_message_id (t_outbox_events db) ->
  t_orders db !! id = Some r -> orders_status r = StatusPaymentAuthorized ->
  chk_orders_payment_status (orders_payment_status r) = true ->
  default "" (orders_shipping_address_ref r) <> "" -> t_shipments db !! id = None ->
  unused ship_shipment_id id ("shp_fake_" +:+ id) (t_shipments db) ->
  unused ship_tracking_number id ("TRACK-" +:+ id) (t_shipments db) -> plain id = true ->
  exists at_ p row arow,
    written env (set_Event_Payload p (next_event e "shipment.created" b at_)) row
    /\ handled (createShipment henv deps e) w
         (logged row arow (shipped_db id at_ r (booked_row id m at_) db)).
Proof using All.
  intros db Hab Hb Hf Hr Hst Hpay Ha Hns Hu1 Hu2 Hid. set (at_ := he_clock henv (hw_ticks w)).
  pose proof (next_appendable id m _ e "shipment.created" b (hw_ticks w) "shipment.created"
                at_ db Hab eq_refl Hf) as Hap.
  set (w1 := mkHWorld (hw_store w) (hw_ext w) (Datatypes.S (hw_ticks w)) (hw_draws w)).
  destruct (pg_creator_run id m _ e w1 r Hab Hr Ha) as (n1 & booked_at & Hcreate).
  set (sh := mkShipment _ _ _ _ _) in Hcreate.
  destruct (does_shipped env Hrel e (next_event e "shipment.created" b at_) sh
              (systemAudit e "shipment.created" at_) r db) as (p & row & arow & Hw & Hdo);
    rewrite ?(ab_order _ _ _ _ Hab); try done.
  { simpl. by rewrite !plain_app, Hid. }
  exists at_, p, row, arow. split; [done|].
  unfold handled, createShipment, projector, bind at 1. simpl.
  rewrite (about_valid _ _ _ _ Hab). unfold bind at 1, require, ret. simpl.
  unfold bind at 1, Clock at 1. simpl. fold at_ w1. unfold bind at 1, attempt. rewrite Hcreate.
  unfold bind at 1, w1. cbn [hw_store hw_ext hw_ticks hw_draws]. fold db.
  rewrite (next_event_run e "shipment.created" at_
             (mkHWorld (mkConn db n1) (hw_ext w) (Datatypes.S (Datatypes.S (hw_ticks w))) (hw_draws w))
             b Hb). unfold bind at 1. simpl.
  destruct (in_store_does _ _ _ _ (mkHWorld (mkConn db n1) (hw_ext w) (Datatypes.S (Datatypes.S (hw_ticks w)))
              (Datatypes.S (hw_draws w))) Hdo eq_refl) as [n Hrun].
  simpl in Hrun. fold db. unfold sh in Hrun. rewrite Hrun.
  eexists. split; [reflexivity|]. simpl. unfold booked_row.
  by rewrite (ab_order _ _ _ _ Hab), (ab_merchant _ _ _ _ Hab).
Qed.

(** ** Completion and notification *)

Definition completed_db (id : string) (at_ : Time) (r : OrderRow) (db : Database) : Database :=
  set_orders (<[id := set_row_status StatusCompleted at_ r]> (t_orders db)) db.

Lemma completed_payload_plain at_ au :
  plain_payload (OrderStatusEventPayload StatusCompleted at_ au ∅).
Proof using Type.
  unfold OrderStatusEventPayload. simpl. unfold put_absent. rewrite lookup_insert_ne, lookup_empty by done.
  apply plain_insert; [simpl; by rewrite plain_format|]. apply plain_insert; [done|apply map_Forall_empty].
Qed.

Lemma complete_handler id m e (w : W) r b :
  let db := conn_db (hw_store w) in
  about id m "shipment.created" e -> he_entropy henv (hw_draws w) = Some b ->
  message_id b ∉ map out_message_id (t_outbox_events db) ->
  t_orders db !! id = Some r -> orders_status r = StatusShipmentCreated ->
  chk_orders_payment_status (orders_payment_status r) = true ->
  exists at_ p row arow,
    written env (set_Event_Payload p (next_event e "order.completed" b at_)) row
    /\ handled (completeOrder henv deps e) w (logged row arow (completed_db id at_ r db)).
Proof using All.
  intros db Hab Hb Hf Hr Hst Hpay. set (at_ := he_clock henv (hw_ticks w)).
  pose proof (next_appendable id m _ e "order.completed" b (hw_ticks w) "order.completed"
                at_ db Hab eq_refl Hf) as Hap.
  destruct (does_update_status env Hrel id StatusCompleted at_ (next_event e "order.completed" b at_)
              (systemAudit e "order.completed" at_) r db Hr) as (o & p & row & arow & Hw & Hdo); try done.
  { by rewrite Hst. }
  { apply completed_payload_plain. }
  exists at_, p, row, arow. split; [done|].
  unfold handled, completeOrder, orders, bind at 1. simpl.
  rewrite (about_valid _ _ _ _ Hab). unfold bind at 1, require, ret at 1. simpl.
  unfold bind at 1. rewrite (ab_order _ _ _ _ Hab).
  destruct (in_store_does (PgStore_GetOrder env id) db
              (scan_order id r (items_of id db) (t_shipments db !! id)) db w
              ltac:(apply does_get_order; [done|]; unfold stored_order; by rewrite Hr) eq_refl) as [n1 ->].
  simpl. rewrite Hst. simpl. unfold bind at 1, Clock. simpl. fold at_. unfold bind at 1.
  rewrite (next_event_run e "order.completed" at_
             (mkHWorld (mkConn db n1) (hw_ext w) (Datatypes.S (hw_ticks w)) (hw_draws w)) b Hb).
  unfold bind at 1.
  destruct (in_store_does _ _ _ _ (mkHWorld (mkConn db n1) (hw_ext w) (Datatypes.S (hw_ticks w))
              (Datatypes.S (hw_draws w))) Hdo eq_refl) as [n Hrun].
  simpl in Hrun. simpl. rewrite Hrun. by eexists.
Qed.

Lemma notify_handler id m ty e (w : W) :
  let db := conn_db (hw_store w) in
  isNotificationEvent ty = true -> about id m ty e -> is_Some (t_orders db !! id) ->
  exists ntf arow w',
    queueNotification henv deps e w = (Ok tt, w') /\ ntf_status ntf = "queued"
    /\ conn_db (hw_store w')
       = set_audit_logs (t_audit_logs db ++ [arow])
           (set_notification_events (<[Event_MessageID e := ntf]> (t_notification_events db)) db).
Proof using Hjson Hrel.
  intros db Hty Hab Hr. set (at_ := he_clock henv (hw_ticks w)).
  destruct (does_notified env Hrel e (systemAudit e "notification.email_queued" at_) db)
    as (ntf & arow & Hn & Hdo).
  { by rewrite (ab_order _ _ _ _ Hab). }
  { by eapply audit_plain. }
  exists ntf, arow. unfold queueNotification, projector, bind at 1. simpl.
  rewrite (ab_type _ _ _ _ Hab), Hty, (ab_identity _ _ _ _ Hab). simpl.
  unfold bind at 1, require, ret. simpl. unfold bind at 1, Clock. simpl. fold at_.
  destruct (in_store_does _ _ _ _ (mkHWorld (hw_store w) (hw_ext w) (Datatypes.S (hw_ticks w))
              (hw_draws w)) Hdo eq_refl) as [n Hrun].
  simpl in Hrun. rewrite Hrun. by eexists.
Qed.

End PgSaga.
