(* ===== verification/Pipeline.v ===== *)
(** The whole system at work on one order: the outbox relay, the broker with the
    declared topology, and the workers of every queue, over the PostgreSQL store.

    A round of the system is one run of the relay followed by one delivery for
    every message that is then in the broker.  The theorem follows an accepted
    order through the rounds that complete it. *)
From S2P Require Import Prelude GoStrings GoStringsFacts GoTime Model StateMachine.
From S2P Require Import MemoryInvariant Topology Amqp Consumer Relay Handlers Providers Workers Saga.
From S2P Require Import Database PgStore PgAtomic PgStock PgOrders PgSamples PgSchema PgTotal.
From S2P Require Import RelayProcess WorkerProcess PgSaga.

(** ** The broker *)

(** The messages that are ready, with the queue they are in. *)
Definition Broker : Type := list (string * Delivery).

(** RabbitMQ is not part of the sources; the theorems below assume one that takes
    and confirms every message, keeps it, and routes it by the bindings the
    topology declares.  The error paths of publishing and acknowledging are the
    business of [Relay], [Consumer], [Dlq] and [WorkerProcess], over any channel. *)
Definition broker_publish (exchange key : string) (p : Publishing) : M Broker unit :=
  modify (fun b => b ++ map (fun q => (q, deliver exchange key p)) (routes exchange key)).

(** A rejected delivery goes where its queue sends its dead letters. *)
Definition broker_reject (queue : string) (d : Delivery) : M Broker unit :=
  modify (fun b => b ++ map (fun q => (q, d)) (dead_letter queue (Delivery_RoutingKey d))).

(** ** The system *)

Record System (P : Type) := mkSystem {
  sys_world : World Conn (HWorld Conn P) Broker;
  (** how often the relay read its clock *)
  sys_ticks : nat
}.

Arguments mkSystem {P}.
Arguments sys_world {P}.
Arguments sys_ticks {P}.

Section System.
Context {P : Type} (env : PgEnv) (henv : HEnv).
(** the trace headers, the relay's clock, the time stamps of the publisher, and
    the size of a batch *)
Variable inject : Table -> Table.
Variable clock : nat -> Time.
Variable stamp : Time.
Variable limit : Z.

Notation deps := (pg_worker_dependencies (P := P) env henv).
Notation W := (World Conn (HWorld Conn P) Broker).

Definition system_publisher : Publisher Broker :=
  mkPublisher (RabbitPublisher_Publish (pg_marshal env) inject broker_publish (fun _ => ret tt) stamp).

Definition with_store (c : Conn) (w : HWorld Conn P) : HWorld Conn P :=
  mkHWorld c (hw_ext w) (hw_ticks w) (hw_draws w).

(** One run of the relay. *)
Definition relay_turn (s : System P) : System P :=
  let w := sys_world s in
  let '(_, st) := RunOnce (pg_source env) system_publisher clock limit
                    (mkRelayState (hw_store (w_app w)) (w_broker w) (sys_ticks s)) in
  mkSystem (mkWorld (w_inbox w) (with_store (rs_source st) (w_app w)) (rs_publisher st) (w_log w))
    (rs_ticks st).

(** The worker of a queue, as [cmd/fulfillhub-worker] sets it up; its consumer
    bears the name of the queue. *)
Definition queue_worker (queue : string) : option (Consumer Conn (HWorld Conn P) Broker) :=
  match HandlerForQueue henv deps queue with
  | Ok handler =>
      Some (mkConsumer queue queue (Some (pg_inbox env)) (Some handler)
              (Some (PublishRetry broker_publish (fun _ => ret tt) stamp)) 0)
  | Err _ => None
  end.

(** The next message is taken by the worker of its queue; a queue without one
    keeps its messages. *)
Definition worker_turn (s : System P) : System P :=
  let w := sys_world s in
  match w_broker w with
  | [] => s
  | (queue, d) :: rest =>
      match queue_worker queue with
      | None => mkSystem (mkWorld (w_inbox w) (w_app w) (rest ++ [(queue, d)]) (w_log w)) (sys_ticks s)
      | Some c =>
          mkSystem (snd (ProcessDelivery (pg_unmarshal env) (fun _ => ret tt) (broker_reject queue) c d
                           (mkWorld (w_inbox w) (w_app w) rest (w_log w)))) (sys_ticks s)
      end
  end.

Definition round (s : System P) : System P :=
  let s := relay_turn s in
  Nat.iter (length (w_broker (sys_world s))) worker_turn s.

Definition rounds (n : nat) (s : System P) : System P := Nat.iter n round s.

(** The application's database and what the inbox has seen. *)
Definition sys_db (s : System P) : Database := conn_db (hw_store (w_app (sys_world s))).

Definition sys_inbox (s : System P) : gmap (string * string) string :=
  t_inbox_messages (conn_db (w_inbox (sys_world s))).

Definition sys_draws (s : System P) : nat := hw_draws (w_app (sys_world s)).

(** ** Messages *)

Context {Hjson : JsonCodec env} {Hord : PgOrdering env}.
Hypothesis Hrel : reliable env.
Hypothesis Hclock : forall n, datable (he_clock henv n).
Hypothesis Hlimit : 0 < limit.

(** An event of an order, before its envelope is completed. *)
Record identified (id m ty : string) (ev : OutboxEvent) : Prop := {
  id_type : Event_EventType ev = ty;
  id_valid : validateEventIdentity ev = None;
  id_order : Event_OrderID ev = id;
  id_merchant : Event_MerchantID ev = m;
  id_version : Event_SchemaVersion ev = 0 \/ Event_SchemaVersion ev = EventSchemaVersion
}.

Lemma identity_parts e :
  validateEventIdentity e = None <->
  Event_MessageID e <> "" /\ Event_CorrelationID e <> "" /\ Event_CausationID e <> ""
  /\ Event_OrderID e <> "" /\ Event_MerchantID e <> "".
Proof using Type.
  unfold validateEventIdentity.
  destruct (String.eqb_spec (Event_MessageID e) ""), (String.eqb_spec (Event_CorrelationID e) ""),
    (String.eqb_spec (Event_CausationID e) ""), (String.eqb_spec (Event_OrderID e) ""),
    (String.eqb_spec (Event_MerchantID e) ""); naive_solver.
Qed.

(** What is delivered for it. *)
Lemma about_delivered id m ty ev e :
  identified id m ty ev -> same_envelope (WithEnvelopeDefaults ev) e -> encodable e -> about id m ty e.
Proof using Type.
  intros [Ht Hv Ho Hm _] [H1 H2 _ _ _ H6 H7 H8 H9 _] He.
  destruct (envelope_fields ev) as (M1 & T1 & _ & Me1 & Or1 & C1 & Ca1 & _).
  apply identity_parts in Hv as (V1 & V2 & V3 & V4 & V5).
  rewrite (proj2 (String.eqb_neq _ _) V3) in Ca1.
  split; try congruence. apply identity_parts. split_and!; congruence.
Qed.

Lemma decode_published e text e' key :
  normalized e -> Event_SchemaVersion e = EventSchemaVersion -> Event_CausationID e <> "" ->
  pg_unmarshal env text = Ok e' -> same_envelope e e' -> encodable e' ->
  exists e2, decodeDelivery (pg_unmarshal env)
               (deliver DomainExchange key (event_publishing inject e text stamp)) = Ok e2
             /\ same_envelope e e2 /\ encodable e2.
Proof using Type.
  intros Hn Hv Hca Hu Hs He. unfold decodeDelivery. simpl. rewrite Hu.
  destruct Hs as [H1 H2 H3 H4 H5 H6 H7 H8 H9 H10].
  rewrite H3, Hv, H1, H2, H8, H9, (Amqp.or_else_id _ _ Hca), !Amqp.or_else_same. simpl.
  eexists. split; [reflexivity|]. split.
  - apply envelope_reread; [done|]. by split.
  - apply encodable_defaults. destruct He as [Ht Htime Hp].
    rewrite H1, H2, H5, H6, H7, H8, H9 in Ht. split; simpl; [by rewrite H5, H6, H7|done..].
Qed.

(** ** The relay's turn *)

(** The relay takes the waiting event, publishes it and marks it; its message is
    in the queues of its routing key and decodes to the event. *)
Lemma relay_turn_single s old row ev id m ty :
  waiting (sys_db s) old row -> written env ev row -> identified id m ty ev ->
  exists e d at_ n,
    relay_turn s
    = mkSystem
        (mkWorld (w_inbox (sys_world s))
           (with_store (mkConn (set_outbox_events (old ++ [published_row at_ row]) (sys_db s)) n)
              (w_app (sys_world s)))
           (w_broker (sys_world s)
            ++ map (fun q => (q, d)) (routes DomainExchange (RoutingKey ty)))
           (w_log (sys_world s))) (Datatypes.S (sys_ticks s))
    /\ decodeDelivery (pg_unmarshal env) d = Ok e
    /\ same_envelope (WithEnvelopeDefaults ev) e /\ encodable e.
Proof using All.
  intros Hw [(stored & Hrow) (e1 & Hscan & Hs1 & He1)] Hid.
  set (sent := WithEnvelopeDefaults e1).
  assert (Hsent : same_envelope (WithEnvelopeDefaults ev) sent)
    by (apply envelope_reread; [apply envelope_normalized|done]).
  assert (Hnorm : WithEnvelopeDefaults sent = sent) by apply envelope_normalized.
  destruct (jc_event sent (encodable_defaults _ He1)) as (text & _ & Hm & _ & _ & _ & (e' & Hu & Hs' & He')).
  destruct (envelope_fields ev) as (M1 & T1 & _ & _ & _ & _ & Ca1 & S1 & _).
  assert (Hty : Event_EventType sent = ty) by (rewrite (sv_type _ _ Hsent), T1; apply Hid).
  assert (Hmid : Event_MessageID sent = out_message_id row).
  { rewrite (sv_id _ _ Hsent). by subst row. }
  pose proof (proj1 (identity_parts _) (id_valid _ _ _ _ Hid)) as (V1 & _ & V3 & _).
  rewrite (proj2 (String.eqb_neq _ _) V3) in Ca1.
  destruct (decode_published sent text e' (RoutingKey ty)) as (e2 & Hd & Hs2 & He2); try done.
  { rewrite (sv_version _ _ Hsent), S1. destruct (id_version _ _ _ _ Hid) as [-> | ->]; done. }
  { by rewrite (sv_causation _ _ Hsent), Ca1. }
  set (d := deliver DomainExchange (RoutingKey ty) (event_publishing inject sent text stamp)) in *.
  unfold relay_turn, sys_db, RunOnce, on_source. simpl.
  destruct (hw_store (w_app (sys_world s))) as [db n0] eqn:Ec. unfold sys_db in Hw. rewrite Ec in Hw.
  simpl in Hw. destruct (claim_single env Hrel limit db old row e1 n0 Hw Hlimit Hscan) as (now & n1 & ->).
  fold sent. cbn [relay_loop]. unfold relay_event, bind at 1, annotate at 1, on_publisher. simpl.
  unfold RabbitPublisher_Publish. rewrite Hnorm, Hm. unfold bind at 1, broker_publish, modify, ret. simpl.
  unfold bind at 1, relay_clock. simpl. unfold annotate, on_source. simpl. rewrite Hmid.
  destruct (does_mark env Hrel (clock (sys_ticks s)) (set_outbox_events (old ++ [set_claim now row]) db)
              old row now (wt_old _ _ _ Hw) (wt_pending _ _ _ Hw) (wt_new _ _ _ Hw) eq_refl n1)
    as [n2 ->].
  simpl. rewrite Hty. exists e2, d, (clock (sys_ticks s)), n2. split_and!; try done.
  by transitivity sent.
Qed.

(** ** A round with one message *)

Record stage (s : System P) (id m ty : string) (r : OrderRow) (ev : OutboxEvent) : Prop := {
  sg_order : t_orders (sys_db s) !! id = Some r;
  sg_outbox : exists old row, waiting (sys_db s) old row /\ written env ev row;
  sg_event : identified id m ty ev;
  sg_broker : w_broker (sys_world s) = [];
  sg_inbox : forall c, sys_inbox s !! (c, Event_MessageID ev) = None;
  sg_fresh : fresh_ids henv (sys_draws s) (t_outbox_events (sys_db s)) (sys_inbox s)
}.

(** The worker's turn on a message that is new to its queue. *)
Lemma worker_turn_single s queue handler d e w' :
  w_broker (sys_world s) = [(queue, d)] -> HandlerForQueue henv deps queue = Ok handler ->
  decodeDelivery (pg_unmarshal env) d = Ok e ->
  sys_inbox s !! (queue, Event_MessageID e) = None ->
  handler e (w_app (sys_world s)) = (Ok tt, w') ->
  let s' := worker_turn s in
  w_app (sys_world s') = w' /\ w_broker (sys_world s') = []
  /\ sys_inbox s' = <[(queue, Event_MessageID e) := Event_CorrelationID e]> (sys_inbox s).
Proof using Hrel.
  intros Hb Hh Hd Hnew Hrun s'. subst s'. unfold worker_turn. rewrite Hb. unfold queue_worker. rewrite Hh.
  destruct s as [[[db n] a b l] t]. unfold sys_inbox in *. simpl in *. set (c := mkConsumer _ _ _ _ _ _).
  assert (exists n' l',
    ProcessDelivery (pg_unmarshal env) (fun _ => ret tt) (broker_reject queue) c d
      (mkWorld (mkConn db n) a [] l)
    = (Ok tt, mkWorld (mkConn (set_inbox_messages
                 (<[(queue, Event_MessageID e) := Event_CorrelationID e]> (t_inbox_messages db)) db) n')
                w' [] l')) as (n' & l' & ->); [|done].
  assert (consumerName c = queue) as Hname by (unfold consumerName; simpl; by destruct (negb _)).
  unfold ProcessDelivery. cbn [c Consumer_Inbox Consumer_Handler]. rewrite Hd, Hname.
  destruct (does_inbox env Hrel queue e db Hnew n) as [n' Hi].
  unfold bind at 1, attempt, in_inbox. simpl. rewrite Hi. simpl.
  unfold bind at 1, attempt, in_app. simpl. rewrite Hrun. simpl. by do 2 eexists.
Qed.

(** The row of an event in an outbox. *)
Definition row_of_event (id ty message : string) (rows : list OutboxRow) : Prop :=
  exists row, row ∈ rows /\ out_message_id row = message /\ out_event_type row = ty
              /\ out_order_id row = id.

(** A round hands the waiting event to the worker of its queue, which sees the
    database with the event marked as published. *)
Lemma round_delivers s id m ty r ev queue handler :
  stage s id m ty r ev -> routes DomainExchange (RoutingKey ty) = [queue] ->
  HandlerForQueue henv deps queue = Ok handler ->
  exists e w old,
    about id m ty e /\ Event_MessageID e = Event_MessageID ev
    /\ conn_db (hw_store w) = set_outbox_events old (sys_db s)
    /\ map out_message_id old = map out_message_id (t_outbox_events (sys_db s))
    /\ Forall (fun r => row_pending r = false) old
    /\ row_of_event id ty (Event_MessageID ev) old
    /\ hw_draws w = sys_draws s
    /\ forall w', handler e w = (Ok tt, w') ->
         w_app (sys_world (round s)) = w' /\ w_broker (sys_world (round s)) = []
         /\ sys_inbox (round s) = <[(queue, Event_MessageID ev) := Event_CorrelationID e]> (sys_inbox s).
Proof using All.
  intros [Hr (old & row & Hw & Hwr) Hev Hb Hin Hfr] Hq Hh.
  destruct (relay_turn_single s old row ev id m ty Hw Hwr Hev) as (e & d & at_ & n & Hturn & Hd & Hs & He).
  assert (Hmid : Event_MessageID e = Event_MessageID ev) by (rewrite (sv_id _ _ Hs); apply envelope_fields).
  assert (Hrow : out_message_id row = Event_MessageID ev /\ out_event_type row = ty
                 /\ out_order_id row = id).
  { destruct Hwr as [(stored & ->) _], Hev as [<- _ <- _ _]. simpl.
    by destruct (envelope_fields ev) as (-> & -> & _ & _ & -> & _). }
  set (db1 := set_outbox_events (old ++ [published_row at_ row]) (sys_db s)) in Hturn.
  exists e, (with_store (mkConn db1 n) (w_app (sys_world s))), (old ++ [published_row at_ row]).
  split_and!; try done.
  - by eapply about_delivered.
  - rewrite (wt_rows _ _ _ Hw), !map_app. done.
  - apply Forall_app. split; [apply Hw|]. by constructor.
  - exists (published_row at_ row). split; [|done]. rewrite elem_of_app. right. apply list_elem_of_here.
  - intros w' Hrun. unfold round. rewrite Hturn, Hq, Hb. simpl.
    rewrite <- Hmid. set (s1 := mkSystem _ _).
    apply (worker_turn_single s1 queue handler d e w' eq_refl Hh Hd); [|done]. rewrite Hmid. apply Hin.
Qed.

(** A round whose handler succeeds leads to the next stage.  [Q] is what the
    handler does to the database it finds. *)
Lemma round_handled s id m ty r ev queue handler ty' (Q : Database -> Database -> Prop) :
  stage s id m ty r ev -> routes DomainExchange (RoutingKey ty) = [queue] ->
  HandlerForQueue henv deps queue = Ok handler ->
  (forall e w old b,
     about id m ty e -> conn_db (hw_store w) = set_outbox_events old (sys_db s) ->
     he_entropy henv (hw_draws w) = Some b -> message_id b ∉ map out_message_id old ->
     exists at_ p row arow db',
       written env (set_Event_Payload p (next_event e ty' b at_)) row
       /\ handled (handler e) w (logged row arow db')
       /\ t_outbox_events db' = old /\ Q (set_outbox_events old (sys_db s)) db') ->
  exists ev' old row arow db',
    Q (set_outbox_events old (sys_db s)) db' /\ sys_db (round s) = logged row arow db'
    /\ forall r', t_orders db' !! id = Some r' -> stage (round s) id m ty' r' ev'.
Proof using All.
  intros Hst Hq Hh Hrun.
  destruct (round_delivers s id m ty r ev queue handler Hst Hq Hh)
    as (e & w & old & Hab & Hmid & Hdb & Hids & Hpub & Hin & Hdraws & Hdo).
  pose proof (sg_fresh _ _ _ _ _ _ Hst) as Hfr.
  destruct (fi_draw _ _ _ _ Hfr (sys_draws s)) as (b & Hb & Hnew & Hinbox); [lia|].
  rewrite <- Hdraws in Hb. rewrite <- Hids in Hnew.
  destruct (Hrun e w old b Hab Hdb Hb Hnew) as (at_ & p & row & arow & db' & Hwr & Hhd & Hout & HQ).
  destruct Hhd as (w' & Hw' & Hdb' & Hdr'). destruct (Hdo w' Hw') as (Happ & Hbr & Hib).
  assert (Hsys : sys_db (round s) = logged row arow db') by (unfold sys_db; by rewrite Happ).
  assert (Hrow : out_message_id row = message_id b).
  { destruct Hwr as [(stored & ->) _]. simpl. by destruct (envelope_fields
      (set_Event_Payload p (next_event e ty' b at_))) as (-> & _). }
  exists (set_Event_Payload p (next_event e ty' b at_)), old, row, arow, db'. split_and!; [done..|].
  pose proof (proj1 (identity_parts _) (ab_identity _ _ _ _ Hab)) as (V1 & V2 & _ & V4 & V5).
  intros r' Hr'. split.
  - by rewrite Hsys.
  - exists old, row. split; [|done]. destruct Hwr as [(stored & E) _]. split.
    + rewrite Hsys. simpl. by rewrite Hout.
    + done.
    + by rewrite Hrow.
    + by rewrite E.
    + by rewrite E.
  - split; simpl; [done| |apply Hab..|by left]. apply identity_parts. simpl. by split_and!.
  - done.
  - intros c. rewrite Hib. simpl. rewrite lookup_insert_ne; [apply Hinbox|].
    intros [= _ E]. apply Hnew. rewrite <- E. destruct Hin as (x & Hx & <- & _).
    by apply list_elem_of_fmap_2.
  - unfold sys_draws. rewrite Happ, Hdr', Hdraws, Hib, Hsys. fold (sys_draws s).
    assert (Event_MessageID ev ∈ map out_message_id (t_outbox_events (sys_db s))).
    { destruct Hin as (x & Hx & Ex & _). rewrite <- Hids, <- Ex. by apply list_elem_of_fmap_2. }
    apply (fresh_next henv _ (t_outbox_events (sys_db s)) _ b row); try done; [by rewrite <- Hdraws|].
    simpl. by rewrite Hout, !map_app, Hids.
Qed.

(** ** The rounds *)

Lemma stocked_outbox m id db old item :
  stocked m id db item -> stocked m id (set_outbox_events old db) item.
Proof using Type. intros []. by split. Qed.

Lemma reservable_outbox m id db old : reservable m id db -> reservable m id (set_outbox_events old db).
Proof using Type.
  intros [H1 H2 H3 H4 H5]. split; try done. eapply Forall_impl; [exact H3|].
  intros r. apply stocked_outbox.
Qed.

Lemma items_updated id st db :
  items_of id (update_items id st (fun _ => true) db) = map (set_item_status st) (items_of id db).
Proof using Type.
  unfold items_of, update_items. simpl. induction (t_order_items db) as [|i items IH]; [done|].
  simpl. rewrite !filter_cons. destruct (String.eqb_spec (item_order_id i) id) as [E|E]; simpl.
  - rewrite !decide_True by done. simpl. by rewrite IH.
  - by rewrite !decide_False.
Qed.

Lemma round_reserves s id m r ev :
  stage s id m "order.created" r ev -> orders_status r = StatusPendingFulfillment ->
  chk_orders_payment_status (orders_payment_status r) = true -> reservable m id (sys_db s) ->
  exists ev' at_,
    stage (round s) id m "inventory.reserved" (set_row_status StatusInventoryReserved at_ r) ev'
    /\ items_of id (sys_db (round s)) = map (set_item_status "reserved") (items_of id (sys_db s))
    /\ t_shipments (sys_db (round s)) = t_shipments (sys_db s)
    /\ t_payment_authorizations (sys_db (round s)) = t_payment_authorizations (sys_db s).
Proof using All.
  intros Hst Hpend Hpay Hrv.
  destruct (round_handled s id m "order.created" r ev InventoryReserveQueue (reserveInventory henv deps)
              "inventory.reserved" (fun db db' => exists at_ inv res, db' = reserved_db id at_ r inv res db))
    as (ev' & old & row & arow & db' & (at_ & inv & res & ->) & Hdb & Hnext);
    [done|vm_compute; reflexivity|reflexivity| |].
  { intros e w old b Hab Hdb Hb Hnew.
    destruct (reserve_handler env henv Hrel Hclock id m e w r b) as (at_ & p & inv & res & row & arow & Hw & Hh);
      rewrite ?Hdb; try done.
    - apply Hst.
    - by apply reservable_outbox.
    - exists at_, p, row, arow. eexists. split_and!; [done|exact Hh| |by rewrite Hdb; eauto].
      by rewrite Hdb. }
  exists ev', at_. split_and!.
  - apply Hnext. simpl. apply lookup_insert_eq.
  - rewrite Hdb. exact (items_updated id "reserved" (set_stock_reservations res
      (set_inventory_items inv (set_outbox_events old (sys_db s))))).
  - by rewrite Hdb.
  - by rewrite Hdb.
Qed.

Lemma round_authorizes s id m r ev provider credential :
  stage s id m "inventory.reserved" r ev -> orders_status r = StatusInventoryReserved ->
  orders_payment_provider r = Some provider -> orders_payment_credential_ref r = Some credential ->
  provider <> "" -> credential <> "" -> 0 <= orders_total_amount r ->
  unused auth_authorization_id id ("pay_fake_" +:+ id) (t_payment_authorizations (sys_db s)) ->
  forallb plain [provider; orders_currency r; id] = true ->
  exists ev' at_,
    stage (round s) id m "payment.authorized" (authorized_row provider ("pay_fake_" +:+ id) at_ r) ev'
    /\ items_of id (sys_db (round s)) = items_of id (sys_db s)
    /\ t_shipments (sys_db (round s)) = t_shipments (sys_db s).
Proof using All.
  intros Hst Hres Hp Hc Hpn Hcn Htot Hun Hplain.
  destruct (round_handled s id m "inventory.reserved" r ev PaymentsAuthorizeQueue
              (authorizePayment henv deps) "payment.authorized"
              (fun db db' => exists at_ a,
                 db' = authorized_db id provider ("pay_fake_" +:+ id) at_ r a db))
    as (ev' & old & row & arow & db' & (at_ & a & ->) & Hdb & Hnext);
    [done|vm_compute; reflexivity|reflexivity| |].
  { intros e w old b Hab Hdb Hb Hnew.
    destruct (authorize_handler env henv Hrel Hclock id m e w r b provider credential)
      as (at_ & p & a & row & arow & Hw & Hh); rewrite ?Hdb; try done.
    - apply Hst.
    - exists at_, p, row, arow. eexists. split_and!; [done|exact Hh| |by rewrite Hdb; eauto].
      by rewrite Hdb. }
  exists ev', at_. split_and!; [|by rewrite Hdb..]. apply Hnext. simpl. apply lookup_insert_eq.
Qed.

Lemma round_ships s id m r ev :
  stage s id m "payment.authorized" r ev -> orders_status r = StatusPaymentAuthorized ->
  chk_orders_payment_status (orders_payment_status r) = true ->
  default "" (orders_shipping_address_ref r) <> "" -> t_shipments (sys_db s) !! id = None ->
  unused ship_shipment_id id ("shp_fake_" +:+ id) (t_shipments (sys_db s)) ->
  unused ship_tracking_number id ("TRACK-" +:+ id) (t_shipments (sys_db s)) -> plain id = true ->
  exists ev' at_,
    stage (round s) id m "shipment.created" (set_row_status StatusShipmentCreated at_ r) ev'
    /\ items_of id (sys_db (round s)) = items_of id (sys_db s)
    /\ t_shipments (sys_db (round s)) !! id = Some (booked_row id m at_).
Proof using All.
  intros Hst Hauth Hpay Ha Hns Hu1 Hu2 Hid.
  destruct (round_handled s id m "payment.authorized" r ev ShipmentsCreateQueue
              (createShipment henv deps) "shipment.created"
              (fun db db' => exists at_, db' = shipped_db id at_ r (booked_row id m at_) db))
    as (ev' & old & row & arow & db' & (at_ & ->) & Hdb & Hnext);
    [done|vm_compute; reflexivity|reflexivity| |].
  { intros e w old b Hab Hdb Hb Hnew.
    destruct (shipment_handler env henv Hrel Hclock id m e w r b) as (at_ & p & row & arow & Hw & Hh);
      rewrite ?Hdb; try done.
    - apply Hst.
    - exists at_, p, row, arow. eexists. split_and!; [done|exact Hh| |by rewrite Hdb; eauto].
      by rewrite Hdb. }
  exists ev', at_. split_and!; [|by rewrite Hdb|rewrite Hdb; simpl; apply lookup_insert_eq].
  apply Hnext. simpl. apply lookup_insert_eq.
Qed.

Lemma round_completes s id m r ev :
  stage s id m "shipment.created" r ev -> orders_status r = StatusShipmentCreated ->
  chk_orders_payment_status (orders_payment_status r) = true ->
  exists ev' at_,
    stage (round s) id m "order.completed" (set_row_status StatusCompleted at_ r) ev'
    /\ items_of id (sys_db (round s)) = items_of id (sys_db s)
    /\ t_shipments (sys_db (round s)) = t_shipments (sys_db s).
Proof using All.
  intros Hst Hship Hpay.
  destruct (round_handled s id m "shipment.created" r ev OrdersFinalizeQueue
              (completeOrder henv deps) "order.completed"
              (fun db db' => exists at_, db' = completed_db id at_ r db))
    as (ev' & old & row & arow & db' & (at_ & ->) & Hdb & Hnext);
    [done|vm_compute; reflexivity|reflexivity| |].
  { intros e w old b Hab Hdb Hb Hnew.
    destruct (complete_handler env henv Hrel Hclock id m e w r b) as (at_ & p & row & arow & Hw & Hh);
      rewrite ?Hdb; try done.
    - apply Hst.
    - exists at_, p, row, arow. eexists. split_and!; [done|exact Hh| |by rewrite Hdb; eauto].
      by rewrite Hdb. }
  exists ev', at_. split_and!; [|by rewrite Hdb..]. apply Hnext. simpl. apply lookup_insert_eq.
Qed.

(** Nothing is left to do. *)
Definition quiet (s : System P) : Prop :=
  Forall (fun r => row_pending r = false) (t_outbox_events (sys_db s)) /\ w_broker (sys_world s) = [].

(** The e-mail about an event of the order is queued. *)
Definition notified (s : System P) (ty id : string) : Prop :=
  exists message ntf, row_of_event id ty message (t_outbox_events (sys_db s))
    /\ t_notification_events (sys_db s) !! message = Some ntf /\ ntf_status ntf = "queued".

Lemma round_notifies s id m ty r ev :
  stage s id m ty r ev -> isNotificationEvent ty = true ->
  routes DomainExchange (RoutingKey ty) = [NotificationsEmailQueue] ->
  quiet (round s) /\ t_orders (sys_db (round s)) = t_orders (sys_db s)
  /\ items_of id (sys_db (round s)) = items_of id (sys_db s)
  /\ t_shipments (sys_db (round s)) = t_shipments (sys_db s)
  /\ t_stock_reservations (sys_db (round s)) = t_stock_reservations (sys_db s)
  /\ t_inventory_items (sys_db (round s)) = t_inventory_items (sys_db s)
  /\ t_payment_authorizations (sys_db (round s)) = t_payment_authorizations (sys_db s)
  /\ notified (round s) ty id.
Proof using All.
  intros Hst Hty Hroute.
  destruct (round_delivers s id m ty r ev NotificationsEmailQueue
              (queueNotification henv deps) Hst Hroute)
    as (e & w & old & Hab & Hmid & Hdb & Hids & Hpub & Hrow & _ & Hdo); [reflexivity|].
  destruct (notify_handler env henv Hrel id m ty e w Hty Hab) as (ntf & arow & w' & Hw & Hn & Hdb').
  { rewrite Hdb. simpl. rewrite (sg_order _ _ _ _ _ _ Hst). by eexists. }
  destruct (Hdo w' Hw) as (Happ & Hbr & _).
  assert (sys_db (round s) = conn_db (hw_store w')) as Hsys by (unfold sys_db; by rewrite Happ).
  unfold quiet, notified. rewrite Hsys, Hdb', Hdb. split_and!; try done.
  exists (Event_MessageID ev), ntf. split_and!; [done| |done]. simpl. rewrite Hmid. apply lookup_insert_eq.
Qed.

(** ** One order through all rounds *)

(** An order row that every step accepts, in a database with room for it. *)
Record fulfillable (db : Database) (id m : string) (r : OrderRow) (provider credential : string)
    : Prop := {
  fb_pending : orders_status r = StatusPendingFulfillment;
  fb_status : chk_orders_payment_status (orders_payment_status r) = true;
  fb_stock : reservable m id db;
  fb_provider : orders_payment_provider r = Some provider /\ provider <> "";
  fb_credential : orders_payment_credential_ref r = Some credential /\ credential <> "";
  fb_total : 0 <= orders_total_amount r;
  fb_address : default "" (orders_shipping_address_ref r) <> "";
  fb_authorization : unused auth_authorization_id id ("pay_fake_" +:+ id) (t_payment_authorizations db);
  fb_shipment : t_shipments db !! id = None;
  fb_booking : unused ship_shipment_id id ("shp_fake_" +:+ id) (t_shipments db);
  fb_tracking : unused ship_tracking_number id ("TRACK-" +:+ id) (t_shipments db);
  fb_plain : forallb plain [provider; orders_currency r; id] = true
}.

(** The row and the order at the end. *)
Definition final_row (id provider : string) (a1 a2 a3 a4 : Time) (r : OrderRow) : OrderRow :=
  set_row_status StatusCompleted a4 (set_row_status StatusShipmentCreated a3
    (authorized_row provider ("pay_fake_" +:+ id) a2 (set_row_status StatusInventoryReserved a1 r))).

Lemma scan_fulfilled id m provider a1 a2 a3 a4 r items sh :
  fulfilled (scan_order id r items sh)
    (scan_order id (final_row id provider a1 a2 a3 a4 r) (map (set_item_status "reserved") items)
       (Some (booked_row id m a3))).
Proof using Type.
  split; try done.
  - unfold snapshot, scan_order. simpl. do 3 f_equal. rewrite !map_map. by apply map_ext.
  - simpl. rewrite map_map. apply Forall_fmap, Forall_true. done.
  - by eexists.
  - by eexists.
Qed.

Lemma five_rounds s id m r ev provider credential :
  stage s id m "order.created" r ev -> fulfillable (sys_db s) id m r provider credential ->
  let s' := rounds 5 s in
  quiet s'
  /\ (exists o o', stored_order (sys_db s) id = Some o /\ stored_order (sys_db s') id = Some o'
        /\ fulfilled o o')
  /\ notified s' "order.completed" id.
Proof using All.
  intros Hst [F1 F2 F3 [F4 F4'] [F5 F5'] F6 F7 F8 F9 F10 F11 F12]. unfold rounds. simpl Nat.iter.
  destruct (round_reserves s id m r ev Hst F1 F2 F3) as (ev1 & a1 & S1 & I1 & Sh1 & Au1).
  destruct (round_authorizes (round s) id m _ ev1 provider credential S1)
    as (ev2 & a2 & S2 & I2 & Sh2); [done..|by rewrite Au1|done|].
  assert (Hid : plain id = true).
  { simpl in F12. apply andb_true_iff in F12 as [_ F12]. by apply andb_true_iff in F12 as [_ [? _]%andb_true_iff]. }
  destruct (round_ships (round (round s)) id m _ ev2 S2) as (ev3 & a3 & S3 & I3 & Sh3);
    [done..|by rewrite Sh2, Sh1|by rewrite Sh2, Sh1|by rewrite Sh2, Sh1|done|].
  destruct (round_completes (round (round (round s))) id m _ ev3 S3) as (ev4 & a4 & S4 & I4 & Sh4);
    [done..|].
  destruct (round_notifies (round (round (round (round s)))) id m _ _ ev4 S4)
    as (Hq & Ho & I5 & Sh5 & _ & _ & _ & Hn); [reflexivity|vm_compute; reflexivity|].
  split; [done|]. split; [|done].
  exists (scan_order id r (items_of id (sys_db s)) (t_shipments (sys_db s) !! id)).
  eexists. split_and!.
  - unfold stored_order. by rewrite (sg_order _ _ _ _ _ _ Hst).
  - unfold stored_order. rewrite Ho, (sg_order _ _ _ _ _ _ S4), I5, I4, I3, I2, I1, Sh5, Sh4, Sh3.
    reflexivity.
  - apply scan_fulfilled.
Qed.

(** ** An accepted order *)

Lemma outbox_written ev c u c' :
  encodable ev -> insertOutboxEvent env ev c = (Ok u, c') ->
  exists row, written env ev row
    /\ conn_db c' = set_outbox_events (t_outbox_events (conn_db c) ++ [row]) (conn_db c)
    /\ Event_MessageID ev ∉ map out_message_id (t_outbox_events (conn_db c)).
Proof using Hjson.
  intros Hen. unfold insertOutboxEvent.
  destruct (jc_event _ (encodable_defaults _ Hen)) as (text & stored & -> & Hj & Hne & (e' & Hu & Hs & He) & _).
  intros H%annotate_ok_inv%call_ok_inv. unfold insert_outbox_row in H. rewrite Hj in H.
  destruct (existsb _ _) eqn:Ex; [done|]. destruct (t_orders _ !! _); [|done]. injection H as _ <-.
  eexists. split_and!; [|done|].
  - split; [by exists stored|]. eapply scan_written; try done. apply envelope_normalized.
  - intros (x & Hx & Hin)%list_elem_of_fmap. apply not_true_iff_false in Ex. apply Ex, existsb_exists.
    exists x. split; [by apply list_elem_of_In|]. apply String.eqb_eq. rewrite <- Hx.
    by destruct (envelope_fields ev) as (-> & _).
Qed.

(** Everything an accepted submission writes, table by table. *)
Lemma insert_order_effect m k o ev au c o' c' :
  encodable ev -> PgStore_InsertOrder env m k o ev au c = (Ok (Some o', false), c') ->
  exists v keys audits cur row,
    char3 (Order_Currency o) = Some cur /\ t_orders (conn_db c) !! Order_OrderID o = None
    /\ written env ev row /\ Event_MessageID ev ∉ map out_message_id (t_outbox_events (conn_db c))
    /\ conn_db c'
       = set_audit_logs audits (set_outbox_events (t_outbox_events (conn_db c) ++ [row])
           (set_idempotency_keys keys (set_order_items
              (t_order_items (conn_db c) ++ map (item_row (Order_OrderID o)) (Order_Items o))
              (set_orders (<[Order_OrderID o := order_row m cur o]> (t_orders (conn_db c)))
                 (set_merchants v (conn_db c)))))).
Proof using Hjson.
  intros Hen (lab & c2 & H & ->)%transaction_ok_inv.
  apply bind_ok_inv in H as (old & s1 & Hq%annotate_ok_inv%query_ok_inv & H).
  destruct Hq as [-> E1]. simpl in *. destruct (t_idempotency_keys (conn_db c) !! (m, k)) as [id|].
  { by apply bind_ok_inv in H as (? & ? & _ & H). }
  apply bind_ok_inv in H as ([] & s2 & [v E2]%merchant_run & H).
  apply bind_ok_inv in H as ([] & s3 & H3%insert_checked_inv%insert_order_row_ok & H).
  destruct H3 as (cur & Hcur & Hnew & _ & E3).
  apply bind_ok_inv in H as ([] & s4 & E4%insert_items_run & H).
  apply bind_ok_inv in H as ([] & s5 & H5%annotate_ok_inv%call_ok_inv & H).
  unfold insert_idempotency_row in H5. case_bool_decide; [done|].
  destruct (negb (bool_decide _)); [done|]. injection H5 as E5.
  apply bind_ok_inv in H as ([] & s6 & (row & Hw & E6 & Hf)%(outbox_written _ _ _ _ Hen) & H).
  apply bind_ok_inv in H as ([] & s7 & [d E7]%audit_run & H). injection H as _ <- <-.
  rewrite E7, E6, <- E5, E4, E3, E2, E1 in *. simpl in *. by do 5 eexists.
Qed.

(** Stock of a product in an active warehouse of the merchant, and columns wide
    enough for the reservation. *)
Definition in_stock (m : string) (db : Database) (i : OrderItem) : Prop :=
  (exists k row, t_inventory_items db !! k = Some row
     /\ candidate m (OrderItem_SKU i) (OrderItem_Quantity i) db row = true)
  /\ forall k row, t_inventory_items db !! k = Some row -> inv_sku row = OrderItem_SKU i ->
       inv_reserved_quantity row + OrderItem_Quantity i < 2 ^ 31.

(** All payments and bookings so far were made by the providers the worker is
    wired with. *)
Record fake_bookings (db : Database) : Prop := {
  fk_payments : map_Forall (fun k a => auth_authorization_id a = "pay_fake_" +:+ k)
                  (t_payment_authorizations db);
  fk_shipments : map_Forall (fun k sh => ship_shipment_id sh = "shp_fake_" +:+ k) (t_shipments db);
  fk_tracking : map_Forall (fun k sh => ship_tracking_number sh = "TRACK-" +:+ k) (t_shipments db)
}.

Lemma prefix_inj p a b : p +:+ a = p +:+ b -> a = b.
Proof using Type. induction p as [|c p IH]; [done|]. intros [= H]. auto. Qed.

Lemma unused_fake {R} (f : R -> string) prefix id (table : gmap string R) :
  map_Forall (fun k row => f row = prefix +:+ k) table -> unused f id (prefix +:+ id) table.
Proof using Type. intros H k row Hne Hk E. rewrite (H k row Hk) in E. by apply prefix_inj in E. Qed.

Lemma distinct_skus id (items : list ItemRow) :
  NoDup (map item_key items) -> NoDup (map item_sku (filter (fun r => item_order_id r = id) items)).
Proof using Type.
  induction items as [|i items IH]; intros Hnd; [constructor|]. simpl in Hnd.
  apply NoDup_cons in Hnd as [Hnew Hnd]. rewrite filter_cons. case_decide as E; [|auto].
  simpl. constructor; [|auto]. intros (j & Ej & [Hj Hin]%list_elem_of_filter)%list_elem_of_fmap.
  apply Hnew, list_elem_of_fmap. exists j. split; [|done]. unfold item_key. by rewrite E, Ej, Hj.
Qed.

(** An order the whole chain can serve from the stock of [db]. *)
Record deliverable (m : string) (db : Database) (o : Order) (p : Payment) : Prop := {
  dl_status : Order_Status o = StatusPendingFulfillment;
  dl_payment : Order_Payment o = Some p;
  dl_provider : Payment_Provider p <> "";
  dl_credential : Payment_CredentialRef p <> "";
  dl_address : Order_ShippingAddressRef o <> "";
  dl_total : 0 <= Money_Amount (Totals_Total (Order_Totals o));
  dl_lines : Order_Items o <> [];
  dl_stock : Forall (in_stock m db) (Order_Items o);
  dl_plain : plain (Payment_Provider p) = true /\ plain (Order_Currency o) = true
             /\ plain (Order_OrderID o) = true;
  dl_skus : Forall (fun i => plain (OrderItem_SKU i) = true) (Order_Items o);
  dl_warehouses : plain_warehouses db
}.

Section Accepted.
Variables (m k : string) (o : Order) (p : Payment) (ev : OutboxEvent) (au : AuditLog).
Variables (c c' : Conn) (o' : Order).
Hypothesis Hen : encodable ev.
Hypothesis Haccepted : PgStore_InsertOrder env m k o ev au c = (Ok (Some o', false), c').
Hypothesis Hschema : schema_ok (conn_db c).
Hypothesis Hst : storable m o.
Hypothesis Hdl : deliverable m (conn_db c) o p.
Hypothesis Hfake : fake_bookings (conn_db c).

Notation id := (Order_OrderID o).

Lemma accepted_schema : schema_ok (conn_db c').
Proof using Haccepted Hschema.
  pose proof (schema_run env (PgInsert m k o ev au) c Hschema) as H. simpl in H.
  unfold discard, bind in H. by rewrite Haccepted in H.
Qed.

Lemma new_items : t_orders (conn_db c) !! id = None -> items_of id (conn_db c) = [].
Proof using Hschema.
  intros Hnew. unfold items_of. apply filter_none. eapply Forall_impl; [apply (so_items _ Hschema)|].
  intros r Hr E. destruct (ir_order _ _ Hr) as [x Hx]. congruence.
Qed.

Lemma accepted_items : items_of id (conn_db c') = map (item_row id) (Order_Items o).
Proof using Hen Haccepted Hschema Hjson.
  destruct (insert_order_effect _ _ _ _ _ _ _ _ Hen Haccepted) as (v & keys & audits & cur & row & _ & Hnew & _ & _ & ->).
  unfold items_of. simpl. rewrite filter_app, item_rows_of.
  fold (items_of id (conn_db c)). by rewrite new_items.
Qed.

Lemma accepted_unreserved sku : t_stock_reservations (conn_db c') !! (id, sku) = None.
Proof using Hen Haccepted Hschema Hjson.
  destruct (insert_order_effect _ _ _ _ _ _ _ _ Hen Haccepted) as (v & keys & audits & cur & row & _ & Hnew & _ & _ & ->).
  simpl. destruct (t_stock_reservations (conn_db c) !! (id, sku)) as [r|] eqn:E; [|done].
  pose proof (rr_item _ _ _ _ (so_reservations _ Hschema _ _ E)) as (i & Hk & Hi)%list_elem_of_fmap.
  injection Hk as Hid _. pose proof (so_items _ Hschema) as Hall. rewrite Forall_forall in Hall.
  destruct (ir_order _ _ (Hall i Hi)) as [x Hx]. congruence.
Qed.

Lemma accepted_reservable : reservable m id (conn_db c').
Proof using Hen Haccepted Hschema Hdl Hjson.
  pose proof accepted_schema as Hs'. pose proof accepted_items as Hitems.
  assert (Hsame : t_inventory_items (conn_db c') = t_inventory_items (conn_db c)
                  /\ t_warehouses (conn_db c') = t_warehouses (conn_db c)).
  { destruct (insert_order_effect _ _ _ _ _ _ _ _ Hen Haccepted) as (v & keys & audits & cur & row & _ & _ & _ & _ & ->).
    done. }
  destruct Hsame as [Einv Ewh]. split.
  - rewrite Hitems. intros E%map_eq_nil. by apply (dl_lines _ _ _ _ Hdl).
  - apply distinct_skus, (so_item_keys _ Hs').
  - rewrite Hitems. apply Forall_fmap. pose proof (dl_stock _ _ _ _ Hdl) as Hstock.
    rewrite Forall_forall in *. intros i Hi. destruct (Hstock i Hi) as [(x & row & Hx & Hc) Hroom].
    assert (Hrow : item_row id i ∈ items_of id (conn_db c'))
      by (rewrite Hitems; by apply list_elem_of_fmap_2).
    split; simpl.
    + pose proof (so_items _ Hs') as Hall. rewrite Forall_forall in Hall.
      apply list_elem_of_filter in Hrow as [_ Hrow]. apply (ir_quantity _ _ (Hall _ Hrow)).
    + exists x, row. rewrite Einv. split; [done|]. unfold candidate in *. by rewrite Ewh.
    + intros y yrow Hy Hsku. rewrite Einv in Hy. split; [|by apply (Hroom y)].
      apply (vr_reserved _ (so_inventory _ Hschema _ _ Hy)).
    + apply accepted_unreserved.
    + apply existsb_exists. exists (item_row id i). split; [by apply list_elem_of_In|].
      apply String.eqb_refl.
  - rewrite Hitems. apply Forall_fmap, (dl_skus _ _ _ _ Hdl).
  - unfold plain_warehouses. rewrite Ewh. apply Hdl.
Qed.

Lemma accepted_fulfillable :
  exists r, t_orders (conn_db c') !! id = Some r
    /\ fulfillable (conn_db c') id m r (Payment_Provider p) (Payment_CredentialRef p)
    /\ stored_order (conn_db c') id = Some o.
Proof using Hen Haccepted Hschema Hdl Hst Hfake Hjson.
  pose proof accepted_reservable as Hrv. pose proof accepted_schema as Hs'. pose proof accepted_items as Hitems.
  destruct (insert_order_effect _ _ _ _ _ _ _ _ Hen Haccepted)
    as (v & keys & audits & cur & row & Hcur & Hnew & _ & _ & E).
  rewrite char3_exact in Hcur by apply Hst. injection Hcur as <-.
  assert (Ho : t_orders (conn_db c') !! id = Some (order_row m (Order_Currency o) o))
    by (rewrite E; simpl; apply lookup_insert_eq).
  assert (Hship : t_shipments (conn_db c') = t_shipments (conn_db c)) by (by rewrite E).
  assert (Hns : t_shipments (conn_db c) !! id = None).
  { destruct (t_shipments (conn_db c) !! id) as [sh|] eqn:Es; [|done].
    destruct (sr_order _ _ _ (so_shipments _ Hschema _ _ Es)) as [x Hx]. congruence. }
  assert (Hauth : t_payment_authorizations (conn_db c') = t_payment_authorizations (conn_db c)) by (by rewrite E).
  exists (order_row m (Order_Currency o) o). split_and!; [done| |].
  - destruct Hdl. destruct dl_plain0 as (P1 & P2 & P3). split; try done; simpl.
    + apply (or_payment _ _ (so_orders _ Hs' _ _ Ho)).
    + unfold nullable_payment. rewrite dl_payment0. by rewrite nullable_named.
    + unfold nullable_payment. rewrite dl_payment0. by rewrite nullable_named.
    + by rewrite nullable_default.
    + rewrite Hauth. apply unused_fake, Hfake.
    + by rewrite Hship.
    + rewrite Hship. apply unused_fake, Hfake.
    + rewrite Hship. apply unused_fake, Hfake.
    + by rewrite P1, P2, P3.
  - unfold stored_order. rewrite Ho, Hitems, Hship, Hns. simpl. by rewrite scan_stored.
Qed.

End Accepted.

(** C1: an accepted order is fulfilled by the running system.  Once the store
    has accepted an order whose lines are in stock, over a database that satisfies
    the schema and in which nothing else is waiting, five rounds of relay and
    workers take it through the broker from queue to queue: the order ends
    completed, with every line reserved, its payment authorized and its shipment
    booked, unchanged otherwise; the customer's e-mail is queued, every event is
    published and no message is left in the broker.  Asked of the outside: no call
    fails, identifiers drawn are new, and texts are plain enough for JSON. *)
Theorem accepted_order_fulfilled m k o p ev au c c' o' inbox ext ticks draws log t :
  let id := Order_OrderID o in
  PgStore_InsertOrder env m k o ev au c = (Ok (Some o', false), c') ->
  schema_ok (conn_db c) -> fake_bookings (conn_db c) ->
  Forall (fun r => row_pending r = false) (t_outbox_events (conn_db c)) ->
  storable m o -> deliverable m (conn_db c) o p ->
  identified id m "order.created" ev -> encodable ev ->
  (forall consumer, t_inbox_messages (conn_db inbox) !! (consumer, Event_MessageID ev) = None) ->
  fresh_ids henv draws (t_outbox_events (conn_db c')) (t_inbox_messages (conn_db inbox)) ->
  let s := rounds 5 (mkSystem (mkWorld inbox (mkHWorld c' ext ticks draws) [] log) t) in
  quiet s
  /\ (exists o2, stored_order (sys_db s) id = Some o2 /\ fulfilled o o2)
  /\ notified s "order.completed" id.
Proof using All.
  intros id Hacc Hschema Hfake Hpub Hst Hdl Hev Hen Hin Hfr. set (s0 := mkSystem _ _).
  destruct (accepted_fulfillable m k o p ev au c c' o' Hen Hacc Hschema Hst Hdl Hfake) as (r & Hr & Hfb & Hso).
  destruct (insert_order_effect _ _ _ _ _ _ _ _ Hen Hacc)
    as (v & keys & audits & cur & row & _ & _ & Hw & Hnew & E).
  destruct (five_rounds s0 id m r ev (Payment_Provider p) (Payment_CredentialRef p))
    as (Hq & (o1 & o2 & Ho1 & Ho2 & Hff) & Hn); [|done|].
  - split; try done. exists (t_outbox_events (conn_db c)), row. split; [|done].
    destruct Hw as [(stored & Erow) _]. split; [|done|..].
    + unfold sys_db. simpl. by rewrite E.
    + rewrite Erow. simpl. by destruct (envelope_fields ev) as (-> & _).
    + by rewrite Erow.
    + by rewrite Erow.
  - change (sys_db s0) with (conn_db c') in Ho1. fold id in Hso. rewrite Hso in Ho1.
    injection Ho1 as <-. eauto.
Qed.

End System.
