(* ===== verification/Cancellation.v ===== *)
(** The running system on a cancel request: what the relay, the broker and the
    workers make of an order whose cancellation the store has accepted, over the
    PostgreSQL store.  The first part says what [RecordOrderCancelled] does when no
    call fails, the second what [cancelOrder] does, the third follows the request
    through the two rounds that resolve it. *)
From S2P Require Import Prelude GoStrings GoStringsFacts GoTime Model StateMachine.
From S2P Require Import MemoryInvariant Topology Amqp Consumer Relay Handlers Providers Saga.
From S2P Require Import Database PgStore PgAtomic PgStock PgOrders PgSchema PgReplay PgTotal.
From S2P Require Import RelayProcess WorkerProcess PgSaga Pipeline.

(** ** What a resolved cancellation leaves *)

(** What an order holds of a shelf. *)
Definition holds (db : Database) (id : string) (row : InventoryRow) : Z :=
  weight (held (inv_warehouse_id row) (inv_sku row)) (t_stock_reservations db) (id, inv_sku row).

(** The order holds nothing any more: its reservations are released and its lines
    too, every shelf has got back exactly what the order held of it, its
    authorization is voided, and no other order has lost anything. *)
Record let_go (id : string) (db db' : Database) : Prop := {
  lg_released sku res : t_stock_reservations db' !! (id, sku) = Some res -> res_status res = "released";
  lg_others k : fst k <> id -> t_stock_reservations db' !! k = t_stock_reservations db !! k;
  lg_shelves i : option_Forall2 (fun row row' =>
      inv_warehouse_id row' = inv_warehouse_id row /\ inv_sku row' = inv_sku row
      /\ inv_available_quantity row' = inv_available_quantity row + holds db id row
      /\ inv_reserved_quantity row' = inv_reserved_quantity row - holds db id row)
    (t_inventory_items db !! i) (t_inventory_items db' !! i);
  lg_lines : Forall (fun i => item_reservation_status i <> "reserved") (items_of id db');
  lg_authorization a : t_payment_authorizations db !! id = Some a -> auth_status a = "authorized" ->
    exists a', t_payment_authorizations db' !! id = Some a' /\ auth_status a' = "voided"
               /\ auth_authorization_id a' = auth_authorization_id a
}.

(** The order keeps everything it holds. *)
Record kept (id : string) (db db' : Database) : Prop := {
  kp_reservations : t_stock_reservations db' = t_stock_reservations db;
  kp_shelves : t_inventory_items db' = t_inventory_items db;
  kp_lines : items_of id db' = items_of id db;
  kp_authorizations : t_payment_authorizations db' = t_payment_authorizations db;
  kp_shipments : t_shipments db' = t_shipments db
}.

(** The carrier has a booking for the order that did not fail. *)
Definition booked (db : Database) (id : string) : Prop :=
  exists sh, t_shipments db !! id = Some sh /\ ship_status sh <> "" /\ ship_status sh <> "failed".

(** Shelves whose whole stock fits the column of what is available. *)
Definition roomy (db : Database) : Prop :=
  map_Forall (fun _ row => inv_available_quantity row + inv_reserved_quantity row < 2 ^ 31)
    (t_inventory_items db).

(** ** Recording the cancellation *)

(** The database after [releaseReservedStock], and after the whole transaction but
    for the event and the audit entry. *)
Definition stock_released (id : string) (at_ : Time) (db : Database) : Database :=
  update_items id "released" (fun r => String.eqb (item_reservation_status r) "reserved")
    (released id at_ db).

Definition cancelled_row (at_ : Time) (r : OrderRow) : OrderRow :=
  void_row (set_row_status StatusCancelled at_ r).

Definition cancelled_db (id : string) (at_ : Time) (r : OrderRow) (db : Database) : Database :=
  set_orders (<[id := cancelled_row at_ r]> (t_orders db))
    (set_payment_authorizations
       (alter (void_authorization at_) id (t_payment_authorizations db)) (stock_released id at_ db)).

Section Rules.
Context (env : PgEnv) {Hjson : JsonCodec env} (Hrel : reliable env).

Lemma does_release id at_ db :
  stock_ok db -> roomy db -> does (releaseReservedStock env id at_) db tt (stock_released id at_ db).
Proof using Hrel.
  intros Hok Hroom.
  eapply (does_bind _ _ _ tt (set_inventory_items (give_back id at_ db <$> t_inventory_items db) db));
    [|eapply does_bind; [apply does_annotate, does_exec; done|];
      exact (does_annotate _ _ _ _ _ (does_exec env Hrel _ (released id at_ db)))].
  apply does_annotate, does_call; [done|]. unfold release_inventory.
  destruct (existsb _ _) eqn:E; [|done].
  apply existsb_exists in E as ([k row] & Hin%list_elem_of_In & Ho).
  apply elem_of_map_to_list in Hin. simpl in Ho. unfold overflows in Ho.
  destruct (give_back_amounts id at_ db k row Hok Hin) as (Hq & Ha & Hr).
  pose proof (Hroom k row Hin). pose proof (so_available _ Hok _ _ Hin). simpl in *.
  unfold give_back in *. destruct (holding id db row); [|done]. simpl in *. unfold int4 in Ho. lia.
Qed.

Lemma void_allowed r : row_allowed r = true -> row_allowed (void_row r) = true.
Proof using Type.
  unfold row_allowed, void_row. case_bool_decide; [|done].
  intros [Hs _]%andb_true_iff. simpl. by rewrite Hs.
Qed.

Lemma does_void id at_ r db :
  t_orders db !! id = Some r -> row_allowed r = true ->
  does (voidAuthorizedPayment env id at_) db tt
    (set_orders (<[id := void_row r]> (t_orders db))
       (set_payment_authorizations
          (alter (void_authorization at_) id (t_payment_authorizations db)) db)).
Proof using Hrel.
  intros Hr Hok. eapply does_bind; [apply does_annotate, does_exec; done|].
  eapply does_bind; [|apply does_ret].
  apply (does_update env Hrel _ id void_row r
           (set_payment_authorizations (alter (void_authorization at_) id (t_payment_authorizations db)) db));
    [done|by apply void_allowed].
Qed.

Lemma cancelled_payload_plain at_ au : plain_payload (OrderStatusEventPayload StatusCancelled at_ au ∅).
Proof using Type.
  unfold OrderStatusEventPayload. simpl. unfold put_absent. rewrite lookup_insert_ne, lookup_empty by done.
  apply plain_insert; [simpl; by rewrite plain_format|]. apply plain_insert; [done|apply map_Forall_empty].
Qed.

Lemma does_cancelled src next au r db :
  let id := Event_OrderID src in
  t_orders db !! id = Some r -> orders_status r = StatusCancellationPending ->
  chk_orders_payment_status (orders_payment_status r) = true -> stock_ok db -> roomy db ->
  Event_Payload next = ∅ -> appendable id next au db ->
  exists p row arow, written env (set_Event_Payload p next) row /\
    does (PgStore_RecordOrderCancelled env src next au) db tt
      (logged row arow (cancelled_db id (Event_OccurredAt next) r db)).
Proof using All.
  intros id Hr Hst Hpay Hok Hroom Hempty Hap. set (at_ := Event_OccurredAt next).
  set (p := OrderStatusEventPayload StatusCancelled at_ au (Event_Payload next)).
  destruct (does_tail env Hrel id p next au "commit record order cancellation: " tt
              (cancelled_db id at_ r db)) as (row & arow & Hw & Htail).
  { destruct Hap. by split. }
  { unfold p. rewrite Hempty. apply cancelled_payload_plain. }
  { simpl. rewrite lookup_insert_eq. by eexists. }
  exists p, row, arow. split; [done|]. unfold PgStore_RecordOrderCancelled.
  assert (Hok1 : row_allowed (set_row_status StatusCancelled at_ r) = true)
    by (unfold row_allowed; simpl; by rewrite Hpay).
  set (db1 := set_orders (<[id := set_row_status StatusCancelled at_ r]> (t_orders db)) db).
  eapply does_transaction; [done|].
  eapply does_bind; [eapply does_lock; [done|exact Hr|by rewrite Hst]|].
  eapply does_bind; [by apply (does_status env Hrel _ id StatusCancelled at_ r db)|].
  eapply does_bind; [apply (does_release id at_ db1)|].
  { by apply (stock_frame db db1). }
  { done. }
  eapply does_bind; [|exact Htail].
  pose proof (does_void id at_ (set_row_status StatusCancelled at_ r) (stock_released id at_ db1)) as Hv.
  unfold cancelled_db, cancelled_row. simpl in Hv.
  rewrite lookup_insert_eq, insert_insert_eq in Hv. by apply Hv.
Qed.

End Rules.

(** What the transaction has done. *)
Lemma release_status id at_ sku r : res_status (release_reservation id at_ (id, sku) r) = "released".
Proof.
  unfold release_reservation. simpl. rewrite String.eqb_refl. simpl.
  by destruct (String.eqb_spec (res_status r) "released").
Qed.

Lemma released_lines id db :
  items_of id (update_items id "released" (fun r => String.eqb (item_reservation_status r) "reserved") db)
  = map (fun r => if String.eqb (item_reservation_status r) "reserved"
                  then set_item_status "released" r else r) (items_of id db).
Proof.
  unfold items_of, update_items. simpl. induction (t_order_items db) as [|i items IH]; [done|].
  simpl. rewrite !filter_cons. destruct (String.eqb_spec (item_order_id i) id) as [E|E]; simpl.
  - destruct (String.eqb (item_reservation_status i) "reserved") eqn:Es; simpl;
      rewrite !decide_True by done; simpl; by rewrite Es, IH.
  - by rewrite !decide_False.
Qed.

Lemma cancelled_let_go id at_ r db : stock_ok db -> let_go id db (cancelled_db id at_ r db).
Proof.
  intros Hok. split.
  - intros sku res H. change (t_stock_reservations (released id at_ db) !! (id, sku) = Some res) in H.
    rewrite released_lookup in H. apply fmap_Some in H as (res0 & _ & ->). apply release_status.
  - intros k Hk. change (t_stock_reservations (released id at_ db) !! k = t_stock_reservations db !! k).
    rewrite released_lookup. destruct (t_stock_reservations db !! k); [|done]. simpl.
    by rewrite released_other.
  - intros i. simpl. rewrite lookup_fmap. destruct (t_inventory_items db !! i) as [row|] eqn:E;
      simpl; constructor.
    destruct (give_back_shelf id at_ db row) as [-> ->].
    destruct (give_back_amounts id at_ db i row Hok E) as (_ & Ha & Hr).
    unfold holds. by rewrite <- holding_weight.
  - change (items_of id (cancelled_db id at_ r db)) with (items_of id (stock_released id at_ db)).
    unfold stock_released. rewrite released_lines. apply Forall_fmap, Forall_true. intros i. simpl.
    by destruct (String.eqb_spec (item_reservation_status i) "reserved").
  - intros a Ha Hs. simpl. rewrite lookup_alter_eq, Ha. eexists. split; [reflexivity|].
    unfold void_authorization. by rewrite Hs.
Qed.

(** ** The handler *)

Section Handler.
Context {P : Type} (env : PgEnv) (henv : HEnv).
Context {Hjson : JsonCodec env} (Hrel : reliable env).
Hypothesis Hclock : forall n, datable (he_clock henv n).

Notation W := (HWorld Conn P).
Notation deps := (pg_worker_dependencies (P := P) env henv).

Lemma appendable_detail id next au db k v :
  appendable id next au db -> plain k && plain v = true ->
  appendable id next (set_Audit_Detail k v au) db.
Proof using Type. intros [H1 H2 H3 H4] Hkv. split; try done. simpl. by apply map_Forall_insert_2. Qed.

(** The booking the handler looks at. *)
Lemma review_required id r items db :
  orders_status r = StatusCancellationPending ->
  requiresManualReview (scan_order id r items (t_shipments db !! id)) = true <-> booked db id.
Proof using Type.
  intros Hst. unfold requiresManualReview, booked. simpl. rewrite Hst. simpl.
  destruct (t_shipments db !! id) as [sh|]; simpl.
  - destruct (String.eqb_spec (ship_status sh) ""), (String.eqb_spec (ship_status sh) "failed");
      naive_solver.
  - naive_solver.
Qed.

Lemma cancel_handler id m e (w : W) r b :
  let db := conn_db (hw_store w) in
  about id m "order.cancel_requested" e -> he_entropy henv (hw_draws w) = Some b ->
  message_id b ∉ map out_message_id (t_outbox_events db) ->
  t_orders db !! id = Some r -> orders_status r = StatusCancellationPending ->
  chk_orders_payment_status (orders_payment_status r) = true ->
  stock_ok db -> roomy db -> ~ booked db id ->
  exists at_ p row arow,
    written env (set_Event_Payload p (next_event e "order.cancelled" b at_)) row
    /\ handled (cancelOrder henv deps e) w (logged row arow (cancelled_db id at_ r db)).
Proof using All.
  intros db Hab Hb Hf Hr Hst Hpay Hok Hroom Hnb. set (at_ := he_clock henv (hw_ticks w)).
  pose proof (next_appendable henv Hclock id m _ e "order.cancelled" b (hw_ticks w) "order.cancelled"
                at_ db Hab eq_refl Hf) as Hap.
  set (order := scan_order id r (items_of id db) (t_shipments db !! id)).
  set (au := systemAudit e "order.cancelled" at_) in Hap.
  set (au1 := if hasReservedInventory order then set_Audit_Detail "stock_release" "requested" au else au).
  set (au2 := if hasAuthorizedPayment order then set_Audit_Detail "payment_void" "requested" au1 else au1).
  assert (Hap2 : appendable id (next_event e "order.cancelled" b at_) au2 db).
  { unfold au2, au1. destruct (hasReservedInventory order), (hasAuthorizedPayment order);
      repeat apply appendable_detail; done. }
  destruct (does_cancelled env Hrel e (next_event e "order.cancelled" b at_) au2 r db)
    as (p & row & arow & Hw & Hdo); rewrite ?(ab_order _ _ _ _ Hab); try done.
  exists at_, p, row, arow. split; [done|].
  assert (Hnr : requiresManualReview order = false).
  { apply not_true_iff_false. unfold order. by rewrite (review_required id r (items_of id db) db Hst). }
  unfold handled, cancelOrder, orders, bind at 1. simpl.
  rewrite (about_valid _ _ _ _ Hab). unfold bind at 1, require, ret at 1. simpl.
  unfold bind at 1. rewrite (ab_order _ _ _ _ Hab).
  destruct (in_store_does (PgStore_GetOrder env id) db order db w
              ltac:(apply does_get_order; [done|]; unfold stored_order; by rewrite Hr) eq_refl) as [n1 ->].
  change (Order_Status order) with (orders_status r). rewrite Hst. cbn [String.eqb orb].
  unfold bind at 1, Clock. simpl. fold at_. rewrite Hnr. unfold projector, bind at 1. simpl.
  unfold bind at 1.
  rewrite (next_event_run env henv e "order.cancelled" at_
             (mkHWorld (mkConn db n1) (hw_ext w) (Datatypes.S (hw_ticks w)) (hw_draws w)) b Hb).
  fold au au1 au2.
  destruct (in_store_does _ _ _ _ (mkHWorld (mkConn db n1) (hw_ext w) (Datatypes.S (hw_ticks w))
              (Datatypes.S (hw_draws w))) Hdo eq_refl) as [n Hrun].
  simpl in Hrun. simpl. rewrite Hrun. eexists. split; [reflexivity|]. simpl.
  by rewrite (ab_order _ _ _ _ Hab).
Qed.

Definition review_db (id : string) (at_ : Time) (r : OrderRow) (db : Database) : Database :=
  set_orders (<[id := set_row_status StatusManualReview at_ r]> (t_orders db)) db.

Lemma review_payload_plain at_ au :
  detail (Audit_Details au) "review_reason" = "shipment_already_created" ->
  plain_payload (OrderStatusEventPayload StatusManualReview at_ au ∅).
Proof using Type.
  intros H. unfold OrderStatusEventPayload. rewrite H. simpl. unfold put_absent.
  rewrite lookup_insert_ne, lookup_empty by done.
  apply plain_insert; [done|]. apply plain_insert; [done|apply map_Forall_empty].
Qed.

Lemma review_handler id m e (w : W) r b sh :
  let db := conn_db (hw_store w) in
  about id m "order.cancel_requested" e -> he_entropy henv (hw_draws w) = Some b ->
  message_id b ∉ map out_message_id (t_outbox_events db) ->
  t_orders db !! id = Some r -> orders_status r = StatusCancellationPending ->
  chk_orders_payment_status (orders_payment_status r) = true ->
  booked db id -> t_shipments db !! id = Some sh -> plain (ship_shipment_id sh) = true ->
  exists at_ p row arow,
    written env (set_Event_Payload p (next_event e "order.manual_review_required" b at_)) row
    /\ handled (cancelOrder henv deps e) w (logged row arow (review_db id at_ r db)).
Proof using All.
  intros db Hab Hb Hf Hr Hst Hpay Hbk Hsh Hpl. set (at_ := he_clock henv (hw_ticks w)).
  set (ty := "order.manual_review_required").
  pose proof (next_appendable henv Hclock id m _ e ty b (hw_ticks w) ty at_ db Hab eq_refl Hf) as Hap.
  set (order := scan_order id r (items_of id db) (t_shipments db !! id)).
  set (au := set_Audit_Detail "review_reason" "shipment_already_created" (systemAudit e ty at_)).
  set (au1 := if negb (String.eqb (ship_shipment_id sh) "")
              then set_Audit_Detail "shipment_id" (ship_shipment_id sh) au else au).
  assert (Hap1 : appendable id (next_event e ty b at_) au1 db).
  { unfold au1. destruct (negb _); [|by apply appendable_detail].
    apply appendable_detail; [by apply appendable_detail|]. by rewrite Hpl. }
  destruct (does_update_status env Hrel id StatusManualReview at_ (next_event e ty b at_) au1 r db Hr)
    as (o & p & row & arow & Hw & Hdo); try done.
  { by rewrite Hst. }
  { apply review_payload_plain. unfold au1, detail. destruct (negb _); simpl.
    - by rewrite lookup_insert_ne, lookup_insert_eq.
    - by rewrite lookup_insert_eq. }
  exists at_, p, row, arow. split; [done|].
  assert (Hyes : requiresManualReview order = true) by by apply review_required.
  unfold handled, cancelOrder, orders, bind at 1. simpl.
  rewrite (about_valid _ _ _ _ Hab). unfold bind at 1, require, ret at 1. simpl.
  unfold bind at 1. rewrite (ab_order _ _ _ _ Hab).
  destruct (in_store_does (PgStore_GetOrder env id) db order db w
              ltac:(apply does_get_order; [done|]; unfold stored_order; by rewrite Hr) eq_refl) as [n1 ->].
  change (Order_Status order) with (orders_status r). rewrite Hst. cbn [String.eqb orb].
  unfold bind at 1, Clock. simpl. fold at_. rewrite Hyes. unfold bind at 1. fold ty.
  rewrite (next_event_run env henv e ty at_
             (mkHWorld (mkConn db n1) (hw_ext w) (Datatypes.S (hw_ticks w)) (hw_draws w)) b Hb).
  rewrite Hsh. cbn [fmap option_fmap option_map scan_shipment Shipment_ShipmentID]. fold au au1. unfold bind at 1.
  destruct (in_store_does _ _ _ _ (mkHWorld (mkConn db n1) (hw_ext w) (Datatypes.S (hw_ticks w))
              (Datatypes.S (hw_draws w))) Hdo eq_refl) as [n Hrun].
  simpl in Hrun. simpl. rewrite Hrun. by eexists.
Qed.

End Handler.

(** ** The rounds *)

Lemma let_go_same id db db1 db2 :
  let_go id db db1 ->
  t_stock_reservations db2 = t_stock_reservations db1 -> t_inventory_items db2 = t_inventory_items db1 ->
  items_of id db2 = items_of id db1 -> t_payment_authorizations db2 = t_payment_authorizations db1 ->
  let_go id db db2.
Proof. intros [H1 H2 H3 H4 H5] E1 E2 E3 E4. by split; rewrite ?E1, ?E2, ?E3, ?E4. Qed.

(** The order a row stands for, whatever its status. *)
Lemma scan_snapshot id r r' items items' sh sh' :
  row_snapshot r' = row_snapshot r ->
  map (fun i => line_snapshot (scan_item i)) items' = map (fun i => line_snapshot (scan_item i)) items ->
  snapshot (scan_order id r' items' sh') = snapshot (scan_order id r items sh).
Proof.
  intros Hr Hi. unfold snapshot. simpl. rewrite !map_map, Hi. injection Hr as E1 E2 E3 E4 E5 E6 _ E8 E9.
  by rewrite E1, E2, E3, E4, E5, E6, E8, E9.
Qed.

Section Rounds.
Context {P : Type} (env : PgEnv) (henv : HEnv).
Variable inject : Table -> Table.
Variable clock : nat -> Time.
Variable stamp : Time.
Variable limit : Z.
Context {Hjson : JsonCodec env} {Hord : PgOrdering env}.
Hypothesis Hrel : reliable env.
Hypothesis Hclock : forall n, datable (he_clock henv n).
Hypothesis Hlimit : 0 < limit.

Notation deps := (pg_worker_dependencies (P := P) env henv).
Notation round := (round (P := P) env henv inject clock stamp limit).
Notation rounds := (rounds (P := P) env henv inject clock stamp limit).
Notation stage := (stage (P := P) env henv).

Lemma round_cancels s id m r ev :
  stage s id m "order.cancel_requested" r ev -> orders_status r = StatusCancellationPending ->
  chk_orders_payment_status (orders_payment_status r) = true ->
  stock_ok (sys_db s) -> roomy (sys_db s) -> ~ booked (sys_db s) id ->
  exists ev' at_,
    stage (round s) id m "order.cancelled" (cancelled_row at_ r) ev'
    /\ let_go id (sys_db s) (sys_db (round s))
    /\ items_of id (sys_db (round s)) = items_of id (stock_released id at_ (sys_db s)).
Proof using All.
  intros Hst Hpend Hpay Hok Hroom Hnb.
  destruct (round_handled env henv inject clock stamp limit Hrel Hclock Hlimit
              s id m "order.cancel_requested" r ev OrdersCancelQueue
              (cancelOrder henv deps) "order.cancelled"
              (fun db db' => exists at_, db' = cancelled_db id at_ r db))
    as (ev' & old & row & arow & db' & (at_ & ->) & Hdb & Hnext);
    [done|vm_compute; reflexivity|reflexivity| |].
  { intros e w old b Hab Hdb Hb Hnew.
    destruct (cancel_handler env henv Hrel Hclock id m e w r b) as (at_ & p & row & arow & Hw & Hh);
      rewrite ?Hdb; try done.
    - apply Hst.
    - by apply (stock_frame (sys_db s)).
    - exists at_, p, row, arow. eexists. split_and!; [done|exact Hh| |by rewrite Hdb; eauto].
      by rewrite Hdb. }
  exists ev', at_. split_and!.
  - apply Hnext. simpl. apply lookup_insert_eq.
  - rewrite Hdb. by apply (let_go_same _ _ _ _ (cancelled_let_go id at_ r (sys_db s) Hok)).
  - by rewrite Hdb.
Qed.

Lemma round_reviews s id m r ev :
  stage s id m "order.cancel_requested" r ev -> orders_status r = StatusCancellationPending ->
  chk_orders_payment_status (orders_payment_status r) = true -> booked (sys_db s) id ->
  map_Forall (fun _ sh => plain (ship_shipment_id sh) = true) (t_shipments (sys_db s)) ->
  exists ev' at_,
    stage (round s) id m "order.manual_review_required" (set_row_status StatusManualReview at_ r) ev'
    /\ kept id (sys_db s) (sys_db (round s)).
Proof using All.
  intros Hst Hpend Hpay Hbk Hpl. pose proof Hbk as (sh & Hsh & _).
  destruct (round_handled env henv inject clock stamp limit Hrel Hclock Hlimit
              s id m "order.cancel_requested" r ev OrdersCancelQueue
              (cancelOrder henv deps) "order.manual_review_required"
              (fun db db' => exists at_, db' = review_db id at_ r db))
    as (ev' & old & row & arow & db' & (at_ & ->) & Hdb & Hnext);
    [done|vm_compute; reflexivity|reflexivity| |].
  { intros e w old b Hab Hdb Hb Hnew.
    destruct (review_handler env henv Hrel Hclock id m e w r b sh) as (at_ & p & row & arow & Hw & Hh);
      rewrite ?Hdb; try done.
    - apply Hst.
    - by apply (Hpl id).
    - exists at_, p, row, arow. eexists. split_and!; [done|exact Hh| |by rewrite Hdb; eauto].
      by rewrite Hdb. }
  exists ev', at_. split; [apply Hnext; simpl; apply lookup_insert_eq|]. rewrite Hdb. by split.
Qed.

(** *** An accepted request *)

Lemma status_accepted id st now ev au c o c' :
  let ev1 := set_Event_Payload (OrderStatusEventPayload st now au (Event_Payload ev)) ev in
  encodable ev1 -> PgStore_UpdateOrderStatus env id st now ev au c = (Ok o, c') ->
  exists r row audits,
    t_orders (conn_db c) !! id = Some r /\ written env ev1 row
    /\ Event_MessageID ev ∉ map out_message_id (t_outbox_events (conn_db c))
    /\ conn_db c'
       = set_audit_logs audits (set_outbox_events (t_outbox_events (conn_db c) ++ [row])
           (set_orders (<[id := set_row_status st now r]> (t_orders (conn_db c))) (conn_db c))).
Proof using Hjson.
  intros ev1 Hen (lab & c2 & H & ->)%transaction_ok_inv.
  apply bind_ok_inv in H as (u1 & s1 & [E1 _]%lock_and_validate_ok & H). simpl in E1.
  apply bind_ok_inv in H as (u2 & s2 & (r & Hr & E2)%status_run & H). rewrite E1 in Hr, E2.
  apply bind_ok_inv in H as (u3 & s3 & (row & Hw & E3 & Hf)%(outbox_written _ _ _ _ _ Hen) & H).
  apply bind_ok_inv in H as (u4 & s4 & [d E4]%audit_run & H).
  apply bind_ok_inv in H as (o1 & s5 & [E5 _]%get_order_ok & H). injection H as _ _ <-.
  exists r, row. eexists. rewrite E5, E4, E3, E2 in *. by split_and!.
Qed.

(** The two rounds, from the request that waits in the outbox. *)
Lemma two_rounds s id m r ev :
  stage s id m "order.cancel_requested" r ev -> orders_status r = StatusCancellationPending ->
  chk_orders_payment_status (orders_payment_status r) = true ->
  stock_ok (sys_db s) -> roomy (sys_db s) ->
  map_Forall (fun _ sh => plain (ship_shipment_id sh) = true) (t_shipments (sys_db s)) ->
  let s' := rounds 2 s in
  quiet s'
  /\ exists o o', stored_order (sys_db s) id = Some o /\ stored_order (sys_db s') id = Some o'
       /\ snapshot o' = snapshot o
       /\ (booked (sys_db s) id ->
             Order_Status o' = StatusManualReview /\ kept id (sys_db s) (sys_db s')
             /\ notified s' "order.manual_review_required" id)
       /\ (~ booked (sys_db s) id ->
             Order_Status o' = StatusCancelled /\ let_go id (sys_db s) (sys_db s')
             /\ notified s' "order.cancelled" id).
Proof using All.
  intros Hst Hpend Hpay Hok Hroom Hpl. unfold rounds. simpl Nat.iter.
  set (o := scan_order id r (items_of id (sys_db s)) (t_shipments (sys_db s) !! id)).
  assert (Ho : stored_order (sys_db s) id = Some o)
    by (unfold stored_order; by rewrite (sg_order _ _ _ _ _ _ _ _ Hst)).
  assert (Hdec : Decision (booked (sys_db s) id)).
  { unfold booked. destruct (t_shipments (sys_db s) !! id) as [sh|]; [|right; naive_solver].
    destruct (decide (ship_status sh <> "" /\ ship_status sh <> "failed")); [left|right]; naive_solver. }
  destruct Hdec as [Hbk|Hnb].
  - destruct (round_reviews s id m r ev Hst Hpend Hpay Hbk Hpl) as (ev1 & at_ & S1 & [K1 K2 K3 K4 K5]).
    destruct (round_notifies env henv inject clock stamp limit Hrel Hclock Hlimit _ id m _ _ ev1 S1)
      as (Hq & Ho2 & I2 & Sh2 & R2 & V2 & A2 & Hn); [reflexivity|vm_compute; reflexivity|].
    split; [done|]. exists o. eexists. split_and!; [done| |apply scan_snapshot; [|reflexivity]|..].
    + unfold stored_order. rewrite Ho2, (sg_order _ _ _ _ _ _ _ _ S1), I2, K3. reflexivity.
    + done.
    + intros _. split_and!; [done| |done]. split; congruence.
    + done.
  - destruct (round_cancels s id m r ev Hst Hpend Hpay Hok Hroom Hnb) as (ev1 & at_ & S1 & L1 & I1).
    destruct (round_notifies env henv inject clock stamp limit Hrel Hclock Hlimit _ id m _ _ ev1 S1)
      as (Hq & Ho2 & I2 & Sh2 & R2 & V2 & A2 & Hn); [reflexivity|vm_compute; reflexivity|].
    split; [done|]. exists o. eexists. split_and!; [done| |apply scan_snapshot|..].
    + unfold stored_order. rewrite Ho2, (sg_order _ _ _ _ _ _ _ _ S1), I2, I1. reflexivity.
    + unfold cancelled_row, void_row. by case_bool_decide.
    + unfold stock_released. rewrite released_lines, map_map. apply map_ext. intros i.
      by destruct (String.eqb (item_reservation_status i) "reserved").
    + done.
    + intros _. split_and!; [|by eapply let_go_same|done].
      apply (void_row_released (set_row_status StatusCancelled at_ r)).
Qed.

(** C13: an accepted cancel request is resolved by the running system.  Once the
    store has moved an order to [cancellation_pending] with its event, and nothing
    else waits in the outbox or in the broker, two rounds of relay and workers
    take the request through the broker.  An order with a booking at the carrier
    that has not failed ends in manual review and keeps its stock, its payment and
    its shipment; any other order ends cancelled and holds nothing: its reservations
    and lines are released, each shelf has got back exactly what the order held of
    it, its authorization is voided, and other orders lose nothing.  Everything else
    of the order is as it was, the e-mail about the outcome is queued, every event
    is published and the broker is empty.  Asked of the outside: no call fails,
    identifiers drawn are new, texts are plain enough for JSON, and the stock
    fits its columns. *)
Theorem accepted_cancel_resolved id m now ev au c c' o inbox ext ticks draws log t :
  let ev1 := set_Event_Payload
               (OrderStatusEventPayload StatusCancellationPending now au (Event_Payload ev)) ev in
  PgStore_UpdateOrderStatus env id StatusCancellationPending now ev au c = (Ok o, c') ->
  schema_ok (conn_db c) -> stock_ok (conn_db c) -> roomy (conn_db c) ->
  map_Forall (fun _ sh => plain (ship_shipment_id sh) = true) (t_shipments (conn_db c)) ->
  Forall (fun r => row_pending r = false) (t_outbox_events (conn_db c)) ->
  identified id m "order.cancel_requested" ev -> encodable ev1 ->
  (forall consumer, t_inbox_messages (conn_db inbox) !! (consumer, Event_MessageID ev) = None) ->
  fresh_ids henv draws (t_outbox_events (conn_db c')) (t_inbox_messages (conn_db inbox)) ->
  let s := rounds 2 (mkSystem (mkWorld inbox (mkHWorld c' ext ticks draws) [] log) t) in
  quiet s
  /\ exists o0 o2, stored_order (conn_db c) id = Some o0 /\ stored_order (sys_db s) id = Some o2
       /\ snapshot o2 = snapshot o0
       /\ (booked (conn_db c) id ->
             Order_Status o2 = StatusManualReview /\ kept id (conn_db c) (sys_db s)
             /\ notified s "order.manual_review_required" id)
       /\ (~ booked (conn_db c) id ->
             Order_Status o2 = StatusCancelled /\ let_go id (conn_db c) (sys_db s)
             /\ notified s "order.cancelled" id).
Proof using All.
  intros ev1 Hacc Hschema Hok Hroom Hpl Hpub Hev Hen Hin Hfr. set (s0 := mkSystem _ _).
  destruct (status_accepted _ _ _ _ _ _ _ _ Hen Hacc) as (r & row & audits & Hr & Hw & Hnew & E).
  assert (Hst : stage s0 id m "order.cancel_requested" (set_row_status StatusCancellationPending now r) ev1).
  { split; try done.
    - unfold sys_db. simpl. rewrite E. simpl. apply lookup_insert_eq.
    - exists (t_outbox_events (conn_db c)), row. split; [|done].
      pose proof Hw as [(stored & Erow) _]. split; [|done|..].
      + unfold sys_db. simpl. by rewrite E.
      + replace (out_message_id row) with (Event_MessageID ev); [done|]. rewrite Erow. symmetry.
        exact (proj1 (envelope_fields ev1)).
      + by rewrite Erow.
      + by rewrite Erow.
    - destruct Hev. by split. }
  destruct (two_rounds s0 id m _ ev1 Hst) as (Hq & o1 & o2 & Ho1 & Ho2 & Hsnap & Hbk & Hnb); try done.
  - apply (or_payment _ _ (so_orders _ Hschema _ _ Hr)).
  - apply (stock_frame (conn_db c)); [..|done]; unfold sys_db; simpl; by rewrite E.
  - unfold sys_db, roomy. simpl. by rewrite E.
  - unfold sys_db. simpl. by rewrite E.
  - change (sys_db s0) with (conn_db c') in *. split; [done|].
    exists (scan_order id r (items_of id (conn_db c)) (t_shipments (conn_db c) !! id)), o2.
    unfold stored_order in Ho1. rewrite E in Ho1. simpl in Ho1. rewrite lookup_insert_eq in Ho1.
    injection Ho1 as Ho1. split_and!; [unfold stored_order; by rewrite Hr|done|..].
    + rewrite Hsnap, <- Ho1. by apply scan_snapshot.
    + intros Hb. destruct Hbk as (H1 & [K1 K2 K3 K4 K5] & H3); [by rewrite E|].
      rewrite E in K1, K2, K3, K4, K5. by split_and!.
    + intros Hb. destruct Hnb as (H1 & [L1 L2 L3 L4 L5] & H3); [by rewrite E|].
      rewrite E in L2, L3, L5. by split_and!.
Qed.

End Rounds.
