(* ===== verification/PipelineSamples.v ===== *)
(** A concrete system for the theorems of [Pipeline] and [Cancellation]: a codec
    that keeps the envelope and the payload keys, a server, a source of
    identifiers, the catalogue with its ten chairs, an order that is fulfilled and
    one that is cancelled after its payment. *)
From stdpp Require Import sorting pretty countable.
From S2P Require Import Prelude GoStrings GoStringsFacts GoTime Model StateMachine.
From S2P Require Import MemoryInvariant MemoryQueries Topology Amqp Consumer Relay Handlers Providers.
From S2P Require Import Saga Database PgStore PgAtomic PgStock PgOrders PgOutbox PgSamples PgSchema.
From S2P Require Import PgTotal RelayProcess WorkerProcess PgSaga Pipeline Cancellation.

(** ** A codec *)

(** A number as text, and back. *)
Fixpoint bits (p : positive) : string :=
  match p with
  | xH => "."
  | xO p => String "0" (bits p)
  | xI p => String "1" (bits p)
  end.

Fixpoint unbits (s : string) : option positive :=
  match s with
  | EmptyString => None
  | String c s =>
      if Ascii.eqb c "." then Some xH
      else if Ascii.eqb c "0" then xO <$> unbits s
      else xI <$> unbits s
  end.

Lemma unbits_bits p : unbits (bits p) = Some p.
Proof. induction p as [p IH|p IH|]; simpl; [by rewrite IH..|done]. Qed.

Notation Fields := (string * string * Z * Z * string * string * string * string * string * list string)%type.

Definition fields_of (e : OutboxEvent) : Fields :=
  (Event_MessageID e, Event_EventType e, Event_SchemaVersion e, Event_OccurredAt e, Event_Producer e,
   Event_MerchantID e, Event_OrderID e, Event_CorrelationID e, Event_CausationID e,
   map fst (map_to_list (Event_Payload e))).

Definition event_of_fields (f : Fields) : OutboxEvent :=
  let '(id, ty, version, at_, producer, m, o, cor, cau, keys) := f in
  mkOutboxEvent id ty version at_ producer m o cor cau
    (list_to_map (map (fun k => (k, AStr "")) keys)).

Definition sample_marshal (e : OutboxEvent) : result string := Ok (bits (encode (fields_of e))).

Definition sample_unmarshal (s : string) : result OutboxEvent :=
  match unbits s with
  | Some p => match decode p with
              | Some f => Ok (event_of_fields f)
              | None => Err (Text "invalid character")
              end
  | None => Err (Text "unexpected end of JSON input")
  end.

Lemma keys_lookup (p : gmap string any) k v :
  (list_to_map (map (fun k => (k, AStr "")) (map fst (map_to_list p))) : gmap string any) !! k = Some v ->
  v = AStr "" /\ is_Some (p !! k).
Proof.
  intros H%elem_of_list_to_map_2. apply list_elem_of_fmap in H as (k' & [= -> ->] & Hk).
  apply list_elem_of_fmap in Hk as ([k1 v1] & -> & Hin%elem_of_map_to_list). by split; [|eexists].
Qed.

Lemma keys_dom (p : gmap string any) :
  dom (list_to_map (map (fun k => (k, AStr "")) (map fst (map_to_list p))) : gmap string any) = dom p.
Proof.
  rewrite dom_list_to_map_L, map_map. simpl. rewrite map_id. apply set_eq. intros k.
  rewrite elem_of_list_to_set, elem_of_dom, list_elem_of_fmap. split.
  - intros ([k' v] & -> & H%elem_of_map_to_list). by eexists.
  - intros [v H]. exists (k, v). by rewrite elem_of_map_to_list.
Qed.

Lemma sample_reads e :
  sample_unmarshal (bits (encode (fields_of e))) = Ok (event_of_fields (fields_of e)).
Proof. unfold sample_unmarshal. by rewrite unbits_bits, decode_encode. Qed.

Lemma sample_envelope e :
  same_envelope e (event_of_fields (fields_of e))
  /\ (encodable e -> encodable (event_of_fields (fields_of e))).
Proof.
  split; [split; try done; apply keys_dom|]. intros [Ht Htime Hp]. split; [done..|].
  intros k v [-> [x Hx]]%keys_lookup. specialize (Hp k x Hx). by apply andb_true_iff in Hp as [-> _].
Qed.

(** ** A server and a source of identifiers *)

Definition json_sample : PgEnv :=
  mkPgEnv (fun _ => None) (fun n => time_Unix 1780056000 + Z.of_nat n * second)
    (fun code constraint => code +:+ " " +:+ constraint)
    (merge_sort older) reverse sample_marshal sample_unmarshal
    (fun _ => Ok "{}") (fun _ => Ok ∅) (fun p => Ok p).

#[export] Instance json_sample_ordering : PgOrdering json_sample.
Proof. split; apply pg_sample_ordering. Qed.

#[export] Instance json_sample_codec : JsonCodec json_sample.
Proof.
  split; [|by intros d _; do 2 eexists].
  intros e He. destruct (sample_envelope e) as [Hs Hen]. do 2 eexists. split_and!; [reflexivity..| | |].
  - by destruct (encode (fields_of e)).
  - eexists. split; [apply sample_reads|auto].
  - eexists. split; [apply sample_reads|auto].
Qed.

Definition counting_henv : HEnv :=
  mkHEnv (fun _ => time_Unix 1780056000) (fun n => Some (pretty n)).

Lemma counting_clock n : datable (he_clock counting_henv n).
Proof. split; vm_compute; congruence. Qed.

(** An identifier with a single digit is not made of drawn bytes. *)
Definition short_id (r : OutboxRow) : Prop :=
  exists d, out_message_id r = String "m" (String "s" (String "g" (String "_" (String d "")))).

Lemma counting_fresh k rows :
  Forall short_id rows -> fresh_ids counting_henv k rows ∅.
Proof.
  intros Hrows. split.
  - intros i _. eexists. split_and!; [reflexivity| |by intros; apply lookup_empty].
    intros (r & E & Hr)%list_elem_of_fmap. rewrite Forall_forall in Hrows. specialize (Hrows r Hr).
    destruct Hrows as [d Hd]. rewrite Hd in E.
    assert (hex_encode (pretty i) = String d "") as Ed by (by injection E).
    apply (f_equal hex_decode) in Ed. by rewrite hex_roundtrip in Ed.
  - intros i j b _ _ [= <-] [= E]. by apply (inj pretty) in E.
Qed.

(** ** The order *)

Definition first_event : OutboxEvent := pg_event "msg_1" "order.created".

Lemma first_encodable : encodable first_event.
Proof. split; [by repeat constructor|split; vm_compute; congruence|apply map_Forall_empty]. Qed.

Lemma first_identified : identified "ord_1" "mer_1" "order.created" first_event.
Proof. by split; [..|right]. Qed.

Definition sample_payment : Payment :=
  match Order_Payment sample_order with Some p => p | None => mkPayment "" "" "" "" end.

Lemma catalogue_fake : fake_bookings catalogue.
Proof. split; apply map_Forall_empty. Qed.

Lemma sample_deliverable : deliverable "mer_1" catalogue sample_order sample_payment.
Proof.
  split; try done.
  - repeat constructor.
    + exists 1, chairs. split; [reflexivity|vm_compute; reflexivity].
    + intros k row H _. apply (lookup_singleton_Some 1 k chairs row) in H as [_ <-].
      vm_compute. reflexivity.
  - by repeat constructor.
  - apply map_Forall_singleton. done.
Qed.

Definition submitted := PgStore_InsertOrder json_sample "mer_1" "idem-key-0001" sample_order
                          first_event pg_audit pg_start.

Lemma submitted_accepted :
  match fst submitted with Ok (Some _, false) => true | _ => false end = true.
Proof. vm_compute. reflexivity. Qed.

(** The system right after the submission. *)
Definition sample_system (c : Conn) : System unit :=
  mkSystem (mkWorld (mkConn catalogue 0) (mkHWorld c tt 0%nat 0%nat) [] []) 0%nat.

Definition sample_rounds (n : nat) : System unit :=
  rounds json_sample counting_henv (fun h => h) (fun _ => time_Unix 1780056000) 0 10 n
    (sample_system (snd submitted)).

(** The statuses the order goes through, round by round. *)
Example statuses_by_round :
  map (fun n => orders_status <$> t_orders (sys_db (sample_rounds n)) !! "ord_1") [0; 1; 2; 3; 4; 5]%nat
  = map Some [StatusPendingFulfillment; StatusInventoryReserved; StatusPaymentAuthorized;
              StatusShipmentCreated; StatusCompleted; StatusCompleted].
Proof. vm_compute. reflexivity. Qed.

Lemma accepted_order_fulfilled_witness :
  quiet (sample_rounds 5)
  /\ (exists o, stored_order (sys_db (sample_rounds 5)) "ord_1" = Some o /\ fulfilled sample_order o)
  /\ notified (sample_rounds 5) "order.completed" "ord_1".
Proof.
  pose proof submitted_accepted as Hf. unfold sample_rounds.
  destruct submitted as [[[[o|] []]|] c'] eqn:H; try discriminate Hf.
  destruct (insert_order_effect json_sample _ _ _ _ _ _ _ _ first_encodable H)
    as (v & keys & audits & cur & row & _ & _ & [(stored & Erow) _] & _ & E).
  assert (Hrows : Forall short_id (t_outbox_events (conn_db c')))
    by (rewrite E, Erow; repeat constructor; by eexists).
  exact (accepted_order_fulfilled json_sample counting_henv (fun h => h)
           (fun _ => time_Unix 1780056000) 0 10 pg_sample_reliable counting_clock eq_refl
           "mer_1" "idem-key-0001" sample_order sample_payment first_event pg_audit pg_start c' o
           (mkConn catalogue 0) tt 0%nat 0%nat [] 0%nat H catalogue_schema catalogue_fake
           (Forall_nil_2 _) sample_storable sample_deliverable first_identified first_encodable
           (fun consumer => lookup_empty _) (counting_fresh 0 _ Hrows)).
Defined.

(** ** A cancellation *)

Definition paid_ops : list PgOp :=
  [pg_insert; pg_reserve;
   PgAuthorized (pg_event "msg_2" "inventory.reserved") (pg_event "msg_3" "payment.authorized")
     (mkPayment "fake-payment" "authorized" "pay_fake_ord_1" "tok_1") pg_audit;
   PgPublished "msg_1" 1000; PgPublished "msg_2" 1000; PgPublished "msg_3" 1000].

(** Two chairs are reserved, the payment is authorized, all events are out. *)
Definition paid : Conn := pg_runs json_sample paid_ops pg_start.

Example paid_holds :
  (orders_status <$> t_orders (conn_db paid) !! "ord_1", shelf paid,
   auth_status <$> t_payment_authorizations (conn_db paid) !! "ord_1",
   map out_message_id (filter (fun r => row_pending r = true) (t_outbox_events (conn_db paid))))
  = (Some StatusPaymentAuthorized, Some (8, 2), Some "authorized", []).
Proof. vm_compute. reflexivity. Qed.

Definition cancel_event : OutboxEvent := pg_event "msg_4" "order.cancel_requested".

Definition cancel_requested :=
  PgStore_UpdateOrderStatus json_sample "ord_1" StatusCancellationPending 1000 cancel_event pg_audit paid.

Definition cancel_rounds (n : nat) : System unit :=
  rounds json_sample counting_henv (fun h => h) (fun _ => time_Unix 1780056000) 0 10 n
    (sample_system (snd cancel_requested)).

Example cancelled_after_one :
  let db := sys_db (cancel_rounds 1) in
  (orders_status <$> t_orders db !! "ord_1",
   (fun r => (inv_available_quantity r, inv_reserved_quantity r)) <$> t_inventory_items db !! 1,
   auth_status <$> t_payment_authorizations db !! "ord_1")
  = (Some StatusCancelled, Some (10, 0), Some "voided").
Proof. vm_compute. reflexivity. Qed.

(** With a booking at the carrier the same request ends in manual review. *)
Example reviewed_after_one :
  let shipped := pg_runs json_sample
        [PgShipped (pg_event "msg_3" "payment.authorized") (pg_event "msg_5" "shipment.created")
           (mkShipment "shp_1" "created" "fake-carrier" "TRACK-1" []) pg_audit; PgPublished "msg_5" 1000] paid in
  let c := snd (PgStore_UpdateOrderStatus json_sample "ord_1" StatusCancellationPending 1000 cancel_event
                  pg_audit shipped) in
  let db := sys_db (rounds json_sample counting_henv (fun h => h) (fun _ => time_Unix 1780056000) 0 10 1
                      (sample_system c)) in
  (orders_status <$> t_orders db !! "ord_1",
   (fun r => (inv_available_quantity r, inv_reserved_quantity r)) <$> t_inventory_items db !! 1)
  = (Some StatusManualReview, Some (8, 2)).
Proof. vm_compute. reflexivity. Qed.

Lemma paid_stock : stock_ok (conn_db paid) /\ roomy (conn_db paid).
Proof.
  destruct (stock_runs json_sample paid_ops pg_start catalogue_stock) as [Hok Hkept].
  split; [exact Hok|]. intros k row Hk. specialize (Hkept k). unfold paid in Hk. rewrite Hk in Hkept.
  change (t_inventory_items (conn_db pg_start)) with ({[1 := chairs]} : gmap Z InventoryRow) in Hkept.
  destruct ({[1 := chairs]} !! k) as [x|] eqn:E; [|inversion Hkept].
  apply lookup_singleton_Some in E as [_ <-]. inversion Hkept as [? ? (_ & _ & Hs)|]. subst.
  rewrite Hs. reflexivity.
Qed.

Lemma paid_published : Forall (fun r => row_pending r = false) (t_outbox_events (conn_db paid)).
Proof.
  assert (forallb (fun r => negb (row_pending r)) (t_outbox_events (conn_db paid)) = true) as H
    by (vm_compute; reflexivity).
  rewrite forallb_forall in H. apply Forall_forall. intros r Hr%list_elem_of_In%H. by apply negb_true_iff.
Qed.

Lemma paid_unshipped : t_shipments (conn_db paid) = ∅.
Proof. vm_compute. reflexivity. Qed.

Lemma cancel_encodable :
  encodable (set_Event_Payload
    (OrderStatusEventPayload StatusCancellationPending 1000 pg_audit (Event_Payload cancel_event)) cancel_event).
Proof.
  split; [by repeat constructor|split; vm_compute; congruence|].
  change (plain_payload (OrderStatusEventPayload StatusCancellationPending 1000 pg_audit ∅)).
  unfold OrderStatusEventPayload. simpl. unfold put_absent.
  rewrite (lookup_insert_ne _ "order_status"), lookup_empty by done.
  rewrite !lookup_insert_ne, lookup_empty by done.
  repeat (apply plain_insert; [reflexivity|]). apply map_Forall_empty.
Qed.

Lemma cancel_short : Forall short_id (t_outbox_events (conn_db (snd cancel_requested))).
Proof.
  assert (map out_message_id (t_outbox_events (conn_db (snd cancel_requested)))
          = ["msg_1"; "msg_2"; "msg_3"; "msg_4"]) as H by (vm_compute; reflexivity).
  apply Forall_forall. intros r Hr%(list_elem_of_fmap_2 out_message_id). unfold short_id.
  change (out_message_id <$> t_outbox_events (conn_db (snd cancel_requested)))
    with (map out_message_id (t_outbox_events (conn_db (snd cancel_requested)))) in Hr.
  rewrite H in Hr. set_unfold in Hr. destruct Hr as [-> |[-> |[-> |[-> |[]]]]]; by eexists.
Qed.

Lemma cancel_accepted : is_ok (fst cancel_requested) = true.
Proof. vm_compute. reflexivity. Qed.

Lemma accepted_cancel_resolved_witness :
  quiet (cancel_rounds 2)
  /\ exists o, stored_order (sys_db (cancel_rounds 2)) "ord_1" = Some o
       /\ Order_Status o = StatusCancelled
       /\ let_go "ord_1" (conn_db paid) (sys_db (cancel_rounds 2))
       /\ notified (cancel_rounds 2) "order.cancelled" "ord_1".
Proof.
  pose proof cancel_accepted as Hf. pose proof cancel_short as Hshort.
  unfold cancel_rounds, sample_system. destruct cancel_requested as [[o|] c'] eqn:H; [|discriminate Hf].
  destruct (accepted_cancel_resolved json_sample counting_henv (fun h => h)
              (fun _ => time_Unix 1780056000) 0 10 pg_sample_reliable counting_clock eq_refl
              "ord_1" "mer_1" 1000 cancel_event pg_audit paid c' o (mkConn catalogue 0) tt 0%nat 0%nat
              [] 0%nat H (schema_runs json_sample paid_ops pg_start catalogue_schema)
              (proj1 paid_stock) (proj2 paid_stock)) as (Hq & o0 & o2 & _ & Ho2 & _ & _ & Hnb).
  - rewrite paid_unshipped. apply map_Forall_empty.
  - exact paid_published.
  - by split; [..|right].
  - exact cancel_encodable.
  - intros consumer. apply lookup_empty.
  - exact (counting_fresh 0 _ Hshort).
  - split; [exact Hq|]. exists o2. split; [exact Ho2|]. apply Hnb.
    intros (sh & Hsh & _). rewrite paid_unshipped in Hsh. by apply lookup_empty_Some in Hsh.
Defined.
